(** * Multi-tenant gateway core: a shallow embedding and its properties

    The development follows the TypeScript sources of the multi-tenant
    gateway: the tenant path layer ([sanitizeUserId], [getUserWorkspacePath]),
    the layered workspace file resolver ([readWorkspaceFile]), the tenant
    manager ([MultiTenantGatewayManager]) and the configuration synchronizer
    ([ConfigSyncService]); around them the agent context and the tenant run
    ([resolveMultiTenantContext], [runAgentAutoMode]), the gateway tokens of
    a connection ([extractGatewayToken],
    [authorizeGatewayConnectMultiTenant]), the monitor, the workspace setup
    paths and the cache of the global configuration.

    Conventions of the embedding.
    - A JavaScript string is the list of its UTF-16 code units ([jsstring]);
      [js] turns a literal into such a list.
    - A JavaScript number that holds a count or a millisecond timestamp is an
      integer of [Z].
    - An exception is an explicit [Throw] outcome of a [completion].
    - [Date.now()], the answer of the cloud backend and the outcome of disk
      operations are arguments of the operation that consults them.
    - Every manager method is one atomic transition; event listeners and the
      logger are observers whose calls are recorded in a trace. *)

From Stdlib Require Import ZArith NArith List Bool Lia String Ascii.
From stdpp Require Import base option list gmap.
Import ListNotations.

Local Open Scope Z_scope.

(* ------------------------------------------------------------------ *)
(** ** JavaScript strings *)

Abbreviation jsstring := (list N).

Module JsStr.

Fixpoint js (s : string) : jsstring :=
  match s with
  | EmptyString => []
  | String c r => N_of_ascii c :: js r
  end.

Definition DOT : N := 46.
Definition SLASH : N := 47.
Definition BACKSLASH : N := 92.
Definition UNDERSCORE : N := 95.

Definition is_dot (c : N) : bool := N.eqb c DOT.

(** The character class [[/\\]]. *)
Definition is_separator (c : N) : bool := N.eqb c SLASH || N.eqb c BACKSLASH.

(** The character class [[a-zA-Z0-9_-]]. *)
Definition is_id_char (c : N) : bool :=
  (N.leb 97 c && N.leb c 122) || (N.leb 65 c && N.leb c 90)
  || (N.leb 48 c && N.leb c 57) || N.eqb c 95 || N.eqb c 45.

(** [l.join(sep)] *)
Fixpoint intercalate (sep : jsstring) (l : list jsstring) : jsstring :=
  match l with
  | [] => []
  | [x] => x
  | x :: r => x ++ sep ++ intercalate sep r
  end.

(** JavaScript truthiness of a string. *)
Definition truthy (s : jsstring) : bool :=
  match s with [] => false | _ => true end.

End JsStr.
Import JsStr.

(* ------------------------------------------------------------------ *)
(** ** Completions: a value or a thrown error *)

Inductive JsError :=
| InvalidUserIdEmpty     (* "Invalid user ID: cannot be empty after sanitization" *)
| InvalidUserIdTooLong   (* "Invalid user ID: too long (max 128 characters)" *)
| IOFault                (* any file system error other than ENOENT *)
| InvalidArg             (* node:fs refuses an argument: a path with a null byte, data that is no string *)
| InvalidUrlError        (* [new URL] rejects its argument *)
| FetchFailure           (* [fetch] rejects: network failure, timeout *)
| BodyFailure.           (* [response.json()] rejects *)

Inductive completion (A : Type) :=
| Return (a : A)
| Throw (e : JsError).
Arguments Return {A} a.
Arguments Throw {A} e.

Definition bindC {A B} (c : completion A) (k : A -> completion B) : completion B :=
  match c with
  | Return a => k a
  | Throw e => Throw e
  end.

Notation "x <- c ;;; k" := (bindC c (fun x => k))
  (at level 100, c at next level, right associativity).

Definition throws {A} (c : completion A) : Prop :=
  match c with Throw _ => True | Return _ => False end.

(* ------------------------------------------------------------------ *)
(** ** node:path (POSIX flavour) *)

Module Path.

(** Segments of a path between ['/'] characters. *)
Fixpoint split_slash (p : jsstring) : list jsstring :=
  match p with
  | [] => [[]]
  | c :: r =>
      if N.eqb c SLASH then [] :: split_slash r
      else match split_slash r with
           | [] => [[c]]
           | s :: t => (c :: s) :: t
           end
  end.

(** One step of [normalizeString]: the stack of kept segments after the
    next segment.  Empty and ["."] segments are skipped; [".."] drops the
    last kept segment, or is kept itself when nothing can be dropped and
    the path is relative. *)
Definition push_segment (allowAboveRoot : bool) (st : list jsstring) (seg : jsstring)
  : list jsstring :=
  if decide (seg = []) then st
  else if decide (seg = [DOT]) then st
  else if decide (seg = [DOT; DOT]) then
    match last st with
    | Some top =>
        if decide (top = [DOT; DOT])
        then (if allowAboveRoot then st ++ [seg] else st)
        else removelast st
    | None => if allowAboveRoot then st ++ [seg] else st
    end
  else st ++ [seg].

Definition normalizeString (p : jsstring) (allowAboveRoot : bool) : jsstring :=
  intercalate [SLASH] (fold_left (push_segment allowAboveRoot) (split_slash p) []).

Definition isAbsolute (p : jsstring) : bool :=
  match p with c :: _ => N.eqb c SLASH | [] => false end.

Definition trailingSeparator (p : jsstring) : bool :=
  match last p with Some c => N.eqb c SLASH | None => false end.

(** [path.normalize] *)
Definition normalize (p : jsstring) : jsstring :=
  match p with
  | [] => [DOT]
  | _ =>
      let path := normalizeString p (negb (isAbsolute p)) in
      match path with
      | [] =>
          if isAbsolute p then [SLASH]
          else if trailingSeparator p then [DOT; SLASH] else [DOT]
      | _ =>
          let path := if trailingSeparator p then path ++ [SLASH] else path in
          if isAbsolute p then SLASH :: path else path
      end
  end.

(** [path.join(...parts)] *)
Definition join (parts : list jsstring) : jsstring :=
  match filter (fun s => s ≠ []) parts with
  | [] => [DOT]
  | kept => normalize (intercalate [SLASH] kept)
  end.

Fixpoint strip_trailing_slashes (rev_p : jsstring) : jsstring :=
  match rev_p with
  | c :: r => if N.eqb c SLASH then strip_trailing_slashes r else rev_p
  | [] => []
  end.

Fixpoint take_until_slash (rev_p : jsstring) : jsstring :=
  match rev_p with
  | c :: r => if N.eqb c SLASH then [] else c :: take_until_slash r
  | [] => []
  end.

(** [path.basename(p)]: the last segment, ignoring trailing slashes. *)
Definition basename (p : jsstring) : jsstring :=
  rev (take_until_slash (strip_trailing_slashes (rev p))).

(** A path component that [normalizeString] keeps as it is: not empty,
    without ['/'], and neither ["."] nor [".."]. *)
Definition plain (x : jsstring) : Prop :=
  x <> [] /\ Forall (fun c => c <> SLASH) x /\ x <> [DOT] /\ x <> [DOT; DOT].

End Path.

(* ------------------------------------------------------------------ *)
(** ** Tenant paths (config/multi-tenant.ts) *)

Module TenantPaths.

(** [.replace(/\.\./g, "")]: pairs of dots are deleted, scanning from the
    left without overlap. *)
Fixpoint remove_dotdot (s : jsstring) : jsstring :=
  match s with
  | a :: ((b :: r) as t) =>
      if is_dot a && is_dot b then remove_dotdot r else a :: remove_dotdot t
  | _ => s
  end.

(** [.replace(/[/\\]/g, "")] *)
Definition remove_separators (s : jsstring) : jsstring :=
  List.filter (fun c => negb (is_separator c)) s.

(** [.replace(/[^a-zA-Z0-9_-]/g, "_")] *)
Definition replace_disallowed (s : jsstring) : jsstring :=
  List.map (fun c => if is_id_char c then c else UNDERSCORE) s.

Definition sanitized (userId : jsstring) : jsstring :=
  replace_disallowed (remove_separators (remove_dotdot userId)).

Definition sanitizeUserId (userId : jsstring) : completion jsstring :=
  let s := sanitized userId in
  if negb (truthy s) || (length s =? 0)%nat then Throw InvalidUserIdEmpty
  else if (128 <? length s)%nat then Throw InvalidUserIdTooLong
  else Return s.

Section Roots.
(** [getMultiTenantWorkspaceRoot()] and [getMultiTenantConfigRoot()]:
    values of the global configuration. *)
Variable workspaceRoot : jsstring.
Variable configRoot : jsstring.

Definition getUserConfigPath (userId : jsstring) : completion jsstring :=
  safeUserId <- sanitizeUserId userId ;;;
  Return (Path.join [configRoot; js "users"; safeUserId; js "config.json"]).

Definition getUserWorkspacePath (userId : jsstring) : completion jsstring :=
  safeUserId <- sanitizeUserId userId ;;;
  Return (Path.join [workspaceRoot; js "users"; safeUserId]).
End Roots.

End TenantPaths.

Import TenantPaths.

(* ------------------------------------------------------------------ *)
(** ** Workspace file resolver (agents/workspace-resolver.ts) *)

Module Resolver.

(** *** Strings that cross the boundary of node:fs

    node:fs hands paths and data to the operating system as UTF-8.  A
    surrogate code unit that is not part of a pair has no UTF-8 form and
    becomes U+FFFD on the way, and a text decoded from UTF-8 holds no such
    code unit: [toWellFormed] is that passage (it is
    [String.prototype.toWellFormed]).  A path that holds a null byte is
    refused by node:fs before the disk is asked. *)
Definition isHighSurrogate (c : N) : bool := N.leb 55296 c && N.leb c 56319.
Definition isLowSurrogate (c : N) : bool := N.leb 56320 c && N.leb c 57343.
Definition REPLACEMENT : N := 65533.

Fixpoint toWellFormed (s : jsstring) : jsstring :=
  match s with
  | [] => []
  | c :: rest =>
      if isHighSurrogate c then
        match rest with
        | d :: rest' =>
            if isLowSurrogate d then c :: d :: toWellFormed rest'
            else REPLACEMENT :: toWellFormed rest
        | [] => [REPLACEMENT]
        end
      else if isLowSurrogate c then REPLACEMENT :: toWellFormed rest
      else c :: toWellFormed rest
  end.

Definition hasNullByte (p : jsstring) : bool := existsb (N.eqb 0) p.

(** The name under which the operating system knows the path [p]. *)
Definition diskName (p : jsstring) : jsstring := toWellFormed p.

(** *** The disk

    The disk is seen through the two calls that the resolver makes,
    [fs.readFile] and [fs.access]: it is a map from disk names to what they
    hold, and two different disk names are two different files.  A name
    absent from the map does not exist: both calls fail with [ENOENT].
    - [File text]: a file that can be read, [text] being its content.
    - [Unreadable]: the name exists, so [fs.access] succeeds, and
      [readFile] fails (a directory, a file without read permission).
    - [Unreachable]: the name cannot be looked up, so [fs.access] fails,
      and [readFile] fails with an error other than [ENOENT] (a directory
      on the way that may not be searched or that is a file, a name that
      is too long). *)
Inductive fsnode :=
| File (text : jsstring)
| Unreadable
| Unreachable.

(** [tryReadFile]: the content decoded as UTF-8, [null] on [ENOENT], any
    other error is rethrown. *)
Definition tryReadFile (fs : gmap jsstring fsnode) (filePath : jsstring)
  : completion (option jsstring) :=
  if hasNullByte filePath then Throw InvalidArg
  else
    match fs !! diskName filePath with
    | Some (File text) => Return (Some (toWellFormed text))
    | Some Unreadable => Throw IOFault
    | Some Unreachable => Throw IOFault
    | None => Return None
    end.

(** *** Values handed out by the resolver

    [DEFAULT_FILE_CONTENT] is an object literal, so it inherits from
    [Object.prototype]: looking a name up in it finds the members of
    [Object.prototype] as well.  Such a member is a function, or
    [Object.prototype] itself for [__proto__]: an object, which is truthy,
    is not [null] and is not a string. *)
Inductive JsValue :=
| JsString (s : jsstring)
| PrototypeMember (key : jsstring).

Definition Object_prototype_keys : list jsstring :=
  [js "constructor"; js "__defineGetter__"; js "__defineSetter__";
   js "hasOwnProperty"; js "__lookupGetter__"; js "__lookupSetter__";
   js "isPrototypeOf"; js "propertyIsEnumerable"; js "toString";
   js "valueOf"; js "__proto__"; js "toLocaleString"].

Definition inherited (key : jsstring) : bool :=
  bool_decide (key ∈ Object_prototype_keys).

Definition truthy_value (v : JsValue) : bool :=
  match v with
  | JsString s => truthy s
  | PrototypeMember _ => true
  end.

(** The bootstrap file names exported by [agents/workspace.ts]; that
    module is not part of the sources at hand, so the names are a
    parameter of the resolver. *)
Record BootstrapNames := {
  DEFAULT_AGENTS_FILENAME : jsstring;
  DEFAULT_SOUL_FILENAME : jsstring;
  DEFAULT_TOOLS_FILENAME : jsstring;
  DEFAULT_IDENTITY_FILENAME : jsstring;
  DEFAULT_USER_FILENAME : jsstring;
  DEFAULT_HEARTBEAT_FILENAME : jsstring;
  DEFAULT_BOOTSTRAP_FILENAME : jsstring;
  DEFAULT_MEMORY_FILENAME : jsstring;
}.

(** Modelled from the spec: the values of the eight file-name constants of
    [agents/workspace.ts], as the interface comments and the design notes
    spell them. *)
Definition workspace_names : BootstrapNames := {|
  DEFAULT_AGENTS_FILENAME := js "AGENTS.md";
  DEFAULT_SOUL_FILENAME := js "SOUL.md";
  DEFAULT_TOOLS_FILENAME := js "TOOLS.md";
  DEFAULT_IDENTITY_FILENAME := js "IDENTITY.md";
  DEFAULT_USER_FILENAME := js "USER.md";
  DEFAULT_HEARTBEAT_FILENAME := js "HEARTBEAT.md";
  DEFAULT_BOOTSTRAP_FILENAME := js "BOOTSTRAP.md";
  DEFAULT_MEMORY_FILENAME := js "MEMORY.md";
|}.

Section WithNames.
Variable names : BootstrapNames.

(** The own properties of the object literal [DEFAULT_FILE_CONTENT], a
    later key overriding an equal earlier one. *)
Definition DEFAULT_FILE_CONTENT : gmap jsstring jsstring :=
  <[ DEFAULT_MEMORY_FILENAME names :=
       js "# Memory

Agent's persistent memory and learned information.
" ]> (
  <[ DEFAULT_BOOTSTRAP_FILENAME names :=
       js "# Bootstrap

Initial setup and onboarding instructions.
" ]> (
  <[ DEFAULT_HEARTBEAT_FILENAME names :=
       js "# Heartbeat

Scheduled tasks and periodic actions.
" ]> (
  <[ DEFAULT_USER_FILENAME names :=
       js "# User

Information about the user for personalization.
" ]> (
  <[ DEFAULT_IDENTITY_FILENAME names :=
       js "# Identity

Define your agent's identity and role.
" ]> (
  <[ DEFAULT_TOOLS_FILENAME names :=
       js "# Tools

Configure available tools and their permissions.
" ]> (
  <[ DEFAULT_SOUL_FILENAME names :=
       js "# Soul

Define your agent's personality and communication style.
" ]> (
  <[ DEFAULT_AGENTS_FILENAME names :=
       js "# Agent Configuration

This file configures your AI agent's behavior and capabilities.
" ]> ∅))))))).

(** [DEFAULT_FILE_CONTENT[key]]: an own property, else a member of
    [Object.prototype], else [undefined]. *)
Definition DEFAULT_FILE_CONTENT_get (key : jsstring) : option JsValue :=
  match DEFAULT_FILE_CONTENT !! key with
  | Some defaultContent => Some (JsString defaultContent)
  | None => if inherited key then Some (PrototypeMember key) else None
  end.

(** [key in DEFAULT_FILE_CONTENT] *)
Definition DEFAULT_FILE_CONTENT_in (key : jsstring) : bool :=
  bool_decide (is_Some (DEFAULT_FILE_CONTENT !! key)) || inherited key.

(** The resolver is bound to a workspace and a template directory. *)
Variable workspacePath : jsstring.
Variable templatePath : jsstring.

Definition customDir : jsstring := Path.join [workspacePath; js "custom"].

Definition customPathOf (filename : jsstring) : jsstring :=
  Path.join [customDir; Path.basename filename].

Definition templateFilePathOf (filename : jsstring) : jsstring :=
  Path.join [templatePath; Path.basename filename].

(** The declared result is [string | null]; what comes back from the third
    layer is whatever the lookup finds. *)
Definition readWorkspaceFile (fs : gmap jsstring fsnode) (filename : jsstring)
  : completion (option JsValue) :=
  let safeName := Path.basename filename in
  let customPath := Path.join [customDir; safeName] in
  customContent <- tryReadFile fs customPath ;;;
  match customContent with
  | Some content => Return (Some (JsString content))
  | None =>
      let templateFilePath := Path.join [templatePath; safeName] in
      templateContent <- tryReadFile fs templateFilePath ;;;
      match templateContent with
      | Some content => Return (Some (JsString content))
      | None =>
          match DEFAULT_FILE_CONTENT_get safeName with
          | Some defaultContent =>
              if truthy_value defaultContent then Return (Some defaultContent)
              else Return None
          | None => Return None
          end
      end
  end.
End WithNames.

End Resolver.

(* ------------------------------------------------------------------ *)
(** ** JavaScript [Map] with its insertion order *)

Module JsMap.
Section Ops.
Context {V : Type}.

Definition t := list (jsstring * V).

Fixpoint get (k : jsstring) (m : t) : option V :=
  match m with
  | [] => None
  | (k', v) :: r => if decide (k' = k) then Some v else get k r
  end.

Definition has (k : jsstring) (m : t) : bool :=
  match get k m with Some _ => true | None => false end.

(** An existing key keeps its position; a new key goes last. *)
Fixpoint set (k : jsstring) (v : V) (m : t) : t :=
  match m with
  | [] => [(k, v)]
  | (k', v') :: r =>
      if decide (k' = k) then (k, v) :: r else (k', v') :: set k v r
  end.

Definition delete (k : jsstring) (m : t) : t :=
  List.filter (fun e => negb (bool_decide (fst e = k))) m.

Definition size (m : t) : Z := Z.of_nat (length m).

Definition keys (m : t) : list jsstring := List.map fst m.
End Ops.
Arguments t V : clear implicits.
End JsMap.

(* ------------------------------------------------------------------ *)
(** ** Tenant manager (gateway/multi-tenant/manager.ts) *)

Module Manager.

(** The subscription status.  The type of the sources lists three values;
    records decoded from the wire are cast without a check, so any other
    string can be stored as well ([unchecked]). *)
Inductive UserStatus :=
| active
| suspended
| expired
| unchecked (raw : jsstring).

(** [OpenClawConfig] is opaque to the manager: its JSON text. *)
Abbreviation OpenClawConfig := (list N).

Record UserInstance := mkUserInstance {
  userId : jsstring;
  config : OpenClawConfig;
  workspacePath : jsstring;
  configPath : jsstring;
  lastActivityAt : Z;
  pendingRequests : Z;
  status : UserStatus;
  llmApiKey : option jsstring;
}.

Record CloudUserConfig := mkCloudUserConfig {
  cloud_userId : jsstring;
  gatewayToken : jsstring;
  openclawConfig : OpenClawConfig;
  cloud_status : UserStatus;
  cloud_llmApiKey : option jsstring;
  updatedAt : jsstring;
}.

Record WorkspaceFileResolver := mkResolver {
  resolver_userId : jsstring;
  resolver_workspacePath : jsstring;
  resolver_templatePath : jsstring;
}.

Inductive EvictReason := idle | lru | manual.

Inductive MultiTenantManagerEvent :=
| UserLoaded (userId : jsstring)
| UserEvicted (userId : jsstring) (reason : EvictReason)
| ConfigSynced (usersUpdated : Z) (timestamp : jsstring)
| SyncFailed (error : jsstring) (consecutiveFailures : Z)
| UserSuspended (userId : jsstring)
| UserExpired (userId : jsstring).

Inductive LogLevel := LogInfo | LogWarn | LogError.

(** What the manager does to the outside, in order: events handed to the
    listeners, lines handed to the logger, verify requests sent to the
    cloud backend. *)
Inductive Effect :=
| Emit (e : MultiTenantManagerEvent)
| Log (level : LogLevel)
| VerifyRequest (token : jsstring).

Record Options := mkOptions {
  maxCachedUsers : Z;
  userIdleTimeoutMs : Z;
  syncIntervalMs : Z;
  cloudBackendUrl : jsstring;
  serviceToken : jsstring;
  workspaceRoot : jsstring;
  configRoot : jsstring;
  templatePath : jsstring;
}.

(** [DEFAULT_MULTI_TENANT_CONFIG] *)
Definition DEFAULT_OPTIONS : Options := {|
  maxCachedUsers := 100;
  userIdleTimeoutMs := 3600000;
  syncIntervalMs := 300000;
  cloudBackendUrl := [];
  serviceToken := [];
  workspaceRoot := js "/data/openclaw/workspaces";
  configRoot := js "/data/openclaw/configs";
  templatePath := js "/data/openclaw/workspaces/template";
|}.

Record t := mkManager {
  userInstances : JsMap.t UserInstance;
  tokenToUserId : gmap jsstring jsstring;
  configCache : gmap jsstring OpenClawConfig;
  workspaceResolvers : gmap jsstring WorkspaceFileResolver;
  options : Options;
  cacheHits : Z;
  cacheMisses : Z;
  lastSyncAt : option jsstring;
  syncFailures : Z;
  trace : list Effect;
}.

Definition create (opts : Options) : t := {|
  userInstances := [];
  tokenToUserId := ∅;
  configCache := ∅;
  workspaceResolvers := ∅;
  options := opts;
  cacheHits := 0;
  cacheMisses := 0;
  lastSyncAt := None;
  syncFailures := 0;
  trace := [];
|}.

(** *** Field updates *)

Definition set_userInstances (m : t) (x : JsMap.t UserInstance) : t :=
  mkManager x (tokenToUserId m) (configCache m) (workspaceResolvers m) (options m)
    (cacheHits m) (cacheMisses m) (lastSyncAt m) (syncFailures m) (trace m).
Definition set_tokenToUserId (m : t) (x : gmap jsstring jsstring) : t :=
  mkManager (userInstances m) x (configCache m) (workspaceResolvers m) (options m)
    (cacheHits m) (cacheMisses m) (lastSyncAt m) (syncFailures m) (trace m).
Definition set_configCache (m : t) (x : gmap jsstring OpenClawConfig) : t :=
  mkManager (userInstances m) (tokenToUserId m) x (workspaceResolvers m) (options m)
    (cacheHits m) (cacheMisses m) (lastSyncAt m) (syncFailures m) (trace m).
Definition set_workspaceResolvers (m : t) (x : gmap jsstring WorkspaceFileResolver) : t :=
  mkManager (userInstances m) (tokenToUserId m) (configCache m) x (options m)
    (cacheHits m) (cacheMisses m) (lastSyncAt m) (syncFailures m) (trace m).
Definition set_cacheHits (m : t) (x : Z) : t :=
  mkManager (userInstances m) (tokenToUserId m) (configCache m) (workspaceResolvers m)
    (options m) x (cacheMisses m) (lastSyncAt m) (syncFailures m) (trace m).
Definition set_cacheMisses (m : t) (x : Z) : t :=
  mkManager (userInstances m) (tokenToUserId m) (configCache m) (workspaceResolvers m)
    (options m) (cacheHits m) x (lastSyncAt m) (syncFailures m) (trace m).
Definition set_lastSyncAt (m : t) (x : option jsstring) : t :=
  mkManager (userInstances m) (tokenToUserId m) (configCache m) (workspaceResolvers m)
    (options m) (cacheHits m) (cacheMisses m) x (syncFailures m) (trace m).
Definition set_syncFailures (m : t) (x : Z) : t :=
  mkManager (userInstances m) (tokenToUserId m) (configCache m) (workspaceResolvers m)
    (options m) (cacheHits m) (cacheMisses m) (lastSyncAt m) x (trace m).
Definition set_trace (m : t) (x : list Effect) : t :=
  mkManager (userInstances m) (tokenToUserId m) (configCache m) (workspaceResolvers m)
    (options m) (cacheHits m) (cacheMisses m) (lastSyncAt m) (syncFailures m) x.

Definition touch (i : UserInstance) (pending now : Z) : UserInstance :=
  mkUserInstance (userId i) (config i) (workspacePath i) (configPath i)
    now pending (status i) (llmApiKey i).

Definition patch (i : UserInstance) (c : CloudUserConfig) : UserInstance :=
  mkUserInstance (userId i) (openclawConfig c) (workspacePath i) (configPath i)
    (lastActivityAt i) (pendingRequests i) (cloud_status c) (cloud_llmApiKey c).

(** [emit]: every listener receives the event; a listener that throws is
    logged and skipped, so [emit] itself never throws. *)
Definition emit (m : t) (e : MultiTenantManagerEvent) : t :=
  set_trace m (trace m ++ [Emit e]).

Definition log (m : t) (level : LogLevel) : t :=
  set_trace m (trace m ++ [Log level]).

Definition not_a_request (e : Effect) : Prop :=
  match e with VerifyRequest _ => False | _ => True end.

(** The [fetch] of the verify endpoint leaves the process. *)
Definition requestVerify (m : t) (token : jsstring) : t :=
  set_trace m (trace m ++ [VerifyRequest token]).

(** *** authenticateToken, the synchronous (local only) variant *)

Definition authenticateTokenSync (m : t) (token : jsstring) : option jsstring * t :=
  match tokenToUserId m !! token with
  | None => (None, m)
  | Some userId =>
      if negb (truthy userId) then (None, m)
      else
        match JsMap.get userId (userInstances m) with
        | None => (None, m)
        | Some instance =>
            match status instance with
            | suspended => (None, emit m (UserSuspended userId))
            | expired => (None, emit m (UserExpired userId))
            | _ => (Some userId, m)
            end
        end
  end.

(** *** The global configuration read by the path layer *)

Record Globals := mkGlobals {
  globalWorkspaceRoot : jsstring;
  globalConfigRoot : jsstring;
  globalTemplatePath : jsstring;
}.

Record UserPaths := mkUserPaths {
  paths_workspacePath : jsstring;
  paths_configPath : jsstring;
}.

Section WithGlobals.
Variable G : Globals.

(** [ensureUserDirectories]: the paths are derived first (each derivation
    sanitizes the id again), then the directories are created; [mkdirOk]
    tells whether the creation succeeds.  Of the five paths returned, the
    two that the manager reads are kept. *)
Definition ensureUserDirectories (userId : jsstring) (mkdirOk : bool)
  : completion UserPaths :=
  workspacePath <- getUserWorkspacePath (globalWorkspaceRoot G) userId ;;;
  configPath <- getUserConfigPath (globalConfigRoot G) userId ;;;
  if mkdirOk then Return (mkUserPaths workspacePath configPath)
  else Throw IOFault.

Definition createWorkspaceFileResolver (userId workspacePath templatePath : jsstring)
  : WorkspaceFileResolver :=
  mkResolver userId workspacePath
    (if truthy templatePath then templatePath else globalTemplatePath G).

Definition initializeUserInstance (m : t) (userId : jsstring) (config : OpenClawConfig)
    (cloudConfig : option CloudUserConfig) (mkdirOk : bool) (now : Z)
  : completion UserInstance * t :=
  match ensureUserDirectories userId mkdirOk with
  | Throw e => (Throw e, m)
  | Return paths =>
      let instance := {|
        userId := userId;
        config := config;
        workspacePath := paths_workspacePath paths;
        configPath := paths_configPath paths;
        lastActivityAt := now;
        pendingRequests := 0;
        status := match cloudConfig with Some c => cloud_status c | None => active end;
        llmApiKey := match cloudConfig with Some c => cloud_llmApiKey c | None => None end;
      |} in
      let m := set_userInstances m (JsMap.set userId instance (userInstances m)) in
      let m := set_configCache m (<[userId := config]> (configCache m)) in
      let resolver :=
        createWorkspaceFileResolver userId (paths_workspacePath paths)
          (templatePath (options m)) in
      let m := set_workspaceResolvers m (<[userId := resolver]> (workspaceResolvers m)) in
      (Return instance, emit m (UserLoaded userId))
  end.

(** *** authenticateToken, the asynchronous variant with remote verify *)

Record VerifyRecord := mkVerifyRecord {
  user_id : jsstring;                 (* empty when the field is missing *)
  wire_status : option UserStatus;    (* [None] when the field is missing *)
  openclaw_config : OpenClawConfig;
}.

Inductive VerifyBody :=
| BodyRejects                              (* [response.json()] fails *)
| BodyJson (data : option VerifyRecord).   (* the [data] member, if any *)

Inductive VerifyReply :=
| InvalidURL                               (* [new URL] throws: nothing is sent *)
| FetchRejects                             (* network failure or timeout *)
| Response (httpStatus : Z) (body : VerifyBody).

Definition response_ok (httpStatus : Z) : bool :=
  (200 <=? httpStatus) && (httpStatus <=? 299).

(** The body of the [try] block. *)
Definition verifyRemote (m : t) (token : jsstring) (reply : VerifyReply)
    (mkdirOk : bool) (now : Z) (nowIso : jsstring)
  : completion (option jsstring) * t :=
  match reply with
  | InvalidURL => (Throw InvalidUrlError, m)
  | FetchRejects => (Throw FetchFailure, requestVerify m token)
  | Response httpStatus body =>
      let m := requestVerify m token in
      if negb (response_ok httpStatus) then
        if httpStatus =? 401 then (Return None, m)
        else (Return None, log m LogError)
      else
        match body with
        | BodyRejects => (Throw BodyFailure, m)
        | BodyJson None => (Return None, m)
        | BodyJson (Some result) =>
            if negb (truthy (user_id result)) then (Return None, m)
            else
              match sanitizeUserId (user_id result) with
              | Throw e => (Throw e, m)
              | Return userId =>
                  let m := set_tokenToUserId m (<[token := userId]> (tokenToUserId m)) in
                  let initialized :=
                    if negb (JsMap.has userId (userInstances m))
                    then
                      let cloudConfig := {|
                        cloud_userId := user_id result;
                        gatewayToken := token;
                        openclawConfig := openclaw_config result;
                        cloud_status :=
                          match wire_status result with Some s => s | None => active end;
                        cloud_llmApiKey := None;
                        updatedAt := nowIso;
                      |} in
                      match initializeUserInstance m userId (openclaw_config result)
                              (Some cloudConfig) mkdirOk now with
                      | (Throw e, m) => (Throw e, m)
                      | (Return _, m) => (Return tt, m)
                      end
                    else (Return tt, m) in
                  match initialized with
                  | (Throw e, m) => (Throw e, m)
                  | (Return _, m) => (Return (Some userId), log m LogInfo)
                  end
              end
        end
  end.

(** The local lookup that opens [authenticateToken]: the cached user of
    the token, when both the token and the instance are cached. *)
Definition cachedInstance (m : t) (token : jsstring) : option (jsstring * UserInstance) :=
  match tokenToUserId m !! token with
  | Some cachedUserId =>
      if truthy cachedUserId then
        match JsMap.get cachedUserId (userInstances m) with
        | Some instance => Some (cachedUserId, instance)
        | None => None
        end
      else None
  | None => None
  end.

Definition authenticateToken (m : t) (token : jsstring) (reply : VerifyReply)
    (mkdirOk : bool) (now : Z) (nowIso : jsstring)
  : completion (option jsstring) * t :=
  match cachedInstance m token with
  | Some (cachedUserId, instance) =>
      match status instance with
      | suspended => (Return None, emit m (UserSuspended cachedUserId))
      | expired => (Return None, emit m (UserExpired cachedUserId))
      | _ => (Return (Some cachedUserId), m)
      end
  | None =>
      if negb (truthy (cloudBackendUrl (options m))) then (Return None, log m LogWarn)
      else
        match verifyRemote m token reply mkdirOk now nowIso with
        | (Return r, m) => (Return r, m)
        | (Throw _, m) => (Return None, log m LogError)
        end
  end.

(** *** getUserInstance *)

Definition getUserInstance (m : t) (userId : jsstring) (now : Z)
    (disk : completion (option OpenClawConfig)) (mkdirOk : bool)
  : completion (option UserInstance) * t :=
  match sanitizeUserId userId with
  | Throw e => (Throw e, m)
  | Return safeUserId =>
      match JsMap.get safeUserId (userInstances m) with
      | Some cached =>
          let m := set_cacheHits m (cacheHits m + 1) in
          let cached := touch cached (pendingRequests cached) now in
          (Return (Some cached),
           set_userInstances m (JsMap.set safeUserId cached (userInstances m)))
      | None =>
          let m := set_cacheMisses m (cacheMisses m + 1) in
          match disk with
          | Throw e => (Throw e, m)
          | Return None => (Return None, m)
          | Return (Some config) =>
              match initializeUserInstance m safeUserId config None mkdirOk now with
              | (Throw e, m) => (Throw e, m)
              | (Return instance, m) => (Return (Some instance), m)
              end
          end
      end
  end.
End WithGlobals.

(** *** updateUserConfigs *)

(** One iteration of the loop; [writeOk] tells whether [writeUserConfig]
    succeeds for this record. *)
Definition updateOne (acc : Z * t) (entry : CloudUserConfig * bool) : Z * t :=
  let '(updated, m) := acc in
  let '(cloudConfig, writeOk) := entry in
  match sanitizeUserId (cloud_userId cloudConfig) with
  | Throw _ => (updated, log m LogError)
  | Return userId =>
      let m := set_tokenToUserId m (<[gatewayToken cloudConfig := userId]> (tokenToUserId m)) in
      if negb writeOk then (updated, log m LogError)
      else
        let m :=
          match JsMap.get userId (userInstances m) with
          | Some existing =>
              let m := set_userInstances m
                         (JsMap.set userId (patch existing cloudConfig) (userInstances m)) in
              set_configCache m (<[userId := openclawConfig cloudConfig]> (configCache m))
          | None => m
          end in
        (updated + 1, m)
  end.

Definition updateUserConfigs (m : t) (configs : list (CloudUserConfig * bool))
    (nowIso : jsstring) : Z * t :=
  let '(updated, m) := fold_left updateOne configs (0, m) in
  let m := set_lastSyncAt m (Some nowIso) in
  let m := set_syncFailures m 0 in
  (updated, emit m (ConfigSynced updated nowIso)).

Definition recordSyncFailure (m : t) (error : jsstring) : t :=
  let m := set_syncFailures m (syncFailures m + 1) in
  emit m (SyncFailed error (syncFailures m)).

(** *** Pending-request counters *)

Definition incrementPendingRequests (m : t) (userId : jsstring) (now : Z)
  : completion unit * t :=
  match sanitizeUserId userId with
  | Throw e => (Throw e, m)
  | Return key =>
      match JsMap.get key (userInstances m) with
      | Some instance =>
          (Return tt,
           set_userInstances m
             (JsMap.set key (touch instance (pendingRequests instance + 1) now)
                (userInstances m)))
      | None => (Return tt, m)
      end
  end.

Definition decrementPendingRequests (m : t) (userId : jsstring) (now : Z)
  : completion unit * t :=
  match sanitizeUserId userId with
  | Throw e => (Throw e, m)
  | Return key =>
      match JsMap.get key (userInstances m) with
      | Some instance =>
          if 0 <? pendingRequests instance then
            (Return tt,
             set_userInstances m
               (JsMap.set key (touch instance (pendingRequests instance - 1) now)
                  (userInstances m)))
          else (Return tt, m)
      | None => (Return tt, m)
      end
  end.

(** *** Eviction *)

Definition evictUser (m : t) (userId : jsstring) (reason : EvictReason) : t :=
  let m := set_userInstances m (JsMap.delete userId (userInstances m)) in
  let m := set_configCache m (delete userId (configCache m)) in
  let m := set_workspaceResolvers m (delete userId (workspaceResolvers m)) in
  emit m (UserEvicted userId reason).

Definition maybeEvictUser (m : t) (userId : jsstring) (reason : EvictReason) : t :=
  match JsMap.get userId (userInstances m) with
  | None => m
  | Some instance =>
      if 0 <? pendingRequests instance then m else evictUser m userId reason
  end.

(** The first loop of [cleanupInactiveUsers].  The loop deletes nothing
    but the entry it is visiting, so walking the entries present at its
    start visits the same entries as the live iteration. *)
Definition idleStep (now : Z) (m : t) (entry : jsstring * UserInstance) : t :=
  let '(userId, instance) := entry in
  if 0 <? pendingRequests instance then m
  else if userIdleTimeoutMs (options m) <? now - lastActivityAt instance
       then evictUser m userId idle
       else m.

Definition idlePass (m : t) (now : Z) : t :=
  fold_left (idleStep now) (userInstances m) m.

(** The inner loop of the second pass: [(oldestUserId, oldestActivity)],
    with [None] for [null] and for [Infinity]. *)
Definition oldestStep (acc : option jsstring * option Z) (entry : jsstring * UserInstance)
  : option jsstring * option Z :=
  let '(userId, instance) := entry in
  if 0 <? pendingRequests instance then acc
  else
    match snd acc with
    | None => (Some userId, Some (lastActivityAt instance))
    | Some oldestActivity =>
        if lastActivityAt instance <? oldestActivity
        then (Some userId, Some (lastActivityAt instance))
        else acc
    end.

Definition findOldest (instances : JsMap.t UserInstance) : option jsstring :=
  fst (fold_left oldestStep instances (None, None)).

(** The [while] loop of the second pass; every turn that goes on removes
    an entry, so [fuel] turns are enough when [fuel] exceeds the number of
    entries. *)
Fixpoint lruLoop (fuel : nat) (m : t) : t :=
  match fuel with
  | O => m
  | S fuel =>
      if maxCachedUsers (options m) <? JsMap.size (userInstances m) then
        match findOldest (userInstances m) with
        | Some oldestUserId =>
            if truthy oldestUserId then lruLoop fuel (evictUser m oldestUserId lru)
            else m
        | None => m
        end
      else m
  end.

Definition lruPass (m : t) : t := lruLoop (S (length (userInstances m))) m.

Definition cleanupInactiveUsers (m : t) (now : Z) : t :=
  lruPass (idlePass m now).

Definition forceEvictUser (m : t) (userId : jsstring) : completion bool * t :=
  match sanitizeUserId userId with
  | Throw e => (Throw e, m)
  | Return safeUserId =>
      if negb (JsMap.has safeUserId (userInstances m)) then (Return false, m)
      else (Return true, evictUser m safeUserId manual)
  end.

(** *** Read-only projections *)

Record MultiTenantManagerStats := mkStats {
  totalUsers : Z;
  activeInstances : Z;
  totalConnections : Z;
  usersWithPendingRequests : Z;
  cacheHitRate : Z * Z;              (* numerator and denominator; (0, 1) for 0 *)
  stats_lastSyncAt : option jsstring;
  stats_syncFailures : Z;
}.

Definition getStats (m : t) : MultiTenantManagerStats :=
  let '(users, connections) :=
    fold_left
      (fun (acc : Z * Z) (entry : jsstring * UserInstance) =>
         if 0 <? pendingRequests (snd entry)
         then (fst acc + 1, snd acc + pendingRequests (snd entry))
         else acc)
      (userInstances m) (0, 0) in
  let totalHits := cacheHits m + cacheMisses m in
  {| totalUsers := Z.of_nat (size (tokenToUserId m));
     activeInstances := JsMap.size (userInstances m);
     totalConnections := connections;
     usersWithPendingRequests := users;
     cacheHitRate := if 0 <? totalHits then (cacheHits m, totalHits) else (0, 1);
     stats_lastSyncAt := lastSyncAt m;
     stats_syncFailures := syncFailures m |}.

Definition hasToken (m : t) (token : jsstring) : bool :=
  bool_decide (is_Some (tokenToUserId m !! token)).

Definition getActiveUserIds (m : t) : list jsstring := JsMap.keys (userInstances m).

(** *** The manager as a transition system *)

Inductive Op :=
| OpAuthenticateSync (token : jsstring)
| OpAuthenticate (G : Globals) (token : jsstring) (reply : VerifyReply)
    (mkdirOk : bool) (now : Z) (nowIso : jsstring)
| OpGetUserInstance (G : Globals) (userId : jsstring) (now : Z)
    (disk : completion (option OpenClawConfig)) (mkdirOk : bool)
| OpUpdateUserConfigs (configs : list (CloudUserConfig * bool)) (nowIso : jsstring)
| OpRecordSyncFailure (error : jsstring)
| OpIncrement (userId : jsstring) (now : Z)
| OpDecrement (userId : jsstring) (now : Z)
| OpCleanup (now : Z)
| OpForceEvict (userId : jsstring).

Definition step (m : t) (op : Op) : t :=
  match op with
  | OpAuthenticateSync token => snd (authenticateTokenSync m token)
  | OpAuthenticate G token reply mkdirOk now nowIso =>
      snd (authenticateToken G m token reply mkdirOk now nowIso)
  | OpGetUserInstance G userId now disk mkdirOk =>
      snd (getUserInstance G m userId now disk mkdirOk)
  | OpUpdateUserConfigs configs nowIso => snd (updateUserConfigs m configs nowIso)
  | OpRecordSyncFailure error => recordSyncFailure m error
  | OpIncrement userId now => snd (incrementPendingRequests m userId now)
  | OpDecrement userId now => snd (decrementPendingRequests m userId now)
  | OpCleanup now => cleanupInactiveUsers m now
  | OpForceEvict userId => snd (forceEvictUser m userId)
  end.

Definition run (m : t) (ops : list Op) : t := fold_left step ops m.

Definition reachable (opts : Options) (m : t) : Prop :=
  exists ops, m = run (create opts) ops.

End Manager.

(* ------------------------------------------------------------------ *)
(** ** Configuration synchronizer (gateway/multi-tenant/config-sync.ts) *)

Module ConfigSync.

Record Options := mkOptions {
  syncIntervalMs : Z;
  initialRetryDelayMs : Z;
  maxRetryDelayMs : Z;
  alertThreshold : Z;
}.

(** The defaults of the constructor. *)
Definition DEFAULT_OPTIONS : Options := {|
  syncIntervalMs := 300000;
  initialRetryDelayMs := 1000;
  maxRetryDelayMs := 300000;
  alertThreshold := 5;
|}.

Record ConfigSyncResponse := mkResponse {
  users : list (Manager.CloudUserConfig * bool);
  syncTimestamp : jsstring;
  hasMore : bool;
  nextCursor : option jsstring;
}.

(** What [fetchConfigs] comes back with: a decoded response, or an error
    with its message (transport, non-2xx status, undecodable body). *)
Inductive Fetched :=
| FetchOk (response : ConfigSyncResponse)
| FetchError (message : jsstring).

Record t := mkService {
  manager : Manager.t;
  options : Options;
  syncTimer : option Z;            (* the delay of the armed timer, if any *)
  lastSyncTimestamp : option jsstring;
  consecutiveFailures : Z;
  currentRetryDelay : Z;
  isRunning : bool;
  isSyncing : bool;
  alerts : list Z;                 (* the failure counts handed to [onAlert] *)
}.

Definition create (manager : Manager.t) (options : Options) : t := {|
  manager := manager;
  options := options;
  syncTimer := None;
  lastSyncTimestamp := None;
  consecutiveFailures := 0;
  currentRetryDelay := initialRetryDelayMs options;
  isRunning := false;
  isSyncing := false;
  alerts := [];
|}.

Definition set_syncTimer (s : t) (x : option Z) : t :=
  mkService (manager s) (options s) x (lastSyncTimestamp s) (consecutiveFailures s)
    (currentRetryDelay s) (isRunning s) (isSyncing s) (alerts s).
Definition set_isRunning (s : t) (x : bool) : t :=
  mkService (manager s) (options s) (syncTimer s) (lastSyncTimestamp s)
    (consecutiveFailures s) (currentRetryDelay s) x (isSyncing s) (alerts s).

Record SyncResult := mkResult {
  success : bool;
  usersUpdated : Z;
  error : option jsstring;
}.

Definition scheduleSync (s : t) (delayMs : Z) : t :=
  if negb (isRunning s) then s else set_syncTimer s (Some delayMs).

Definition start (s : t) : t :=
  if isRunning s then s else scheduleSync (set_isRunning s true) 0.

Definition stop (s : t) : t :=
  if negb (isRunning s) then s else set_syncTimer (set_isRunning s false) None.

Definition scheduleNextSync (s : t) : t :=
  if negb (isRunning s) then s
  else if 0 <? consecutiveFailures s then scheduleSync s (currentRetryDelay s)
       else scheduleSync s (syncIntervalMs (options s)).

Definition doSync (s : t) (fetched : Fetched) (nowIso : jsstring) : SyncResult * t :=
  if isSyncing s then (mkResult false 0 (Some (js "sync_in_progress")), s)
  else
    match fetched with
    | FetchOk response =>
        let '(updated, mgr) := Manager.updateUserConfigs (manager s) (users response) nowIso in
        let s := mkService mgr (options s) (syncTimer s) (Some (syncTimestamp response))
                   0 (initialRetryDelayMs (options s)) (isRunning s) false (alerts s) in
        let s :=
          if hasMore response && match nextCursor response with
                                 | Some c => truthy c
                                 | None => false
                                 end
          then scheduleSync s 100 else s in
        (mkResult true updated None, s)
    | FetchError errorMessage =>
        let failures := consecutiveFailures s + 1 in
        let mgr := Manager.recordSyncFailure (manager s) errorMessage in
        let delay := Z.min (currentRetryDelay s * 2) (maxRetryDelayMs (options s)) in
        let alerts :=
          if alertThreshold (options s) <=? failures then alerts s ++ [failures]
          else alerts s in
        (mkResult false 0 (Some errorMessage),
         mkService mgr (options s) (syncTimer s) (lastSyncTimestamp s)
           failures delay (isRunning s) false alerts)
    end.

(** The timer callback armed by [scheduleSync]. *)
Definition onTimer (s : t) (fetched : Fetched) (nowIso : jsstring) : t :=
  scheduleNextSync (snd (doSync s fetched nowIso)).

(** [k] timer callbacks in a row whose fetch fails. *)
Fixpoint failures (k : nat) (s : t) (message nowIso : jsstring) : t :=
  match k with
  | O => s
  | S k => onTimer (failures k s message nowIso) (FetchError message) nowIso
  end.

End ConfigSync.

(* ------------------------------------------------------------------ *)
(** ** The statements of the specification, in its own words *)

Module SpecWords.
Import Manager.

(** "map path separators and '..' to '_'; keep only [A-Za-z0-9_-]" *)
Fixpoint dotdot_to_underscore (s : jsstring) : jsstring :=
  match s with
  | a :: ((b :: r) as t) =>
      if is_dot a && is_dot b then UNDERSCORE :: dotdot_to_underscore r
      else a :: dotdot_to_underscore t
  | _ => s
  end.

Definition spec_sanitized (s : jsstring) : jsstring :=
  List.filter is_id_char
    (List.map (fun c => if is_separator c then UNDERSCORE else c)
       (dotdot_to_underscore s)).

(** "given k consecutive sync failures, the k-th retry delay equals
    min(initial * 2^(k-1), maxRetry)" *)
Definition spec_retry_delay (initial maxRetry : Z) (k : nat) : Z :=
  Z.min (initial * 2 ^ (Z.of_nat k - 1)) maxRetry.

(** "for each instance with pendingRequests == 0, if
    now - lastActivityAt > userIdleTimeoutMs, evict" *)
Definition idle_expired (timeout now : Z) (i : UserInstance) : bool :=
  (pendingRequests i =? 0) && (timeout <? now - lastActivityAt i).

(** "the instance with the oldest lastActivityAt among those with
    pendingRequests == 0 ... when multiple instances share the oldest
    lastActivityAt, the first encountered is chosen" *)
Definition oldest_idle (instances : JsMap.t UserInstance) (u : jsstring) : Prop :=
  exists before i after,
    instances = before ++ (u, i) :: after /\
    pendingRequests i = 0 /\
    (forall e, In e before -> pendingRequests (snd e) = 0 ->
               lastActivityAt i < lastActivityAt (snd e)) /\
    (forall e, In e after -> pendingRequests (snd e) = 0 ->
               lastActivityAt i <= lastActivityAt (snd e)).

(** "while |instances| > maxCachedUsers, pick ... and evict (reason lru).
    Stop when all remaining instances have pending work." *)
Inductive lru_pass : Manager.t -> Manager.t -> Prop :=
| lru_within_cap m :
    JsMap.size (userInstances m) <= maxCachedUsers (options m) ->
    lru_pass m m
| lru_all_pending m :
    maxCachedUsers (options m) < JsMap.size (userInstances m) ->
    (forall e, In e (userInstances m) -> 0 < pendingRequests (snd e)) ->
    lru_pass m m
| lru_evict m u m' :
    maxCachedUsers (options m) < JsMap.size (userInstances m) ->
    oldest_idle (userInstances m) u ->
    lru_pass (evictUser m u lru) m' ->
    lru_pass m m'.

End SpecWords.

(* ------------------------------------------------------------------ *)
(** ** Well-formed caches *)

Module Inv.
Import Manager.

(** The keys of the cache are distinct and non-empty, as the keys of a
    JavaScript [Map] filled with sanitized ids are. *)
Definition keys_ok (m : Manager.t) : Prop :=
  NoDup (JsMap.keys (userInstances m))
  /\ Forall (fun k => k <> []) (JsMap.keys (userInstances m)).

(** No counter is negative. *)
Definition nonneg (m : Manager.t) : Prop :=
  Forall (fun e => 0 <= pendingRequests (snd e)) (userInstances m).

Definition wf (m : Manager.t) : Prop := keys_ok m /\ nonneg m.

(** The cache after some writes of entries with a non-empty key and a
    non-negative counter, and some removals. *)
Inductive updates : JsMap.t UserInstance -> JsMap.t UserInstance -> Prop :=
| updates_refl l : updates l l
| updates_set l l' k v :
    updates l l' -> k <> [] -> 0 <= pendingRequests v ->
    updates l (JsMap.set k v l')
| updates_delete l l' k :
    updates l l' -> updates l (JsMap.delete k l').

End Inv.

(* ------------------------------------------------------------------ *)
(** ** Matching increments and decrements *)

Module Counters.
Import Manager.

(** The raw id [raw] names the cache entry [key]. *)
Definition hits (key raw : jsstring) : bool :=
  match sanitizeUserId raw with
  | Return k => bool_decide (k = key)
  | Throw _ => false
  end.

(** A sequence of increments and decrements in which, for the entry [key],
    every decrement closes an earlier increment and none stays open:
    [depth] counts the increments of [key] still open. *)
Fixpoint matched (key : jsstring) (ops : list Op) (depth : nat) : bool :=
  match ops with
  | [] => Nat.eqb depth 0
  | OpIncrement raw _ :: r =>
      if hits key raw then matched key r (S depth) else matched key r depth
  | OpDecrement raw _ :: r =>
      if hits key raw then
        match depth with
        | O => false
        | S d => matched key r d
        end
      else matched key r depth
  | _ :: _ => false
  end.

(** The counter of [key], if cached. *)
Definition pendingOf (key : jsstring) (m : Manager.t) : option Z :=
  pendingRequests <$> JsMap.get key (userInstances m).

End Counters.

(* ------------------------------------------------------------------ *)
(** ** The scan for the oldest idle instance *)

Module Scan.
Import Manager.

(** What the inner loop of the second pass knows after the entries [seen]:
    nothing yet, every entry seen having pending work; or a candidate that
    is strictly older than every idle entry before it and at least as old
    as every idle entry after it. *)
Definition scanned (seen : JsMap.t UserInstance) (acc : option jsstring * option Z) : Prop :=
  match acc with
  | (None, None) => forall e, In e seen -> 0 < pendingRequests (snd e)
  | (Some u, Some a) =>
      exists before i after,
        seen = before ++ (u, i) :: after /\
        pendingRequests i <= 0 /\ lastActivityAt i = a /\
        (forall e, In e before -> pendingRequests (snd e) <= 0 ->
                   a < lastActivityAt (snd e)) /\
        (forall e, In e after -> pendingRequests (snd e) <= 0 ->
                   a <= lastActivityAt (snd e))
  | _ => False
  end.

(** The condition of the first pass, as the code tests it. *)
Definition idleEvictable (timeout now : Z) (i : UserInstance) : bool :=
  negb (0 <? pendingRequests i) && (timeout <? now - lastActivityAt i).

(** Every key present before is present after. *)
Definition keeps (l l' : JsMap.t UserInstance) : Prop :=
  forall k, is_Some (JsMap.get k l) -> is_Some (JsMap.get k l').

End Scan.

(* ------------------------------------------------------------------ *)
(** ** Concrete states used to exercise the statements *)

Module Scenario.
Import Manager.

Definition G0 : Globals := {|
  globalWorkspaceRoot := js "/data/openclaw/workspaces";
  globalConfigRoot := js "/data/openclaw/configs";
  globalTemplatePath := js "/data/openclaw/workspaces/template";
|}.

(** A manager with a cloud backend, a cache of two and a one-second idle
    timeout. *)
Definition opts0 : Options := {|
  maxCachedUsers := 2;
  userIdleTimeoutMs := 1000;
  syncIntervalMs := 300000;
  cloudBackendUrl := js "https://api.example.com";
  serviceToken := js "svc";
  workspaceRoot := js "/data/openclaw/workspaces";
  configRoot := js "/data/openclaw/configs";
  templatePath := js "/data/openclaw/workspaces/template";
|}.

(** A [200] answer of the verify endpoint. *)
Definition verified (uid : jsstring) (st : UserStatus) : VerifyReply :=
  Response 200 (BodyJson (Some (mkVerifyRecord uid (Some st) (js "{}")))).

(** First use of token [tok] by user [uid] at time [now]. *)
Definition login (tok uid : jsstring) (st : UserStatus) (now : Z) : Op :=
  OpAuthenticate G0 tok (verified uid st) true now (js "2026-01-01T00:00:00.000Z").

(** One active user, loaded at time 1000. *)
Definition one_user : Manager.t :=
  run (create opts0) [login (js "gt_abc") (js "u-1") active 1000].

(** The same user with one request in flight. *)
Definition one_busy_user : Manager.t :=
  run (create opts0)
    [login (js "gt_abc") (js "u-1") active 1000; OpIncrement (js "u-1") 1500].

(** A synchronizer with the timings of the back-off scenario: one second
    at first, eight seconds at most, started. *)
Definition sync_options : ConfigSync.Options := {|
  ConfigSync.syncIntervalMs := 300000;
  ConfigSync.initialRetryDelayMs := 1000;
  ConfigSync.maxRetryDelayMs := 8000;
  ConfigSync.alertThreshold := 4;
|}.

Definition started_sync : ConfigSync.t :=
  ConfigSync.start (ConfigSync.create (create opts0) sync_options).

(** Three idle users, last active at times 1, 2 and 3. *)
Definition three_users : Manager.t :=
  run (create opts0)
    [login (js "gt_a") (js "u-a") active 1;
     login (js "gt_b") (js "u-b") active 2;
     login (js "gt_c") (js "u-c") active 3].

End Scenario.

(* ------------------------------------------------------------------ *)
(** ** The three per-user tables of the manager *)

Module Tables.
Import Manager.

(** The instance cache, the config cache and the resolver table agree on a
    user: all three know the user or none does; the cached config is the
    config of the instance; the resolver is bound to the instance's id and
    workspace. *)
Definition agree (instances : JsMap.t UserInstance)
    (configs : gmap jsstring OpenClawConfig)
    (resolvers : gmap jsstring WorkspaceFileResolver) (u : jsstring) : Prop :=
  configs !! u = config <$> JsMap.get u instances
  /\ match resolvers !! u, JsMap.get u instances with
     | Some r, Some i =>
         resolver_userId r = u /\ resolver_workspacePath r = workspacePath i
         /\ userId i = u
     | None, None => True
     | _, _ => False
     end.

Definition coherent (m : Manager.t) : Prop :=
  forall u, agree (userInstances m) (configCache m) (workspaceResolvers m) u.

(** Every cached instance, with the key it is filed under, satisfies [P]. *)
Definition all_instances (P : jsstring -> UserInstance -> Prop) (m : Manager.t) : Prop :=
  forall u i, JsMap.get u (userInstances m) = Some i -> P u i.

(** The instance filed under [u] carries that id and the two paths that
    [ensureUserDirectories] derives for [u] from some global
    configuration. *)
Definition housed (u : jsstring) (i : UserInstance) : Prop :=
  userId i = u
  /\ exists G, ensureUserDirectories G u true
               = Return (mkUserPaths (workspacePath i) (configPath i)).

End Tables.

(* ------------------------------------------------------------------ *)
(** ** Agent context (agents/multi-tenant-context.ts) *)

Module AgentContext.
Import Manager.

(** [manager.getWorkspaceResolver] *)
Definition getWorkspaceResolver (m : Manager.t) (userId : jsstring)
  : completion (option WorkspaceFileResolver) :=
  key <- sanitizeUserId userId ;;;
  Return (workspaceResolvers m !! key).

(** The context handed to an agent run; its [manager] member is the manager
    the context was resolved on.  [ctx_userInstance] is the cached instance
    as it is when the context is resolved: the context of the sources holds
    the cached object itself, so the two agree as long as no other call on
    the manager comes in between. *)
Record MultiTenantAgentContext := mkContext {
  ctx_userId : jsstring;
  ctx_userInstance : UserInstance;
  ctx_config : OpenClawConfig;
  ctx_workspaceResolver : WorkspaceFileResolver;
  ctx_workspacePath : jsstring;
  ctx_agentDir : jsstring;
}.

Definition resolveMultiTenantContext (G : Globals) (m : Manager.t) (userId : jsstring)
    (now : Z) (disk : completion (option OpenClawConfig)) (mkdirOk : bool)
  : completion (option MultiTenantAgentContext) * Manager.t :=
  match getUserInstance G m userId now disk mkdirOk with
  | (Throw e, m) => (Throw e, m)
  | (Return None, m) => (Return None, m)
  | (Return (Some userInstance), m) =>
      match getWorkspaceResolver m userId with
      | Throw e => (Throw e, m)
      | Return None => (Return None, m)
      | Return (Some workspaceResolver) =>
          (Return (Some {|
             ctx_userId := userId;
             ctx_userInstance := userInstance;
             ctx_config := config userInstance;
             ctx_workspaceResolver := workspaceResolver;
             ctx_workspacePath := workspacePath userInstance;
             ctx_agentDir := workspacePath userInstance ++ js "/agent";
           |}), m)
      end
  end.

(** [wrapWithPendingRequests]: the counter is raised, [fn] runs, and the
    counter is lowered whether [fn] returned or threw.  [fn] is given by
    what it does to the manager while it runs and by its outcome; [now1] and
    [now2] are the instants of the two counter updates. *)
Definition wrapWithPendingRequests {A : Type} (m : Manager.t) (userId : jsstring)
    (fn : Manager.t -> completion A * Manager.t) (now1 now2 : Z)
  : completion A * Manager.t :=
  match incrementPendingRequests m userId now1 with
  | (Throw e, m) => (Throw e, m)
  | (Return _, m) =>
      let '(outcome, m) := fn m in
      match decrementPendingRequests m userId now2 with
      | (Throw e, m) => (Throw e, m)
      | (Return _, m) => (outcome, m)
      end
  end.

(** A request during which the cleanup timer fires at the instants
    [ticks]. *)
Definition request_with_ticks {A : Type} (outcome : completion A) (ticks : list Z)
  : Manager.t -> completion A * Manager.t :=
  fun m => (outcome, fold_left cleanupInactiveUsers ticks m).

End AgentContext.

(* ------------------------------------------------------------------ *)
(** ** Reading a configuration sync *)

Module SyncReport.
Import Manager.

(** The record is counted by [updateUserConfigs]: its id is accepted and
    its configuration is written. *)
Definition applied (entry : CloudUserConfig * bool) : bool :=
  match sanitizeUserId (cloud_userId (fst entry)) with
  | Return _ => snd entry
  | Throw _ => false
  end.

(** The record reaches the token index under [token]. *)
Definition binds (token : jsstring) (entry : CloudUserConfig * bool) : bool :=
  match sanitizeUserId (cloud_userId (fst entry)) with
  | Return _ => bool_decide (gatewayToken (fst entry) = token)
  | Throw _ => false
  end.

(** What the two eviction passes read of a cache entry. *)
Definition activity (e : jsstring * UserInstance) : jsstring * (Z * Z) :=
  (fst e, (pendingRequests (snd e), lastActivityAt (snd e))).

(** The record is applied to the cached instance of user [u]: its id
    sanitizes to [u] and its configuration is written. *)
Definition applies_to (u : jsstring) (entry : CloudUserConfig * bool) : bool :=
  match sanitizeUserId (cloud_userId (fst entry)) with
  | Return k => snd entry && bool_decide (k = u)
  | Throw _ => false
  end.

End SyncReport.

(* ------------------------------------------------------------------ *)
(** ** Reading the statistics *)

Module StatsReading.
Import Manager.

(** The sum of the counters of a cache. *)
Definition totalPending (instances : JsMap.t UserInstance) : Z :=
  fold_right (fun e acc => pendingRequests (snd e) + acc) 0 instances.

(** The entries with a request in flight. *)
Definition busy (instances : JsMap.t UserInstance) : JsMap.t UserInstance :=
  List.filter (fun e => 0 <? pendingRequests (snd e)) instances.

(** The call is a [getUserInstance] whose id is accepted. *)
Definition is_lookup (op : Op) : bool :=
  match op with
  | OpGetUserInstance _ userId _ _ _ =>
      match sanitizeUserId userId with Return _ => true | Throw _ => false end
  | _ => false
  end.

(** The pair of lookup counters. *)
Definition lookupCounters (m : Manager.t) : Z * Z := (cacheHits m, cacheMisses m).

End StatsReading.

(* ------------------------------------------------------------------ *)
(** ** The synchronizer as a transition system *)

Module SyncService.
Import ConfigSync.

Definition set_manager (s : t) (x : Manager.t) : t :=
  mkService x (options s) (syncTimer s) (lastSyncTimestamp s) (consecutiveFailures s)
    (currentRetryDelay s) (isRunning s) (isSyncing s) (alerts s).

(** What happens to a service: its public methods, the callback of its
    timer, and calls of other parties on the manager it shares.  A timer
    that was cleared does not fire. *)
Inductive Call :=
| CallStart
| CallStop
| CallSyncNow (fetched : Fetched) (nowIso : jsstring)
| TimerFires (fetched : Fetched) (nowIso : jsstring)
| ManagerCall (op : Manager.Op).

Definition step (s : t) (c : Call) : t :=
  match c with
  | CallStart => start s
  | CallStop => stop s
  | CallSyncNow fetched nowIso => snd (doSync s fetched nowIso)
  | TimerFires fetched nowIso =>
      match syncTimer s with
      | Some _ => onTimer s fetched nowIso
      | None => s
      end
  | ManagerCall op => set_manager s (Manager.step (manager s) op)
  end.

Definition run (s : t) (calls : list Call) : t := fold_left step calls s.

(** The two methods of the manager that report on syncs. *)
Definition reports_sync (op : Manager.Op) : bool :=
  match op with
  | Manager.OpUpdateUserConfigs _ _ | Manager.OpRecordSyncFailure _ => true
  | _ => false
  end.

(** No other party reports on syncs. *)
Definition sole_reporter (c : Call) : bool :=
  match c with
  | ManagerCall op => negb (reports_sync op)
  | _ => true
  end.

(** A timer is armed exactly when the service runs, no sync is marked in
    progress, and every alert carries a count that reached the threshold. *)
Definition armed_iff_running (s : ConfigSync.t) : Prop :=
  (isRunning s = true <-> is_Some (syncTimer s))
  /\ isSyncing s = false
  /\ Forall (fun a => alertThreshold (options s) <= a) (alerts s).

(** The retry delay as a function of the failure count. *)
Definition backoff_closed (s : ConfigSync.t) : Prop :=
  0 <= consecutiveFailures s
  /\ currentRetryDelay s
     = Z.min (initialRetryDelayMs (options s) * 2 ^ consecutiveFailures s)
         (maxRetryDelayMs (options s)).

End SyncService.

(* ------------------------------------------------------------------ *)
(** ** Gateway tokens of a connection (gateway/multi-tenant/auth.ts) *)

Module GatewayAuth.
Import Manager.

(** The class [\s] of a regular expression, which is also what
    [String.prototype.trim] removes: white space and line terminators. *)
Definition is_line_terminator (c : N) : bool :=
  N.eqb c 10 || N.eqb c 13 || N.eqb c 8232 || N.eqb c 8233.

Definition is_space (c : N) : bool :=
  N.eqb c 9 || N.eqb c 11 || N.eqb c 12 || N.eqb c 32 || N.eqb c 160
  || N.eqb c 5760 || (N.leb 8192 c && N.leb c 8202) || N.eqb c 8239
  || N.eqb c 8287 || N.eqb c 12288 || N.eqb c 65279
  || is_line_terminator c.

Fixpoint trimStart (s : jsstring) : jsstring :=
  match s with
  | c :: r => if is_space c then trimStart r else s
  | [] => []
  end.

Definition trim (s : jsstring) : jsstring := rev (trimStart (rev (trimStart s))).

(** Equality of two code units under the flag [i] of a regular expression
    without the flag [u]: the upper-case forms are compared, and a code unit
    outside ASCII never equals one inside.  The pattern letters at hand are
    ASCII letters. *)
Definition upper (c : N) : N :=
  if N.leb 97 c && N.leb c 122 then (c - 32)%N else c.

Fixpoint strip_prefix_ci (pattern s : jsstring) : option jsstring :=
  match pattern, s with
  | [], _ => Some s
  | p :: pattern, c :: s =>
      if N.eqb (upper p) (upper c) then strip_prefix_ci pattern s else None
  | _ :: _, [] => None
  end.

(** [.+$]: a non-empty rest of the input without line terminator. *)
Definition dot_plus_to_end (r : jsstring) : bool :=
  truthy r && forallb (fun c => negb (is_line_terminator c)) r.

(** [\s+(.+)$] after the prefix: the greedy [\s+] gives back one code unit
    at a time, down to one, until the rest matches [(.+)$]; [k] is what it
    still holds. *)
Fixpoint spaces_then_capture (k : nat) (rest : jsstring) : option jsstring :=
  match k with
  | O => None
  | S k' =>
      if dot_plus_to_end (drop k rest) then Some (drop k rest)
      else spaces_then_capture k' rest
  end.

Fixpoint span_spaces (s : jsstring) : nat :=
  match s with
  | c :: r => if is_space c then S (span_spaces r) else O
  | [] => O
  end.

(** Group 1 of [authHeader.match(/^Bearer\s+(.+)$/i)], if the header
    matches. *)
Definition bearer_capture (authHeader : jsstring) : option jsstring :=
  match strip_prefix_ci (js "Bearer") authHeader with
  | Some rest => spaces_then_capture (span_spaces rest) rest
  | None => None
  end.

(** A header of [req.headers]: absent, one string, or an array of
    strings. *)
Inductive HeaderValue :=
| HeaderAbsent
| HeaderText (value : jsstring)
| HeaderList (values : list jsstring).

(** What [extractGatewayToken] reads of a request.  [query_gateway_token]
    is [new URL(req.url, base).searchParams.get "gateway_token"]: [None]
    when there is no url, when the url is rejected, and when the parameter
    is absent. *)
Record Request := mkRequest {
  x_gateway_token : HeaderValue;
  authorization : option jsstring;
  query_gateway_token : option jsstring;
}.

Definition extractGatewayToken (req : option Request) : option jsstring :=
  match req with
  | None => None
  | Some req =>
      let fromHeader :=
        match x_gateway_token req with
        | HeaderText gatewayTokenHeader =>
            if truthy (trim gatewayTokenHeader) then Some (trim gatewayTokenHeader)
            else None
        | _ => None
        end in
      match fromHeader with
      | Some t => Some t
      | None =>
          let fromBearer :=
            match authorization req with
            | Some authHeader =>
                match bearer_capture authHeader with
                | Some group => if truthy group then Some (trim group) else None
                | None => None
                end
            | None => None
            end in
          match fromBearer with
          | Some t => Some t
          | None =>
              match query_gateway_token req with
              | Some tokenParam =>
                  if truthy tokenParam then Some (trim tokenParam) else None
              | None => None
              end
          end
      end
  end.

(** The credentials of a connect frame; [None] is a missing member. *)
Record ConnectAuth := mkConnectAuth {
  connect_token : option jsstring;
  connect_password : option jsstring;
  connect_gatewayToken : option jsstring;
}.

Definition truthy_opt (s : option jsstring) : bool :=
  match s with Some s => truthy s | None => false end.

Definition isMultiTenantAuthAttempt (req : option Request)
    (connectAuth : option ConnectAuth) : bool :=
  if truthy_opt (connectAuth ≫= connect_gatewayToken) then true
  else if truthy_opt (extractGatewayToken req) then true
  else false.

(** [{ ...existingAuth, gatewayToken: gatewayToken ?? existingAuth?.gatewayToken }] *)
Definition buildConnectAuthFromRequest (req : Request)
    (existingAuth : option ConnectAuth) : ConnectAuth :=
  {| connect_token := existingAuth ≫= connect_token;
     connect_password := existingAuth ≫= connect_password;
     connect_gatewayToken :=
       match extractGatewayToken (Some req) with
       | Some gatewayToken => Some gatewayToken
       | None => existingAuth ≫= connect_gatewayToken
       end |}.

(** The value of [multiTenantManager.authenticateToken(token)] where
    [authorizeGatewayConnectMultiTenant] calls it, which is without
    [await].  The synchronous method returns the user id or [null].  The
    asynchronous method returns a Promise: an object, truthy whatever it
    settles to; [Pending settled] is that Promise and [settled] what it
    settles to. *)
Inductive AuthenticateTokenValue :=
| Immediate (userId : option jsstring)
| Pending (settled : completion (option jsstring)).

(** The method that the manager has, and what the asynchronous one
    consults. *)
Inductive AuthenticateTokenMethod :=
| LocalLookup
| RemoteVerify (G : Globals) (reply : VerifyReply) (mkdirOk : bool) (now : Z)
    (nowIso : jsstring).

(** The call; the effects of the asynchronous method on the manager are
    those of the whole call, one transition as everywhere. *)
Definition callAuthenticateToken (method : AuthenticateTokenMethod) (m : Manager.t)
    (token : jsstring) : AuthenticateTokenValue * Manager.t :=
  match method with
  | LocalLookup =>
      let '(userId, m) := authenticateTokenSync m token in (Immediate userId, m)
  | RemoteVerify G reply mkdirOk now nowIso =>
      let '(settled, m) := authenticateToken G m token reply mkdirOk now nowIso in
      (Pending settled, m)
  end.

(** The member [userId] of an accepted result: declared a string, it is
    whatever the call evaluated to. *)
Inductive UserIdValue :=
| UserIdString (userId : jsstring)
| UserIdPromise (settled : completion (option jsstring)).

Section WithStandardAuth.
(** [authorizeGatewayConnect] of [gateway/auth.ts] is outside the sources
    at hand: it is taken as a function of the credentials it is handed,
    the other arguments being passed on as they came. *)
Context {GatewayAuthResult : Type}.
Variable authorizeGatewayConnect :
  option (option jsstring * option jsstring) -> GatewayAuthResult.

Inductive MultiTenantAuthResult :=
| GatewayTokenAccepted (userId : UserIdValue)  (* ok, method "gateway-token", userId *)
| GatewayTokenInvalid                       (* not ok, reason "gateway_token_invalid" *)
| StandardResult (r : GatewayAuthResult).   (* the standard result, userId undefined *)

Definition authorizeGatewayConnectMultiTenant (method : AuthenticateTokenMethod)
    (connectAuth : option ConnectAuth) (multiTenantManager : option Manager.t)
  : MultiTenantAuthResult * option Manager.t :=
  let gatewayToken := connectAuth ≫= connect_gatewayToken in
  match multiTenantManager, gatewayToken with
  | Some m, Some token =>
      if truthy token then
        match callAuthenticateToken method m token with
        | (Immediate (Some userId), m) =>
            if truthy userId then (GatewayTokenAccepted (UserIdString userId), Some m)
            else (GatewayTokenInvalid, Some m)
        | (Immediate None, m) => (GatewayTokenInvalid, Some m)
        | (Pending settled, m) => (GatewayTokenAccepted (UserIdPromise settled), Some m)
        end
      else
        (StandardResult
           (authorizeGatewayConnect
              (match connectAuth with
               | Some c => Some (connect_token c, connect_password c)
               | None => None
               end)),
         multiTenantManager)
  | _, _ =>
      (StandardResult
         (authorizeGatewayConnect
            (match connectAuth with
             | Some c => Some (connect_token c, connect_password c)
             | None => None
             end)),
       multiTenantManager)
  end.
End WithStandardAuth.
Arguments MultiTenantAuthResult GatewayAuthResult : clear implicits.

End GatewayAuth.

(* ------------------------------------------------------------------ *)
(** ** The shape of normalized paths *)

Module PathShape.
Import Path.

(** The stacks that [normalizeString] builds: some [".."] segments, only
    when the path is relative, then plain segments. *)
Definition normal_stack (allowAboveRoot : bool) (st : list jsstring) : Prop :=
  exists k ps,
    st = repeat [DOT; DOT] k ++ ps /\ Forall plain ps
    /\ (allowAboveRoot = false -> k = 0%nat).

(** A normalized path that ends in a plain segment. *)
Definition normal_path (p : jsstring) : Prop :=
  exists (absolute : bool) st x,
    normal_stack (negb absolute) st /\ plain x
    /\ p = (if absolute then [SLASH] else []) ++ intercalate [SLASH] (st ++ [x]).

End PathShape.

(* ------------------------------------------------------------------ *)
(** ** The directories of a tenant *)

Module TenantDirs.
Import Manager AgentContext.

Section Roots.
Variable workspaceRoot : jsstring.

Definition getUserAgentDir (userId : jsstring) : completion jsstring :=
  workspacePath <- getUserWorkspacePath workspaceRoot userId ;;;
  Return (Path.join [workspacePath; js "agent"]).

Definition getUserSessionsPath (userId : jsstring) : completion jsstring :=
  workspacePath <- getUserWorkspacePath workspaceRoot userId ;;;
  Return (Path.join [workspacePath; js "sessions"]).

Definition getUserMemoryPath (userId : jsstring) : completion jsstring :=
  workspacePath <- getUserWorkspacePath workspaceRoot userId ;;;
  Return (Path.join [workspacePath; js "memory"]).
End Roots.

(** [memoryDir] and [sessionsDir] of a resolver, which [getMemoryPath] and
    [getSessionsPath] return. *)
Definition memoryDir (workspacePath : jsstring) : jsstring :=
  Path.join [workspacePath; js "memory"].

Definition sessionsDir (workspacePath : jsstring) : jsstring :=
  Path.join [workspacePath; js "sessions"].

Record AgentPaths := mkAgentPaths {
  workspaceDir : jsstring;
  agentDir : jsstring;
  sessionsPath : jsstring;
  memoryPath : jsstring;
}.

Definition extractAgentPaths (context : MultiTenantAgentContext) : AgentPaths := {|
  workspaceDir := ctx_workspacePath context;
  agentDir := ctx_agentDir context;
  sessionsPath := sessionsDir (resolver_workspacePath (ctx_workspaceResolver context));
  memoryPath := memoryDir (resolver_workspacePath (ctx_workspaceResolver context));
|}.

End TenantDirs.

(* ------------------------------------------------------------------ *)
(** ** The resolver on a disk that changes (agents/workspace-resolver.ts) *)

Module ResolverFiles.
Import Resolver.

(** [try { await fs.access(p) } catch {}]: whether the call succeeds.  Every
    failure is swallowed alike: a missing name, a name that cannot be looked
    up, a path that node:fs refuses. *)
Definition access (fs : gmap jsstring fsnode) (p : jsstring) : bool :=
  if hasNullByte p then false
  else
    match fs !! diskName p with
    | Some (File _) => true
    | Some Unreadable => true
    | Some Unreachable => false
    | None => false
    end.

(** The disk answers for [p]: the name is absent or it exists. *)
Definition answers (fs : gmap jsstring fsnode) (p : jsstring) : Prop :=
  hasNullByte p = false /\ fs !! diskName p <> Some Unreachable.

(** What the operating system does with [ensureDir] followed by
    [fs.writeFile]: it takes the file, after the directories of disk names
    [created] had to be made; or one of the two fails and leaves the disk
    as [after]. *)
Inductive WriteOutcome :=
| Written (created : list jsstring)
| WriteFails (after : gmap jsstring fsnode).

Definition mkdirs (created : list jsstring) (fs : gmap jsstring fsnode)
  : gmap jsstring fsnode :=
  fold_right (fun d acc => <[d := Unreadable]> acc) fs created.

(** An ordinary name: one plain path segment that UTF-8 keeps as it is. *)
Definition ordinary (x : jsstring) : Prop :=
  Path.plain x /\ toWellFormed x = x.

(** The read gave something other than [null]. *)
Definition has_content (r : completion (option JsValue)) : bool :=
  match r with Return (Some _) => true | _ => false end.

(** The read gave a string or [null]. *)
Definition string_or_null (r : completion (option JsValue)) : Prop :=
  match r with
  | Return (Some (JsString _)) => True
  | Return None => True
  | _ => False
  end.

Section WithResolver.
Variable names : BootstrapNames.
Variable workspacePath : jsstring.
Variable templatePath : jsstring.

Definition resolveFilePath (fs : gmap jsstring fsnode) (filename : jsstring)
  : option jsstring :=
  let safeName := Path.basename filename in
  let customPath := Path.join [customDir workspacePath; safeName] in
  if access fs customPath then Some customPath
  else
    let templateFilePath := Path.join [templatePath; safeName] in
    if access fs templateFilePath then Some templateFilePath
    else if DEFAULT_FILE_CONTENT_in names safeName
         then Some (js "builtin:" ++ safeName)
         else None.

(** [writeWorkspaceFile]; the declared type of [content] is [string], and
    [initializeUserWorkspace] passes on whatever it has read.
    [fs.writeFile] refuses data that is no string and a path with a null
    byte, after [ensureDir] has run; a string is stored as its UTF-8
    encoding. *)
Definition writeWorkspaceFile (fs : gmap jsstring fsnode) (filename : jsstring)
    (content : JsValue) (outcome : WriteOutcome)
  : completion unit * gmap jsstring fsnode :=
  let safeName := Path.basename filename in
  let filePath := Path.join [customDir workspacePath; safeName] in
  if hasNullByte (customDir workspacePath) then (Throw InvalidArg, fs)
  else
    match outcome with
    | Written created =>
        match content with
        | JsString text =>
            if hasNullByte filePath then (Throw InvalidArg, mkdirs created fs)
            else (Return tt,
                  <[diskName filePath := File (toWellFormed text)]> (mkdirs created fs))
        | PrototypeMember _ => (Throw InvalidArg, mkdirs created fs)
        end
    | WriteFails after => (Throw IOFault, after)
    end.

(** The loop of [initializeUserWorkspace]; [outcome k] is how the write of
    the file at position [k] of the list ends, if it is attempted. *)
Fixpoint copyFiles (fs : gmap jsstring fsnode) (filesToCopy : list jsstring)
    (k : nat) (outcome : nat -> WriteOutcome) (copiedFiles : list jsstring)
  : completion (list jsstring) * gmap jsstring fsnode :=
  match filesToCopy with
  | [] => (Return copiedFiles, fs)
  | filename :: rest =>
      match readWorkspaceFile names workspacePath templatePath fs filename with
      | Throw e => (Throw e, fs)
      | Return None => copyFiles fs rest (S k) outcome copiedFiles
      | Return (Some content) =>
          match writeWorkspaceFile fs filename content (outcome k) with
          | (Throw e, fs) => (Throw e, fs)
          | (Return _, fs) => copyFiles fs rest (S k) outcome (copiedFiles ++ [filename])
          end
      end
  end.

(** [initializeUserWorkspace]; [files] is [options.files], an empty array
    included, and [existingFiles] is what [listFiles "custom"] returns. *)
Definition initializeUserWorkspace (fs : gmap jsstring fsnode) (onlyIfEmpty : bool)
    (files : option (list jsstring)) (existingFiles : list jsstring)
    (outcome : nat -> WriteOutcome)
  : completion (list jsstring) * gmap jsstring fsnode :=
  let filesToCopy :=
    match files with
    | Some files => files
    | None =>
        [DEFAULT_AGENTS_FILENAME names; DEFAULT_SOUL_FILENAME names;
         DEFAULT_TOOLS_FILENAME names; DEFAULT_IDENTITY_FILENAME names;
         DEFAULT_USER_FILENAME names; DEFAULT_HEARTBEAT_FILENAME names]
    end in
  if onlyIfEmpty && (0 <? length existingFiles)%nat then (Return [], fs)
  else copyFiles fs filesToCopy 0 outcome [].

(** No directory made by a write is a name that the resolver reads for
    [filename]. *)
Definition undisturbed (outcome : nat -> WriteOutcome) (filename : jsstring) : Prop :=
  forall k, exists created,
    outcome k = Written created
    /\ ~ In (diskName (customPathOf workspacePath filename)) created
    /\ ~ In (diskName (templateFilePathOf templatePath filename)) created.

End WithResolver.

End ResolverFiles.

(* ------------------------------------------------------------------ *)
(** ** Workspace setup (gateway/multi-tenant/workspace-setup.ts) *)

Module WorkspaceSetup.

(** The path functions of this module take the user id as it comes. *)
Definition getUserWorkspacePath (workspaceRoot userId : jsstring) : jsstring :=
  Path.join [workspaceRoot; js "users"; userId].

Definition getUserAgentPath (workspaceRoot userId : jsstring) : jsstring :=
  Path.join [getUserWorkspacePath workspaceRoot userId; js "agent"].

End WorkspaceSetup.

(* ------------------------------------------------------------------ *)
(** ** Running an agent for a tenant (agents/pi-embedded-runner/run-multi-tenant.ts) *)

Module AgentRun.
Import Manager AgentContext TenantDirs.

Section WithRunner.
(** [Base] stands for the parameters of a run other than the three that a
    tenant context overrides, [Result] for [EmbeddedPiRunResult]. *)
Context {Base Result : Type}.

Record RunParams := mkRunParams {
  run_workspaceDir : jsstring;
  run_agentDir : jsstring;
  run_config : OpenClawConfig;
  run_base : Base;
}.

(** [runEmbeddedPiAgent] of [./run.js] is outside the sources at hand: it
    is given by its outcome and by what happens to the manager while it
    runs. *)
Variable runEmbeddedPiAgent : RunParams -> Manager.t -> completion Result * Manager.t.

(** The result carries the [userId] of the context. *)
Definition runMultiTenantAgent (m : Manager.t) (multiTenantContext : MultiTenantAgentContext)
    (baseParams : Base) (now1 now2 : Z)
  : completion (Result * option jsstring) * Manager.t :=
  let paths := extractAgentPaths multiTenantContext in
  match wrapWithPendingRequests m (ctx_userId multiTenantContext)
          (runEmbeddedPiAgent
             {| run_workspaceDir := workspaceDir paths;
                run_agentDir := agentDir paths;
                run_config := ctx_config multiTenantContext;
                run_base := baseParams |})
          now1 now2 with
  | (Return result, m) => (Return (result, Some (ctx_userId multiTenantContext)), m)
  | (Throw e, m) => (Throw e, m)
  end.

Definition is_active (s : UserStatus) : bool :=
  match s with active => true | _ => false end.

Definition shouldUseMultiTenantMode (context : option MultiTenantAgentContext) : bool :=
  match context with
  | None => false
  | Some context => is_active (status (ctx_userInstance context))
  end.

(** A result of the standard mode carries no [userId]. *)
Definition runAgentAutoMode (m : Manager.t) (params : RunParams)
    (multiTenantContext : option MultiTenantAgentContext) (now1 now2 : Z)
  : completion (Result * option jsstring) * Manager.t :=
  match multiTenantContext with
  | Some context =>
      if shouldUseMultiTenantMode multiTenantContext
      then runMultiTenantAgent m context (run_base params) now1 now2
      else
        match runEmbeddedPiAgent params m with
        | (Return result, m) => (Return (result, None), m)
        | (Throw e, m) => (Throw e, m)
        end
  | None =>
      match runEmbeddedPiAgent params m with
      | (Return result, m) => (Return (result, None), m)
      | (Throw e, m) => (Throw e, m)
      end
  end.
End WithRunner.

End AgentRun.

(* ------------------------------------------------------------------ *)
(** ** Monitor (gateway/multi-tenant/monitor.ts) *)

Module Monitor.
Import Manager.

Record Options := mkOptions {
  statsIntervalMs : Z;
  memoryWarningThresholdMb : Z;
  activeUsersWarningPercent : Z;
  syncFailureAlertThreshold : Z;
}.

(** The defaults of the constructor. *)
Definition DEFAULT_OPTIONS : Options := {|
  statsIntervalMs := 60000;
  memoryWarningThresholdMb := 512;
  activeUsersWarningPercent := 80;
  syncFailureAlertThreshold := 3;
|}.

Inductive AlertSeverity := info | warning | error | critical.

(** What the monitor does on an event: an alert, handed to the logger and
    to every handler, or a plain log line. *)
Inductive Effect :=
| SyncAlert (severity : AlertSeverity) (message : jsstring) (consecutiveFailures : Z)
| LogLine (level : LogLevel).

Definition handleManagerEvent (options : Options) (event : MultiTenantManagerEvent)
  : list Effect :=
  match event with
  | SyncFailed message consecutiveFailures =>
      if syncFailureAlertThreshold options <=? consecutiveFailures
      then [SyncAlert error message consecutiveFailures]
      else []
  | UserSuspended _ => [LogLine LogWarn]
  | UserExpired _ => [LogLine LogWarn]
  | UserEvicted _ _ => [LogLine LogInfo]
  | _ => []
  end.

(** The monitor listens to the manager from its construction on: it
    handles the events in the order of their emission. *)
Definition observe (options : Options) (trace : list Manager.Effect) : list Effect :=
  flat_map (fun e => match e with
                     | Emit event => handleManagerEvent options event
                     | _ => []
                     end) trace.

(** The counts [1; ...; k] that reach the threshold [t]. *)
Definition reached (t : Z) (k : nat) : list Z :=
  List.filter (fun n => t <=? n) (List.map Z.of_nat (seq 1 k)).

End Monitor.

(* ------------------------------------------------------------------ *)
(** ** The cache of the global configuration (config/multi-tenant.ts) *)

Module GlobalConfig.

Section WithConfig.
(** [Config] stands for [OpenClawConfigWithMultiTenant], [emptyConfig] for
    the object without members. *)
Context {Config : Type}.
Variable emptyConfig : Config.

Record Cache := mkCache {
  cached_config : Config;
  loadedAt : Z;
  cached_path : option jsstring;
}.

Definition GLOBAL_CONFIG_CACHE_TTL_MS : Z := 60000.

(** [loadGlobalConfig]: [found] is what [findGlobalConfigPath] returns and
    [parsed] how reading and parsing that file ends; both are looked at
    only when the cache does not answer. *)
Definition loadGlobalConfig (globalConfigCache : option Cache) (now : Z)
    (found : option jsstring) (parsed : completion Config)
  : Config * option Cache :=
  let reload :=
    match found with
    | None => (emptyConfig, Some (mkCache emptyConfig now None))
    | Some configPath =>
        match parsed with
        | Return config => (config, Some (mkCache config now (Some configPath)))
        | Throw _ => (emptyConfig, Some (mkCache emptyConfig now (Some configPath)))
        end
    end in
  match globalConfigCache with
  | Some cache =>
      if now - loadedAt cache <? GLOBAL_CONFIG_CACHE_TTL_MS
      then (cached_config cache, globalConfigCache)
      else reload
  | None => reload
  end.

Definition clearGlobalConfigCache (globalConfigCache : option Cache) : option Cache :=
  None.

End WithConfig.

End GlobalConfig.

(* ================================================================== *)
(** * Properties *)

(** ** Tenant paths *)

Section PairInduction.
Context {A : Type} (P : list A -> Prop).
Hypothesis Hnil : P [].
Hypothesis Hone : forall a, P [a].
Hypothesis Htwo : forall a b r, P r -> P (b :: r) -> P (a :: b :: r).

Lemma list_pair_ind : forall l, P l.
Proof.
  assert (H : forall l, P l /\ forall a, P (a :: l)).
  { induction l as [|b r [IH1 IH2]]; split; auto. }
  intro l. apply H.
Qed.
End PairInduction.

Lemma is_dot_eq c : is_dot c = true -> c = DOT.
Proof. unfold is_dot. apply N.eqb_eq. Qed.

Lemma remove_dotdot_two a b r :
  remove_dotdot (a :: b :: r)
  = if is_dot a && is_dot b then remove_dotdot r else a :: remove_dotdot (b :: r).
Proof. reflexivity. Qed.

Lemma remove_dotdot_cons_other c s :
  is_dot c = false -> remove_dotdot (c :: s) = c :: remove_dotdot s.
Proof. intros Hc. destruct s as [|b r]; simpl; [done | by rewrite Hc]. Qed.

Lemma remove_dotdot_app_other s1 c s2 :
  is_dot c = false ->
  remove_dotdot (s1 ++ c :: s2) = remove_dotdot s1 ++ c :: remove_dotdot s2.
Proof.
  intros Hc. induction s1 as [|a|a b r IHr IHbr] using list_pair_ind.
  - by apply remove_dotdot_cons_other.
  - change ([a] ++ c :: s2) with (a :: c :: s2).
    rewrite remove_dotdot_two, Hc, andb_false_r.
    by rewrite remove_dotdot_cons_other.
  - change ((a :: b :: r) ++ c :: s2) with (a :: b :: (r ++ c :: s2)).
    rewrite !remove_dotdot_two. destruct (is_dot a && is_dot b); [exact IHr |].
    change (b :: r ++ c :: s2) with ((b :: r) ++ c :: s2). by rewrite IHbr.
Qed.

Lemma remove_dotdot_app_dotdot s1 s2 :
  remove_dotdot (s1 ++ DOT :: DOT :: s2) = remove_dotdot (s1 ++ s2).
Proof.
  induction s1 as [|a|a b r IHr IHbr] using list_pair_ind.
  - reflexivity.
  - change ([a] ++ DOT :: DOT :: s2) with (a :: DOT :: DOT :: s2).
    change ([a] ++ s2) with (a :: s2).
    destruct (is_dot a) eqn:Ha.
    + apply is_dot_eq in Ha. subst a. reflexivity.
    + rewrite !(remove_dotdot_cons_other a) by done. reflexivity.
  - change ((a :: b :: r) ++ DOT :: DOT :: s2) with (a :: b :: (r ++ DOT :: DOT :: s2)).
    change ((a :: b :: r) ++ s2) with (a :: b :: (r ++ s2)).
    rewrite !remove_dotdot_two. destruct (is_dot a && is_dot b); [exact IHr |].
    f_equal. exact IHbr.
Qed.

Lemma separator_not_dot c : is_separator c = true -> is_dot c = false.
Proof.
  unfold is_separator, is_dot. intros H.
  apply orb_true_iff in H as [H|H]; apply N.eqb_eq in H; subst; reflexivity.
Qed.

Lemma sanitized_drops_separator s1 c s2 :
  is_separator c = true -> sanitized (s1 ++ c :: s2) = sanitized s1 ++ sanitized s2.
Proof.
  intros Hc. unfold sanitized, remove_separators, replace_disallowed.
  rewrite remove_dotdot_app_other by (by apply separator_not_dot).
  rewrite List.filter_app. cbn [List.filter]. rewrite Hc. cbn [negb].
  by rewrite List.map_app.
Qed.

Lemma sanitized_drops_dotdot s1 s2 :
  sanitized (s1 ++ DOT :: DOT :: s2) = sanitized (s1 ++ s2).
Proof. unfold sanitized. by rewrite remove_dotdot_app_dotdot. Qed.

Lemma sanitized_maps_other s1 c s2 :
  is_separator c = false -> is_dot c = false ->
  sanitized (s1 ++ c :: s2)
  = sanitized s1 ++ (if is_id_char c then c else UNDERSCORE) :: sanitized s2.
Proof.
  intros Hsep Hdot. unfold sanitized, remove_separators, replace_disallowed.
  rewrite remove_dotdot_app_other by done.
  rewrite List.filter_app. cbn [List.filter]. rewrite Hsep. cbn [negb].
  by rewrite List.map_app.
Qed.

Lemma sanitized_id_chars s : Forall (fun c => is_id_char c = true) (sanitized s).
Proof.
  unfold sanitized, replace_disallowed.
  induction (remove_separators (remove_dotdot s)) as [|c r IH]; constructor; [|exact IH].
  destruct (is_id_char c) eqn:Hc; [exact Hc | reflexivity].
Qed.

Lemma sanitizeUserId_Return s r :
  sanitizeUserId s = Return r ->
  r = sanitized s /\ r <> [] /\ (length r <= 128)%nat.
Proof.
  unfold sanitizeUserId. destruct (sanitized s) as [|c t] eqn:E; [discriminate |].
  change (negb (truthy (c :: t)) || (length (c :: t) =? 0)%nat) with false.
  cbv iota.
  destruct (128 <? length (c :: t))%nat eqn:Hl; [discriminate |].
  intros [= <-]. apply Nat.ltb_ge in Hl. done.
Qed.

Lemma sanitizeUserId_throws_iff s :
  throws (sanitizeUserId s) <-> sanitized s = [] \/ (128 < length (sanitized s))%nat.
Proof.
  unfold sanitizeUserId. destruct (sanitized s) as [|c t] eqn:E.
  - simpl. split; auto.
  - change (negb (truthy (c :: t)) || (length (c :: t) =? 0)%nat) with false.
    cbv iota.
    destruct (128 <? length (c :: t))%nat eqn:Hl; simpl.
    + apply Nat.ltb_lt in Hl. split; auto.
    + apply Nat.ltb_ge in Hl. split; [done |]. intros [?|?]; [done | simpl in *; lia].
Qed.

(** C6 (as amended).  [sanitizeUserId] fails exactly when the sanitized
    string is empty or longer than 128 code units, and otherwise returns it;
    the returned id is made of [A-Za-z0-9_-] only.  The sanitized string is
    obtained by deleting every [".."] and every path separator, and by
    mapping each other character outside [A-Za-z0-9_-] to ['_']. *)
Theorem sanitizeUserId_spec (s : jsstring) :
  (throws (sanitizeUserId s) <->
     sanitized s = [] \/ (128 < length (sanitized s))%nat)
  /\ (forall r, sanitizeUserId s = Return r ->
        r = sanitized s /\ Forall (fun c => is_id_char c = true) r
        /\ (1 <= length r <= 128)%nat)
  /\ (forall s1 s2 c, s = s1 ++ c :: s2 -> is_separator c = true ->
        sanitized s = sanitized s1 ++ sanitized s2)
  /\ (forall s1 s2, s = s1 ++ DOT :: DOT :: s2 -> sanitized s = sanitized (s1 ++ s2))
  /\ (forall s1 s2 c, s = s1 ++ c :: s2 -> is_separator c = false -> is_dot c = false ->
        sanitized s = sanitized s1 ++ (if is_id_char c then c else UNDERSCORE) :: sanitized s2).
Proof.
  split; [apply sanitizeUserId_throws_iff |].
  split.
  { intros r Hr. apply sanitizeUserId_Return in Hr as (-> & Hne & Hlen).
    split; [done |]. split; [apply sanitized_id_chars |].
    destruct (sanitized s); [done | simpl in *; lia]. }
  split; [intros s1 s2 c -> Hc; by apply sanitized_drops_separator |].
  split; [intros s1 s2 ->; apply sanitized_drops_dotdot |].
  intros s1 s2 c -> H1 H2. by apply sanitized_maps_other.
Qed.

(** C6, the claim as worded fails: the separator of ["a/b"] is deleted, not
    mapped to ['_']. *)
Lemma sanitizeUserId_separator_not_mapped :
  sanitizeUserId (js "a/b") = Return (js "ab")
  /\ SpecWords.spec_sanitized (js "a/b") = js "a_b"
  /\ sanitizeUserId (js "a/b") <> Return (SpecWords.spec_sanitized (js "a/b")).
Proof. repeat split; [reflexivity.. | discriminate]. Qed.

(** C6 on an id that tries to climb out of the users directory: the dots
    and the separators are gone, the blank became ['_']. *)
Lemma sanitizeUserId_spec_witness :
  sanitizeUserId (js "../../etc/pass wd") = Return (js "etcpass_wd")
  /\ Forall (fun c => is_id_char c = true) (js "etcpass_wd")
  /\ throws (sanitizeUserId (js "../.."))
  /\ sanitized (js "a/b") = sanitized (js "a") ++ sanitized (js "b").
Proof.
  destruct (sanitizeUserId_spec (js "../../etc/pass wd")) as (_ & H2 & _).
  destruct (H2 (js "etcpass_wd") eq_refl) as (_ & Hchars & _).
  destruct (sanitizeUserId_spec (js "../..")) as (H1 & _).
  destruct (sanitizeUserId_spec (js "a/b")) as (_ & _ & H3 & _).
  split; [reflexivity |]. split; [exact Hchars |]. split.
  - apply H1. left. reflexivity.
  - exact (H3 (js "a") (js "b") SLASH eq_refl eq_refl).
Defined.

(** *** Paths built from a sanitized id *)

Lemma split_slash_plain x :
  Forall (fun c => c <> SLASH) x -> Path.split_slash x = [x].
Proof.
  induction 1 as [|c r Hc _ IH]; [reflexivity |].
  cbn [Path.split_slash]. apply N.eqb_neq in Hc. by rewrite Hc, IH.
Qed.

Lemma split_slash_nonempty p : Path.split_slash p <> [].
Proof.
  destruct p as [|c r]; [done |]. cbn [Path.split_slash].
  destruct (N.eqb c SLASH); [done |]. by destruct (Path.split_slash r).
Qed.

Lemma split_slash_snoc p x :
  Forall (fun c => c <> SLASH) x ->
  Path.split_slash (p ++ SLASH :: x) = Path.split_slash p ++ [x].
Proof.
  intros Hx. induction p as [|c r IH].
  - cbn. by rewrite split_slash_plain.
  - cbn [app Path.split_slash]. destruct (N.eqb c SLASH); rewrite IH; [done |].
    pose proof (split_slash_nonempty r).
    destruct (Path.split_slash r); [done | reflexivity].
Qed.

Lemma push_segment_plain b st x : Path.plain x -> Path.push_segment b st x = st ++ [x].
Proof.
  intros (H1 & _ & H2 & H3). unfold Path.push_segment.
  by rewrite !decide_False.
Qed.

Lemma intercalate_snoc sep st x :
  intercalate sep (st ++ [x])
  = match st with [] => x | _ => intercalate sep st ++ sep ++ x end.
Proof.
  induction st as [|a r IH]; [reflexivity |].
  destruct r as [|b r]; [reflexivity |].
  change (intercalate sep ((a :: b :: r) ++ [x]))
    with (a ++ sep ++ intercalate sep ((b :: r) ++ [x])).
  rewrite IH. cbn [intercalate]. by rewrite <- !app_assoc.
Qed.

Lemma intercalate_snoc_nonempty sep st x : x <> [] -> intercalate sep (st ++ [x]) <> [].
Proof.
  intros Hx. rewrite intercalate_snoc. destruct st; [done |].
  intros H. apply app_eq_nil in H as [_ H]. apply app_eq_nil in H as [_ H]. done.
Qed.

Lemma last_plain_not_slash (x : jsstring) :
  x <> [] -> Forall (fun c => c <> SLASH) x ->
  match last x with Some c => N.eqb c SLASH | None => false end = false.
Proof.
  intros Hne Hx. destruct (last x) as [c|] eqn:E; [|reflexivity].
  apply N.eqb_neq. apply last_Some_elem_of in E.
  rewrite Forall_forall in Hx. by apply Hx.
Qed.

(** The normal form of a path whose last component is plain: no trailing
    slash is added, and the component is the last one kept. *)
Lemma normalize_ends_plain q segs x :
  q <> [] -> Path.plain x ->
  Path.split_slash q = segs ++ [x] ->
  Path.trailingSeparator q = false ->
  Path.normalize q
  = (if Path.isAbsolute q then [SLASH] else [])
      ++ intercalate [SLASH]
           (fold_left (Path.push_segment (negb (Path.isAbsolute q))) segs [] ++ [x]).
Proof.
  intros Hq Hx Hsplit Htrail. unfold Path.normalize.
  destruct q as [|c q']; [done |].
  unfold Path.normalizeString. rewrite Hsplit, fold_left_app. cbn [fold_left].
  rewrite push_segment_plain by done. rewrite Htrail.
  pose proof (intercalate_snoc_nonempty [SLASH]
    (fold_left (Path.push_segment (negb (Path.isAbsolute (c :: q')))) segs []) x
    (proj1 Hx)) as Hne.
  destruct (intercalate [SLASH] _) eqn:E; [done |].
  by destruct (Path.isAbsolute (c :: q')).
Qed.

Lemma normalize_child q segs x id :
  q <> [] -> Path.plain x -> Path.plain id ->
  Path.split_slash q = segs ++ [x] ->
  Path.trailingSeparator q = false ->
  Path.normalize (q ++ SLASH :: id) = Path.normalize q ++ SLASH :: id.
Proof.
  intros Hq Hx Hid Hsplit Htrail.
  assert (Habs : Path.isAbsolute (q ++ SLASH :: id) = Path.isAbsolute q)
    by (by destruct q).
  rewrite (normalize_ends_plain (q ++ SLASH :: id) (segs ++ [x]) id); first last.
  - unfold Path.trailingSeparator. rewrite last_app_cons.
    change (last (SLASH :: id)) with (last ([SLASH] ++ id)).
    destruct Hid as (Hne & Hns & _).
    destruct id as [|c r]; [done |]. rewrite last_app_cons.
    by apply last_plain_not_slash.
  - rewrite split_slash_snoc by apply Hid. by rewrite Hsplit.
  - done.
  - by destruct q.
  - rewrite (normalize_ends_plain q segs x) by done.
    rewrite Habs, fold_left_app. cbn [fold_left].
    rewrite push_segment_plain by done.
    rewrite (intercalate_snoc _ (_ ++ [x])).
    destruct (fold_left _ segs [] ++ [x]) eqn:E.
    + by apply app_eq_nil in E as [_ ?].
    + by rewrite <- !app_assoc.
Qed.

Lemma id_chars_plain id :
  id <> [] -> Forall (fun c => is_id_char c = true) id -> Path.plain id.
Proof.
  intros Hne Hid. repeat split; [done | | |].
  - eapply Forall_impl; [exact Hid |]. intros c Hc ->. discriminate.
  - intros ->. by apply Forall_inv in Hid.
  - intros ->. by apply Forall_inv in Hid.
Qed.

Lemma plain_users : Path.plain (js "users").
Proof.
  repeat split; try discriminate.
  repeat (constructor; [discriminate |]). constructor.
Qed.

(** The directory that holds every user workspace, and a workspace in it. *)
Lemma join_users_child root id :
  Path.plain id ->
  Path.join [root; js "users"; id] = Path.join [root; js "users"] ++ SLASH :: id.
Proof.
  intros Hid. pose proof plain_users as Hu.
  assert (Hidne : id <> []) by apply Hid.
  unfold Path.join. destruct root as [|c r].
  - rewrite filter_cons_False by (intros H; by apply H).
    rewrite !filter_cons_True by (done || discriminate). rewrite filter_nil.
    cbn [intercalate]. cbn [app].
    by apply (normalize_child (js "users") [] (js "users")).
  - rewrite !filter_cons_True by (done || discriminate). rewrite filter_nil.
    cbn [intercalate].
    change ((c :: r) ++ [SLASH] ++ js "users" ++ [SLASH] ++ id)
      with ((c :: r) ++ SLASH :: (js "users" ++ SLASH :: id)).
    change ((c :: r) ++ [SLASH] ++ js "users") with ((c :: r) ++ SLASH :: js "users").
    replace ((c :: r) ++ SLASH :: js "users" ++ SLASH :: id)
      with (((c :: r) ++ SLASH :: js "users") ++ SLASH :: id)
      by (by rewrite <- app_assoc).
    apply (normalize_child _ (Path.split_slash (c :: r)) (js "users")); try done.
    + apply split_slash_snoc, Hu.
    + unfold Path.trailingSeparator. by rewrite last_app_cons.
Qed.

(** C7.  For every raw user id, either sanitization fails (and so does the
    path derivation), or the workspace path is the users directory followed
    by ['/'] and one non-empty component made of [A-Za-z0-9_-] only: it has
    no separator and no dot, so the path is a direct child of
    [{workspaceRoot}/users]. *)
Theorem getUserWorkspacePath_inside_users (workspaceRoot s : jsstring) :
  (throws (sanitizeUserId s) /\ throws (getUserWorkspacePath workspaceRoot s))
  \/ exists id,
       sanitizeUserId s = Return id
       /\ getUserWorkspacePath workspaceRoot s
          = Return (Path.join [workspaceRoot; js "users"] ++ SLASH :: id)
       /\ id <> []
       /\ Forall (fun c => is_id_char c = true) id
       /\ ~ In SLASH id /\ ~ In BACKSLASH id /\ ~ In DOT id.
Proof.
  unfold getUserWorkspacePath. destruct (sanitizeUserId s) as [id|e] eqn:E.
  - right. exists id. apply sanitizeUserId_Return in E as (-> & Hne & _).
    pose proof (sanitized_id_chars s) as Hid.
    split; [done |]. split.
    { cbn [bindC]. f_equal. apply join_users_child. by apply id_chars_plain. }
    split; [done |]. split; [done |].
    rewrite Forall_forall in Hid.
    repeat split; intros Hin; apply list_elem_of_In, Hid in Hin; discriminate.
  - left. by split.
Qed.

(** C7 on an id that tries to reach [/etc/passwd], and on one that is
    rejected. *)
Lemma getUserWorkspacePath_inside_users_witness :
  getUserWorkspacePath (js "/data/openclaw/workspaces") (js "../../etc/passwd")
  = Return (js "/data/openclaw/workspaces/users/etcpasswd")
  /\ throws (getUserWorkspacePath (js "/data/openclaw/workspaces") (js "../../"))
  /\ getUserWorkspacePath (js "../ws/") (js "..\..\u-1") = Return (js "../ws/users/u-1").
Proof.
  split; [|split].
  - destruct (getUserWorkspacePath_inside_users (js "/data/openclaw/workspaces")
                (js "../../etc/passwd")) as [[Ht _]|(id & Hs & Hp & _)].
    + vm_compute in Ht. destruct Ht.
    + rewrite Hp. vm_compute in Hs. injection Hs as <-. vm_compute. reflexivity.
  - destruct (getUserWorkspacePath_inside_users (js "/data/openclaw/workspaces")
                (js "../../")) as [[_ Ht]|(id & Hs & _)].
    + exact Ht.
    + vm_compute in Hs. discriminate.
  - destruct (getUserWorkspacePath_inside_users (js "../ws/") (js "..\..\u-1"))
      as [[Ht _]|(id & Hs & Hp & _)].
    + vm_compute in Ht. destruct Ht.
    + rewrite Hp. vm_compute in Hs. injection Hs as <-. vm_compute. reflexivity.
Defined.

(** ** Workspace file resolver *)

Section ResolverFacts.
Import Resolver.
Variable names : BootstrapNames.
Variables workspacePath templatePath : jsstring.

Lemma tryReadFile_null_iff fs p :
  tryReadFile fs p = Return None
  <-> hasNullByte p = false /\ fs !! diskName p = None.
Proof.
  unfold tryReadFile. destruct (hasNullByte p).
  - split; [done | by intros [? _]].
  - destruct (fs !! diskName p) as [[t| |]|]; split; try done; by intros [_ ?].
Qed.

Lemma tryReadFile_file fs p t :
  hasNullByte p = false -> fs !! diskName p = Some (File t) ->
  tryReadFile fs p = Return (Some (toWellFormed t)).
Proof. unfold tryReadFile. by intros -> ->. Qed.

Lemma DEFAULT_FILE_CONTENT_truthy k d :
  DEFAULT_FILE_CONTENT names !! k = Some d -> truthy d = true.
Proof.
  unfold DEFAULT_FILE_CONTENT. intros H.
  repeat (apply lookup_insert_Some in H as [[_ <-]|[_ H]]; [reflexivity |]).
  by rewrite lookup_empty in H.
Qed.

Lemma DEFAULT_FILE_CONTENT_get_truthy k v :
  DEFAULT_FILE_CONTENT_get names k = Some v -> truthy_value v = true.
Proof.
  unfold DEFAULT_FILE_CONTENT_get.
  destruct (DEFAULT_FILE_CONTENT names !! k) as [d|] eqn:E.
  - intros [= <-]. cbn. by apply (DEFAULT_FILE_CONTENT_truthy k).
  - destruct (inherited k); [by intros [= <-] | done].
Qed.

Lemma DEFAULT_FILE_CONTENT_get_None k :
  DEFAULT_FILE_CONTENT_get names k = None
  <-> DEFAULT_FILE_CONTENT names !! k = None /\ inherited k = false.
Proof.
  unfold DEFAULT_FILE_CONTENT_get.
  destruct (DEFAULT_FILE_CONTENT names !! k) as [d|].
  - split; [done | by intros [? _]].
  - destruct (inherited k); split; try done; by intros [_ ?].
Qed.

Lemma DEFAULT_FILE_CONTENT_in_get k :
  DEFAULT_FILE_CONTENT_in names k = true
  <-> is_Some (DEFAULT_FILE_CONTENT_get names k).
Proof.
  unfold DEFAULT_FILE_CONTENT_in, DEFAULT_FILE_CONTENT_get.
  destruct (DEFAULT_FILE_CONTENT names !! k) as [d|].
  - rewrite bool_decide_eq_true_2 by eauto. split; eauto.
  - rewrite bool_decide_eq_false_2 by (by intros [? ?]). cbn.
    destruct (inherited k); [split; eauto |].
    split; [done | by intros [? ?]].
Qed.

Lemma readWorkspaceFile_custom fs f c :
  tryReadFile fs (customPathOf workspacePath f) = Return (Some c) ->
  readWorkspaceFile names workspacePath templatePath fs f = Return (Some (JsString c)).
Proof. unfold readWorkspaceFile, customPathOf. by intros ->. Qed.

Lemma readWorkspaceFile_template fs f t :
  tryReadFile fs (customPathOf workspacePath f) = Return None ->
  tryReadFile fs (templateFilePathOf templatePath f) = Return (Some t) ->
  readWorkspaceFile names workspacePath templatePath fs f = Return (Some (JsString t)).
Proof. unfold readWorkspaceFile, customPathOf, templateFilePathOf. by intros -> ->. Qed.

Lemma readWorkspaceFile_builtin fs f :
  tryReadFile fs (customPathOf workspacePath f) = Return None ->
  tryReadFile fs (templateFilePathOf templatePath f) = Return None ->
  readWorkspaceFile names workspacePath templatePath fs f
  = Return (DEFAULT_FILE_CONTENT_get names (Path.basename f)).
Proof.
  unfold readWorkspaceFile, customPathOf, templateFilePathOf.
  intros -> ->. cbn [bindC].
  destruct (DEFAULT_FILE_CONTENT_get names (Path.basename f)) as [v|] eqn:E; [|done].
  by rewrite (DEFAULT_FILE_CONTENT_get_truthy _ _ E).
Qed.

Lemma readWorkspaceFile_throws_custom fs f :
  throws (tryReadFile fs (customPathOf workspacePath f)) ->
  throws (readWorkspaceFile names workspacePath templatePath fs f).
Proof.
  unfold readWorkspaceFile, customPathOf.
  by destruct (tryReadFile fs _) as [[c|]|e].
Qed.

Lemma readWorkspaceFile_throws_template fs f :
  tryReadFile fs (customPathOf workspacePath f) = Return None ->
  throws (tryReadFile fs (templateFilePathOf templatePath f)) ->
  throws (readWorkspaceFile names workspacePath templatePath fs f).
Proof.
  unfold readWorkspaceFile, customPathOf, templateFilePathOf. intros ->. cbn [bindC].
  by destruct (tryReadFile fs _) as [[c|]|e].
Qed.

Lemma readWorkspaceFile_null_iff fs f :
  readWorkspaceFile names workspacePath templatePath fs f = Return None
  <-> tryReadFile fs (customPathOf workspacePath f) = Return None
      /\ tryReadFile fs (templateFilePathOf templatePath f) = Return None
      /\ DEFAULT_FILE_CONTENT_get names (Path.basename f) = None.
Proof.
  split.
  - destruct (tryReadFile fs (customPathOf workspacePath f)) as [[c|]|e] eqn:Ec.
    + by rewrite (readWorkspaceFile_custom _ _ _ Ec).
    + destruct (tryReadFile fs (templateFilePathOf templatePath f)) as [[t|]|e] eqn:Et.
      * by rewrite (readWorkspaceFile_template _ _ _ Ec Et).
      * rewrite (readWorkspaceFile_builtin _ _ Ec Et). by intros [= ->].
      * pose proof (readWorkspaceFile_throws_template fs f Ec) as H.
        rewrite Et in H. specialize (H I). intros E. by rewrite E in H.
    + pose proof (readWorkspaceFile_throws_custom fs f) as H.
      rewrite Ec in H. specialize (H I). intros E. by rewrite E in H.
  - intros (Ec & Et & Ed). by rewrite (readWorkspaceFile_builtin _ _ Ec Et), Ed.
Qed.

(** The layers of [readWorkspaceFile], on paths that node:fs accepts.  The
    file name is reduced to its base name; the custom file wins, then the
    template file, then what [DEFAULT_FILE_CONTENT] yields for the base name,
    and [null] comes back exactly when both files are missing and the base
    name is neither one of the eight names nor a member of
    [Object.prototype].  Deleting the custom file uncovers the template
    content, and deleting both uncovers the third layer. *)
Lemma readWorkspaceFile_layers (fs : gmap jsstring fsnode) (f : jsstring) :
  let read := readWorkspaceFile names workspacePath templatePath in
  let custom := customPathOf workspacePath f in
  let template := templateFilePathOf templatePath f in
  let safeName := Path.basename f in
  hasNullByte custom = false -> hasNullByte template = false ->
  custom = Path.join [Path.join [workspacePath; js "custom"]; safeName]
  /\ template = Path.join [templatePath; safeName]
  /\ (forall c, fs !! diskName custom = Some (File c) ->
        read fs f = Return (Some (JsString (toWellFormed c))))
  /\ (forall t, fs !! diskName custom = None ->
        fs !! diskName template = Some (File t) ->
        read fs f = Return (Some (JsString (toWellFormed t))))
  /\ (fs !! diskName custom = None -> fs !! diskName template = None ->
        read fs f = Return (DEFAULT_FILE_CONTENT_get names safeName))
  /\ (read fs f = Return None <->
        fs !! diskName custom = None /\ fs !! diskName template = None
        /\ DEFAULT_FILE_CONTENT names !! safeName = None
        /\ inherited safeName = false)
  /\ (forall t, diskName custom <> diskName template ->
        fs !! diskName template = Some (File t) ->
        read (delete (diskName custom) fs) f
        = Return (Some (JsString (toWellFormed t))))
  /\ read (delete (diskName template) (delete (diskName custom) fs)) f
     = Return (DEFAULT_FILE_CONTENT_get names safeName).
Proof.
  cbv zeta. intros Hc0 Ht0. split; [reflexivity |]. split; [reflexivity |].
  split; [intros c Hc; by apply readWorkspaceFile_custom, tryReadFile_file |].
  split.
  { intros t Hc Ht. apply readWorkspaceFile_template.
    - by apply tryReadFile_null_iff.
    - by apply tryReadFile_file. }
  split.
  { intros Hc Ht. by apply readWorkspaceFile_builtin; apply tryReadFile_null_iff. }
  split.
  { rewrite readWorkspaceFile_null_iff, !tryReadFile_null_iff,
      DEFAULT_FILE_CONTENT_get_None. tauto. }
  split.
  - intros t Hne Ht. apply readWorkspaceFile_template.
    + apply tryReadFile_null_iff. split; [done |]. apply lookup_delete_eq.
    + apply tryReadFile_file; [done |]. by rewrite lookup_delete_ne.
  - apply readWorkspaceFile_builtin; apply tryReadFile_null_iff; (split; [done |]).
    + destruct (decide (diskName (templateFilePathOf templatePath f)
                        = diskName (customPathOf workspacePath f))) as [->|Hne];
        [apply lookup_delete_eq |].
      rewrite lookup_delete_ne by done. apply lookup_delete_eq.
    + apply lookup_delete_eq.
Qed.

(** C8.  The third layer of [readWorkspaceFile] is a lookup in an object
    literal, which finds the members of [Object.prototype] too.  For a file
    name whose base name is such a member and is none of the eight bootstrap
    names, on a disk where neither the custom nor the template file exists,
    the read returns that member: a function or an object, neither the
    [null] that the claim states for three missing layers nor a content. *)
Theorem readWorkspaceFile_returns_prototype_member
    (fs : gmap jsstring fsnode) (f : jsstring) :
  let read := readWorkspaceFile names workspacePath templatePath in
  let custom := customPathOf workspacePath f in
  let template := templateFilePathOf templatePath f in
  let safeName := Path.basename f in
  hasNullByte custom = false -> hasNullByte template = false ->
  fs !! diskName custom = None -> fs !! diskName template = None ->
  DEFAULT_FILE_CONTENT names !! safeName = None ->
  safeName ∈ Object_prototype_keys ->
  read fs f = Return (Some (PrototypeMember safeName))
  /\ read fs f <> Return None
  /\ forall content, read fs f <> Return (Some (JsString content)).
Proof.
  cbv zeta. intros Hc0 Ht0 Hc Ht Hown Hin.
  assert (H : readWorkspaceFile names workspacePath templatePath fs f
              = Return (Some (PrototypeMember (Path.basename f)))).
  { rewrite readWorkspaceFile_builtin by (by apply tryReadFile_null_iff).
    unfold DEFAULT_FILE_CONTENT_get, inherited. rewrite Hown.
    by rewrite bool_decide_eq_true_2. }
  rewrite H. by repeat split.
Qed.

End ResolverFacts.

(** C8 on a workspace with an empty disk and the eight bootstrap names: the
    file name ["constructor"]. *)
Lemma readWorkspaceFile_returns_prototype_member_witness :
  Resolver.readWorkspaceFile Resolver.workspace_names (js "/ws/users/u-1") (js "/tpl")
    ∅ (js "constructor")
  = Return (Some (Resolver.PrototypeMember (js "constructor"))).
Proof.
  pose proof (readWorkspaceFile_returns_prototype_member Resolver.workspace_names
                (js "/ws/users/u-1") (js "/tpl") ∅ (js "constructor")) as H.
  cbv zeta in H. apply H; try (vm_compute; reflexivity).
  apply list_elem_of_In. vm_compute. by left.
Defined.

(** ** JavaScript maps *)

Section JsMapFacts.
Context {V : Type}.
Implicit Types (m : JsMap.t V) (k : jsstring) (v : V).

Lemma get_set_eq k v m : JsMap.get k (JsMap.set k v m) = Some v.
Proof.
  induction m as [|[k' v'] r IH]; cbn.
  - by rewrite decide_True.
  - destruct (decide (k' = k)) as [->|Hne]; cbn.
    + by rewrite decide_True.
    + by rewrite decide_False.
Qed.

Lemma get_set_ne k k' v m : k <> k' -> JsMap.get k' (JsMap.set k v m) = JsMap.get k' m.
Proof.
  intros Hne. induction m as [|[k0 v0] r IH]; cbn.
  - by rewrite decide_False.
  - destruct (decide (k0 = k)) as [->|Hne0]; cbn.
    + by rewrite !decide_False.
    + destruct (decide (k0 = k')); [done | exact IH].
Qed.

Lemma get_set_is_Some k k' v m :
  is_Some (JsMap.get k' m) -> is_Some (JsMap.get k' (JsMap.set k v m)).
Proof.
  destruct (decide (k = k')) as [->|Hne].
  - rewrite get_set_eq. eauto.
  - by rewrite get_set_ne.
Qed.

Lemma get_delete_eq k m : JsMap.get k (JsMap.delete k m) = None.
Proof.
  induction m as [|[k' v'] r IH]; [done |]. unfold JsMap.delete in *. cbn.
  destruct (decide (k' = k)) as [->|Hne].
  - by rewrite bool_decide_eq_true_2.
  - rewrite bool_decide_eq_false_2 by done. cbn. by rewrite decide_False.
Qed.

Lemma get_delete_ne k k' m : k <> k' -> JsMap.get k' (JsMap.delete k m) = JsMap.get k' m.
Proof.
  intros Hne. induction m as [|[k0 v0] r IH]; [done |]. unfold JsMap.delete in *. cbn.
  destruct (decide (k0 = k)) as [->|Hne0].
  - rewrite bool_decide_eq_true_2 by done. cbn. by rewrite decide_False.
  - rewrite bool_decide_eq_false_2 by done. cbn.
    destruct (decide (k0 = k')); [done | exact IH].
Qed.

Lemma get_In k v m : JsMap.get k m = Some v -> In (k, v) m.
Proof.
  induction m as [|[k' v'] r IH]; [done |]. cbn.
  destruct (decide (k' = k)) as [->|Hne]; [intros [= ->]; by left | right; auto].
Qed.

Lemma In_get k v m : NoDup (JsMap.keys m) -> In (k, v) m -> JsMap.get k m = Some v.
Proof.
  induction m as [|[k' v'] r IH]; [done |]. cbn. intros Hnd [[= -> ->]|Hin].
  - by rewrite decide_True.
  - apply NoDup_cons in Hnd as [Hk Hnd].
    destruct (decide (k' = k)) as [->|Hne]; [|auto].
    exfalso. apply Hk. apply list_elem_of_In. by apply (in_map fst _ (k, v)).
Qed.

Lemma has_true k m : JsMap.has k m = true <-> is_Some (JsMap.get k m).
Proof.
  unfold JsMap.has. destruct (JsMap.get k m); split; eauto; try done.
Qed.

Lemma has_false k m : JsMap.has k m = false <-> JsMap.get k m = None.
Proof. unfold JsMap.has. by destruct (JsMap.get k m). Qed.

Lemma Forall_set (P : jsstring * V -> Prop) k v m :
  Forall P m -> P (k, v) -> Forall P (JsMap.set k v m).
Proof.
  intros Hm Hv. induction Hm as [|[k' v'] r Hx Hr IH]; cbn; [by constructor |].
  destruct (decide (k' = k)); constructor; auto.
Qed.

Lemma Forall_delete (P : jsstring * V -> Prop) k m :
  Forall P m -> Forall P (JsMap.delete k m).
Proof.
  intros Hm. unfold JsMap.delete. apply List.Forall_forall. intros e He.
  apply List.filter_In in He as [He _]. rewrite List.Forall_forall in Hm. auto.
Qed.

Lemma keys_set k v m :
  JsMap.keys (JsMap.set k v m)
  = if JsMap.has k m then JsMap.keys m else JsMap.keys m ++ [k].
Proof.
  unfold JsMap.has, JsMap.keys. induction m as [|[k' v'] r IH]; cbn; [done |].
  destruct (decide (k' = k)) as [->|Hne]; cbn; [done |].
  rewrite IH. by destruct (JsMap.get k r).
Qed.

Lemma keys_delete k m :
  JsMap.keys (JsMap.delete k m)
  = List.filter (fun k' => negb (bool_decide (k' = k))) (JsMap.keys m).
Proof.
  unfold JsMap.delete, JsMap.keys. induction m as [|[k' v'] r IH]; cbn; [done |].
  destruct (bool_decide (k' = k)); cbn; by rewrite IH.
Qed.

Lemma get_None_keys k m : JsMap.get k m = None -> ~ In k (JsMap.keys m).
Proof.
  induction m as [|[k' v'] r IH]; cbn; [tauto |].
  destruct (decide (k' = k)); [done |]. intros H [?|?]; [done | by apply IH].
Qed.

Lemma NoDup_keys_set k v m : NoDup (JsMap.keys m) -> NoDup (JsMap.keys (JsMap.set k v m)).
Proof.
  intros Hnd. rewrite keys_set. destruct (JsMap.has k m) eqn:E; [done |].
  apply has_false in E. apply NoDup_app. split; [done |]. split.
  - intros x Hx [->|[]]%list_elem_of_In. apply (get_None_keys _ _ E).
    by apply list_elem_of_In.
  - apply NoDup_singleton.
Qed.

Lemma NoDup_keys_delete k m : NoDup (JsMap.keys m) -> NoDup (JsMap.keys (JsMap.delete k m)).
Proof.
  intros Hnd. rewrite keys_delete. apply NoDup_ListNoDup.
  apply List.NoDup_filter. by apply NoDup_ListNoDup.
Qed.

Lemma Forall_keys_set (P : jsstring -> Prop) k v m :
  Forall P (JsMap.keys m) -> P k -> Forall P (JsMap.keys (JsMap.set k v m)).
Proof.
  intros Hm Hk. rewrite keys_set. destruct (JsMap.has k m); [done |].
  apply Forall_app. split; [done | by constructor].
Qed.

Lemma Forall_keys_delete (P : jsstring -> Prop) k m :
  Forall P (JsMap.keys m) -> Forall P (JsMap.keys (JsMap.delete k m)).
Proof.
  intros Hm. rewrite keys_delete. apply List.Forall_forall. intros e He.
  apply List.filter_In in He as [He _]. rewrite List.Forall_forall in Hm. auto.
Qed.

Lemma delete_app k m1 m2 :
  JsMap.delete k (m1 ++ m2) = JsMap.delete k m1 ++ JsMap.delete k m2.
Proof. apply List.filter_app. Qed.

Lemma delete_cons_eq k v m : JsMap.delete k ((k, v) :: m) = JsMap.delete k m.
Proof. unfold JsMap.delete. cbn. by rewrite bool_decide_eq_true_2. Qed.

Lemma length_delete_le k m : (length (JsMap.delete k m) <= length m)%nat.
Proof. apply List.filter_length_le. Qed.

Lemma length_delete_lt k v m :
  In (k, v) m -> (length (JsMap.delete k m) < length m)%nat.
Proof.
  induction m as [|[k' v'] r IH]; [done |]. unfold JsMap.delete in *. cbn.
  intros [[= -> ->]|Hin].
  - rewrite bool_decide_eq_true_2 by done. cbn.
    pose proof (List.filter_length_le (fun e => negb (bool_decide (e.1 = k))) r). lia.
  - specialize (IH Hin). destruct (bool_decide (k' = k)); cbn; lia.
Qed.

End JsMapFacts.

(** ** Tenant manager: invariants *)

Section ManagerInvariants.
Import Manager Inv.

Lemma updates_trans l1 l2 l3 : updates l1 l2 -> updates l2 l3 -> updates l1 l3.
Proof.
  intros H12 H23.
  induction H23; [done | apply updates_set; auto | apply updates_delete; auto].
Qed.

Lemma updates_Forall_nonneg l l' :
  updates l l' ->
  Forall (fun e => 0 <= pendingRequests (snd e)) l ->
  Forall (fun e => 0 <= pendingRequests (snd e)) l'.
Proof.
  induction 1 as [|l l' k v _ IH Hk Hv|l l' k _ IH]; intros Hl; [done | |].
  - apply Forall_set; [by apply IH | done].
  - apply Forall_delete. by apply IH.
Qed.

Lemma updates_keys l l' :
  updates l l' ->
  NoDup (JsMap.keys l) /\ Forall (fun k => k <> []) (JsMap.keys l) ->
  NoDup (JsMap.keys l') /\ Forall (fun k => k <> []) (JsMap.keys l').
Proof.
  induction 1 as [|l l' k v _ IH Hk Hv|l l' k _ IH]; intros Hl; [done | |].
  - destruct (IH Hl). split; [by apply NoDup_keys_set | by apply Forall_keys_set].
  - destruct (IH Hl). split; [by apply NoDup_keys_delete | by apply Forall_keys_delete].
Qed.

Lemma nonneg_get m k i :
  nonneg m -> JsMap.get k (userInstances m) = Some i -> 0 <= pendingRequests i.
Proof.
  intros Hm Hg. apply get_In in Hg. unfold nonneg in Hm.
  rewrite List.Forall_forall in Hm. exact (Hm _ Hg).
Qed.

Lemma sanitizeUserId_nonempty s k : sanitizeUserId s = Return k -> k <> [].
Proof. intros H. by apply sanitizeUserId_Return in H as (_ & ? & _). Qed.

Lemma evictUser_updates m u reason :
  updates (userInstances m) (userInstances (evictUser m u reason)).
Proof. cbn. apply updates_delete, updates_refl. Qed.

Lemma initializeUserInstance_updates G m u cfg cc ok now :
  u <> [] ->
  updates (userInstances m)
    (userInstances (snd (initializeUserInstance G m u cfg cc ok now))).
Proof.
  intros Hu. unfold initializeUserInstance.
  destruct (ensureUserDirectories G u ok); cbn; [|apply updates_refl].
  apply updates_set; [apply updates_refl | done | done].
Qed.

Lemma verifyRemote_updates G m token reply ok now nowIso :
  updates (userInstances m)
    (userInstances (snd (verifyRemote G m token reply ok now nowIso))).
Proof.
  unfold verifyRemote.
  destruct reply as [| |httpStatus body]; cbn; try apply updates_refl.
  destruct (response_ok httpStatus); cbn;
    [|destruct (httpStatus =? 401); cbn; apply updates_refl].
  destruct body as [|[result|]]; cbn; try apply updates_refl.
  destruct (truthy (user_id result)); cbn; [|apply updates_refl].
  destruct (sanitizeUserId (user_id result)) as [userId|e] eqn:E; cbn;
    [|apply updates_refl].
  destruct (JsMap.has userId (userInstances m)); cbn; [apply updates_refl |].
  match goal with
  | |- context [initializeUserInstance ?G ?m ?u ?c ?cc ?ok ?now] =>
      pose proof (initializeUserInstance_updates G m u c cc ok now
                    (sanitizeUserId_nonempty _ _ E)) as H;
      destruct (initializeUserInstance G m u c cc ok now) as [[inst|e] m']
  end; exact H.
Qed.

Lemma authenticateToken_updates G m token reply ok now nowIso :
  updates (userInstances m)
    (userInstances (snd (authenticateToken G m token reply ok now nowIso))).
Proof.
  unfold authenticateToken.
  destruct (cachedInstance m token) as [[u i]|].
  - destruct (status i); cbn; apply updates_refl.
  - destruct (truthy (cloudBackendUrl (options m))); cbn; [|apply updates_refl].
    pose proof (verifyRemote_updates G m token reply ok now nowIso) as H.
    destruct (verifyRemote G m token reply ok now nowIso) as [[r|e] m']; exact H.
Qed.

Lemma authenticateTokenSync_instances m token :
  userInstances (snd (authenticateTokenSync m token)) = userInstances m.
Proof.
  unfold authenticateTokenSync.
  destruct (tokenToUserId m !! token) as [u|]; [|done].
  destruct (truthy u); [|done]. cbn.
  destruct (JsMap.get u (userInstances m)) as [i|]; [|done].
  by destruct (status i).
Qed.

Lemma getUserInstance_updates G m u now disk ok :
  nonneg m ->
  updates (userInstances m) (userInstances (snd (getUserInstance G m u now disk ok))).
Proof.
  intros Hm. unfold getUserInstance.
  destruct (sanitizeUserId u) as [k|e] eqn:E; [|apply updates_refl].
  destruct (JsMap.get k (userInstances m)) as [i|] eqn:Eg; cbn.
  - apply updates_set; [apply updates_refl | by eapply sanitizeUserId_nonempty |].
    cbn. by eapply nonneg_get.
  - destruct disk as [[cfg|]|e]; cbn; try apply updates_refl.
    match goal with
    | |- context [initializeUserInstance ?G ?m ?u ?c ?cc ?ok ?now] =>
        pose proof (initializeUserInstance_updates G m u c cc ok now
                      (sanitizeUserId_nonempty _ _ E)) as H;
        destruct (initializeUserInstance G m u c cc ok now) as [[inst|e] m']
    end; exact H.
Qed.

Lemma updateOne_updates updated m entry :
  nonneg m ->
  updates (userInstances m) (userInstances (snd (updateOne (updated, m) entry))).
Proof.
  intros Hm. destruct entry as [c ok]. unfold updateOne.
  destruct (sanitizeUserId (cloud_userId c)) as [k|e] eqn:E; [|apply updates_refl].
  destruct ok; cbn; [|apply updates_refl].
  destruct (JsMap.get k (userInstances m)) as [i|] eqn:Eg; cbn; [|apply updates_refl].
  apply updates_set; [apply updates_refl | by eapply sanitizeUserId_nonempty |].
  cbn. by eapply nonneg_get.
Qed.

Lemma fold_updateOne_updates configs updated m :
  nonneg m ->
  updates (userInstances m)
    (userInstances (snd (fold_left updateOne configs (updated, m)))).
Proof.
  revert updated m. induction configs as [|entry r IH]; intros updated m Hm.
  - apply updates_refl.
  - cbn [fold_left].
    pose proof (updateOne_updates updated m entry Hm) as H1.
    destruct (updateOne (updated, m) entry) as [updated' m'] eqn:E. cbn [snd] in H1.
    eapply updates_trans; [exact H1 |]. apply IH.
    unfold nonneg. by eapply updates_Forall_nonneg.
Qed.

Lemma updateUserConfigs_updates m configs nowIso :
  nonneg m ->
  updates (userInstances m) (userInstances (snd (updateUserConfigs m configs nowIso))).
Proof.
  intros Hm. unfold updateUserConfigs.
  pose proof (fold_updateOne_updates configs 0 m Hm) as H.
  destruct (fold_left updateOne configs (0, m)) as [updated m']. exact H.
Qed.

Lemma incrementPendingRequests_updates m u now :
  nonneg m ->
  updates (userInstances m) (userInstances (snd (incrementPendingRequests m u now))).
Proof.
  intros Hm. unfold incrementPendingRequests.
  destruct (sanitizeUserId u) as [k|e] eqn:E; [|apply updates_refl].
  destruct (JsMap.get k (userInstances m)) as [i|] eqn:Eg; cbn; [|apply updates_refl].
  apply updates_set; [apply updates_refl | by eapply sanitizeUserId_nonempty |].
  cbn. pose proof (nonneg_get _ _ _ Hm Eg). lia.
Qed.

Lemma decrementPendingRequests_updates m u now :
  updates (userInstances m) (userInstances (snd (decrementPendingRequests m u now))).
Proof.
  unfold decrementPendingRequests.
  destruct (sanitizeUserId u) as [k|e] eqn:E; [|apply updates_refl].
  destruct (JsMap.get k (userInstances m)) as [i|] eqn:Eg; cbn; [|apply updates_refl].
  destruct (0 <? pendingRequests i) eqn:Hp; cbn; [|apply updates_refl].
  apply updates_set; [apply updates_refl | by eapply sanitizeUserId_nonempty |].
  cbn. apply Z.ltb_lt in Hp. lia.
Qed.

Lemma idlePass_updates m now :
  updates (userInstances m) (userInstances (idlePass m now)).
Proof.
  unfold idlePass. generalize (userInstances m) at 2 as entries.
  intros entries. revert m. induction entries as [|[u i] r IH]; intros m.
  - apply updates_refl.
  - cbn [fold_left]. eapply updates_trans; [|apply IH].
    unfold idleStep. destruct (0 <? pendingRequests i); [apply updates_refl |].
    destruct (userIdleTimeoutMs (options m) <? now - lastActivityAt i);
      [apply (evictUser_updates m u idle) | apply updates_refl].
Qed.

Lemma lruLoop_updates fuel m :
  updates (userInstances m) (userInstances (lruLoop fuel m)).
Proof.
  revert m. induction fuel as [|fuel IH]; intros m; [apply updates_refl |].
  cbn [lruLoop].
  destruct (maxCachedUsers (options m) <? JsMap.size (userInstances m));
    [|apply updates_refl].
  destruct (findOldest (userInstances m)) as [u|]; [|apply updates_refl].
  destruct (truthy u); [|apply updates_refl].
  eapply updates_trans; [apply (evictUser_updates m u lru) | apply IH].
Qed.

Lemma cleanupInactiveUsers_updates m now :
  updates (userInstances m) (userInstances (cleanupInactiveUsers m now)).
Proof.
  unfold cleanupInactiveUsers, lruPass.
  eapply updates_trans; [apply idlePass_updates | apply lruLoop_updates].
Qed.

Lemma forceEvictUser_updates m u :
  updates (userInstances m) (userInstances (snd (forceEvictUser m u))).
Proof.
  unfold forceEvictUser. destruct (sanitizeUserId u) as [k|e]; [|apply updates_refl].
  destruct (JsMap.has k (userInstances m)); cbn [negb snd];
    [apply (evictUser_updates m k manual) | apply updates_refl].
Qed.

Lemma step_updates m op :
  nonneg m -> updates (userInstances m) (userInstances (step m op)).
Proof.
  intros Hm. destruct op; cbn [step].
  - rewrite authenticateTokenSync_instances. apply updates_refl.
  - apply authenticateToken_updates.
  - by apply getUserInstance_updates.
  - by apply updateUserConfigs_updates.
  - apply updates_refl.
  - by apply incrementPendingRequests_updates.
  - apply decrementPendingRequests_updates.
  - apply cleanupInactiveUsers_updates.
  - apply forceEvictUser_updates.
Qed.

Lemma step_nonneg m op : nonneg m -> nonneg (step m op).
Proof.
  intros Hm. unfold nonneg.
  eapply updates_Forall_nonneg; [by apply step_updates | exact Hm].
Qed.

Lemma step_wf m op : wf m -> wf (step m op).
Proof.
  intros [Hk Hn]. split; [|by apply step_nonneg].
  unfold keys_ok. eapply updates_keys; [by apply step_updates | exact Hk].
Qed.

Lemma create_wf opts : wf (create opts).
Proof. repeat split; cbn; constructor. Qed.

Lemma run_wf m ops : wf m -> wf (run m ops).
Proof.
  revert m. induction ops as [|op r IH]; intros m Hm; [done |].
  cbn. apply IH. by apply step_wf.
Qed.

Lemma reachable_wf opts m : reachable opts m -> wf m.
Proof. intros [ops ->]. apply run_wf, create_wf. Qed.

End ManagerInvariants.

(** ** Pending-request counters *)

Section CounterFacts.
Import Manager Inv Counters.

Lemma pendingOf_set_eq key v m :
  pendingOf key (set_userInstances m (JsMap.set key v (userInstances m)))
  = Some (pendingRequests v).
Proof. unfold pendingOf. cbn. by rewrite get_set_eq. Qed.

Lemma pendingOf_set_ne k key v m :
  k <> key ->
  pendingOf key (set_userInstances m (JsMap.set k v (userInstances m))) = pendingOf key m.
Proof. intros Hne. unfold pendingOf. cbn. by rewrite get_set_ne. Qed.

Lemma hits_true key raw : hits key raw = true <-> sanitizeUserId raw = Return key.
Proof.
  unfold hits. destruct (sanitizeUserId raw) as [k|e]; [|split; discriminate].
  rewrite bool_decide_eq_true. split; [by intros -> | by intros [= ->]].
Qed.

Lemma increment_hit key raw now m p :
  hits key raw = true -> pendingOf key m = Some p ->
  pendingOf key (snd (incrementPendingRequests m raw now)) = Some (p + 1).
Proof.
  intros Hh%hits_true Hp. unfold incrementPendingRequests. rewrite Hh.
  unfold pendingOf in Hp.
  destruct (JsMap.get key (userInstances m)) as [i|] eqn:Eg; [|discriminate].
  injection Hp as <-. cbn [snd]. by rewrite pendingOf_set_eq.
Qed.

Lemma increment_miss key raw now m :
  hits key raw = false ->
  pendingOf key (snd (incrementPendingRequests m raw now)) = pendingOf key m.
Proof.
  intros Hh. unfold incrementPendingRequests, hits in *.
  destruct (sanitizeUserId raw) as [k|e]; [|done].
  apply bool_decide_eq_false in Hh.
  destruct (JsMap.get k (userInstances m)) as [i|]; [|done].
  cbn [snd]. by rewrite pendingOf_set_ne.
Qed.

Lemma decrement_hit key raw now m p :
  hits key raw = true -> pendingOf key m = Some p -> 0 < p ->
  pendingOf key (snd (decrementPendingRequests m raw now)) = Some (p - 1).
Proof.
  intros Hh%hits_true Hp Hpos. unfold decrementPendingRequests. rewrite Hh.
  unfold pendingOf in Hp.
  destruct (JsMap.get key (userInstances m)) as [i|] eqn:Eg; [|discriminate].
  injection Hp as <-. apply Z.ltb_lt in Hpos. rewrite Hpos.
  cbn [snd]. by rewrite pendingOf_set_eq.
Qed.

Lemma decrement_miss key raw now m :
  hits key raw = false ->
  pendingOf key (snd (decrementPendingRequests m raw now)) = pendingOf key m.
Proof.
  intros Hh. unfold decrementPendingRequests, hits in *.
  destruct (sanitizeUserId raw) as [k|e]; [|done].
  apply bool_decide_eq_false in Hh.
  destruct (JsMap.get k (userInstances m)) as [i|]; [|done].
  destruct (0 <? pendingRequests i); [|done].
  cbn [snd]. by rewrite pendingOf_set_ne.
Qed.

Lemma decrement_at_zero m raw now key i :
  sanitizeUserId raw = Return key ->
  JsMap.get key (userInstances m) = Some i ->
  pendingRequests i = 0 ->
  decrementPendingRequests m raw now = (Return tt, m).
Proof. intros Hs Hg Hp. unfold decrementPendingRequests. by rewrite Hs, Hg, Hp. Qed.

Lemma matched_run key ops : forall m depth,
  pendingOf key m = Some (Z.of_nat depth) ->
  matched key ops depth = true ->
  pendingOf key (run m ops) = Some 0.
Proof.
  induction ops as [|op r IH]; intros m depth Hp Hm.
  - cbn in *. apply Nat.eqb_eq in Hm. by subst depth.
  - destruct op as [| | | | |raw now|raw now| |];
      cbn [matched] in Hm; try discriminate; cbn [run fold_left step].
    + destruct (hits key raw) eqn:Hh.
      * apply (IH _ (S depth)); [|done].
        rewrite (increment_hit _ _ _ _ _ Hh Hp). f_equal. lia.
      * apply (IH _ depth); [|done]. by rewrite increment_miss.
    + destruct (hits key raw) eqn:Hh.
      * destruct depth as [|d]; [discriminate |].
        apply (IH _ d); [|done].
        rewrite (decrement_hit _ _ _ _ _ Hh Hp) by lia. f_equal. lia.
      * apply (IH _ depth); [|done]. by rewrite decrement_miss.
Qed.

Lemma run_nonneg m ops : nonneg m -> nonneg (run m ops).
Proof.
  revert m. induction ops as [|op r IH]; intros m Hm; [done |].
  cbn. apply IH. by apply step_nonneg.
Qed.

(** C9.  Starting from a counter at zero, any sequence of increments and
    decrements in which every decrement of the entry closes an earlier
    increment and none stays open brings the counter back to zero, and no
    counter is negative after any prefix; a decrement at zero changes
    nothing; every manager operation keeps all counters non-negative, so
    they are non-negative in every reachable state. *)
Theorem pendingRequests_conservation :
  (forall m key ops,
      nonneg m -> pendingOf key m = Some 0 -> matched key ops 0 = true ->
      pendingOf key (run m ops) = Some 0
      /\ forall n, nonneg (run m (take n ops)))
  /\ (forall m raw now key i,
        sanitizeUserId raw = Return key ->
        JsMap.get key (userInstances m) = Some i ->
        pendingRequests i = 0 ->
        decrementPendingRequests m raw now = (Return tt, m))
  /\ (forall m op, nonneg m -> nonneg (step m op))
  /\ (forall opts m, reachable opts m -> nonneg m).
Proof.
  split; [|split; [|split]].
  - intros m key ops Hn Hp Hm. split.
    + by apply (matched_run key ops m 0%nat).
    + intros n. by apply run_nonneg.
  - apply decrement_at_zero.
  - apply step_nonneg.
  - intros opts m Hr. by apply reachable_wf in Hr as [_ ?].
Qed.

End CounterFacts.

(** C9 on a concrete run: two requests of the same user (one of them under
    a raw id that sanitizes to the same key) and one of another user. *)
Lemma pendingRequests_conservation_witness :
  Counters.pendingOf (js "u-1")
    (Manager.run Scenario.one_user
       [Manager.OpIncrement (js "u-1") 1001;
        Manager.OpIncrement (js "u/-1") 1002;
        Manager.OpDecrement (js "u-1") 1003;
        Manager.OpIncrement (js "u-2") 1004;
        Manager.OpDecrement (js "..u-1") 1005]) = Some 0.
Proof.
  refine (proj1 (proj1 pendingRequests_conservation Scenario.one_user (js "u-1") _ _ _ _)).
  - apply (proj2 (proj2 (proj2 pendingRequests_conservation)) Scenario.opts0).
    by eexists.
  - vm_compute. reflexivity.
  - vm_compute. reflexivity.
Defined.

(** ** Eviction *)

Section CleanupFacts.
Import Manager Inv Scan.

Lemma delete_absent (k : jsstring) (l : JsMap.t UserInstance) :
  ~ In k (JsMap.keys l) -> JsMap.delete k l = l.
Proof.
  induction l as [|[k' v] r IH]; [done |]. unfold JsMap.delete in *. cbn.
  intros Hk. rewrite bool_decide_eq_false_2 by (intros ->; apply Hk; by left).
  cbn. f_equal. apply IH. intros ?. apply Hk. by right.
Qed.

Lemma keys_app (a b : JsMap.t UserInstance) :
  JsMap.keys (a ++ b) = JsMap.keys a ++ JsMap.keys b.
Proof. apply List.map_app. Qed.

Lemma delete_middle (kept : JsMap.t UserInstance) u i r :
  NoDup (JsMap.keys (kept ++ (u, i) :: r)) ->
  JsMap.delete u (kept ++ (u, i) :: r) = kept ++ r.
Proof.
  rewrite keys_app. cbn. intros (Hk & Hd & Hr)%NoDup_app.
  apply NoDup_cons in Hr as [Hu Hr].
  rewrite delete_app, delete_cons_eq.
  rewrite !delete_absent; [done | |].
  - intros Hin. apply Hu. by apply list_elem_of_In.
  - intros Hin. apply (Hd u); [by apply list_elem_of_In | by left].
Qed.

Lemma NoDup_keys_middle (kept : JsMap.t UserInstance) e r :
  NoDup (JsMap.keys (kept ++ e :: r)) -> NoDup (JsMap.keys (kept ++ r)).
Proof.
  rewrite !keys_app. cbn. intros (Hk & Hd & Hr)%NoDup_app.
  apply NoDup_cons in Hr as [Hu Hr]. apply NoDup_app. repeat split; [done | | done].
  intros x Hx Hin. apply (Hd x Hx). by right.
Qed.

Lemma idleStep_eq now m u i :
  idleStep now m (u, i)
  = if idleEvictable (userIdleTimeoutMs (options m)) now i then evictUser m u idle else m.
Proof.
  unfold idleStep, idleEvictable. by destruct (0 <? pendingRequests i).
Qed.

Lemma idle_fold now es : forall m kept,
  userInstances m = kept ++ es ->
  NoDup (JsMap.keys (kept ++ es)) ->
  let timeout := userIdleTimeoutMs (options m) in
  let m' := fold_left (idleStep now) es m in
  userInstances m'
  = kept ++ List.filter (fun e => negb (idleEvictable timeout now (snd e))) es
  /\ trace m'
     = trace m ++ List.map (fun e => Emit (UserEvicted (fst e) idle))
                   (List.filter (fun e => idleEvictable timeout now (snd e)) es)
  /\ tokenToUserId m' = tokenToUserId m
  /\ options m' = options m.
Proof.
  induction es as [|[u i] r IH]; intros m kept Hm Hnd; cbv zeta.
  - cbn. by rewrite Hm, !app_nil_r.
  - cbn [fold_left List.filter List.map snd fst]. rewrite idleStep_eq.
    destruct (idleEvictable (userIdleTimeoutMs (options m)) now i) eqn:Ev; cbn [negb].
    + destruct (IH (evictUser m u idle) kept) as (H1 & H2 & H3 & H4).
      * cbn. rewrite Hm. by apply delete_middle.
      * by eapply NoDup_keys_middle.
      * cbn in H1, H2, H3, H4. cbn [List.map fst].
        rewrite H1, H2. by rewrite <- app_assoc.
    + destruct (IH m (kept ++ [(u, i)])) as (H1 & H2 & H3 & H4).
      * by rewrite <- app_assoc.
      * by rewrite <- app_assoc.
      * rewrite H1, H2. by rewrite <- app_assoc.
Qed.

Lemma idlePass_spec m now :
  NoDup (JsMap.keys (userInstances m)) ->
  let timeout := userIdleTimeoutMs (options m) in
  userInstances (idlePass m now)
  = List.filter (fun e => negb (idleEvictable timeout now (snd e))) (userInstances m)
  /\ trace (idlePass m now)
     = trace m ++ List.map (fun e => Emit (UserEvicted (fst e) idle))
                   (List.filter (fun e => idleEvictable timeout now (snd e))
                      (userInstances m))
  /\ tokenToUserId (idlePass m now) = tokenToUserId m
  /\ options (idlePass m now) = options m.
Proof. intros Hnd. by apply (idle_fold now (userInstances m) m []). Qed.

(** *** The scan of the second pass *)

Lemma oldestStep_scanned seen acc e :
  scanned seen acc -> scanned (seen ++ [e]) (oldestStep acc e).
Proof.
  destruct e as [u i]. destruct acc as [[ou|] [oa|]]; cbn; try done.
  - intros (before & i0 & after & -> & Hp & Ha & Hb & Haf).
    destruct (0 <? pendingRequests i) eqn:Hpi.
    + cbn. exists before, i0, (after ++ [(u, i)]).
      rewrite <- app_assoc. repeat split; try done.
      intros e [He|[<-|[]]]%in_app_or Hpe; [by apply Haf |].
      apply Z.ltb_lt in Hpi. cbn in Hpe. lia.
    + apply Z.ltb_ge in Hpi. destruct (lastActivityAt i <? oa) eqn:Hlt; cbn.
      * apply Z.ltb_lt in Hlt.
        exists (before ++ (ou, i0) :: after), i, [].
        repeat split; try done.
        intros e [He|[<-|He]]%in_app_or Hpe.
        -- specialize (Hb e He Hpe). lia.
        -- cbn. lia.
        -- specialize (Haf e He Hpe). lia.
      * apply Z.ltb_ge in Hlt.
        exists before, i0, (after ++ [(u, i)]).
        rewrite <- app_assoc. repeat split; try done.
        intros e [He|[<-|[]]]%in_app_or Hpe; [by apply Haf |].
        cbn. lia.
  - intros Hall. destruct (0 <? pendingRequests i) eqn:Hpi; cbn.
    + intros e [He|[<-|[]]]%in_app_or; [by apply Hall |].
      by apply Z.ltb_lt in Hpi.
    + apply Z.ltb_ge in Hpi. exists seen, i, []. repeat split; try done.
      intros e He Hpe. specialize (Hall e He). lia.
Qed.

Lemma fold_oldest_scanned rest : forall seen acc,
  scanned seen acc -> scanned (seen ++ rest) (fold_left oldestStep rest acc).
Proof.
  induction rest as [|e r IH]; intros seen acc Hs; cbn.
  - by rewrite app_nil_r.
  - replace (seen ++ e :: r) with ((seen ++ [e]) ++ r) by (by rewrite <- app_assoc).
    apply IH. by apply oldestStep_scanned.
Qed.

Lemma findOldest_scanned l :
  scanned l (fold_left oldestStep l (None, None)).
Proof. apply (fold_oldest_scanned l [] (None, None)). by intros e []. Qed.

Lemma findOldest_None l :
  findOldest l = None -> forall e, In e l -> 0 < pendingRequests (snd e).
Proof.
  unfold findOldest. pose proof (findOldest_scanned l) as H.
  destruct (fold_left oldestStep l (None, None)) as [[u|] [a|]]; cbn; try done.
Qed.

Lemma findOldest_Some l u :
  findOldest l = Some u ->
  exists before i after,
    l = before ++ (u, i) :: after /\ pendingRequests i <= 0 /\
    (forall e, In e before -> pendingRequests (snd e) <= 0 ->
               lastActivityAt i < lastActivityAt (snd e)) /\
    (forall e, In e after -> pendingRequests (snd e) <= 0 ->
               lastActivityAt i <= lastActivityAt (snd e)).
Proof.
  unfold findOldest. pose proof (findOldest_scanned l) as H.
  destruct (fold_left oldestStep l (None, None)) as [[u'|] [a|]]; cbn; try done.
  intros [= ->]. destruct H as (before & i & after & -> & Hp & <- & Hb & Ha).
  by exists before, i, after.
Qed.

(** *** The second pass against the words of the specification *)

Lemma evictUser_wf m u reason : wf m -> wf (evictUser m u reason).
Proof.
  intros [Hk Hn]. split.
  - unfold keys_ok. eapply updates_keys; [apply evictUser_updates | exact Hk].
  - unfold nonneg. eapply updates_Forall_nonneg; [apply evictUser_updates | exact Hn].
Qed.

Lemma findOldest_oldest_idle m u :
  nonneg m -> findOldest (userInstances m) = Some u ->
  SpecWords.oldest_idle (userInstances m) u.
Proof.
  intros Hn (before & i & after & Hl & Hp & Hb & Ha)%findOldest_Some.
  exists before, i, after. split; [done |].
  assert (Hi : 0 <= pendingRequests i).
  { unfold nonneg in Hn. rewrite Hl in Hn. rewrite List.Forall_forall in Hn.
    apply (Hn (u, i)). apply in_or_app. right. by left. }
  split; [lia |]. split.
  - intros e He Hpe. apply Hb; [done | lia].
  - intros e He Hpe. apply Ha; [done | lia].
Qed.

Lemma findOldest_key l u : findOldest l = Some u -> In u (JsMap.keys l).
Proof.
  intros (before & i & after & -> & _)%findOldest_Some.
  rewrite keys_app. apply in_or_app. right. by left.
Qed.

Lemma keys_ok_truthy m u : keys_ok m -> In u (JsMap.keys (userInstances m)) -> truthy u = true.
Proof.
  intros [_ Hne] Hin. rewrite List.Forall_forall in Hne.
  specialize (Hne u Hin). by destruct u.
Qed.

Lemma lruLoop_spec fuel : forall m,
  wf m -> (length (userInstances m) < fuel)%nat ->
  SpecWords.lru_pass m (lruLoop fuel m).
Proof.
  induction fuel as [|fuel IH]; intros m Hwf Hfuel; [lia |].
  cbn [lruLoop].
  destruct (maxCachedUsers (options m) <? JsMap.size (userInstances m)) eqn:Hsize.
  - apply Z.ltb_lt in Hsize.
    destruct (findOldest (userInstances m)) as [u|] eqn:Eo.
    + rewrite (keys_ok_truthy m u (proj1 Hwf) (findOldest_key _ _ Eo)).
      apply (SpecWords.lru_evict m u); [done | |].
      * apply findOldest_oldest_idle; [apply Hwf | done].
      * apply IH; [by apply evictUser_wf |].
        apply findOldest_Some in Eo as (before & i & after & Hl & _).
        cbn. assert (In (u, i) (userInstances m)) as Hin
          by (rewrite Hl; apply in_or_app; right; by left).
        pose proof (length_delete_lt u i (userInstances m) Hin). lia.
    + apply SpecWords.lru_all_pending; [done |]. by apply findOldest_None.
  - apply Z.ltb_ge in Hsize. by apply SpecWords.lru_within_cap.
Qed.

Lemma oldest_idle_unique l u u' :
  SpecWords.oldest_idle l u -> SpecWords.oldest_idle l u' -> u = u'.
Proof.
  intros (b & i & a & Hl & Hp & Hb & Ha) (b' & i' & a' & Hl' & Hp' & Hb' & Ha').
  rewrite Hl in Hl'. apply List.app_eq_app in Hl' as [c [[Hbc Hc]|[Hbc Hc]]].
  - destruct c as [|e c]; cbn in Hc.
    + injection Hc as Hu _ _. by symmetry.
    + injection Hc as He Hac. subst e a' b.
      assert (lastActivityAt i < lastActivityAt i') as H1.
      { apply (Hb (u', i')); [|done]. apply in_or_app. right. by left. }
      assert (lastActivityAt i' <= lastActivityAt i) as H3.
      { apply (Ha' (u, i)); [|done]. apply in_or_app. right. by left. }
      lia.
  - destruct c as [|e c]; cbn in Hc.
    + by injection Hc as Hu _ _.
    + injection Hc as He Hac. subst e a b'.
      assert (lastActivityAt i' < lastActivityAt i) as H1.
      { apply (Hb' (u, i)); [|done]. apply in_or_app. right. by left. }
      assert (lastActivityAt i <= lastActivityAt i') as H3.
      { apply (Ha (u', i')); [|done]. apply in_or_app. right. by left. }
      lia.
Qed.

Lemma lru_pass_functional m a b :
  SpecWords.lru_pass m a -> SpecWords.lru_pass m b -> a = b.
Proof.
  intros Ha. revert b. induction Ha as [m Hs|m Hs Hall|m u m' Hs Ho Hm' IH]; intros b Hb.
  - inversion Hb; subst; [done | lia | lia].
  - inversion Hb as [|?|? u ? ? Ho ?]; subst; [lia | done |].
    destruct Ho as (before & i & after & Hl & Hp & _).
    specialize (Hall (u, i)). cbn in Hall. rewrite Hl in Hall.
    assert (0 < pendingRequests i) by (apply Hall, in_or_app; right; by left). lia.
  - inversion Hb as [|? ? Hall|? u' ? ? Ho' Hb']; subst; [lia | |].
    + destruct Ho as (before & i & after & Hl & Hp & _).
      specialize (Hall (u, i)). cbn in Hall. rewrite Hl in Hall.
      assert (0 < pendingRequests i) by (apply Hall, in_or_app; right; by left). lia.
    + rewrite (oldest_idle_unique _ _ _ Ho Ho') in IH. by apply IH.
Qed.

(** C3.  On a well-formed cache the first pass removes, in iteration order
    and with reason [idle], exactly the instances with no pending request
    whose idle time exceeds the timeout; the second pass then is the loop the
    specification words: while the cache is over its cap, the first of the
    oldest instances without pending request is evicted with reason [lru],
    and the loop stops when every remaining instance has pending work.  The
    worded loop has no other outcome. *)
Theorem cleanupInactiveUsers_two_passes (m : Manager.t) (now : Z) :
  wf m ->
  let timeout := userIdleTimeoutMs (options m) in
  let expired := fun e : jsstring * UserInstance =>
                   SpecWords.idle_expired timeout now (snd e) in
  let m1 := idlePass m now in
  userInstances m1 = List.filter (fun e => negb (expired e)) (userInstances m)
  /\ trace m1
     = trace m ++ List.map (fun e => Emit (UserEvicted (fst e) idle))
                   (List.filter expired (userInstances m))
  /\ SpecWords.lru_pass m1 (cleanupInactiveUsers m now)
  /\ (forall m', SpecWords.lru_pass m1 m' -> m' = cleanupInactiveUsers m now).
Proof.
  intros Hwf. cbv zeta.
  destruct (idlePass_spec m now (proj1 (proj1 Hwf))) as (H1 & H2 & _ & _).
  assert (Hext : forall e, In e (userInstances m) ->
            idleEvictable (userIdleTimeoutMs (options m)) now (snd e)
            = SpecWords.idle_expired (userIdleTimeoutMs (options m)) now (snd e)).
  { intros e He. unfold idleEvictable, SpecWords.idle_expired. f_equal.
    destruct Hwf as [_ Hn]. unfold nonneg in Hn. rewrite List.Forall_forall in Hn.
    specialize (Hn e He).
    destruct (0 <? pendingRequests (snd e)) eqn:E1;
      destruct (pendingRequests (snd e) =? 0) eqn:E2; try done;
      [apply Z.ltb_lt in E1; apply Z.eqb_eq in E2
      |apply Z.ltb_ge in E1; apply Z.eqb_neq in E2]; lia. }
  assert (Hwf1 : wf (idlePass m now)).
  { destruct Hwf as [Hk Hn]. split.
    - unfold keys_ok. eapply updates_keys; [apply idlePass_updates | exact Hk].
    - unfold nonneg. eapply updates_Forall_nonneg; [apply idlePass_updates | exact Hn]. }
  assert (Hlru : SpecWords.lru_pass (idlePass m now) (cleanupInactiveUsers m now)).
  { unfold cleanupInactiveUsers, lruPass. apply lruLoop_spec; [done | lia]. }
  split; [|split; [|split]].
  - rewrite H1. apply List.filter_ext_in. intros e He. by rewrite Hext.
  - rewrite H2. f_equal. f_equal. apply List.filter_ext_in. intros e He. by rewrite Hext.
  - exact Hlru.
  - intros m' Hm'. by apply (lru_pass_functional (idlePass m now)).
Qed.

End CleanupFacts.

(** C3 on the cache of three idle users with a cap of two: nobody has been
    idle for a second, and the oldest user is the one evicted. *)
Lemma cleanupInactiveUsers_two_passes_witness :
  Inv.wf Scenario.three_users
  /\ Manager.getActiveUserIds (Manager.idlePass Scenario.three_users 500)
     = [js "u-a"; js "u-b"; js "u-c"]
  /\ Manager.getActiveUserIds (Manager.cleanupInactiveUsers Scenario.three_users 500)
     = [js "u-b"; js "u-c"]
  /\ SpecWords.lru_pass (Manager.idlePass Scenario.three_users 500)
       (Manager.cleanupInactiveUsers Scenario.three_users 500).
Proof.
  assert (Hwf : Inv.wf Scenario.three_users)
    by (apply (reachable_wf Scenario.opts0); by eexists).
  split; [exact Hwf |].
  destruct (cleanupInactiveUsers_two_passes Scenario.three_users 500 Hwf)
    as (H1 & _ & H3 & _).
  split; [|split; [|exact H3]].
  - unfold Manager.getActiveUserIds. rewrite H1. vm_compute. reflexivity.
  - vm_compute. reflexivity.
Defined.

(** ** Eviction and pending requests *)

Section EvictionSafety.
Import Manager Inv Scan.

Lemma keeps_refl l : keeps l l.
Proof. by intros k. Qed.

Lemma keeps_trans l1 l2 l3 : keeps l1 l2 -> keeps l2 l3 -> keeps l1 l3.
Proof. intros H1 H2 k Hk. by apply H2, H1. Qed.

Lemma keeps_set l k v : keeps l (JsMap.set k v l).
Proof. intros k' Hk'. by apply get_set_is_Some. Qed.

Lemma initializeUserInstance_keeps G m u cfg cc ok now :
  keeps (userInstances m)
    (userInstances (snd (initializeUserInstance G m u cfg cc ok now))).
Proof.
  unfold initializeUserInstance.
  destruct (ensureUserDirectories G u ok); cbn; [apply keeps_set | apply keeps_refl].
Qed.

Lemma verifyRemote_keeps G m token reply ok now nowIso :
  keeps (userInstances m)
    (userInstances (snd (verifyRemote G m token reply ok now nowIso))).
Proof.
  unfold verifyRemote.
  destruct reply as [| |httpStatus body]; cbn; try apply keeps_refl.
  destruct (response_ok httpStatus); cbn;
    [|destruct (httpStatus =? 401); cbn; apply keeps_refl].
  destruct body as [|[result|]]; cbn; try apply keeps_refl.
  destruct (truthy (user_id result)); cbn; [|apply keeps_refl].
  destruct (sanitizeUserId (user_id result)) as [userId|e] eqn:E; cbn;
    [|apply keeps_refl].
  destruct (JsMap.has userId (userInstances m)); cbn; [apply keeps_refl |].
  match goal with
  | |- context [initializeUserInstance ?G ?m ?u ?c ?cc ?ok ?now] =>
      pose proof (initializeUserInstance_keeps G m u c cc ok now) as H;
      destruct (initializeUserInstance G m u c cc ok now) as [[inst|e] m']
  end; exact H.
Qed.

Lemma authenticateToken_keeps G m token reply ok now nowIso :
  keeps (userInstances m)
    (userInstances (snd (authenticateToken G m token reply ok now nowIso))).
Proof.
  unfold authenticateToken.
  destruct (cachedInstance m token) as [[u i]|].
  - destruct (status i); cbn; apply keeps_refl.
  - destruct (truthy (cloudBackendUrl (options m))); cbn; [|apply keeps_refl].
    pose proof (verifyRemote_keeps G m token reply ok now nowIso) as H.
    destruct (verifyRemote G m token reply ok now nowIso) as [[r|e] m']; exact H.
Qed.

Lemma getUserInstance_keeps G m u now disk ok :
  keeps (userInstances m) (userInstances (snd (getUserInstance G m u now disk ok))).
Proof.
  unfold getUserInstance.
  destruct (sanitizeUserId u) as [k|e] eqn:E; [|apply keeps_refl].
  destruct (JsMap.get k (userInstances m)) as [i|] eqn:Eg; cbn; [apply keeps_set |].
  destruct disk as [[cfg|]|e]; cbn; try apply keeps_refl.
  match goal with
  | |- context [initializeUserInstance ?G ?m ?u ?c ?cc ?ok ?now] =>
      pose proof (initializeUserInstance_keeps G m u c cc ok now) as H;
      destruct (initializeUserInstance G m u c cc ok now) as [[inst|e] m']
  end; exact H.
Qed.

Lemma updateOne_keeps updated m entry :
  keeps (userInstances m) (userInstances (snd (updateOne (updated, m) entry))).
Proof.
  destruct entry as [c ok]. unfold updateOne.
  destruct (sanitizeUserId (cloud_userId c)) as [k|e]; [|apply keeps_refl].
  destruct ok; cbn; [|apply keeps_refl].
  destruct (JsMap.get k (userInstances m)) as [i|]; cbn; [apply keeps_set | apply keeps_refl].
Qed.

Lemma updateUserConfigs_keeps m configs nowIso :
  keeps (userInstances m) (userInstances (snd (updateUserConfigs m configs nowIso))).
Proof.
  unfold updateUserConfigs.
  assert (H : forall updated m0,
             keeps (userInstances m0)
               (userInstances (snd (fold_left updateOne configs (updated, m0))))).
  { induction configs as [|entry r IH]; intros updated m0; [apply keeps_refl |].
    cbn [fold_left]. pose proof (updateOne_keeps updated m0 entry) as H1.
    destruct (updateOne (updated, m0) entry) as [updated' m1].
    eapply keeps_trans; [exact H1 | apply IH]. }
  specialize (H 0 m).
  destruct (fold_left updateOne configs (0, m)) as [updated m']. exact H.
Qed.

Lemma incrementPendingRequests_keeps m u now :
  keeps (userInstances m) (userInstances (snd (incrementPendingRequests m u now))).
Proof.
  unfold incrementPendingRequests.
  destruct (sanitizeUserId u) as [k|e]; [|apply keeps_refl].
  destruct (JsMap.get k (userInstances m)) as [i|]; cbn; [apply keeps_set | apply keeps_refl].
Qed.

Lemma decrementPendingRequests_keeps m u now :
  keeps (userInstances m) (userInstances (snd (decrementPendingRequests m u now))).
Proof.
  unfold decrementPendingRequests.
  destruct (sanitizeUserId u) as [k|e]; [|apply keeps_refl].
  destruct (JsMap.get k (userInstances m)) as [i|]; cbn; [|apply keeps_refl].
  destruct (0 <? pendingRequests i); cbn; [apply keeps_set | apply keeps_refl].
Qed.

Lemma get_filter (P : jsstring * UserInstance -> bool) k v l :
  JsMap.get k l = Some v -> P (k, v) = true -> JsMap.get k (List.filter P l) = Some v.
Proof.
  intros Hg HP. induction l as [|[k' v'] r IH]; [done |]. cbn in *.
  destruct (decide (k' = k)) as [->|Hne].
  - injection Hg as ->. rewrite HP. cbn. by rewrite decide_True.
  - destruct (P (k', v')); cbn; [rewrite decide_False by done |]; auto.
Qed.

Lemma idlePass_keeps_busy m now key inst :
  keys_ok m ->
  JsMap.get key (userInstances m) = Some inst -> 0 < pendingRequests inst ->
  JsMap.get key (userInstances (idlePass m now)) = Some inst.
Proof.
  intros [Hnd _] Hg Hp. destruct (idlePass_spec m now Hnd) as (-> & _).
  apply get_filter; [done |]. cbn. unfold idleEvictable.
  apply Z.ltb_lt in Hp. by rewrite Hp.
Qed.

Lemma lruLoop_keeps_busy fuel : forall m key inst,
  keys_ok m ->
  JsMap.get key (userInstances m) = Some inst -> 0 < pendingRequests inst ->
  JsMap.get key (userInstances (lruLoop fuel m)) = Some inst.
Proof.
  induction fuel as [|fuel IH]; intros m key inst Hk Hg Hp; [done |].
  cbn [lruLoop].
  destruct (maxCachedUsers (options m) <? JsMap.size (userInstances m)); [|done].
  destruct (findOldest (userInstances m)) as [u|] eqn:Eo; [|done].
  destruct (truthy u); [|done].
  assert (Hne : u <> key).
  { intros ->. apply findOldest_Some in Eo as (before & i & after & Hl & Hi & _).
    assert (In (key, i) (userInstances m)) as Hin
      by (rewrite Hl; apply in_or_app; right; by left).
    apply (In_get _ _ _ (proj1 Hk)) in Hin. rewrite Hg in Hin. injection Hin as ->. lia. }
  apply IH; [| |done].
  - unfold keys_ok. eapply updates_keys; [apply evictUser_updates | exact Hk].
  - cbn. by rewrite get_delete_ne.
Qed.

Lemma cleanupInactiveUsers_keeps_busy m now key inst :
  keys_ok m ->
  JsMap.get key (userInstances m) = Some inst -> 0 < pendingRequests inst ->
  JsMap.get key (userInstances (cleanupInactiveUsers m now)) = Some inst.
Proof.
  intros Hk Hg Hp. unfold cleanupInactiveUsers, lruPass.
  apply lruLoop_keeps_busy; [|by apply idlePass_keeps_busy | done].
  unfold keys_ok. eapply updates_keys; [apply idlePass_updates | exact Hk].
Qed.

(** C1 (as amended).  In a cache with distinct keys, an instance with
    pending requests survives both passes of [cleanupInactiveUsers]
    unchanged, and no manager operation other than [forceEvictUser] removes
    its entry. *)
Theorem busy_instance_survives (m : Manager.t) (key : jsstring) (inst : UserInstance) :
  keys_ok m ->
  JsMap.get key (userInstances m) = Some inst ->
  0 < pendingRequests inst ->
  (forall now, JsMap.get key (userInstances (idlePass m now)) = Some inst)
  /\ JsMap.get key (userInstances (lruPass m)) = Some inst
  /\ (forall now, JsMap.get key (userInstances (cleanupInactiveUsers m now)) = Some inst)
  /\ (forall op, (forall u, op <> OpForceEvict u) ->
        is_Some (JsMap.get key (userInstances (step m op)))).
Proof.
  intros Hk Hg Hp. split; [|split; [|split]].
  - intros now. by apply idlePass_keeps_busy.
  - by apply lruLoop_keeps_busy.
  - intros now. by apply cleanupInactiveUsers_keeps_busy.
  - intros op Hop. assert (Hs : is_Some (JsMap.get key (userInstances m))) by eauto.
    destruct op as [t|G t rp ok now iso|G u now disk ok|cs iso|err|raw now|raw now|now|u];
      cbn [step].
    + by rewrite authenticateTokenSync_instances.
    + by apply authenticateToken_keeps.
    + by apply getUserInstance_keeps.
    + by apply updateUserConfigs_keeps.
    + done.
    + by apply incrementPendingRequests_keeps.
    + by apply decrementPendingRequests_keeps.
    + rewrite (cleanupInactiveUsers_keeps_busy m now key inst); eauto.
    + by destruct (Hop u).
Qed.

End EvictionSafety.

(** C1 on the user with a request in flight, long after the idle timeout. *)
Lemma busy_instance_survives_witness :
  exists inst,
    JsMap.get (js "u-1") (Manager.userInstances Scenario.one_busy_user) = Some inst
    /\ Manager.pendingRequests inst = 1
    /\ JsMap.get (js "u-1")
         (Manager.userInstances (Manager.cleanupInactiveUsers Scenario.one_busy_user 999999))
       = Some inst.
Proof.
  assert (Hk : Inv.keys_ok Scenario.one_busy_user).
  { apply (reachable_wf Scenario.opts0). by eexists. }
  eexists. split; [vm_compute; reflexivity |]. split; [reflexivity |].
  refine (proj1 (proj2 (proj2
            (busy_instance_survives Scenario.one_busy_user (js "u-1") _ Hk _ _))) 999999).
  - vm_compute. reflexivity.
  - vm_compute. reflexivity.
Defined.

(** C1, the claim as worded fails: [forceEvictUser] removes the user whose
    request is still in flight. *)
Lemma forceEvictUser_removes_busy_instance :
  Manager.reachable Scenario.opts0 Scenario.one_busy_user
  /\ Counters.pendingOf (js "u-1") Scenario.one_busy_user = Some 1
  /\ fst (Manager.forceEvictUser Scenario.one_busy_user (js "u-1")) = Return true
  /\ JsMap.get (js "u-1")
       (Manager.userInstances (snd (Manager.forceEvictUser Scenario.one_busy_user (js "u-1"))))
     = None.
Proof.
  split; [by eexists |]. repeat split; vm_compute; reflexivity.
Qed.

(** ** What an eviction leaves alone *)

Section EvictionFrame.
Import Manager.

Lemma idlePass_tokens m now : tokenToUserId (idlePass m now) = tokenToUserId m.
Proof.
  unfold idlePass. generalize (userInstances m) as entries. intros entries.
  revert m. induction entries as [|[u i] r IH]; intros m; [done |].
  cbn [fold_left]. rewrite IH, idleStep_eq.
  by destruct (Scan.idleEvictable _ _ _).
Qed.

Lemma lruLoop_tokens fuel m : tokenToUserId (lruLoop fuel m) = tokenToUserId m.
Proof.
  revert m. induction fuel as [|fuel IH]; intros m; [done |]. cbn [lruLoop].
  destruct (maxCachedUsers (options m) <? JsMap.size (userInstances m)); [|done].
  destruct (findOldest (userInstances m)) as [u|]; [|done].
  destruct (truthy u); [|done]. by rewrite IH.
Qed.

Lemma cleanupInactiveUsers_tokens m now :
  tokenToUserId (cleanupInactiveUsers m now) = tokenToUserId m.
Proof.
  unfold cleanupInactiveUsers, lruPass. by rewrite lruLoop_tokens, idlePass_tokens.
Qed.

Lemma forceEvictUser_tokens m u :
  tokenToUserId (snd (forceEvictUser m u)) = tokenToUserId m.
Proof.
  unfold forceEvictUser. destruct (sanitizeUserId u) as [k|e]; [|done].
  by destruct (JsMap.has k (userInstances m)).
Qed.

(** C10.  [evictUser] deletes the user's entry of the instance cache, of the
    config cache and of the resolver table, emits one [user-evicted] event
    and changes nothing else; in particular the token index is the same
    after an eviction for any reason, so [hasToken] answers as before and
    [getStats().totalUsers] is unchanged. *)
Theorem eviction_leaves_token_index :
  (forall m u reason,
      let m' := evictUser m u reason in
      userInstances m' = JsMap.delete u (userInstances m)
      /\ configCache m' = delete u (configCache m)
      /\ workspaceResolvers m' = delete u (workspaceResolvers m)
      /\ trace m' = trace m ++ [Emit (UserEvicted u reason)]
      /\ tokenToUserId m' = tokenToUserId m
      /\ options m' = options m
      /\ (cacheHits m', cacheMisses m', lastSyncAt m', syncFailures m')
         = (cacheHits m, cacheMisses m, lastSyncAt m, syncFailures m)
      /\ (forall k, k <> u ->
            JsMap.get k (userInstances m') = JsMap.get k (userInstances m)
            /\ configCache m' !! k = configCache m !! k
            /\ workspaceResolvers m' !! k = workspaceResolvers m !! k))
  /\ (forall m m',
        (exists u reason, m' = evictUser m u reason)
        \/ (exists now, m' = cleanupInactiveUsers m now)
        \/ (exists u, m' = snd (forceEvictUser m u)) ->
        tokenToUserId m' = tokenToUserId m
        /\ (forall token, hasToken m' token = hasToken m token)
        /\ totalUsers (getStats m') = totalUsers (getStats m)).
Proof.
  split.
  - intros m u reason. cbv zeta. repeat split; try reflexivity.
    + cbn. by apply get_delete_ne.
    + cbn. by apply lookup_delete_ne.
    + cbn. by apply lookup_delete_ne.
  - intros m m' H.
    assert (Ht : tokenToUserId m' = tokenToUserId m).
    { destruct H as [(u & reason & ->)|[(now & ->)|(u & ->)]];
        [done | apply cleanupInactiveUsers_tokens | apply forceEvictUser_tokens]. }
    split; [exact Ht |]. split.
    + intros token. unfold hasToken. by rewrite Ht.
    + unfold getStats.
      destruct (fold_left _ (userInstances m') (0, 0)).
      destruct (fold_left _ (userInstances m) (0, 0)). cbn. by rewrite Ht.
Qed.

End EvictionFrame.

(** C10 on the cache of three users: after the cleanup evicted a user, and
    after a manual eviction, all three tokens are still registered. *)
Lemma eviction_leaves_token_index_witness :
  let m := Scenario.three_users in
  let m1 := Manager.cleanupInactiveUsers m 500 in
  let m2 := snd (Manager.forceEvictUser m1 (js "u-b")) in
  Manager.getActiveUserIds m2 = [js "u-c"]
  /\ Manager.hasToken m2 (js "gt_a") = true
  /\ Manager.hasToken m2 (js "gt_b") = true
  /\ Manager.totalUsers (Manager.getStats m2) = 3.
Proof.
  cbv zeta.
  pose proof (proj2 eviction_leaves_token_index) as H.
  destruct (H Scenario.three_users (Manager.cleanupInactiveUsers Scenario.three_users 500))
    as (_ & H1 & H1'); [right; left; by eexists |].
  destruct (H (Manager.cleanupInactiveUsers Scenario.three_users 500)
              (snd (Manager.forceEvictUser
                      (Manager.cleanupInactiveUsers Scenario.three_users 500) (js "u-b"))))
    as (_ & H2 & H2'); [right; right; by eexists |].
  split; [vm_compute; reflexivity |].
  rewrite !H2, !H1, H2', H1'. repeat split; vm_compute; reflexivity.
Defined.

(** ** Authentication *)

Section Authentication.
Import Manager Inv.

Lemma keys_ok_get_nonempty m u i :
  keys_ok m -> JsMap.get u (userInstances m) = Some i -> u <> [].
Proof.
  intros [_ Hne] Hg%get_In. rewrite List.Forall_forall in Hne.
  apply Hne. by apply (in_map fst _ (u, i)).
Qed.

Lemma cachedInstance_hit m token u i :
  keys_ok m ->
  tokenToUserId m !! token = Some u ->
  JsMap.get u (userInstances m) = Some i ->
  cachedInstance m token = Some (u, i).
Proof.
  intros Hk Ht Hg. unfold cachedInstance. rewrite Ht.
  pose proof (keys_ok_get_nonempty m u i Hk Hg). destruct u; [done |].
  cbn [truthy]. by rewrite Hg.
Qed.

(** C2 (as amended).  When the token is in the index and its user is
    cached, both variants of [authenticateToken] answer from the cache: an
    active user gets their id back and the manager, the instance's
    [lastActivityAt] included, is left as it was; a suspended or expired
    user gets [null], and the only change is one [user-suspended] or
    [user-expired] event. *)
Theorem authenticateToken_cache_hit (m : Manager.t) (token u : jsstring) (i : UserInstance) :
  keys_ok m ->
  tokenToUserId m !! token = Some u ->
  JsMap.get u (userInstances m) = Some i ->
  (status i = active ->
     authenticateTokenSync m token = (Some u, m)
     /\ forall G reply ok now nowIso,
          authenticateToken G m token reply ok now nowIso = (Return (Some u), m))
  /\ (status i = suspended ->
        authenticateTokenSync m token
        = (None, set_trace m (trace m ++ [Emit (UserSuspended u)]))
        /\ forall G reply ok now nowIso,
             authenticateToken G m token reply ok now nowIso
             = (Return None, set_trace m (trace m ++ [Emit (UserSuspended u)])))
  /\ (status i = expired ->
        authenticateTokenSync m token
        = (None, set_trace m (trace m ++ [Emit (UserExpired u)]))
        /\ forall G reply ok now nowIso,
             authenticateToken G m token reply ok now nowIso
             = (Return None, set_trace m (trace m ++ [Emit (UserExpired u)]))).
Proof.
  intros Hk Ht Hg.
  pose proof (cachedInstance_hit m token u i Hk Ht Hg) as Hc.
  pose proof (keys_ok_get_nonempty m u i Hk Hg) as Hu.
  assert (Hsync : forall st, status i = st ->
            authenticateTokenSync m token
            = match st with
              | suspended => (None, emit m (UserSuspended u))
              | expired => (None, emit m (UserExpired u))
              | _ => (Some u, m)
              end).
  { intros st <-. unfold authenticateTokenSync. rewrite Ht.
    destruct u; [done |]. cbn [truthy negb]. by rewrite Hg. }
  repeat split; intros; try (by rewrite (Hsync _ H));
    unfold authenticateToken; by rewrite Hc, H.
Qed.

End Authentication.

(** C2 on the cached active user. *)
Lemma authenticateToken_cache_hit_witness :
  Manager.authenticateTokenSync Scenario.one_user (js "gt_abc")
  = (Some (js "u-1"), Scenario.one_user).
Proof.
  assert (Hk : Inv.keys_ok Scenario.one_user)
    by (apply (reachable_wf Scenario.opts0); by eexists).
  refine (proj1 (proj1 (authenticateToken_cache_hit Scenario.one_user (js "gt_abc")
                          (js "u-1") _ Hk _ _) _)); vm_compute; reflexivity.
Defined.

(** C2, the claim as worded fails: the user loaded at time 1000 authenticates
    at time 5000 and [lastActivityAt] still reads 1000. *)
Lemma authenticateToken_does_not_refresh :
  let res := Manager.authenticateToken Scenario.G0 Scenario.one_user (js "gt_abc")
               Manager.FetchRejects true 5000 (js "2026-01-01T00:00:05.000Z") in
  fst res = Return (Some (js "u-1"))
  /\ (Manager.lastActivityAt <$> JsMap.get (js "u-1") (Manager.userInstances (snd res)))
     = Some 1000
  /\ (Manager.lastActivityAt <$> JsMap.get (js "u-1") (Manager.userInstances (snd res)))
     <> Some 5000
  /\ (Manager.lastActivityAt
        <$> JsMap.get (js "u-1")
              (Manager.userInstances
                 (snd (Manager.authenticateTokenSync Scenario.one_user (js "gt_abc")))))
     = Some 1000.
Proof. cbv zeta. repeat split; try (vm_compute; reflexivity). vm_compute. discriminate. Qed.

(** *** The remote verification *)

Section RemoteVerify.
Import Manager Inv.

Lemma id_char_not_dot c : is_id_char c = true -> is_dot c = false.
Proof.
  intros H. destruct (is_dot c) eqn:E; [|done].
  apply is_dot_eq in E. subst c. discriminate.
Qed.

Lemma id_char_not_separator c : is_id_char c = true -> is_separator c = false.
Proof.
  intros H. destruct (is_separator c) eqn:E; [|done].
  unfold is_separator in E. apply orb_true_iff in E as [E|E];
    apply N.eqb_eq in E; subst c; discriminate.
Qed.

Lemma sanitized_idempotent s :
  Forall (fun c => is_id_char c = true) s -> sanitized s = s.
Proof.
  unfold sanitized, remove_separators, replace_disallowed.
  induction 1 as [|c r Hc _ IH]; [done |].
  rewrite remove_dotdot_cons_other by (by apply id_char_not_dot).
  cbn. rewrite (id_char_not_separator c Hc). cbn. rewrite Hc. by rewrite IH.
Qed.

Lemma sanitizeUserId_idempotent s k :
  sanitizeUserId s = Return k -> sanitizeUserId k = Return k.
Proof.
  intros H. pose proof H as (-> & Hne & Hlen)%sanitizeUserId_Return.
  unfold sanitizeUserId in *.
  by rewrite (sanitized_idempotent _ (sanitized_id_chars s)).
Qed.

Lemma ensureUserDirectories_ok G s k :
  sanitizeUserId s = Return k ->
  ensureUserDirectories G k true
  = Return (mkUserPaths (Path.join [globalWorkspaceRoot G; js "users"; k])
              (Path.join [globalConfigRoot G; js "users"; k; js "config.json"])).
Proof.
  intros H%sanitizeUserId_idempotent.
  unfold ensureUserDirectories, getUserWorkspacePath, getUserConfigPath.
  by rewrite H.
Qed.

(** C4 (as amended).  A call whose token is not answered from the cache
    never throws.  Without a configured backend URL it returns [null] with
    a warning and sends nothing; with a URL that cannot be parsed it returns
    [null] with an error line and sends nothing.  Otherwise exactly one
    verify request is sent: a 401 answer gives [null] without a log line;
    any other non-2xx answer and a failed transport give [null] with an
    error line; a 2xx answer with a record whose user id sanitizes to [uid]
    and whose tenant is cached already or can be provisioned puts the token
    in the index, leaves a cached tenant as it is or caches a fresh one, and
    returns [uid]. *)
Theorem authenticateToken_cache_miss
    (G : Globals) (m : Manager.t) (token : jsstring) (reply : VerifyReply)
    (ok : bool) (now : Z) (nowIso : jsstring) :
  cachedInstance m token = None ->
  let res := authenticateToken G m token reply ok now nowIso in
  let m0 := requestVerify m token in
  (exists r, fst res = Return r)
  /\ (cloudBackendUrl (options m) = [] -> res = (Return None, log m LogWarn))
  /\ (cloudBackendUrl (options m) <> [] ->
      (reply = InvalidURL -> res = (Return None, log m LogError))
      /\ (reply <> InvalidURL ->
            exists rest, trace (snd res) = trace m ++ VerifyRequest token :: rest
                         /\ Forall Manager.not_a_request rest)
      /\ (forall body, reply = Response 401 body -> res = (Return None, m0))
      /\ (reply = FetchRejects
          \/ (exists st body, reply = Response st body
                              /\ response_ok st = false /\ st <> 401) ->
          res = (Return None, log m0 LogError))
      /\ (forall st record uid,
            reply = Response st (BodyJson (Some record)) ->
            response_ok st = true ->
            user_id record <> [] ->
            sanitizeUserId (user_id record) = Return uid ->
            is_Some (JsMap.get uid (userInstances m)) \/ ok = true ->
            fst res = Return (Some uid)
            /\ tokenToUserId (snd res) !! token = Some uid
            /\ (forall inst, JsMap.get uid (userInstances m) = Some inst ->
                  JsMap.get uid (userInstances (snd res)) = Some inst)
            /\ (JsMap.get uid (userInstances m) = None ->
                  exists inst,
                    JsMap.get uid (userInstances (snd res)) = Some inst
                    /\ userId inst = uid
                    /\ config inst = openclaw_config record
                    /\ pendingRequests inst = 0
                    /\ lastActivityAt inst = now
                    /\ configCache (snd res) !! uid = Some (openclaw_config record)
                    /\ is_Some (workspaceResolvers (snd res) !! uid)
                    /\ In (Emit (UserLoaded uid)) (trace (snd res))))).
Proof.
  intros Hc. cbv zeta. unfold authenticateToken. rewrite Hc.
  destruct (cloudBackendUrl (options m)) as [|c url] eqn:Eurl; cbn [truthy negb].
  { split; [by eexists |]. split; [done |]. by intros []. }
  split.
  { destruct (verifyRemote G m token reply ok now nowIso) as [[r|e] m']; by eexists. }
  split; [done |]. intros _.
  split; [by intros -> |].
  split.
  { intros Hr. unfold verifyRemote.
    destruct reply as [| |st body]; [done | |].
    - cbn. eexists. split; [by rewrite <- app_assoc | repeat constructor].
    - destruct (response_ok st); cbn [negb].
      2:{ destruct (st =? 401); cbn.
          - eexists. split; [reflexivity | constructor].
          - eexists. split; [by rewrite <- app_assoc | repeat constructor]. }
      destruct body as [|[record|]].
      + cbn. eexists. split; [by rewrite <- app_assoc | repeat constructor].
      + destruct (truthy (user_id record)); cbn [negb].
        2:{ cbn. eexists. split; [reflexivity | constructor]. }
        destruct (sanitizeUserId (user_id record)) as [uid|e].
        2:{ cbn. eexists. split; [by rewrite <- app_assoc | repeat constructor]. }
        cbn [tokenToUserId userInstances set_tokenToUserId requestVerify set_trace].
        destruct (JsMap.has uid (userInstances m)); cbn [negb].
        * cbn. eexists. split; [by rewrite <- app_assoc | repeat constructor].
        * unfold initializeUserInstance.
          destruct (ensureUserDirectories G uid ok); cbn.
          -- eexists. split; [by rewrite <- !app_assoc | repeat constructor].
          -- eexists. split; [by rewrite <- app_assoc | repeat constructor].
      + cbn. eexists. split; [reflexivity | constructor]. }
  split.
  { intros body ->. reflexivity. }
  split.
  { intros [->|(st & body & -> & Hok & Hst)]; [reflexivity |].
    unfold verifyRemote. rewrite Hok. cbn [negb].
    apply Z.eqb_neq in Hst. by rewrite Hst. }
  intros st record uid -> Hok Hne Hs Hprov.
  unfold verifyRemote. rewrite Hok. cbn [negb].
  destruct (user_id record) as [|c0 r0] eqn:Eid; [done |]. cbn [truthy negb].
  rewrite Hs.
  cbn [tokenToUserId userInstances set_tokenToUserId requestVerify set_trace].
  destruct (JsMap.get uid (userInstances m)) as [inst|] eqn:Eg.
  - assert (Hhas : JsMap.has uid (userInstances m) = true) by (apply has_true; eauto).
    rewrite Hhas. cbn. rewrite lookup_insert_eq.
    repeat split; [by intros ? [= ->] | done].
  - assert (Hhas : JsMap.has uid (userInstances m) = false) by (by apply has_false).
    rewrite Hhas. cbn [negb]. destruct Hprov as [[? [=]]| ->].
    unfold initializeUserInstance. rewrite (ensureUserDirectories_ok G _ _ Hs). cbn.
    rewrite lookup_insert_eq. repeat split; [done |]. intros _.
    eexists. rewrite get_set_eq. split; [reflexivity |]. cbn.
    rewrite !lookup_insert_eq. repeat split; [eauto |].
    apply in_or_app. left. apply in_or_app. right. by left.
Qed.

End RemoteVerify.

(** C4 on the cold start: an empty cache, and a 200 answer for ["gt_abc"]. *)
Lemma authenticateToken_cache_miss_witness :
  let res := Manager.authenticateToken Scenario.G0 (Manager.create Scenario.opts0)
               (js "gt_abc") (Scenario.verified (js "u-1") Manager.active) true 1000
               (js "2026-01-01T00:00:00.000Z") in
  fst res = Return (Some (js "u-1"))
  /\ Manager.tokenToUserId (snd res) !! js "gt_abc" = Some (js "u-1").
Proof.
  cbv zeta.
  destruct (authenticateToken_cache_miss Scenario.G0 (Manager.create Scenario.opts0)
              (js "gt_abc") (Scenario.verified (js "u-1") Manager.active) true 1000
              (js "2026-01-01T00:00:00.000Z") eq_refl) as (_ & _ & H).
  destruct (H ltac:(discriminate)) as (_ & _ & _ & _ & H5).
  destruct (H5 200 _ (js "u-1") eq_refl eq_refl ltac:(discriminate) eq_refl
              (or_intror eq_refl)) as (H6 & H7 & _).
  by split.
Defined.

(** C4, the claim as worded fails.  With the default options no backend URL
    is configured: nothing is sent, and the 200 answer that the backend
    would give is never asked for.  With a URL, a 200 answer whose user id
    does not survive sanitization gives [null]; so does one whose
    directories cannot be created, although the token is in the index by
    then. *)
Lemma authenticateToken_verify_not_always_issued :
  (let res := Manager.authenticateToken Scenario.G0 (Manager.create Manager.DEFAULT_OPTIONS)
                (js "gt_abc") (Scenario.verified (js "u-1") Manager.active) true 1000 [] in
   fst res = Return None /\ Manager.trace (snd res) = [Manager.Log Manager.LogWarn])
  /\ (let res := Manager.authenticateToken Scenario.G0 (Manager.create Scenario.opts0)
                   (js "gt_abc") (Scenario.verified (js "../") Manager.active) true 1000 [] in
      fst res = Return None)
  /\ (let res := Manager.authenticateToken Scenario.G0 (Manager.create Scenario.opts0)
                   (js "gt_abc") (Scenario.verified (js "u-1") Manager.active) false 1000 [] in
      fst res = Return None
      /\ Manager.tokenToUserId (snd res) !! js "gt_abc" = Some (js "u-1")
      /\ Manager.userInstances (snd res) = []).
Proof. cbv zeta. repeat split; vm_compute; reflexivity. Qed.

(** ** Configuration synchronizer *)

Section BackOff.
Import ConfigSync.

Lemma doSync_success_resets s response nowIso :
  isSyncing s = false ->
  let s' := snd (doSync s (FetchOk response) nowIso) in
  consecutiveFailures s' = 0
  /\ currentRetryDelay s' = initialRetryDelayMs (options s)
  /\ lastSyncTimestamp s' = Some (syncTimestamp response)
  /\ fst (doSync s (FetchOk response) nowIso)
     = mkResult true (fst (Manager.updateUserConfigs (manager s) (users response) nowIso)) None.
Proof.
  intros Hs. cbv zeta. unfold doSync. rewrite Hs.
  destruct (Manager.updateUserConfigs (manager s) (users response) nowIso) as [n mgr].
  destruct (hasMore response && _); [unfold scheduleSync; destruct (negb _) |]; done.
Qed.

Lemma onTimer_failure s message nowIso :
  isRunning s = true -> isSyncing s = false -> 0 <= consecutiveFailures s ->
  let s' := onTimer s (FetchError message) nowIso in
  consecutiveFailures s' = consecutiveFailures s + 1
  /\ currentRetryDelay s' = Z.min (currentRetryDelay s * 2) (maxRetryDelayMs (options s))
  /\ syncTimer s' = Some (currentRetryDelay s')
  /\ isRunning s' = true /\ isSyncing s' = false /\ options s' = options s.
Proof.
  intros Hr Hs Hc. cbv zeta.
  destruct s as [mgr o timer ts cf d running syncing al]. cbn in Hr, Hs, Hc. subst.
  unfold onTimer, doSync, scheduleNextSync, scheduleSync. cbn.
  assert (H : (0 <? cf + 1) = true) by (apply Z.ltb_lt; lia).
  rewrite H. cbn. done.
Qed.

(** What the code schedules after [k] failures in a row, counted from a
    state whose retry delay is the initial one. *)
Lemma retry_delay_after_failures k s message nowIso :
  isRunning s = true -> isSyncing s = false -> 0 <= consecutiveFailures s ->
  currentRetryDelay s = initialRetryDelayMs (options s) ->
  0 <= maxRetryDelayMs (options s) ->
  (0 < k)%nat ->
  let s' := failures k s message nowIso in
  syncTimer s'
  = Some (Z.min (initialRetryDelayMs (options s) * 2 ^ Z.of_nat k)
            (maxRetryDelayMs (options s)))
  /\ consecutiveFailures s' = consecutiveFailures s + Z.of_nat k.
Proof.
  intros Hr Hs Hc Hd Hmax Hk. cbv zeta.
  assert (H : forall n,
    let s' := failures (S n) s message nowIso in
    isRunning s' = true /\ isSyncing s' = false /\ options s' = options s
    /\ consecutiveFailures s' = consecutiveFailures s + Z.of_nat (S n)
    /\ currentRetryDelay s'
       = Z.min (initialRetryDelayMs (options s) * 2 ^ Z.of_nat (S n))
           (maxRetryDelayMs (options s))
    /\ syncTimer s' = Some (currentRetryDelay s')).
  { induction n as [|n IH]; cbv zeta.
    - cbn [failures].
      destruct (onTimer_failure s message nowIso Hr Hs Hc) as (H1 & H2 & H3 & H4 & H5 & H6).
      split; [done |]. split; [done |]. split; [done |]. split; [done |].
      split; [|done]. rewrite H2, Hd. f_equal.
    - cbv zeta in IH. destruct IH as (I1 & I2 & I3 & I4 & I5 & I6).
      change (failures (S (S n)) s message nowIso)
        with (onTimer (failures (S n) s message nowIso) (FetchError message) nowIso).
      destruct (onTimer_failure (failures (S n) s message nowIso) message nowIso I1 I2
                  ltac:(lia)) as (H1 & H2 & H3 & H4 & H5 & H6).
      split; [done |]. split; [done |]. split; [congruence |].
      split; [rewrite H1, I4; lia |]. split; [|done].
      rewrite H2, I5, I3.
      replace (2 ^ Z.of_nat (S (S n))) with (2 ^ Z.of_nat (S n) * 2)
        by (rewrite (Nat2Z.inj_succ (S n)), Z.pow_succ_r; lia).
      lia. }
  destruct k as [|n]; [lia |].
  destruct (H n) as (_ & _ & _ & H4 & H5 & H6). cbv zeta in *.
  split; [by rewrite H6, H5 | exact H4].
Qed.

End BackOff.

(** C5 on the timings of the back-off scenario (one second at first, eight
    seconds at most): the first retry is scheduled two seconds after the
    first failure, where the formula of the claim gives one second; four
    failures in a row are retried after 2, 4, 8 and 8 seconds; the success
    that follows puts the failure count back to zero and the retry delay
    back to the initial one. *)
Theorem first_retry_delay_is_doubled :
  let after k := ConfigSync.failures k Scenario.started_sync (js "HTTP 503") [] in
  let timers := List.map (fun k => ConfigSync.syncTimer (after k)) [1; 2; 3; 4]%nat in
  ConfigSync.syncTimer Scenario.started_sync = Some 0
  /\ timers = [Some 2000; Some 4000; Some 8000; Some 8000]
  /\ List.map (SpecWords.spec_retry_delay 1000 8000) [1; 2; 3; 4]%nat
     = [1000; 2000; 4000; 8000]
  /\ ConfigSync.syncTimer (after 1%nat) <> Some (SpecWords.spec_retry_delay 1000 8000 1)
  /\ List.map (fun k => ConfigSync.consecutiveFailures (after k)) [0; 1; 2; 3; 4]%nat
     = [0; 1; 2; 3; 4]
  /\ ConfigSync.alerts (after 4%nat) = [4]
  /\ (let s := ConfigSync.onTimer (after 4%nat)
                 (ConfigSync.FetchOk (ConfigSync.mkResponse [] [] false None)) [] in
      ConfigSync.consecutiveFailures s = 0
      /\ ConfigSync.currentRetryDelay s = 1000
      /\ ConfigSync.syncTimer s = Some 300000).
Proof. cbv zeta. repeat split; try (vm_compute; reflexivity). vm_compute. discriminate. Qed.

(* ================================================================== *)
(** * Further properties of the tenant manager *)

Section CleanupOutcome.
Import Manager Inv Scan.

Lemma evictUser_options m u reason : options (evictUser m u reason) = options m.
Proof. reflexivity. Qed.

Lemma lru_pass_options m m' : SpecWords.lru_pass m m' -> options m' = options m.
Proof. induction 1 as [| |m u m' _ _ _ IH]; [done | done | by rewrite IH]. Qed.

Lemma lru_pass_exit m m' :
  SpecWords.lru_pass m m' ->
  JsMap.size (userInstances m') <= maxCachedUsers (options m')
  \/ forall e, In e (userInstances m') -> 0 < pendingRequests (snd e).
Proof. induction 1; auto. Qed.

Lemma delete_incl (k : jsstring) (l : JsMap.t UserInstance) e :
  In e (JsMap.delete k l) -> In e l.
Proof. unfold JsMap.delete. by intros [? _]%List.filter_In. Qed.

Lemma lru_pass_incl m m' :
  SpecWords.lru_pass m m' ->
  forall e, In e (userInstances m') -> In e (userInstances m).
Proof.
  induction 1 as [| |m u m' _ _ _ IH]; [done | done |].
  intros e He. apply IH in He. cbn in He. by apply delete_incl in He.
Qed.

Lemma idle_fold_noop now es : forall m,
  (forall e, In e es ->
     idleEvictable (userIdleTimeoutMs (options m)) now (snd e) = false) ->
  fold_left (idleStep now) es m = m.
Proof.
  induction es as [|[u i] r IH]; intros m Hes; [done |].
  cbn [fold_left]. rewrite idleStep_eq.
  pose proof (Hes (u, i) ltac:(by left)) as Hu. cbn [snd] in Hu. rewrite Hu.
  apply IH. intros e He. apply Hes. by right.
Qed.

Lemma findOldest_all_pending l :
  (forall e, In e l -> 0 < pendingRequests (snd e)) -> findOldest l = None.
Proof.
  intros Hall. destruct (findOldest l) as [u|] eqn:E; [|done].
  apply findOldest_Some in E as (before & i & after & -> & Hp & _).
  specialize (Hall (u, i)). cbn in Hall.
  assert (0 < pendingRequests i) by (apply Hall, in_or_app; right; by left). lia.
Qed.

Lemma lruPass_at_exit m :
  JsMap.size (userInstances m) <= maxCachedUsers (options m)
  \/ (forall e, In e (userInstances m) -> 0 < pendingRequests (snd e)) ->
  lruPass m = m.
Proof.
  intros H. unfold lruPass. cbn [lruLoop].
  destruct (maxCachedUsers (options m) <? JsMap.size (userInstances m)) eqn:Hs; [|done].
  apply Z.ltb_lt in Hs. destruct H as [H|H]; [lia |].
  by rewrite (findOldest_all_pending _ H).
Qed.

Lemma cleanup_wf m now : wf m -> wf (cleanupInactiveUsers m now).
Proof. intros H. apply (step_wf m (OpCleanup now) H). Qed.

Lemma idlePass_wf m now : wf m -> wf (idlePass m now).
Proof.
  intros [Hk Hn]. split.
  - unfold keys_ok. eapply updates_keys; [apply idlePass_updates | exact Hk].
  - unfold nonneg. eapply updates_Forall_nonneg; [apply idlePass_updates | exact Hn].
Qed.

Lemma cleanup_lru_pass m now :
  wf m -> SpecWords.lru_pass (idlePass m now) (cleanupInactiveUsers m now).
Proof.
  intros Hwf. unfold cleanupInactiveUsers, lruPass.
  apply lruLoop_spec; [by apply idlePass_wf | lia].
Qed.

(** X1.  What a cleanup leaves behind, on a well-formed cache: the cache is
    within its cap unless every remaining instance has a request pending;
    no remaining instance is evictable for idleness at that instant; the
    remaining entries are entries of the old cache, unchanged; the options
    are untouched. *)
Theorem cleanupInactiveUsers_outcome (m : Manager.t) (now : Z) :
  wf m ->
  let m' := cleanupInactiveUsers m now in
  (JsMap.size (userInstances m') <= maxCachedUsers (options m)
   \/ forall e, In e (userInstances m') -> 0 < pendingRequests (snd e))
  /\ (forall e, In e (userInstances m') ->
        ~ (pendingRequests (snd e) <= 0
           /\ userIdleTimeoutMs (options m) < now - lastActivityAt (snd e)))
  /\ (forall e, In e (userInstances m') -> In e (userInstances m))
  /\ options m' = options m.
Proof.
  intros Hwf. cbv zeta.
  pose proof (cleanup_lru_pass m now Hwf) as Hl.
  destruct (idlePass_spec m now (proj1 (proj1 Hwf))) as (H1 & _ & _ & H4).
  pose proof (lru_pass_options _ _ Hl) as Ho. rewrite H4 in Ho.
  split; [|split; [|split]].
  - rewrite <- Ho. by apply lru_pass_exit in Hl.
  - intros e He [Hp Ht]. apply (lru_pass_incl _ _ Hl) in He. rewrite H1 in He.
    apply List.filter_In in He as [_ He]. unfold idleEvictable in He.
    apply negb_true_iff, andb_false_iff in He as [He|He].
    + apply negb_false_iff, Z.ltb_lt in He. lia.
    + apply Z.ltb_ge in He. lia.
  - intros e He. apply (lru_pass_incl _ _ Hl) in He. rewrite H1 in He.
    by apply List.filter_In in He as [He _].
  - exact Ho.
Qed.

(** X2.  A second cleanup at the same instant finds nothing to do: on a
    well-formed cache [cleanupInactiveUsers] is idempotent, events
    included. *)
Theorem cleanupInactiveUsers_idempotent (m : Manager.t) (now : Z) :
  wf m ->
  cleanupInactiveUsers (cleanupInactiveUsers m now) now = cleanupInactiveUsers m now.
Proof.
  intros Hwf.
  pose proof (cleanup_lru_pass m now Hwf) as Hl.
  destruct (idlePass_spec m now (proj1 (proj1 Hwf))) as (H1 & _ & _ & H4).
  pose proof (lru_pass_options _ _ Hl) as Ho. rewrite H4 in Ho.
  set (m' := cleanupInactiveUsers m now) in *.
  assert (Hidle : idlePass m' now = m').
  { unfold idlePass. apply idle_fold_noop. intros e He.
    apply (lru_pass_incl _ _ Hl) in He. rewrite H1 in He.
    apply List.filter_In in He as [_ He]. rewrite Ho. by apply negb_true_iff in He. }
  unfold cleanupInactiveUsers at 1. rewrite Hidle.
  apply lruPass_at_exit. by apply lru_pass_exit in Hl.
Qed.

End CleanupOutcome.

(** X1 on the cache of three idle users and a cap of two. *)
Lemma cleanupInactiveUsers_outcome_witness :
  JsMap.size (Manager.userInstances (Manager.cleanupInactiveUsers Scenario.three_users 500))
  <= 2.
Proof.
  assert (Hwf : Inv.wf Scenario.three_users)
    by (apply (reachable_wf Scenario.opts0); by eexists).
  destruct (cleanupInactiveUsers_outcome Scenario.three_users 500 Hwf) as ([H|H] & _).
  - exact H.
  - vm_compute. discriminate.
Defined.

(** X2 on the same cache. *)
Lemma cleanupInactiveUsers_idempotent_witness :
  Manager.cleanupInactiveUsers (Manager.cleanupInactiveUsers Scenario.three_users 500) 500
  = Manager.cleanupInactiveUsers Scenario.three_users 500.
Proof.
  apply cleanupInactiveUsers_idempotent.
  apply (reachable_wf Scenario.opts0). by eexists.
Defined.

Section TableCoherence.
Import Manager Tables.

Lemma agree_touch I C R k i p now :
  (forall u, agree I C R u) -> JsMap.get k I = Some i ->
  forall u, agree (JsMap.set k (touch i p now) I) C R u.
Proof.
  intros H Hg u. specialize (H u). unfold agree in *.
  destruct (decide (k = u)) as [->|Hne].
  - rewrite get_set_eq. rewrite Hg in H. destruct H as [H1 H2]. split; [done |].
    by destruct (R !! u).
  - by rewrite get_set_ne.
Qed.

Lemma agree_patch I C R k i c :
  (forall u, agree I C R u) -> JsMap.get k I = Some i ->
  forall u, agree (JsMap.set k (patch i c) I) (<[k := openclawConfig c]> C) R u.
Proof.
  intros H Hg u. specialize (H u). unfold agree in *.
  destruct (decide (k = u)) as [->|Hne].
  - rewrite get_set_eq, lookup_insert_eq. rewrite Hg in H. destruct H as [H1 H2].
    split; [done |]. by destruct (R !! u).
  - by rewrite get_set_ne, lookup_insert_ne.
Qed.

Lemma agree_init I C R k inst r :
  (forall u, agree I C R u) ->
  resolver_userId r = k -> resolver_workspacePath r = workspacePath inst ->
  userId inst = k ->
  forall u, agree (JsMap.set k inst I) (<[k := config inst]> C) (<[k := r]> R) u.
Proof.
  intros H H1 H2 H3 u. specialize (H u). unfold agree in *.
  destruct (decide (k = u)) as [->|Hne].
  - by rewrite get_set_eq, !lookup_insert_eq.
  - by rewrite get_set_ne, !lookup_insert_ne.
Qed.

Lemma agree_evict I C R k :
  (forall u, agree I C R u) ->
  forall u, agree (JsMap.delete k I) (delete k C) (delete k R) u.
Proof.
  intros H u. specialize (H u). unfold agree in *.
  destruct (decide (k = u)) as [->|Hne].
  - by rewrite get_delete_eq, !lookup_delete_eq.
  - by rewrite get_delete_ne, !lookup_delete_ne.
Qed.

Lemma evictUser_coherent m u reason : coherent m -> coherent (evictUser m u reason).
Proof. intros H. unfold coherent. cbn. by apply agree_evict. Qed.

Lemma initializeUserInstance_coherent G m u cfg cc ok now :
  coherent m -> coherent (snd (initializeUserInstance G m u cfg cc ok now)).
Proof.
  intros H. unfold initializeUserInstance.
  destruct (ensureUserDirectories G u ok) as [paths|e]; [|done].
  unfold coherent. cbn.
  match goal with
  | |- forall u0, agree (JsMap.set _ ?inst _) _ _ u0 =>
      apply (agree_init _ _ _ u inst); done
  end.
Qed.

Lemma verifyRemote_coherent G m token reply ok now nowIso :
  coherent m -> coherent (snd (verifyRemote G m token reply ok now nowIso)).
Proof.
  intros H. unfold verifyRemote.
  destruct reply as [| |httpStatus body]; cbn; try done.
  destruct (response_ok httpStatus); cbn; [|by destruct (httpStatus =? 401)].
  destruct body as [|[result|]]; cbn; try done.
  destruct (truthy (user_id result)); cbn; [|done].
  destruct (sanitizeUserId (user_id result)) as [userId|e]; cbn; [|done].
  destruct (JsMap.has userId (userInstances m)); cbn; [done |].
  match goal with
  | |- context [initializeUserInstance ?G ?m0 ?u ?c ?cc ?ok ?now] =>
      pose proof (initializeUserInstance_coherent G m0 u c cc ok now H) as Hi;
      destruct (initializeUserInstance G m0 u c cc ok now) as [[inst|e] m']
  end; exact Hi.
Qed.

Lemma authenticateToken_coherent G m token reply ok now nowIso :
  coherent m -> coherent (snd (authenticateToken G m token reply ok now nowIso)).
Proof.
  intros H. unfold authenticateToken.
  destruct (cachedInstance m token) as [[u i]|].
  - by destruct (status i).
  - destruct (truthy (cloudBackendUrl (options m))); cbn; [|done].
    pose proof (verifyRemote_coherent G m token reply ok now nowIso H) as Hv.
    destruct (verifyRemote G m token reply ok now nowIso) as [[r|e] m']; exact Hv.
Qed.

Lemma authenticateTokenSync_coherent m token :
  coherent m -> coherent (snd (authenticateTokenSync m token)).
Proof.
  intros H. unfold authenticateTokenSync.
  destruct (tokenToUserId m !! token) as [u|]; [|done].
  destruct (truthy u); [|done]. cbn.
  destruct (JsMap.get u (userInstances m)) as [i|]; [|done].
  by destruct (status i).
Qed.

Lemma getUserInstance_coherent G m u now disk ok :
  coherent m -> coherent (snd (getUserInstance G m u now disk ok)).
Proof.
  intros H. unfold getUserInstance.
  destruct (sanitizeUserId u) as [k|e]; [|done].
  destruct (JsMap.get k (userInstances m)) as [i|] eqn:Eg; cbn.
  - unfold coherent. cbn. by apply agree_touch.
  - destruct disk as [[cfg|]|e]; cbn; try done.
    match goal with
    | |- context [initializeUserInstance ?G ?m0 ?u ?c ?cc ?ok ?now] =>
        pose proof (initializeUserInstance_coherent G m0 u c cc ok now H) as Hi;
        destruct (initializeUserInstance G m0 u c cc ok now) as [[inst|e] m']
    end; exact Hi.
Qed.

Lemma updateOne_coherent updated m entry :
  coherent m -> coherent (snd (updateOne (updated, m) entry)).
Proof.
  intros H. destruct entry as [c ok]. unfold updateOne.
  destruct (sanitizeUserId (cloud_userId c)) as [k|e]; [|done].
  destruct ok; cbn; [|done].
  destruct (JsMap.get k (userInstances m)) as [i|] eqn:Eg; cbn; [|done].
  unfold coherent. cbn. by apply agree_patch.
Qed.

Lemma updateUserConfigs_coherent m configs nowIso :
  coherent m -> coherent (snd (updateUserConfigs m configs nowIso)).
Proof.
  intros H. unfold updateUserConfigs.
  assert (Hf : forall updated m0, coherent m0 ->
                 coherent (snd (fold_left updateOne configs (updated, m0)))).
  { induction configs as [|entry r IH]; intros updated m0 H0; [done |].
    cbn [fold_left]. pose proof (updateOne_coherent updated m0 entry H0) as H1.
    destruct (updateOne (updated, m0) entry) as [updated' m1]. by apply IH. }
  specialize (Hf 0 m H).
  destruct (fold_left updateOne configs (0, m)) as [updated m']. exact Hf.
Qed.

Lemma incrementPendingRequests_coherent m u now :
  coherent m -> coherent (snd (incrementPendingRequests m u now)).
Proof.
  intros H. unfold incrementPendingRequests.
  destruct (sanitizeUserId u) as [k|e]; [|done].
  destruct (JsMap.get k (userInstances m)) as [i|] eqn:Eg; cbn; [|done].
  unfold coherent. cbn. by apply agree_touch.
Qed.

Lemma decrementPendingRequests_coherent m u now :
  coherent m -> coherent (snd (decrementPendingRequests m u now)).
Proof.
  intros H. unfold decrementPendingRequests.
  destruct (sanitizeUserId u) as [k|e]; [|done].
  destruct (JsMap.get k (userInstances m)) as [i|] eqn:Eg; cbn; [|done].
  destruct (0 <? pendingRequests i); cbn; [|done].
  unfold coherent. cbn. by apply agree_touch.
Qed.

Lemma idlePass_coherent m now : coherent m -> coherent (idlePass m now).
Proof.
  unfold idlePass. generalize (userInstances m) as entries.
  intros entries. revert m. induction entries as [|[u i] r IH]; intros m H; [done |].
  cbn [fold_left]. apply IH. rewrite idleStep_eq.
  destruct (Scan.idleEvictable _ _ _); [by apply evictUser_coherent | done].
Qed.

Lemma lruLoop_coherent fuel m : coherent m -> coherent (lruLoop fuel m).
Proof.
  revert m. induction fuel as [|fuel IH]; intros m H; [done |]. cbn [lruLoop].
  destruct (maxCachedUsers (options m) <? JsMap.size (userInstances m)); [|done].
  destruct (findOldest (userInstances m)) as [u|]; [|done].
  destruct (truthy u); [|done]. by apply IH, evictUser_coherent.
Qed.

Lemma forceEvictUser_coherent m u :
  coherent m -> coherent (snd (forceEvictUser m u)).
Proof.
  intros H. unfold forceEvictUser. destruct (sanitizeUserId u) as [k|e]; [|done].
  destruct (JsMap.has k (userInstances m)); cbn [negb snd];
    [by apply evictUser_coherent | done].
Qed.

Lemma step_coherent m op : coherent m -> coherent (step m op).
Proof.
  intros H.
  destruct op as [t|G t rp ok now iso|G u now disk ok|cs iso|err|raw now|raw now|now|u];
    cbn [step].
  - by apply authenticateTokenSync_coherent.
  - by apply authenticateToken_coherent.
  - by apply getUserInstance_coherent.
  - by apply updateUserConfigs_coherent.
  - done.
  - by apply incrementPendingRequests_coherent.
  - by apply decrementPendingRequests_coherent.
  - by apply lruLoop_coherent, idlePass_coherent.
  - by apply forceEvictUser_coherent.
Qed.

Lemma run_coherent m ops : coherent m -> coherent (run m ops).
Proof.
  revert m. induction ops as [|op r IH]; intros m H; [done |].
  cbn. by apply IH, step_coherent.
Qed.

(** X3.  In every reachable state the instance cache, the config cache and
    the resolver table hold the same users; the cached config of a user is
    the config of their instance, the instance is filed under its own
    [userId], and the resolver is bound to that id and to the instance's
    workspace path. *)
Theorem reachable_tables_coherent (opts : Options) (m : Manager.t) (u : jsstring) :
  reachable opts m ->
  configCache m !! u = config <$> JsMap.get u (userInstances m)
  /\ (is_Some (workspaceResolvers m !! u) <-> is_Some (JsMap.get u (userInstances m)))
  /\ (forall i, JsMap.get u (userInstances m) = Some i ->
        userId i = u
        /\ exists r, workspaceResolvers m !! u = Some r
                     /\ resolver_userId r = u
                     /\ resolver_workspacePath r = workspacePath i).
Proof.
  intros [ops ->].
  assert (H : coherent (run (create opts) ops)).
  { apply run_coherent. intros k. unfold agree. cbn. by rewrite !lookup_empty. }
  destruct (H u) as [H1 H2]. split; [done |]. split.
  - destruct (workspaceResolvers _ !! u), (JsMap.get u _); split; eauto; try done;
      by intros [? [=]].
  - intros i Hi. rewrite Hi in H2.
    destruct (workspaceResolvers _ !! u) as [r|]; [|done].
    destruct H2 as (? & ? & ?). eauto.
Qed.

End TableCoherence.

(** X3 on the cache of three users after a cleanup and a sync. *)
Lemma reachable_tables_coherent_witness :
  let m := Manager.run Scenario.three_users
             [Manager.OpCleanup 500;
              Manager.OpUpdateUserConfigs
                [(Manager.mkCloudUserConfig (js "u-b") (js "gt_b") (js "{v:2}")
                    Manager.suspended None [], true)] []] in
  Manager.configCache m !! js "u-b" = Some (js "{v:2}")
  /\ (Manager.config <$> JsMap.get (js "u-b") (Manager.userInstances m)) = Some (js "{v:2}")
  /\ Manager.configCache m !! js "u-a" = None.
Proof.
  cbv zeta.
  assert (Hr : Manager.reachable Scenario.opts0
                 (Manager.run Scenario.three_users
                    [Manager.OpCleanup 500;
                     Manager.OpUpdateUserConfigs
                       [(Manager.mkCloudUserConfig (js "u-b") (js "gt_b") (js "{v:2}")
                           Manager.suspended None [], true)] []]))
    by (exists [Scenario.login (js "gt_a") (js "u-a") Manager.active 1;
                Scenario.login (js "gt_b") (js "u-b") Manager.active 2;
                Scenario.login (js "gt_c") (js "u-c") Manager.active 3;
                Manager.OpCleanup 500;
                Manager.OpUpdateUserConfigs
                  [(Manager.mkCloudUserConfig (js "u-b") (js "gt_b") (js "{v:2}")
                      Manager.suspended None [], true)] []]; reflexivity).
  destruct (reachable_tables_coherent _ _ (js "u-b") Hr) as (H1 & _).
  destruct (reachable_tables_coherent _ _ (js "u-a") Hr) as (H2 & _).
  split; [vm_compute; reflexivity |]. split; [|rewrite H2; vm_compute; reflexivity].
  rewrite <- H1. vm_compute. reflexivity.
Defined.

(** ** Agent context *)

Section AgentContextProperties.
Import Manager Inv Tables AgentContext.

Lemma getUserInstance_returns G m raw now disk ok i m1 :
  getUserInstance G m raw now disk ok = (Return (Some i), m1) ->
  exists key, sanitizeUserId raw = Return key
              /\ JsMap.get key (userInstances m1) = Some i.
Proof.
  unfold getUserInstance.
  destruct (sanitizeUserId raw) as [key|e]; [|done].
  destruct (JsMap.get key (userInstances m)) as [c|] eqn:Eg.
  - intros [= <- <-]. exists key. cbn. by rewrite get_set_eq.
  - destruct disk as [[cfg|]|e]; try done.
    unfold initializeUserInstance.
    destruct (ensureUserDirectories G key ok) as [paths|e]; [|done].
    intros [= <- <-]. exists key. cbn. by rewrite get_set_eq.
Qed.

Lemma create_coherent opts : coherent (create opts).
Proof. intros k. unfold agree. cbn. by rewrite !lookup_empty. Qed.

Lemma reachable_coherent opts m : reachable opts m -> coherent m.
Proof. intros [ops ->]. apply run_coherent, create_coherent. Qed.

(** X4.  On a reachable manager [resolveMultiTenantContext] follows
    [getUserInstance]: it leaves the manager in the same state, throws when
    it throws, gives [null] when it gives [null], and otherwise gives a
    context built on the returned instance whose resolver is bound to the
    instance's workspace and to the sanitized id, while [userId] stays the
    id as passed. *)
Theorem resolveMultiTenantContext_follows_getUserInstance
    (opts : Options) (G : Globals) (m : Manager.t) (raw : jsstring) (now : Z)
    (disk : completion (option OpenClawConfig)) (mkdirOk : bool) :
  reachable opts m ->
  snd (resolveMultiTenantContext G m raw now disk mkdirOk)
  = snd (getUserInstance G m raw now disk mkdirOk)
  /\ match fst (getUserInstance G m raw now disk mkdirOk),
           fst (resolveMultiTenantContext G m raw now disk mkdirOk) with
     | Throw e, Throw e' => e = e'
     | Return None, Return None => True
     | Return (Some i), Return (Some ctx) =>
         ctx_userId ctx = raw
         /\ ctx_userInstance ctx = i
         /\ ctx_config ctx = config i
         /\ ctx_workspacePath ctx = workspacePath i
         /\ ctx_agentDir ctx = workspacePath i ++ js "/agent"
         /\ resolver_workspacePath (ctx_workspaceResolver ctx) = workspacePath i
         /\ sanitizeUserId raw = Return (resolver_userId (ctx_workspaceResolver ctx))
         /\ userId i = resolver_userId (ctx_workspaceResolver ctx)
     | _, _ => False
     end.
Proof.
  intros Hr. apply reachable_coherent in Hr.
  pose proof (getUserInstance_coherent G m raw now disk mkdirOk Hr) as Hc.
  unfold resolveMultiTenantContext.
  destruct (getUserInstance G m raw now disk mkdirOk) as [[[i|]|e] m1] eqn:Eg;
    cbn [fst snd] in *; try done.
  apply getUserInstance_returns in Eg as (key & Hs & Hg).
  unfold getWorkspaceResolver. rewrite Hs. cbn [bindC].
  destruct (Hc key) as [_ H2]. rewrite Hg in H2.
  destruct (workspaceResolvers m1 !! key) as [r|]; [|done].
  destruct H2 as (Hu & Hw & Hi). cbn. by rewrite Hu, Hi.
Qed.

Lemma cleanups_wf ticks : forall m, wf m -> wf (fold_left cleanupInactiveUsers ticks m).
Proof.
  induction ticks as [|t r IH]; intros m H; [done |].
  cbn [fold_left]. by apply IH, cleanup_wf.
Qed.

Lemma cleanups_keep_busy ticks : forall m key inst,
  wf m -> JsMap.get key (userInstances m) = Some inst -> 0 < pendingRequests inst ->
  JsMap.get key (userInstances (fold_left cleanupInactiveUsers ticks m)) = Some inst.
Proof.
  induction ticks as [|t r IH]; intros m key inst Hwf Hg Hp; [done |].
  cbn [fold_left]. apply IH; [by apply cleanup_wf | | done].
  apply cleanupInactiveUsers_keeps_busy; [apply Hwf | done | done].
Qed.

Lemma get_nonneg m key inst :
  nonneg m -> JsMap.get key (userInstances m) = Some inst -> 0 <= pendingRequests inst.
Proof.
  intros Hn Hg. apply get_In in Hg. unfold nonneg in Hn.
  rewrite List.Forall_forall in Hn. apply (Hn _ Hg).
Qed.

(** X5.  A request wrapped by [wrapWithPendingRequests] for a cached user
    keeps that user cached however often the cleanup timer fires while the
    request runs; afterwards the counter has its value of before, the
    instance is otherwise unchanged but for its activity time, and the
    outcome of the request, result or exception, is the outcome of the
    wrapper. *)
Theorem wrapWithPendingRequests_protects {A : Type}
    (m : Manager.t) (raw key : jsstring) (inst : UserInstance)
    (outcome : completion A) (ticks : list Z) (now1 now2 : Z) :
  wf m ->
  sanitizeUserId raw = Return key ->
  JsMap.get key (userInstances m) = Some inst ->
  let r := wrapWithPendingRequests m raw (request_with_ticks outcome ticks) now1 now2 in
  fst r = outcome
  /\ JsMap.get key (userInstances (snd r)) = Some (touch inst (pendingRequests inst) now2).
Proof.
  intros Hwf Hs Hg. cbv zeta.
  pose proof (step_wf m (OpIncrement raw now1) Hwf) as Hwf1. cbn [step] in Hwf1.
  unfold wrapWithPendingRequests.
  unfold incrementPendingRequests in *. rewrite Hs, Hg in *. cbn [snd] in Hwf1.
  unfold request_with_ticks.
  set (busy := touch inst (pendingRequests inst + 1) now1).
  set (m1 := set_userInstances m (JsMap.set key busy (userInstances m))) in *.
  assert (Hb : JsMap.get key
                 (userInstances (fold_left cleanupInactiveUsers ticks m1)) = Some busy).
  { apply cleanups_keep_busy; [done | cbn; by rewrite get_set_eq |].
    cbn. pose proof (get_nonneg m key inst (proj2 Hwf) Hg). lia. }
  unfold decrementPendingRequests. rewrite Hs, Hb.
  assert (Hp : (0 <? pendingRequests busy) = true).
  { apply Z.ltb_lt. cbn. pose proof (get_nonneg m key inst (proj2 Hwf) Hg). lia. }
  rewrite Hp. cbn [fst snd]. split; [done |].
  cbn. rewrite get_set_eq. f_equal. unfold touch. cbn. f_equal. lia.
Qed.

End AgentContextProperties.

(** X4 on a manager with one cached user: the context of ["u-1"]. *)
Lemma resolveMultiTenantContext_follows_getUserInstance_witness :
  Manager.reachable Scenario.opts0 Scenario.one_user
  /\ snd (AgentContext.resolveMultiTenantContext Scenario.G0 Scenario.one_user
            (js "u-1") 2000 (Return None) true)
     = snd (Manager.getUserInstance Scenario.G0 Scenario.one_user
              (js "u-1") 2000 (Return None) true).
Proof.
  assert (Hr : Manager.reachable Scenario.opts0 Scenario.one_user) by (by eexists).
  split; [exact Hr |].
  exact (proj1 (resolveMultiTenantContext_follows_getUserInstance
                  Scenario.opts0 Scenario.G0 Scenario.one_user (js "u-1") 2000
                  (Return None) true Hr)).
Defined.

(** X5 on three cached users with room for two: the oldest one stays while
    its request runs, though the timer fires twice. *)
Lemma wrapWithPendingRequests_protects_witness :
  Inv.wf Scenario.three_users
  /\ Manager.pendingRequests
       <$> JsMap.get (js "u-a")
             (Manager.userInstances
                (snd (AgentContext.wrapWithPendingRequests Scenario.three_users (js "u-a")
                        (AgentContext.request_with_ticks (Return 7) [5000; 9000])
                        10 9500)))
     = Some 0.
Proof.
  assert (Hwf : Inv.wf Scenario.three_users)
    by (apply (reachable_wf Scenario.opts0); by eexists).
  split; [exact Hwf |].
  assert (Hg : exists inst, JsMap.get (js "u-a") (Manager.userInstances Scenario.three_users)
                            = Some inst /\ Manager.pendingRequests inst = 0)
    by (eexists; split; vm_compute; reflexivity).
  destruct Hg as (inst & Hg & Hp).
  destruct (wrapWithPendingRequests_protects Scenario.three_users (js "u-a") (js "u-a")
              inst (Return 7) [5000; 9000] 10 9500 Hwf eq_refl Hg) as [_ H].
  rewrite H. cbn. by rewrite Hp.
Defined.

(** ** Configuration sync on the manager *)

Section SyncProperties.
Import Manager Inv SyncReport.

Lemma activity_set_patch k i c (l : JsMap.t UserInstance) :
  JsMap.get k l = Some i ->
  List.map activity (JsMap.set k (patch i c) l) = List.map activity l.
Proof.
  induction l as [|[k' v] r IH]; [done |]. cbn [JsMap.get JsMap.set].
  destruct (decide (k' = k)) as [->|Hne].
  - by intros [= ->].
  - intros Hg. cbn [List.map]. by rewrite IH.
Qed.

Lemma updateOne_report updated m entry :
  let r := updateOne (updated, m) entry in
  fst r = updated + (if applied entry then 1 else 0)
  /\ trace (snd r) = trace m ++ (if applied entry then [] else [Log LogError])
  /\ List.map activity (userInstances (snd r)) = List.map activity (userInstances m)
  /\ workspaceResolvers (snd r) = workspaceResolvers m
  /\ options (snd r) = options m
  /\ cacheHits (snd r) = cacheHits m /\ cacheMisses (snd r) = cacheMisses m.
Proof.
  destruct entry as [c ok]. unfold updateOne, applied. cbn [fst snd].
  destruct (sanitizeUserId (cloud_userId c)) as [k|e]; cbn; [|by rewrite Z.add_0_r].
  destruct ok; cbn; [|by rewrite Z.add_0_r].
  destruct (JsMap.get k (userInstances m)) as [i|] eqn:Eg; cbn.
  - rewrite app_nil_r. by rewrite (activity_set_patch k i c _ Eg).
  - by rewrite app_nil_r.
Qed.

Lemma fold_updateOne_report configs : forall updated m,
  let r := fold_left updateOne configs (updated, m) in
  let n := length (List.filter applied configs) in
  fst r = updated + Z.of_nat n
  /\ trace (snd r) = trace m ++ repeat (Log LogError) (length configs - n)
  /\ List.map activity (userInstances (snd r)) = List.map activity (userInstances m)
  /\ workspaceResolvers (snd r) = workspaceResolvers m
  /\ options (snd r) = options m
  /\ cacheHits (snd r) = cacheHits m /\ cacheMisses (snd r) = cacheMisses m.
Proof.
  induction configs as [|entry rest IH]; intros updated m.
  - cbn. by rewrite Z.add_0_r, app_nil_r.
  - cbn [fold_left].
    destruct (updateOne_report updated m entry) as (H1 & H2 & H3 & H4 & H5 & H6 & H7).
    destruct (updateOne (updated, m) entry) as [updated1 m1]. cbn [fst snd] in *.
    destruct (IH updated1 m1) as (I1 & I2 & I3 & I4 & I5 & I6 & I7).
    cbv zeta in *. rewrite I1, I2, I3, I4, I5, I6, I7, H1, H2, H3, H4, H5, H6, H7.
    pose proof (List.filter_length_le applied rest) as Hle.
    cbn [List.filter length]. destruct (applied entry); cbn [length].
    + rewrite app_nil_r. split; [lia |]. split; [|done]. by do 2 f_equal.
    + rewrite <- app_assoc. split; [lia |]. split; [|done]. f_equal.
      replace (S (length rest) - length (List.filter applied rest))%nat
        with (S (length rest - length (List.filter applied rest))) by lia.
      done.
Qed.

Lemma updateUserConfigs_counters m configs nowIso :
  syncFailures (snd (updateUserConfigs m configs nowIso)) = 0
  /\ cacheHits (snd (updateUserConfigs m configs nowIso)) = cacheHits m
  /\ cacheMisses (snd (updateUserConfigs m configs nowIso)) = cacheMisses m.
Proof.
  unfold updateUserConfigs.
  destruct (fold_updateOne_report configs 0 m) as (_ & _ & _ & _ & _ & H6 & H7).
  by destruct (fold_left updateOne configs (0, m)) as [updated m1].
Qed.

(** X6.  What a configuration sync reports and what it leaves alone.
    [updateUserConfigs] returns the number of records whose id is accepted
    and whose configuration is written; it logs one error for each other
    record and then emits one [config-synced] event carrying that number;
    it sets [lastSyncAt] and clears [syncFailures].  The cache keeps its
    users in their order, each with its counter and its activity time, so
    a sync is no activity for the eviction passes; the resolvers, the
    options and the hit counters are unchanged. *)
Theorem updateUserConfigs_report (m : Manager.t)
    (configs : list (CloudUserConfig * bool)) (nowIso : jsstring) :
  let r := updateUserConfigs m configs nowIso in
  let n := length (List.filter applied configs) in
  fst r = Z.of_nat n
  /\ trace (snd r)
     = trace m ++ repeat (Log LogError) (length configs - n)
         ++ [Emit (ConfigSynced (Z.of_nat n) nowIso)]
  /\ lastSyncAt (snd r) = Some nowIso
  /\ syncFailures (snd r) = 0
  /\ List.map activity (userInstances (snd r)) = List.map activity (userInstances m)
  /\ workspaceResolvers (snd r) = workspaceResolvers m
  /\ options (snd r) = options m
  /\ cacheHits (snd r) = cacheHits m /\ cacheMisses (snd r) = cacheMisses m.
Proof.
  cbv zeta. unfold updateUserConfigs.
  destruct (fold_updateOne_report configs 0 m) as (H1 & H2 & H3 & H4 & H5 & H6 & H7).
  destruct (fold_left updateOne configs (0, m)) as [updated m1]. cbn [fst snd] in *.
  cbn. rewrite H2, <- app_assoc, H1. by rewrite Z.add_0_l.
Qed.

Lemma updateOne_tokens updated m entry token :
  tokenToUserId (snd (updateOne (updated, m) entry)) !! token
  = match sanitizeUserId (cloud_userId (fst entry)) with
    | Return u =>
        if bool_decide (gatewayToken (fst entry) = token) then Some u
        else tokenToUserId m !! token
    | Throw _ => tokenToUserId m !! token
    end.
Proof.
  destruct entry as [c ok]. unfold updateOne. cbn [fst snd].
  destruct (sanitizeUserId (cloud_userId c)) as [k|e]; [|done].
  assert (H : (<[gatewayToken c := k]> (tokenToUserId m)) !! token
              = if bool_decide (gatewayToken c = token) then Some k
                else tokenToUserId m !! token).
  { case_bool_decide as Ht; [subst; by rewrite lookup_insert_eq |
                             by rewrite lookup_insert_ne]. }
  destruct ok; cbn; [|done].
  by destruct (JsMap.get k (userInstances m)).
Qed.

Lemma fold_updateOne_tokens_frame configs token : forall updated m,
  Forall (fun entry => binds token entry = false) configs ->
  tokenToUserId (snd (fold_left updateOne configs (updated, m))) !! token
  = tokenToUserId m !! token.
Proof.
  induction configs as [|entry rest IH]; intros updated m Hall; [done |].
  apply Forall_cons in Hall as [Hb Hall]. cbn [fold_left].
  pose proof (updateOne_tokens updated m entry token) as H1.
  destruct (updateOne (updated, m) entry) as [updated1 m1]. cbn [snd] in H1.
  rewrite (IH updated1 m1 Hall), H1. unfold binds in Hb.
  destruct (sanitizeUserId (cloud_userId (fst entry))); [|done]. by rewrite Hb.
Qed.

Lemma fold_updateOne_app configs1 configs2 acc :
  fold_left updateOne (configs1 ++ configs2) acc
  = fold_left updateOne configs2 (fold_left updateOne configs1 acc).
Proof. apply fold_left_app. Qed.

Lemma updateUserConfigs_tokens m configs nowIso :
  tokenToUserId (snd (updateUserConfigs m configs nowIso))
  = tokenToUserId (snd (fold_left updateOne configs (0, m))).
Proof.
  unfold updateUserConfigs. by destruct (fold_left updateOne configs (0, m)).
Qed.

(** X7.  The token index after a sync.  A token carried by no record with
    an accepted id keeps its binding.  A token carried by such records is
    bound to the sanitized id of the last of them, whether or not the
    configuration of that record could be written and whether or not the
    user is cached. *)
Theorem updateUserConfigs_token_index (m : Manager.t)
    (configs : list (CloudUserConfig * bool)) (nowIso : jsstring) (token : jsstring) :
  (Forall (fun entry => binds token entry = false) configs ->
   tokenToUserId (snd (updateUserConfigs m configs nowIso)) !! token
   = tokenToUserId m !! token)
  /\ (forall before c writeOk after u,
        configs = before ++ (c, writeOk) :: after ->
        gatewayToken c = token ->
        sanitizeUserId (cloud_userId c) = Return u ->
        Forall (fun entry => binds token entry = false) after ->
        tokenToUserId (snd (updateUserConfigs m configs nowIso)) !! token = Some u).
Proof.
  rewrite updateUserConfigs_tokens. split.
  - apply fold_updateOne_tokens_frame.
  - intros before c writeOk after u -> Ht Hs Hall.
    rewrite fold_updateOne_app. cbn [fold_left].
    destruct (fold_left updateOne before (0, m)) as [updated1 m1].
    pose proof (updateOne_tokens updated1 m1 (c, writeOk) token) as H1.
    destruct (updateOne (updated1, m1) (c, writeOk)) as [updated2 m2]. cbn [fst snd] in H1.
    rewrite (fold_updateOne_tokens_frame after token updated2 m2 Hall), H1, Hs.
    by rewrite bool_decide_eq_true_2.
Qed.

End SyncProperties.

(** X7 on a page of two records for one token, the second of which cannot
    be written. *)
Lemma updateUserConfigs_token_index_witness :
  let c1 := Manager.mkCloudUserConfig (js "u-1") (js "gt_abc") (js "{}")
              Manager.active None [] in
  let c2 := Manager.mkCloudUserConfig (js "team/u-2") (js "gt_abc") (js "{}")
              Manager.active None [] in
  Manager.tokenToUserId
    (snd (Manager.updateUserConfigs Scenario.one_user [(c1, true); (c2, false)] []))
    !! js "gt_abc" = Some (js "teamu-2").
Proof.
  cbv zeta.
  apply (proj2 (updateUserConfigs_token_index Scenario.one_user _ [] (js "gt_abc"))
           [(Manager.mkCloudUserConfig (js "u-1") (js "gt_abc") (js "{}")
               Manager.active None [], true)]
           (Manager.mkCloudUserConfig (js "team/u-2") (js "gt_abc") (js "{}")
              Manager.active None [])
           false [] (js "teamu-2"));
    [reflexivity | reflexivity | vm_compute; reflexivity | constructor].
Defined.

(** ** User ids at the manager's interface *)

Section CanonicalIds.
Import Manager Inv Tables AgentContext.

(** X8.  The manager's methods read a user id only through
    [sanitizeUserId], and sanitizing is idempotent: a call with a raw id is
    the call with its sanitized form, for the counters, the forced
    eviction, the instance lookup and the resolver lookup alike. *)
Theorem manager_methods_canonical (G : Globals) (m : Manager.t) (raw key : jsstring)
    (now : Z) (disk : completion (option OpenClawConfig)) (mkdirOk : bool) :
  sanitizeUserId raw = Return key ->
  incrementPendingRequests m raw now = incrementPendingRequests m key now
  /\ decrementPendingRequests m raw now = decrementPendingRequests m key now
  /\ forceEvictUser m raw = forceEvictUser m key
  /\ getUserInstance G m raw now disk mkdirOk = getUserInstance G m key now disk mkdirOk
  /\ getWorkspaceResolver m raw = getWorkspaceResolver m key.
Proof.
  intros H. pose proof (sanitizeUserId_idempotent raw key H) as Hk.
  unfold incrementPendingRequests, decrementPendingRequests, forceEvictUser,
    getUserInstance, getWorkspaceResolver.
  by rewrite H, Hk.
Qed.

(** X9.  A forced eviction on a reachable manager returns whether the user
    was cached; afterwards the user is in none of the three tables, every
    other user is where it was, no token bound to the user passes the local
    lookups, and a second forced eviction returns [false] and changes
    nothing. *)
Theorem forceEvictUser_effect (opts : Options) (m : Manager.t) (raw key : jsstring) :
  reachable opts m ->
  sanitizeUserId raw = Return key ->
  let r := forceEvictUser m raw in
  fst r = Return (JsMap.has key (userInstances m))
  /\ JsMap.get key (userInstances (snd r)) = None
  /\ configCache (snd r) !! key = None
  /\ workspaceResolvers (snd r) !! key = None
  /\ (forall other, other <> key ->
        JsMap.get other (userInstances (snd r)) = JsMap.get other (userInstances m))
  /\ (forall token, tokenToUserId (snd r) !! token = Some key ->
        authenticateTokenSync (snd r) token = (None, snd r)
        /\ cachedInstance (snd r) token = None)
  /\ forceEvictUser (snd r) raw = (Return false, snd r).
Proof.
  intros Hr Hs. cbv zeta.
  pose proof (reachable_coherent opts m Hr) as Hc.
  pose proof (forceEvictUser_coherent m raw Hc) as Hc'.
  assert (Hg : JsMap.get key (userInstances (snd (forceEvictUser m raw))) = None).
  { unfold forceEvictUser. rewrite Hs.
    destruct (JsMap.has key (userInstances m)) eqn:Hh; cbn.
    - apply get_delete_eq.
    - by apply has_false. }
  destruct (Hc' key) as [H1 H2]. rewrite Hg in H1, H2.
  split; [unfold forceEvictUser; rewrite Hs;
          by destruct (JsMap.has key (userInstances m)) |].
  split; [done |]. split; [done |].
  split; [by destruct (workspaceResolvers _ !! key) |].
  split.
  { intros other Hne. unfold forceEvictUser. rewrite Hs.
    destruct (JsMap.has key (userInstances m)); cbn; [|done].
    by apply get_delete_ne. }
  split.
  { intros token Ht. unfold authenticateTokenSync, cachedInstance. rewrite Ht, Hg.
    by destruct (truthy key). }
  unfold forceEvictUser at 1. rewrite Hs.
  apply has_false in Hg. by rewrite Hg.
Qed.

End CanonicalIds.

(** X8 on an id that climbs out of the users directory. *)
Lemma manager_methods_canonical_witness :
  Manager.forceEvictUser Scenario.one_user (js "../u-1")
  = Manager.forceEvictUser Scenario.one_user (js "u-1").
Proof.
  exact (proj1 (proj2 (proj2
           (manager_methods_canonical Scenario.G0 Scenario.one_user
              (js "../u-1") (js "u-1") 0 (Return None) true eq_refl)))).
Defined.

(** X9 on the manager with one cached user. *)
Lemma forceEvictUser_effect_witness :
  fst (Manager.forceEvictUser Scenario.one_user (js "u-1")) = Return true
  /\ Manager.authenticateTokenSync
       (snd (Manager.forceEvictUser Scenario.one_user (js "u-1"))) (js "gt_abc")
     = (None, snd (Manager.forceEvictUser Scenario.one_user (js "u-1"))).
Proof.
  assert (Hr : Manager.reachable Scenario.opts0 Scenario.one_user) by (by eexists).
  destruct (forceEvictUser_effect Scenario.opts0 Scenario.one_user (js "u-1") (js "u-1")
              Hr eq_refl) as (H1 & _ & _ & _ & _ & H6 & _).
  split; [exact H1 |].
  apply H6. vm_compute. reflexivity.
Defined.

(** ** Statistics *)

Section StatsProperties.
Import Manager Inv StatsReading.

Lemma getStats_fold (l : JsMap.t UserInstance) : forall users connections,
  (Forall (fun e => 0 <= pendingRequests (snd e)) l) ->
  fold_left
    (fun (acc : Z * Z) (entry : jsstring * UserInstance) =>
       if 0 <? pendingRequests (snd entry)
       then (fst acc + 1, snd acc + pendingRequests (snd entry))
       else acc)
    l (users, connections)
  = (users + Z.of_nat (length (busy l)), connections + totalPending l).
Proof.
  induction l as [|e r IH]; intros users connections Hall.
  - cbn. by rewrite !Z.add_0_r.
  - apply Forall_cons in Hall as [He Hall]. cbn [fold_left busy List.filter totalPending
      fold_right fst snd].
    destruct (0 <? pendingRequests (snd e)) eqn:Hp.
    + rewrite IH by done. cbn [length]. unfold busy, totalPending. f_equal; lia.
    + rewrite IH by done. apply Z.ltb_ge in Hp. unfold busy, totalPending.
      f_equal. lia.
Qed.

Lemma totalPending_busy (l : JsMap.t UserInstance) :
  Forall (fun e => 0 <= pendingRequests (snd e)) l ->
  Z.of_nat (length (busy l)) <= totalPending l.
Proof.
  induction 1 as [|e r He _ IH]; [done |].
  cbn [busy List.filter totalPending fold_right].
  destruct (0 <? pendingRequests (snd e)) eqn:Hp.
  - apply Z.ltb_lt in Hp. cbn [length]. unfold busy, totalPending in IH. lia.
  - unfold busy, totalPending in IH. lia.
Qed.

Lemma totalPending_idle (l : JsMap.t UserInstance) :
  Forall (fun e => 0 <= pendingRequests (snd e)) l ->
  length (busy l) = 0%nat -> totalPending l = 0.
Proof.
  induction 1 as [|e r He _ IH]; [done |].
  cbn [busy List.filter totalPending fold_right].
  destruct (0 <? pendingRequests (snd e)) eqn:Hp; [done |].
  apply Z.ltb_ge in Hp. intros H. apply IH in H. unfold totalPending in H. lia.
Qed.

Lemma evictUser_lookupCounters m u reason :
  lookupCounters (evictUser m u reason) = lookupCounters m.
Proof. reflexivity. Qed.

Lemma initializeUserInstance_lookupCounters G m u cfg cc ok now :
  lookupCounters (snd (initializeUserInstance G m u cfg cc ok now)) = lookupCounters m.
Proof.
  unfold initializeUserInstance. by destruct (ensureUserDirectories G u ok).
Qed.

Lemma authenticateToken_lookupCounters G m token reply ok now nowIso :
  lookupCounters (snd (authenticateToken G m token reply ok now nowIso))
  = lookupCounters m.
Proof.
  unfold authenticateToken.
  destruct (cachedInstance m token) as [[u i]|]; [by destruct (status i) |].
  destruct (truthy (cloudBackendUrl (options m))); cbn; [|done].
  unfold verifyRemote.
  destruct reply as [| |httpStatus body]; cbn; try done.
  destruct (response_ok httpStatus); cbn; [|by destruct (httpStatus =? 401)].
  destruct body as [|[result|]]; cbn; try done.
  destruct (truthy (user_id result)); cbn; [|done].
  destruct (sanitizeUserId (user_id result)) as [userId|e]; cbn; [|done].
  destruct (JsMap.has userId (userInstances m)); cbn; [done |].
  match goal with
  | |- context [initializeUserInstance ?G ?m0 ?u ?c ?cc ?ok ?now] =>
      pose proof (initializeUserInstance_lookupCounters G m0 u c cc ok now) as Hi;
      destruct (initializeUserInstance G m0 u c cc ok now) as [[inst|e] m']
  end; exact Hi.
Qed.

Lemma idlePass_lookupCounters m now : lookupCounters (idlePass m now) = lookupCounters m.
Proof.
  unfold idlePass. generalize (userInstances m) as entries. intros entries.
  revert m. induction entries as [|[u i] r IH]; intros m; [done |].
  cbn [fold_left]. rewrite IH, idleStep_eq.
  by destruct (Scan.idleEvictable _ _ _).
Qed.

Lemma lruLoop_lookupCounters fuel m : lookupCounters (lruLoop fuel m) = lookupCounters m.
Proof.
  revert m. induction fuel as [|fuel IH]; intros m; [done |]. cbn [lruLoop].
  destruct (maxCachedUsers (options m) <? JsMap.size (userInstances m)); [|done].
  destruct (findOldest (userInstances m)) as [u|]; [|done].
  destruct (truthy u); [|done]. by rewrite IH.
Qed.

Lemma step_lookupCounters m op :
  cacheHits m <= cacheHits (step m op)
  /\ cacheMisses m <= cacheMisses (step m op)
  /\ cacheHits (step m op) + cacheMisses (step m op)
     = cacheHits m + cacheMisses m + (if is_lookup op then 1 else 0).
Proof.
  assert (Hsame : lookupCounters (step m op) = lookupCounters m -> is_lookup op = false ->
                  cacheHits m <= cacheHits (step m op)
                  /\ cacheMisses m <= cacheMisses (step m op)
                  /\ cacheHits (step m op) + cacheMisses (step m op)
                     = cacheHits m + cacheMisses m + (if is_lookup op then 1 else 0)).
  { unfold lookupCounters. intros [= -> ->] ->. lia. }
  destruct op as [t|G t rp ok now iso|G u now disk ok|cs iso|err|raw now|raw now|now|u].
  - apply Hsame; [|done]. cbn [step]. unfold authenticateTokenSync.
    destruct (tokenToUserId m !! t) as [k|]; [|done].
    destruct (truthy k); [|done]. cbn.
    destruct (JsMap.get k (userInstances m)) as [i|]; [|done]. by destruct (status i).
  - apply Hsame; [|done]. apply authenticateToken_lookupCounters.
  - cbn [step is_lookup]. unfold getUserInstance.
    destruct (sanitizeUserId u) as [k|e]; [|cbn; lia].
    destruct (JsMap.get k (userInstances m)) as [i|]; [cbn; lia |].
    destruct disk as [[cfg|]|e]; cbn [snd]; try (cbn; lia).
    match goal with
    | |- context [initializeUserInstance ?G ?m0 ?u ?c ?cc ?ok ?now] =>
        pose proof (initializeUserInstance_lookupCounters G m0 u c cc ok now) as Hi;
        destruct (initializeUserInstance G m0 u c cc ok now) as [[inst|e] m']
    end; cbn [snd] in *; unfold lookupCounters in Hi; injection Hi as -> ->; cbn; lia.
  - apply Hsame; [|done]. cbn [step].
    pose proof (updateUserConfigs_counters m cs iso) as (_ & H1 & H2).
    unfold lookupCounters. by rewrite H1, H2.
  - by apply Hsame.
  - apply Hsame; [|done]. cbn [step]. unfold incrementPendingRequests.
    destruct (sanitizeUserId raw) as [k|e]; [|done].
    by destruct (JsMap.get k (userInstances m)).
  - apply Hsame; [|done]. cbn [step]. unfold decrementPendingRequests.
    destruct (sanitizeUserId raw) as [k|e]; [|done].
    destruct (JsMap.get k (userInstances m)) as [i|]; [|done].
    by destruct (0 <? pendingRequests i).
  - apply Hsame; [|done]. cbn [step]. unfold cleanupInactiveUsers, lruPass.
    by rewrite lruLoop_lookupCounters, idlePass_lookupCounters.
  - apply Hsame; [|done]. cbn [step]. unfold forceEvictUser.
    destruct (sanitizeUserId u) as [k|e]; [|done].
    by destruct (JsMap.has k (userInstances m)).
Qed.

Lemma run_lookupCounters ops : forall m,
  cacheHits m <= cacheHits (run m ops)
  /\ cacheMisses m <= cacheMisses (run m ops)
  /\ cacheHits (run m ops) + cacheMisses (run m ops)
     = cacheHits m + cacheMisses m + Z.of_nat (length (List.filter is_lookup ops)).
Proof.
  induction ops as [|op r IH]; intros m; [cbn; lia |].
  cbn [run fold_left List.filter].
  destruct (step_lookupCounters m op) as (H1 & H2 & H3).
  destruct (IH (step m op)) as (I1 & I2 & I3). unfold run in *.
  destruct (is_lookup op); cbn [length]; lia.
Qed.

(** X10.  The lookup counters count the [getUserInstance] calls.  After any
    sequence of calls on a new manager, hits plus misses is the number of
    [getUserInstance] calls whose id was accepted; no other method, the
    token authentication included, moves either counter, and neither ever
    decreases. *)
Theorem lookup_counters_count_getUserInstance (opts : Options) (ops : list Op) (op : Op) :
  let m := run (create opts) ops in
  cacheHits m + cacheMisses m = Z.of_nat (length (List.filter is_lookup ops))
  /\ 0 <= cacheHits m /\ 0 <= cacheMisses m
  /\ cacheHits m <= cacheHits (step m op)
  /\ cacheMisses m <= cacheMisses (step m op)
  /\ (is_lookup op = false -> lookupCounters (step m op) = lookupCounters m).
Proof.
  cbv zeta. destruct (run_lookupCounters ops (create opts)) as (H1 & H2 & H3).
  destruct (step_lookupCounters (run (create opts) ops) op) as (S1 & S2 & S3).
  cbn in H1, H2, H3. repeat split; try lia.
  intros Hl. rewrite Hl in S3. unfold lookupCounters. f_equal; lia.
Qed.

(** X11.  The statistics of a reachable manager.  [activeInstances] is the
    size of the cache; [usersWithPendingRequests] is the number of entries
    with a request in flight and lies between 0 and [activeInstances];
    [totalConnections] is the sum of all counters, is at least
    [usersWithPendingRequests], and is 0 exactly when no user is busy; the
    hit rate is a fraction between 0 and 1 with a positive denominator. *)
Theorem getStats_reading (opts : Options) (m : Manager.t) :
  reachable opts m ->
  let s := getStats m in
  activeInstances s = Z.of_nat (length (userInstances m))
  /\ usersWithPendingRequests s = Z.of_nat (length (busy (userInstances m)))
  /\ 0 <= usersWithPendingRequests s <= activeInstances s
  /\ totalConnections s = totalPending (userInstances m)
  /\ usersWithPendingRequests s <= totalConnections s
  /\ (totalConnections s = 0 <-> usersWithPendingRequests s = 0)
  /\ 0 <= fst (cacheHitRate s) <= snd (cacheHitRate s)
  /\ 0 < snd (cacheHitRate s).
Proof.
  intros Hr. pose proof (reachable_wf opts m Hr) as [_ Hn].
  destruct Hr as [ops ->]. set (m := run (create opts) ops) in *.
  destruct (run_lookupCounters ops (create opts)) as (H1 & H2 & _).
  cbn in H1, H2. fold m in H1, H2.
  cbv zeta. unfold getStats. rewrite (getStats_fold _ 0 0 Hn). cbn.
  pose proof (totalPending_busy _ Hn) as Hb.
  pose proof (List.filter_length_le (fun e => 0 <? pendingRequests (snd e))
                (userInstances m)) as Hle.
  fold (busy (userInstances m)) in Hle.
  assert (Hz : totalPending (userInstances m) = 0 ->
               length (busy (userInstances m)) = 0%nat) by lia.
  pose proof (totalPending_idle _ Hn) as Hz'.
  unfold JsMap.size.
  repeat split; try lia.
  - destruct (0 <? cacheHits m + cacheMisses m); cbn; lia.
  - destruct (0 <? cacheHits m + cacheMisses m) eqn:E; cbn; try lia.
  - destruct (0 <? cacheHits m + cacheMisses m) eqn:E; cbn; [apply Z.ltb_lt in E|]; lia.
Qed.

End StatsProperties.

(** ** The synchronizer *)

Section SyncServiceProperties.
Import ConfigSync SyncService.

Lemma step_options s c : options (step s c) = options s.
Proof.
  destruct s as [mgr o timer ts cf d running syncing al].
  destruct c as [| |fetched iso|fetched iso|op]; cbn.
  - by destruct running.
  - by destruct running.
  - unfold doSync. cbn. destruct syncing; [done |].
    destruct fetched as [response|msg]; cbn; [|done].
    destruct (Manager.updateUserConfigs mgr (users response) iso) as [n mgr'].
    unfold scheduleSync. cbn. destruct (hasMore response && _); [|done].
    by destruct running.
  - destruct timer as [t0|]; [|done].
    unfold onTimer, doSync. cbn. destruct syncing.
    { unfold scheduleNextSync, scheduleSync. cbn. destruct running; [|done]. cbn.
      by destruct (0 <? cf). }
    destruct fetched as [response|msg]; cbn.
    + destruct (Manager.updateUserConfigs mgr (users response) iso) as [n mgr'].
      unfold scheduleNextSync, scheduleSync. cbn.
      destruct (hasMore response && _); destruct running; done.
    + unfold scheduleNextSync, scheduleSync. cbn. destruct running; [|done]. cbn.
      by destruct (0 <? cf + 1).
  - done.
Qed.

Lemma run_options calls : forall s, options (run s calls) = options s.
Proof.
  induction calls as [|c r IH]; intros s; [done |].
  cbn [run fold_left]. unfold run in IH. by rewrite IH, step_options.
Qed.

Lemma step_armed_iff_running s c : armed_iff_running s -> armed_iff_running (step s c).
Proof.
  destruct s as [mgr o timer ts cf d running syncing al].
  unfold armed_iff_running. cbn. intros (Hrun & -> & Hal).
  destruct c as [| |fetched iso|fetched iso|op]; cbn.
  - destruct running; cbn; [done |]. split; [|done]. split; [eauto | done].
  - destruct running; cbn; [|done]. split; [|done]. split; [done | by intros [? [=]]].
  - unfold doSync. cbn. destruct fetched as [response|msg]; cbn.
    + destruct (Manager.updateUserConfigs mgr (users response) iso) as [n mgr'].
      unfold scheduleSync. cbn.
      destruct (hasMore response && _); [|done].
      destruct running; cbn; [|done]. split; [|done]. split; eauto.
    + split; [done |]. split; [done |].
      destruct (alertThreshold o <=? cf + 1) eqn:E; [|done].
      apply Forall_app. split; [done |]. constructor; [|done]. by apply Z.leb_le.
  - destruct timer as [t0|]; [|done].
    unfold onTimer, doSync. cbn. destruct fetched as [response|msg]; cbn.
    + destruct (Manager.updateUserConfigs mgr (users response) iso) as [n mgr'].
      unfold scheduleNextSync, scheduleSync. cbn.
      destruct (hasMore response && _); destruct running; cbn;
        (split; [|done]); (split; [eauto | done]) || done.
    + unfold scheduleNextSync, scheduleSync. cbn.
      assert (Hal' : Forall (fun a => alertThreshold o <= a)
                       (if alertThreshold o <=? cf + 1 then al ++ [cf + 1] else al)).
      { destruct (alertThreshold o <=? cf + 1) eqn:E; [|done].
        apply Forall_app. split; [done |]. constructor; [|done]. by apply Z.leb_le. }
      destruct running; cbn; [|done].
      destruct (0 <? cf + 1); cbn; (split; [|done]); split; eauto.
  - done.
Qed.

Lemma create_armed_iff_running mgr opts : armed_iff_running (ConfigSync.create mgr opts).
Proof. split; [|done]. cbn. split; [done | by intros [? [=]]]. Qed.

Lemma run_armed_iff_running calls : forall s,
  armed_iff_running s -> armed_iff_running (run s calls).
Proof.
  induction calls as [|c r IH]; intros s Hs; [done |].
  cbn [run fold_left]. by apply IH, step_armed_iff_running.
Qed.

(** X12.  After any sequence of calls on a new service, the service has a
    timer armed exactly when it is running ([stop] leaves none, every other
    path of a running service leaves one), no sync is marked in progress
    between two calls, the options are those given, and every failure count
    handed to [onAlert] has reached the alert threshold. *)
Theorem service_armed_iff_running (mgr : Manager.t) (opts : ConfigSync.Options)
    (calls : list Call) :
  let s := run (ConfigSync.create mgr opts) calls in
  (isRunning s = true <-> is_Some (syncTimer s))
  /\ isSyncing s = false
  /\ options s = opts
  /\ Forall (fun a => alertThreshold opts <= a) (alerts s).
Proof.
  cbv zeta.
  assert (H : forall s, armed_iff_running s -> armed_iff_running (run s calls)).
  { induction calls as [|c r IH]; intros s Hs; [done |].
    cbn [run fold_left]. by apply IH, step_armed_iff_running. }
  destruct (H (ConfigSync.create mgr opts)) as (H1 & H2 & H3).
  { split; [|done]. cbn. split; [done | by intros [? [=]]]. }
  rewrite run_options in H3. cbn in H3.
  split; [done |]. split; [done |]. split; [|done]. by rewrite run_options.
Qed.

Lemma backoff_after_failure (initial maxDelay cf : Z) :
  0 <= cf -> 0 <= maxDelay ->
  Z.min (Z.min (initial * 2 ^ cf) maxDelay * 2) maxDelay
  = Z.min (initial * 2 ^ (cf + 1)) maxDelay.
Proof.
  intros Hc Hm. rewrite Z.pow_add_r, Z.pow_1_r by lia.
  set (a := initial * 2 ^ cf). replace (initial * (2 ^ cf * 2)) with (a * 2) by (subst a; lia).
  lia.
Qed.

Lemma step_backoff_closed s c :
  0 <= initialRetryDelayMs (options s) <= maxRetryDelayMs (options s) ->
  isSyncing s = false ->
  backoff_closed s -> backoff_closed (step s c).
Proof.
  destruct s as [mgr o timer ts cf d running syncing al].
  unfold backoff_closed. cbn. intros Ho -> (Hc & ->).
  assert (Hinit : 0 <= 0 /\ initialRetryDelayMs o
                  = Z.min (initialRetryDelayMs o * 2 ^ 0) (maxRetryDelayMs o))
    by (rewrite Z.pow_0_r; lia).
  assert (Hfail : 0 <= cf + 1
                  /\ Z.min (Z.min (initialRetryDelayMs o * 2 ^ cf) (maxRetryDelayMs o) * 2)
                        (maxRetryDelayMs o)
                     = Z.min (initialRetryDelayMs o * 2 ^ (cf + 1)) (maxRetryDelayMs o))
    by (split; [lia | apply backoff_after_failure; lia]).
  destruct c as [| |fetched iso|fetched iso|op]; cbn.
  - by destruct running.
  - by destruct running.
  - unfold doSync. cbn. destruct fetched as [response|msg]; cbn; [|done].
    destruct (Manager.updateUserConfigs mgr (users response) iso) as [n mgr'].
    unfold scheduleSync. cbn. destruct (hasMore response && _); [|done].
    by destruct running.
  - destruct timer as [t0|]; [|done].
    unfold onTimer, doSync. cbn. destruct fetched as [response|msg]; cbn.
    + destruct (Manager.updateUserConfigs mgr (users response) iso) as [n mgr'].
      unfold scheduleNextSync, scheduleSync. cbn.
      destruct (hasMore response && _); destruct running; done.
    + unfold scheduleNextSync, scheduleSync. cbn. destruct running; [|done]. cbn.
      by destruct (0 <? cf + 1).
  - done.
Qed.

Lemma run_backoff_closed calls : forall s,
  0 <= initialRetryDelayMs (options s) <= maxRetryDelayMs (options s) ->
  armed_iff_running s -> backoff_closed s -> backoff_closed (run s calls).
Proof.
  induction calls as [|c r IH]; intros s Ho Ha Hb; [done |].
  cbn [run fold_left]. apply IH.
  - by rewrite step_options.
  - by apply step_armed_iff_running.
  - apply step_backoff_closed; [done | apply Ha | done].
Qed.

(** X13.  The retry delay in closed form.  With
    [0 <= initialRetryDelayMs <= maxRetryDelayMs], after any sequence of
    calls the stored retry delay is
    [min (initialRetryDelayMs * 2 ^ consecutiveFailures) maxRetryDelayMs],
    so it lies between the initial and the maximal delay; and when the
    armed timer fires and the fetch fails, the next timer is armed with
    [min (initialRetryDelayMs * 2 ^ (consecutiveFailures + 1)) maxRetryDelayMs]. *)
Theorem retry_delay_closed_form (mgr : Manager.t) (opts : ConfigSync.Options)
    (calls : list Call) (message nowIso : jsstring) :
  0 <= initialRetryDelayMs opts <= maxRetryDelayMs opts ->
  let s := run (ConfigSync.create mgr opts) calls in
  0 <= consecutiveFailures s
  /\ currentRetryDelay s
     = Z.min (initialRetryDelayMs opts * 2 ^ consecutiveFailures s) (maxRetryDelayMs opts)
  /\ initialRetryDelayMs opts <= currentRetryDelay s <= maxRetryDelayMs opts
  /\ (is_Some (syncTimer s) ->
      syncTimer (step s (TimerFires (FetchError message) nowIso))
      = Some (Z.min (initialRetryDelayMs opts * 2 ^ (consecutiveFailures s + 1))
                (maxRetryDelayMs opts))).
Proof.
  intros Ho. cbv zeta.
  pose proof (run_armed_iff_running calls _ (create_armed_iff_running mgr opts))
    as (Hrun & Hsync & _).
  pose proof (run_options calls (ConfigSync.create mgr opts)) as Hopt. cbn in Hopt.
  destruct (run_backoff_closed calls (ConfigSync.create mgr opts) Ho
              (create_armed_iff_running mgr opts)) as (Hc & Hd).
  { split; [done |]. cbn. rewrite Z.pow_0_r. lia. }
  rewrite Hopt in Hd.
  set (s := run (ConfigSync.create mgr opts) calls) in *.
  split; [done |]. split; [done |]. split.
  { rewrite Hd. pose proof (Z.pow_pos_nonneg 2 (consecutiveFailures s) ltac:(lia) Hc).
    split; [|lia]. apply Z.min_glb; [nia | lia]. }
  intros Harmed. pose proof (proj2 Hrun Harmed) as Hr.
  destruct Harmed as [t0 Ht]. cbn [step]. rewrite Ht.
  destruct (onTimer_failure s message nowIso Hr Hsync Hc) as (_ & H2 & H3 & _).
  rewrite H3, H2, Hd, Hopt. f_equal. apply backoff_after_failure; lia.
Qed.

(** X14.  Pages of a sync.  When the timer of a service fires and the
    fetch succeeds, the next timer is armed with [syncIntervalMs], also
    when the response announces more pages: the 100 ms timer armed for the
    next page is replaced at once.  Only [syncNow] leaves the 100 ms timer
    armed. *)
Theorem timer_sync_rearms_with_interval (mgr : Manager.t) (opts : ConfigSync.Options)
    (calls : list Call) (response : ConfigSyncResponse) (nowIso : jsstring) :
  let s := run (ConfigSync.create mgr opts) calls in
  is_Some (syncTimer s) ->
  syncTimer (step s (TimerFires (FetchOk response) nowIso)) = Some (syncIntervalMs opts)
  /\ syncTimer (step s (CallSyncNow (FetchOk response) nowIso))
     = if hasMore response
          && match nextCursor response with Some c => truthy c | None => false end
       then Some 100 else syncTimer s.
Proof.
  cbv zeta. intros Harmed.
  pose proof (run_armed_iff_running calls _ (create_armed_iff_running mgr opts))
    as (Hrun & Hsync & _).
  pose proof (run_options calls (ConfigSync.create mgr opts)) as Hopt. cbn in Hopt.
  pose proof (proj2 Hrun Harmed) as Hr. destruct Harmed as [t0 Ht].
  destruct (run (ConfigSync.create mgr opts) calls)
    as [mgr' o timer ts cf d running syncing al].
  cbn in *. subst. unfold onTimer, doSync. cbn.
  destruct (Manager.updateUserConfigs mgr' (users response) nowIso) as [n mgr''].
  unfold scheduleNextSync, scheduleSync. cbn.
  by destruct (hasMore response && _).
Qed.

End SyncServiceProperties.

(** ** The failure count of the manager and of the synchronizer *)

Section FailureCounts.
Import Manager.

Lemma initializeUserInstance_syncFailures G m u cfg cc ok now :
  syncFailures (snd (initializeUserInstance G m u cfg cc ok now)) = syncFailures m.
Proof.
  unfold initializeUserInstance. by destruct (ensureUserDirectories G u ok).
Qed.

Lemma authenticateToken_syncFailures G m token reply ok now nowIso :
  syncFailures (snd (authenticateToken G m token reply ok now nowIso)) = syncFailures m.
Proof.
  unfold authenticateToken.
  destruct (cachedInstance m token) as [[u i]|]; [by destruct (status i) |].
  destruct (truthy (cloudBackendUrl (options m))); cbn; [|done].
  unfold verifyRemote.
  destruct reply as [| |httpStatus body]; cbn; try done.
  destruct (response_ok httpStatus); cbn; [|by destruct (httpStatus =? 401)].
  destruct body as [|[result|]]; cbn; try done.
  destruct (truthy (user_id result)); cbn; [|done].
  destruct (sanitizeUserId (user_id result)) as [userId|e]; cbn; [|done].
  destruct (JsMap.has userId (userInstances m)); cbn; [done |].
  match goal with
  | |- context [initializeUserInstance ?G ?m0 ?u ?c ?cc ?ok ?now] =>
      pose proof (initializeUserInstance_syncFailures G m0 u c cc ok now) as Hi;
      destruct (initializeUserInstance G m0 u c cc ok now) as [[inst|e] m']
  end; exact Hi.
Qed.

Lemma idlePass_syncFailures m now : syncFailures (idlePass m now) = syncFailures m.
Proof.
  unfold idlePass. generalize (userInstances m) as entries. intros entries.
  revert m. induction entries as [|[u i] r IH]; intros m; [done |].
  cbn [fold_left]. rewrite IH, idleStep_eq.
  by destruct (Scan.idleEvictable _ _ _).
Qed.

Lemma lruLoop_syncFailures fuel m : syncFailures (lruLoop fuel m) = syncFailures m.
Proof.
  revert m. induction fuel as [|fuel IH]; intros m; [done |]. cbn [lruLoop].
  destruct (maxCachedUsers (options m) <? JsMap.size (userInstances m)); [|done].
  destruct (findOldest (userInstances m)) as [u|]; [|done].
  destruct (truthy u); [|done]. by rewrite IH.
Qed.

Lemma step_syncFailures m op :
  SyncService.reports_sync op = false -> syncFailures (step m op) = syncFailures m.
Proof.
  destruct op as [t|G t rp ok now iso|G u now disk ok|cs iso|err|raw now|raw now|now|u];
    try done; intros _; cbn [step].
  - unfold authenticateTokenSync.
    destruct (tokenToUserId m !! t) as [k|]; [|done].
    destruct (truthy k); [|done]. cbn.
    destruct (JsMap.get k (userInstances m)) as [i|]; [|done]. by destruct (status i).
  - apply authenticateToken_syncFailures.
  - unfold getUserInstance.
    destruct (sanitizeUserId u) as [k|e]; [|done].
    destruct (JsMap.get k (userInstances m)) as [i|]; [done |].
    destruct disk as [[cfg|]|e]; cbn [snd]; try done.
    match goal with
    | |- context [initializeUserInstance ?G ?m0 ?u ?c ?cc ?ok ?now] =>
        pose proof (initializeUserInstance_syncFailures G m0 u c cc ok now) as Hi;
        destruct (initializeUserInstance G m0 u c cc ok now) as [[inst|e] m']
    end; exact Hi.
  - unfold incrementPendingRequests.
    destruct (sanitizeUserId raw) as [k|e]; [|done].
    by destruct (JsMap.get k (userInstances m)).
  - unfold decrementPendingRequests.
    destruct (sanitizeUserId raw) as [k|e]; [|done].
    destruct (JsMap.get k (userInstances m)) as [i|]; [|done].
    by destruct (0 <? pendingRequests i).
  - unfold cleanupInactiveUsers, lruPass.
    by rewrite lruLoop_syncFailures, idlePass_syncFailures.
  - unfold forceEvictUser.
    destruct (sanitizeUserId u) as [k|e]; [|done].
    by destruct (JsMap.has k (userInstances m)).
Qed.

Lemma service_step_counts s c :
  ConfigSync.isSyncing s = false ->
  SyncService.sole_reporter c = true ->
  syncFailures (ConfigSync.manager s) = ConfigSync.consecutiveFailures s ->
  syncFailures (ConfigSync.manager (SyncService.step s c))
  = ConfigSync.consecutiveFailures (SyncService.step s c).
Proof.
  destruct s as [mgr o timer ts cf d running syncing al]. cbn. intros -> Hc <-.
  destruct c as [| |fetched iso|fetched iso|op]; cbn.
  - by destruct running.
  - by destruct running.
  - unfold ConfigSync.doSync. cbn. destruct fetched as [response|msg]; cbn; [|done].
    pose proof (updateUserConfigs_counters mgr (ConfigSync.users response) iso)
      as (H & _).
    destruct (updateUserConfigs mgr (ConfigSync.users response) iso) as [n mgr'].
    cbn [snd] in H. unfold ConfigSync.scheduleSync. cbn.
    destruct (ConfigSync.hasMore response && _); [|done]. by destruct running.
  - destruct timer as [t0|]; [|done].
    unfold ConfigSync.onTimer, ConfigSync.doSync. cbn.
    destruct fetched as [response|msg]; cbn.
    + pose proof (updateUserConfigs_counters mgr (ConfigSync.users response) iso)
        as (H & _).
      destruct (updateUserConfigs mgr (ConfigSync.users response) iso) as [n mgr'].
      cbn [snd] in H. unfold ConfigSync.scheduleNextSync, ConfigSync.scheduleSync. cbn.
      destruct (ConfigSync.hasMore response && _); destruct running; done.
    + unfold ConfigSync.scheduleNextSync, ConfigSync.scheduleSync. cbn.
      destruct running; [|done]. cbn. by destruct (0 <? syncFailures mgr + 1).
  - cbn in Hc. apply step_syncFailures. by destruct (SyncService.reports_sync op).
Qed.

(** X15.  The manager and the synchronizer count the same failures.  When
    the service is created on a manager without recorded failures and no
    other party calls [updateUserConfigs] or [recordSyncFailure], then after
    any sequence of service calls, timer callbacks and other manager calls
    [syncFailures] of the manager equals [consecutiveFailures] of the
    service. *)
Theorem manager_and_service_count_alike (mgr : Manager.t) (opts : ConfigSync.Options)
    (calls : list SyncService.Call) :
  syncFailures mgr = 0 ->
  forallb SyncService.sole_reporter calls = true ->
  let s := SyncService.run (ConfigSync.create mgr opts) calls in
  syncFailures (ConfigSync.manager s) = ConfigSync.consecutiveFailures s.
Proof.
  intros H0 Hcalls. cbv zeta.
  assert (H : forall s,
            SyncService.armed_iff_running s ->
            syncFailures (ConfigSync.manager s) = ConfigSync.consecutiveFailures s ->
            syncFailures (ConfigSync.manager (SyncService.run s calls))
            = ConfigSync.consecutiveFailures (SyncService.run s calls)).
  { induction calls as [|c r IH]; intros s Ha Hs; [done |].
    cbn [forallb] in Hcalls. apply andb_prop in Hcalls as [Hc Hr].
    cbn [SyncService.run fold_left]. apply (IH Hr).
    - by apply step_armed_iff_running.
    - apply service_step_counts; [apply Ha | done | done]. }
  apply H; [apply create_armed_iff_running | done].
Qed.

End FailureCounts.

(** X11 on the manager with one request in flight. *)
Lemma getStats_reading_witness :
  Manager.totalConnections (Manager.getStats Scenario.one_busy_user) = 1
  /\ Manager.usersWithPendingRequests (Manager.getStats Scenario.one_busy_user) = 1.
Proof.
  assert (Hr : Manager.reachable Scenario.opts0 Scenario.one_busy_user) by (by eexists).
  destruct (getStats_reading Scenario.opts0 Scenario.one_busy_user Hr)
    as (_ & H2 & _ & H4 & _).
  split; [rewrite H4 | rewrite H2]; vm_compute; reflexivity.
Defined.

(** X13 on the timings of the back-off scenario after three failed
    callbacks: the stored delay has reached the maximum of eight seconds. *)
Lemma retry_delay_closed_form_witness :
  let s := SyncService.run (ConfigSync.create (Manager.create Scenario.opts0)
                              Scenario.sync_options)
             [SyncService.CallStart;
              SyncService.TimerFires (ConfigSync.FetchError (js "down")) [];
              SyncService.TimerFires (ConfigSync.FetchError (js "down")) [];
              SyncService.TimerFires (ConfigSync.FetchError (js "down")) []] in
  ConfigSync.consecutiveFailures s = 3 /\ ConfigSync.currentRetryDelay s = 8000.
Proof.
  cbv zeta. split; [vm_compute; reflexivity |].
  destruct (retry_delay_closed_form (Manager.create Scenario.opts0) Scenario.sync_options
              [SyncService.CallStart;
               SyncService.TimerFires (ConfigSync.FetchError (js "down")) [];
               SyncService.TimerFires (ConfigSync.FetchError (js "down")) [];
               SyncService.TimerFires (ConfigSync.FetchError (js "down")) []]
              [] [] ltac:(cbn; lia)) as (_ & H & _).
  rewrite H. vm_compute. reflexivity.
Defined.

(** X14 on a started service whose first page announces a second one. *)
Lemma timer_sync_rearms_with_interval_witness :
  let page := ConfigSync.mkResponse [] (js "2026-01-01T00:00:00.000Z") true
                (Some (js "cursor-2")) in
  ConfigSync.syncTimer
    (SyncService.step Scenario.started_sync (SyncService.TimerFires (ConfigSync.FetchOk page) []))
  = Some 300000
  /\ ConfigSync.syncTimer
       (SyncService.step Scenario.started_sync
          (SyncService.CallSyncNow (ConfigSync.FetchOk page) []))
     = Some 100.
Proof.
  cbv zeta.
  exact (timer_sync_rearms_with_interval (Manager.create Scenario.opts0)
           Scenario.sync_options [SyncService.CallStart]
           (ConfigSync.mkResponse [] (js "2026-01-01T00:00:00.000Z") true
              (Some (js "cursor-2"))) []
           (ex_intro _ 0 eq_refl)).
Defined.

(** X15 on a service that fails twice while tokens are being authenticated
    and the cache is cleaned. *)
Lemma manager_and_service_count_alike_witness :
  let s := SyncService.run (ConfigSync.create (Manager.create Scenario.opts0)
                              Scenario.sync_options)
             [SyncService.CallStart;
              SyncService.TimerFires (ConfigSync.FetchError (js "down")) [];
              SyncService.ManagerCall
                (Scenario.login (js "gt_abc") (js "u-1") Manager.active 1000);
              SyncService.ManagerCall (Manager.OpCleanup 5000);
              SyncService.TimerFires (ConfigSync.FetchError (js "down")) []] in
  Manager.syncFailures (ConfigSync.manager s) = 2.
Proof.
  cbv zeta.
  rewrite (manager_and_service_count_alike (Manager.create Scenario.opts0)
             Scenario.sync_options
             [SyncService.CallStart;
              SyncService.TimerFires (ConfigSync.FetchError (js "down")) [];
              SyncService.ManagerCall
                (Scenario.login (js "gt_abc") (js "u-1") Manager.active 1000);
              SyncService.ManagerCall (Manager.OpCleanup 5000);
              SyncService.TimerFires (ConfigSync.FetchError (js "down")) []]
             eq_refl eq_refl).
  vm_compute. reflexivity.
Defined.

(** ** Gateway tokens of a connection *)

Section GatewayTokenProperties.
Import Manager Inv GatewayAuth.




Lemma trimStart_spaces w s : forallb is_space w = true -> trimStart (w ++ s) = trimStart s.
Proof.
  induction w as [|c r IH]; [done |]. cbn. intros [-> H]%andb_prop. by apply IH.
Qed.





Lemma trim_spaces w s : forallb is_space w = true -> trim (w ++ s) = trim s.
Proof. intros H. unfold trim. by rewrite trimStart_spaces. Qed.


Lemma strip_prefix_ci_spec pattern : forall s rest,
  strip_prefix_ci pattern s = Some rest
  <-> exists p, s = p ++ rest /\ List.map upper p = List.map upper pattern.
Proof.
  induction pattern as [|a pattern IH]; intros s rest.
  - cbn. split.
    + intros [= ->]. by exists [].
    + intros (p & -> & Hp). by destruct p.
  - destruct s as [|c s]; cbn.
    + split; [done |]. intros (p & Hs & Hp). by destruct p.
    + destruct (N.eqb (upper a) (upper c)) eqn:E.
      * apply N.eqb_eq in E. rewrite IH. split.
        -- intros (p & -> & Hp). exists (c :: p). cbn. by rewrite Hp, E.
        -- intros (p & Hs & Hp). destruct p as [|c' p]; [done |].
           cbn in Hs, Hp. injection Hs as <- ->. injection Hp as _ Hp. by exists p.
      * apply N.eqb_neq in E. split; [done |].
        intros (p & Hs & Hp). destruct p as [|c' p]; [done |].
        cbn in Hs, Hp. injection Hs as <- ->. injection Hp as Hc _. by rewrite Hc in E.
Qed.

Lemma span_spaces_take s : forallb is_space (take (span_spaces s) s) = true.
Proof.
  induction s as [|c r IH]; [done |]. cbn [span_spaces].
  destruct (is_space c) eqn:Hc; [|done]. cbn. by rewrite Hc.
Qed.

Lemma span_spaces_app w s : forallb is_space w = true -> (length w <= span_spaces (w ++ s))%nat.
Proof.
  induction w as [|c r IH]; cbn; [lia |]. intros [-> H]%andb_prop. specialize (IH H). lia.
Qed.

Lemma spaces_then_capture_sound k : forall rest g,
  spaces_then_capture k rest = Some g ->
  exists j, (1 <= j <= k)%nat /\ g = drop j rest /\ dot_plus_to_end g = true.
Proof.
  induction k as [|k IH]; intros rest g; [done |]. cbn [spaces_then_capture].
  destruct (dot_plus_to_end (drop (S k) rest)) eqn:E.
  - intros [= <-]. exists (S k). split; [lia | done].
  - intros (j & Hj & H)%IH. exists j. split; [lia | done].
Qed.

Lemma spaces_then_capture_complete k : forall rest j,
  (1 <= j <= k)%nat -> dot_plus_to_end (drop j rest) = true ->
  exists i, (j <= i <= k)%nat /\ spaces_then_capture k rest = Some (drop i rest).
Proof.
  induction k as [|k IH]; intros rest j Hj Hd; [lia |]. cbn [spaces_then_capture].
  destruct (dot_plus_to_end (drop (S k) rest)) eqn:E.
  - exists (S k). split; [lia | done].
  - destruct (decide (j = S k)) as [->|Hne]; [congruence |].
    destruct (IH rest j ltac:(lia) Hd) as (i & Hi & H). exists i. split; [lia | done].
Qed.

(** X17.  The regular expression of the [Authorization] header, read as a
    grammar.  Group 1 is defined exactly when the header is the word
    [Bearer] in any letter case, then white space, then a non-empty rest
    without line terminator; the group is such a rest.  For every way of
    cutting the header like this the token obtained from the group, once
    trimmed, is the trimmed rest. *)
Theorem bearer_capture_grammar (authHeader : jsstring) :
  (forall group, bearer_capture authHeader = Some group ->
     exists word spaces,
       authHeader = word ++ spaces ++ group
       /\ List.map upper word = js "BEARER"
       /\ spaces <> [] /\ forallb is_space spaces = true
       /\ dot_plus_to_end group = true)
  /\ (forall word spaces rest,
        authHeader = word ++ spaces ++ rest ->
        List.map upper word = js "BEARER" ->
        spaces <> [] -> forallb is_space spaces = true ->
        dot_plus_to_end rest = true ->
        exists group, bearer_capture authHeader = Some group
                      /\ trim group = trim rest).
Proof.
  unfold bearer_capture. split.
  - intros group H.
    destruct (strip_prefix_ci (js "Bearer") authHeader) as [rest|] eqn:Ep; [|done].
    apply strip_prefix_ci_spec in Ep as (word & -> & Hw).
    apply spaces_then_capture_sound in H as (j & Hj & -> & Hd).
    exists word, (take j rest). rewrite take_drop.
    split; [done |]. split; [done |]. split.
    + pose proof (span_spaces_take rest) as Hs.
      destruct rest as [|c r]; [cbn in Hj; lia |]. destruct j; [lia | done].
    + split; [|done]. pose proof (span_spaces_take rest) as Hs.
      rewrite <- (take_drop j (take (span_spaces rest) rest)) in Hs.
      rewrite forallb_app in Hs. apply andb_prop in Hs as [Hs _].
      by rewrite take_take, Nat.min_l in Hs by lia.
  - intros word spaces rest -> Hw Hne Hs Hd.
    assert (Ep : strip_prefix_ci (js "Bearer") (word ++ spaces ++ rest)
                 = Some (spaces ++ rest)).
    { apply strip_prefix_ci_spec. by exists word. }
    rewrite Ep.
    destruct (spaces_then_capture_complete (span_spaces (spaces ++ rest)) (spaces ++ rest)
                (length spaces)) as (i & Hi & Hc).
    + pose proof (span_spaces_app spaces rest Hs). destruct spaces; [done |]. cbn in *. lia.
    + by rewrite drop_app_length.
    + exists (drop i (spaces ++ rest)). split; [done |].
      replace i with (length spaces + (i - length spaces))%nat by lia.
      rewrite <- drop_drop, drop_app_length.
      rewrite <- (take_drop (i - length spaces) rest) at 2.
      symmetry. apply trim_spaces.
      pose proof (span_spaces_take (spaces ++ rest)) as Hsp.
      rewrite <- (take_drop i (take (span_spaces (spaces ++ rest)) (spaces ++ rest))) in Hsp.
      rewrite forallb_app in Hsp. apply andb_prop in Hsp as [Hsp _].
      rewrite take_take, Nat.min_l in Hsp by lia.
      replace i with (length spaces + (i - length spaces))%nat in Hsp by lia.
      rewrite take_app_add in Hsp.
      rewrite forallb_app in Hsp. by apply andb_prop in Hsp as [_ Hsp].
Qed.

End GatewayTokenProperties.

Section AuthorizeProperties.
Import Manager Inv GatewayAuth.
Context {GatewayAuthResult : Type}.

(** The manager with the synchronous [authenticateToken]. *)
Lemma gateway_token_local
    (standard standard' : option (option jsstring * option jsstring) -> GatewayAuthResult)
    (opts : Options) (m : Manager.t) (connectAuth : ConnectAuth) (token : jsstring) :
  reachable opts m ->
  connect_gatewayToken connectAuth = Some token -> truthy token = true ->
  let r := authorizeGatewayConnectMultiTenant standard LocalLookup
             (Some connectAuth) (Some m) in
  r = authorizeGatewayConnectMultiTenant standard' LocalLookup (Some connectAuth) (Some m)
  /\ (forall res, fst r <> StandardResult res)
  /\ (forall u, fst r = GatewayTokenAccepted (UserIdString u)
                <-> tokenToUserId m !! token = Some u
                    /\ exists i, JsMap.get u (userInstances m) = Some i
                                 /\ status i <> suspended /\ status i <> expired)
  /\ ((forall v, fst r <> GatewayTokenAccepted v) <-> fst r = GatewayTokenInvalid)
  /\ (forall settled, fst r <> GatewayTokenAccepted (UserIdPromise settled))
  /\ exists m', snd r = Some m'
                /\ userInstances m' = userInstances m
                /\ tokenToUserId m' = tokenToUserId m.
Proof.
  intros Hr Hg Ht. pose proof (reachable_wf opts m Hr) as [Hk _]. cbv zeta.
  unfold authorizeGatewayConnectMultiTenant, callAuthenticateToken. cbn.
  rewrite Hg, Ht.
  set (P := fun (r r' : MultiTenantAuthResult GatewayAuthResult * option Manager.t) =>
    r = r'
    /\ (forall res, fst r <> StandardResult res)
    /\ (forall u, fst r = GatewayTokenAccepted (UserIdString u)
                  <-> tokenToUserId m !! token = Some u
                      /\ exists i, JsMap.get u (userInstances m) = Some i
                                   /\ status i <> suspended /\ status i <> expired)
    /\ ((forall v, fst r <> GatewayTokenAccepted v) <-> fst r = GatewayTokenInvalid)
    /\ (forall settled, fst r <> GatewayTokenAccepted (UserIdPromise settled))
    /\ exists m', snd r = Some m'
                  /\ userInstances m' = userInstances m
                  /\ tokenToUserId m' = tokenToUserId m).
  assert (Hrefused : forall m0,
            userInstances m0 = userInstances m -> tokenToUserId m0 = tokenToUserId m ->
            (forall u, ~ (tokenToUserId m !! token = Some u
                          /\ exists i, JsMap.get u (userInstances m) = Some i
                                       /\ status i <> suspended /\ status i <> expired)) ->
            P (GatewayTokenInvalid, Some m0) (GatewayTokenInvalid, Some m0)).
  { intros m0 H1 H2 Hno. unfold P. cbn. split; [done |]. split; [done |]. split.
    - intros u. split; [done |]. intros H. by destruct (Hno u).
    - split; [done |]. split; [done |]. by exists m0. }
  assert (Haccepted : forall u i,
            tokenToUserId m !! token = Some u ->
            JsMap.get u (userInstances m) = Some i ->
            status i <> suspended -> status i <> expired ->
            P (GatewayTokenAccepted (UserIdString u), Some m)
              (GatewayTokenAccepted (UserIdString u), Some m)).
  { intros u i Hu Hi Hs He. unfold P. cbn. split; [done |]. split; [done |]. split.
    - intros u'. split.
      + intros [= <-]. split; [done |]. by exists i.
      + intros (Hu' & _). rewrite Hu in Hu'. by injection Hu' as <-.
    - split; [|split; [done | by exists m]]. split; [|done].
      intros H. by destruct (H (UserIdString u)). }
  fold (P (match
             (let '(userId, m0) := authenticateTokenSync m token in (Immediate userId, m0))
           with
           | (Immediate (Some userId), m0) =>
               if truthy userId
               then (GatewayTokenAccepted (UserIdString userId), Some m0)
               else (GatewayTokenInvalid, Some m0)
           | (Immediate None, m0) => (GatewayTokenInvalid, Some m0)
           | (Pending settled, m0) =>
               (GatewayTokenAccepted (UserIdPromise settled), Some m0)
           end)
          (match
             (let '(userId, m0) := authenticateTokenSync m token in (Immediate userId, m0))
           with
           | (Immediate (Some userId), m0) =>
               if truthy userId
               then (@GatewayTokenAccepted GatewayAuthResult (UserIdString userId), Some m0)
               else (GatewayTokenInvalid, Some m0)
           | (Immediate None, m0) => (GatewayTokenInvalid, Some m0)
           | (Pending settled, m0) =>
               (GatewayTokenAccepted (UserIdPromise settled), Some m0)
           end)).
  unfold authenticateTokenSync.
  destruct (tokenToUserId m !! token) as [u|] eqn:Eu.
  2: { apply Hrefused; [done | done |]. by intros u [? _]. }
  destruct (truthy u) eqn:Etu; cbn.
  2: { apply Hrefused; [done | done |]. intros u' ([= <-] & i & Hi & _).
       pose proof (keys_ok_get_nonempty m _ i Hk Hi). by destruct u. }
  destruct (JsMap.get u (userInstances m)) as [i|] eqn:Ei.
  2: { apply Hrefused; [done | done |]. intros u' ([= <-] & i & Hi & _). congruence. }
  destruct (status i) eqn:Es; cbn; rewrite ?Etu.
  - apply (Haccepted u i); [done | done | by rewrite Es | by rewrite Es].
  - apply Hrefused; [done | done |]. intros u' ([= <-] & i' & Hi & Hs & _). congruence.
  - apply Hrefused; [done | done |]. intros u' ([= <-] & i' & Hi & _ & Hs). congruence.
  - apply (Haccepted u i); [done | done | by rewrite Es | by rewrite Es].
Qed.

(** X18.  A gateway token decides alone.  With a manager and a non-empty
    gateway token in the connect credentials, the result does not depend
    on the standard authentication and is never a standard result.  With
    the synchronous [authenticateToken], the token is accepted with user [u]
    exactly when it is bound to [u], [u] is cached and [u] is neither
    suspended nor expired, and it is refused otherwise, whatever token or
    password came along; the tables of the manager are left as they were.
    With the asynchronous [authenticateToken], which is called without
    [await], the value that is tested is a Promise: the token is accepted
    whatever the manager holds and the backend answers, and the [userId] of
    the result is that Promise, also when it settles to [null]. *)
Theorem gateway_token_decides_alone
    (standard standard' : option (option jsstring * option jsstring) -> GatewayAuthResult)
    (method : AuthenticateTokenMethod)
    (opts : Options) (m : Manager.t) (connectAuth : ConnectAuth) (token : jsstring) :
  reachable opts m ->
  connect_gatewayToken connectAuth = Some token -> truthy token = true ->
  let r := authorizeGatewayConnectMultiTenant standard method
             (Some connectAuth) (Some m) in
  r = authorizeGatewayConnectMultiTenant standard' method (Some connectAuth) (Some m)
  /\ (forall res, fst r <> StandardResult res)
  /\ match method with
     | LocalLookup =>
         (forall u, fst r = GatewayTokenAccepted (UserIdString u)
                    <-> tokenToUserId m !! token = Some u
                        /\ exists i, JsMap.get u (userInstances m) = Some i
                                     /\ status i <> suspended /\ status i <> expired)
         /\ ((forall v, fst r <> GatewayTokenAccepted v) <-> fst r = GatewayTokenInvalid)
         /\ (forall settled, fst r <> GatewayTokenAccepted (UserIdPromise settled))
         /\ exists m', snd r = Some m'
                       /\ userInstances m' = userInstances m
                       /\ tokenToUserId m' = tokenToUserId m
     | RemoteVerify G reply mkdirOk now nowIso =>
         let call := authenticateToken G m token reply mkdirOk now nowIso in
         r = (GatewayTokenAccepted (UserIdPromise (fst call)), Some (snd call))
         /\ fst r <> GatewayTokenInvalid
     end.
Proof.
  intros Hr Hg Ht. destruct method as [|G reply mkdirOk now nowIso].
  - exact (gateway_token_local standard standard' opts m connectAuth token Hr Hg Ht).
  - cbv zeta. unfold authorizeGatewayConnectMultiTenant, callAuthenticateToken. cbn.
    rewrite Hg, Ht.
    destruct (authenticateToken G m token reply mkdirOk now nowIso) as [settled m1].
    cbn. by repeat split.
Qed.

(** X19.  Credentials built from a request.  [buildConnectAuthFromRequest]
    keeps the token and the password of the connect frame; the gateway
    token is the one extracted from the request whenever there is one, the
    empty one included, and the one of the frame only otherwise.  So when
    the request yields the empty token, a gateway token of the frame is
    dropped and the connection is authorized by the standard
    authentication alone. *)
Theorem connect_auth_from_request
    (standard : option (option jsstring * option jsstring) -> GatewayAuthResult)
    (method : AuthenticateTokenMethod)
    (req : Request) (existingAuth : option ConnectAuth) (manager : option Manager.t) :
  let connectAuth := buildConnectAuthFromRequest req existingAuth in
  connect_token connectAuth = existingAuth ≫= connect_token
  /\ connect_password connectAuth = existingAuth ≫= connect_password
  /\ (forall t, extractGatewayToken (Some req) = Some t ->
        connect_gatewayToken connectAuth = Some t)
  /\ (extractGatewayToken (Some req) = None ->
        connect_gatewayToken connectAuth = existingAuth ≫= connect_gatewayToken)
  /\ (extractGatewayToken (Some req) = Some [] ->
        authorizeGatewayConnectMultiTenant standard method (Some connectAuth) manager
        = (StandardResult
             (standard (Some (existingAuth ≫= connect_token,
                              existingAuth ≫= connect_password))),
           manager))
  /\ (isMultiTenantAuthAttempt None (Some connectAuth) = true ->
      isMultiTenantAuthAttempt (Some req) existingAuth = true).
Proof.
  cbv zeta. unfold buildConnectAuthFromRequest, isMultiTenantAuthAttempt.
  split; [done |]. split; [done |]. split; [by intros t -> |]. split; [by intros -> |].
  split.
  - intros H. unfold authorizeGatewayConnectMultiTenant. cbn -[extractGatewayToken].
    rewrite H. cbn. by destruct manager.
  - cbn -[extractGatewayToken].
    destruct (extractGatewayToken (Some req)) as [t|]; cbn.
    + destruct (truthy t); [|done].
      by destruct (truthy_opt (existingAuth ≫= connect_gatewayToken)).
    + by destruct (truthy_opt (existingAuth ≫= connect_gatewayToken)).
Qed.

End AuthorizeProperties.


(** X18 on the manager with one cached user: a token that nobody holds,
    refused by the backend with 401, is accepted by the call that does not
    await the answer. *)
Lemma gateway_token_decides_alone_witness :
  fst (GatewayAuth.authorizeGatewayConnectMultiTenant (fun _ => false)
         (GatewayAuth.RemoteVerify Scenario.G0
            (Manager.Response 401 (Manager.BodyJson None)) true 2000
            (js "2026-01-01T00:00:02.000Z"))
         (Some (GatewayAuth.mkConnectAuth None (Some (js "wrong")) (Some (js "gt_nobody"))))
         (Some Scenario.one_user))
  = GatewayAuth.GatewayTokenAccepted (GatewayAuth.UserIdPromise (Return None)).
Proof.
  assert (Hr : Manager.reachable Scenario.opts0 Scenario.one_user) by (by eexists).
  destruct (gateway_token_decides_alone (fun _ => false) (fun _ => true)
              (GatewayAuth.RemoteVerify Scenario.G0
                 (Manager.Response 401 (Manager.BodyJson None)) true 2000
                 (js "2026-01-01T00:00:02.000Z"))
              Scenario.opts0 Scenario.one_user
              (GatewayAuth.mkConnectAuth None (Some (js "wrong")) (Some (js "gt_nobody")))
              (js "gt_nobody") Hr eq_refl eq_refl) as (_ & _ & H & _).
  rewrite H. vm_compute. reflexivity.
Defined.

(** ** Normalized paths and their children *)

Section PathShapes.
Import Path PathShape.

Lemma split_slash_slash_free p :
  Forall (fun seg => Forall (fun c => c <> SLASH) seg) (Path.split_slash p).
Proof.
  induction p as [|c r IH]; [repeat constructor |].
  cbn [Path.split_slash]. destruct (N.eqb c SLASH) eqn:E.
  - by constructor.
  - apply N.eqb_neq in E. destruct (Path.split_slash r) as [|s t].
    + repeat constructor. done.
    + apply Forall_cons in IH as [Hs Ht]. constructor; [by constructor | done].
Qed.

Lemma split_slash_cons_free x r :
  Forall (fun c => c <> SLASH) x ->
  Path.split_slash (x ++ SLASH :: r) = x :: Path.split_slash r.
Proof.
  induction 1 as [|c x Hc _ IH]; [reflexivity |].
  cbn [app Path.split_slash]. apply N.eqb_neq in Hc. by rewrite Hc, IH.
Qed.

Lemma split_slash_intercalate st :
  st <> [] -> Forall (fun seg => Forall (fun c => c <> SLASH) seg) st ->
  Path.split_slash (intercalate [SLASH] st) = st.
Proof.
  induction st as [|x r IH]; [done |]. intros _ [Hx Hr]%Forall_cons.
  destruct r as [|y r]; [by apply split_slash_plain |].
  change (intercalate [SLASH] (x :: y :: r))
    with (x ++ SLASH :: intercalate [SLASH] (y :: r)).
  by rewrite split_slash_cons_free, IH.
Qed.

Lemma plain_slash_free x : plain x -> Forall (fun c => c <> SLASH) x.
Proof. by intros (_ & H & _). Qed.

Lemma plain_dotdot_free : Forall (fun c => c <> SLASH) [DOT; DOT].
Proof. repeat constructor; discriminate. Qed.

Lemma normal_stack_slash_free allow st :
  normal_stack allow st -> Forall (fun seg => Forall (fun c => c <> SLASH) seg) st.
Proof.
  intros (k & ps & -> & Hps & _). apply Forall_app. split.
  - apply Forall_forall. intros x Hx%list_elem_of_In%repeat_spec. subst.
    apply plain_dotdot_free.
  - eapply Forall_impl; [exact Hps |]. apply plain_slash_free.
Qed.

Lemma normal_stack_nil allow : normal_stack allow [].
Proof. exists 0%nat, []. by repeat split. Qed.

Lemma normal_stack_snoc allow st x :
  normal_stack allow st -> plain x -> normal_stack allow (st ++ [x]).
Proof.
  intros (k & ps & -> & Hps & Hk) Hx. exists k, (ps ++ [x]).
  rewrite app_assoc. split; [done |]. split; [|done].
  apply Forall_app. split; [done | by constructor].
Qed.

Lemma repeat_snoc {A} (a : A) k : repeat a k ++ [a] = repeat a (S k).
Proof. induction k as [|k IH]; [done |]. cbn. by rewrite IH. Qed.

Lemma push_segment_normal allow st seg :
  normal_stack allow st -> Forall (fun c => c <> SLASH) seg ->
  normal_stack allow (Path.push_segment allow st seg).
Proof.
  intros Hst Hseg. unfold Path.push_segment.
  destruct (decide (seg = [])) as [->|Hne]; [done |].
  destruct (decide (seg = [DOT])) as [->|Hdot]; [done |].
  destruct (decide (seg = [DOT; DOT])) as [->|Hdd].
  2: { apply normal_stack_snoc; [done |]. by repeat split. }
  destruct Hst as (k & ps & -> & Hps & Hk).
  destruct ps as [|p ps _] using rev_ind.
  - rewrite app_nil_r. destruct k as [|k].
    + cbn. destruct allow; [|apply normal_stack_nil].
      exists 1%nat, []. by repeat split.
    + rewrite <- repeat_snoc, last_snoc. rewrite decide_True by done.
      destruct allow.
      * exists (S (S k)), []. rewrite app_nil_r. split; [|by split].
        by rewrite (repeat_snoc _ k), repeat_snoc.
      * by specialize (Hk eq_refl).
  - rewrite app_assoc, last_snoc.
    apply Forall_app in Hps as [Hps [Hp _]%Forall_cons].
    rewrite decide_False by apply Hp.
    rewrite removelast_last. by exists k, ps.
Qed.

Lemma fold_push_normal allow segs : forall st,
  normal_stack allow st ->
  Forall (fun seg => Forall (fun c => c <> SLASH) seg) segs ->
  normal_stack allow (fold_left (Path.push_segment allow) segs st).
Proof.
  induction segs as [|seg r IH]; intros st Hst Hall; [done |].
  apply Forall_cons in Hall as [Hseg Hr]. cbn [fold_left].
  apply IH; [by apply push_segment_normal | done].
Qed.

Lemma fold_push_plains allow ps : forall st,
  Forall plain ps -> fold_left (Path.push_segment allow) ps st = st ++ ps.
Proof.
  induction ps as [|p r IH]; intros st Hall; [by rewrite app_nil_r |].
  apply Forall_cons in Hall as [Hp Hr]. cbn [fold_left].
  rewrite push_segment_plain by done. rewrite IH by done. by rewrite <- app_assoc.
Qed.

Lemma fold_push_dotdots k : forall j,
  fold_left (Path.push_segment true) (repeat [DOT; DOT] k) (repeat [DOT; DOT] j)
  = repeat [DOT; DOT] (j + k).
Proof.
  induction k as [|k IH]; intros j; [by rewrite Nat.add_0_r |].
  cbn [repeat fold_left].
  assert (Hpush : Path.push_segment true (repeat [DOT; DOT] j) [DOT; DOT]
                  = repeat [DOT; DOT] (S j)).
  { unfold Path.push_segment. rewrite decide_False by done.
    rewrite decide_False by done. rewrite decide_True by done.
    destruct j as [|j]; [done |].
    rewrite <- (repeat_snoc _ j), last_snoc, decide_True by done.
    by rewrite !repeat_snoc. }
  rewrite Hpush, IH. f_equal. lia.
Qed.

Lemma fold_push_self allow st :
  normal_stack allow st -> fold_left (Path.push_segment allow) st [] = st.
Proof.
  intros (k & ps & -> & Hps & Hk). rewrite fold_left_app.
  destruct allow.
  - change (@nil jsstring) with (repeat [DOT; DOT] 0) at 1.
    rewrite (fold_push_dotdots k 0). cbn [Nat.add]. by apply fold_push_plains.
  - rewrite (Hk eq_refl). cbn. by apply fold_push_plains.
Qed.

Lemma normal_stack_head allow st :
  normal_stack allow st ->
  match st with
  | (c :: _) :: _ => c <> SLASH
  | [] :: _ => False
  | [] => True
  end.
Proof.
  intros (k & ps & -> & Hps & _). destruct k as [|k]; cbn.
  - destruct ps as [|p ps]; [done |]. apply Forall_cons in Hps as [(Hne & Hf & _) _].
    destruct p as [|c p]; [done |]. by apply Forall_cons in Hf as [Hc _].
  - discriminate.
Qed.

Lemma intercalate_head_not_slash allow st x :
  normal_stack allow st -> plain x ->
  Path.isAbsolute (intercalate [SLASH] (st ++ [x])) = false.
Proof.
  intros Hst Hx. pose proof (normal_stack_head allow st Hst) as Hh.
  destruct st as [|y r].
  - cbn. destruct Hx as (Hne & Hf & _). destruct x as [|c x]; [done |].
    apply Forall_cons in Hf as [Hc _]. cbn. by apply N.eqb_neq.
  - assert (Hshape : exists t, intercalate [SLASH] ((y :: r) ++ [x]) = y ++ SLASH :: t).
    { destruct r as [|z r]; cbn; eauto. }
    destruct Hshape as (t & ->). destruct y as [|c y]; [done |]. cbn.
    by apply N.eqb_neq.
Qed.

Lemma normal_path_nonempty W : normal_path W -> W <> [].
Proof.
  intros (abs & st & x & _ & Hx & ->). destruct abs; [done |]. cbn [app].
  apply intercalate_snoc_nonempty, Hx.
Qed.

Lemma split_slash_normal (absolute : bool) st x :
  normal_stack (negb absolute) st -> plain x ->
  Path.split_slash ((if absolute then [SLASH] else []) ++ intercalate [SLASH] (st ++ [x]))
  = (if absolute then [[]] else []) ++ st ++ [x].
Proof.
  intros Hst Hx.
  assert (H : Path.split_slash (intercalate [SLASH] (st ++ [x])) = st ++ [x]).
  { apply split_slash_intercalate; [by destruct st |].
    apply Forall_app. split; [by eapply normal_stack_slash_free |].
    constructor; [by apply plain_slash_free | done]. }
  destruct absolute; [|done]. cbn [app Path.split_slash].
  change (N.eqb SLASH SLASH) with true. cbv iota. by rewrite H.
Qed.

Lemma isAbsolute_normal (absolute : bool) st x t :
  normal_stack (negb absolute) st -> plain x ->
  Path.isAbsolute (((if absolute then [SLASH] else [])
                    ++ intercalate [SLASH] (st ++ [x])) ++ t) = absolute.
Proof.
  intros Hst Hx. destruct absolute; [done |]. cbn [app].
  pose proof (intercalate_head_not_slash _ st x Hst Hx) as H.
  pose proof (intercalate_snoc_nonempty [SLASH] st x (proj1 Hx)) as Hne.
  by destruct (intercalate [SLASH] (st ++ [x])).
Qed.

(** A plain component appended to a normalized path gives the path, a
    ['/'] and the component, and this is again such a path. *)
Lemma normal_path_join_child W y :
  normal_path W -> plain y ->
  Path.join [W; y] = W ++ SLASH :: y /\ normal_path (W ++ SLASH :: y).
Proof.
  intros HW Hy. pose proof (normal_path_nonempty W HW) as HWne.
  destruct HW as (abs & st & x & Hst & Hx & ->).
  set (W := (if abs then [SLASH] else []) ++ intercalate [SLASH] (st ++ [x])) in *.
  assert (Hjoin : Path.join [W; y] = W ++ SLASH :: y).
  { unfold Path.join.
    rewrite !filter_cons_True by (done || apply Hy). rewrite filter_nil.
    cbn [intercalate]. change (W ++ [SLASH] ++ y) with (W ++ SLASH :: y).
    rewrite (normalize_ends_plain (W ++ SLASH :: y)
               ((if abs then [[]] else []) ++ st ++ [x]) y); first last.
    - unfold Path.trailingSeparator. rewrite last_app_cons.
      change (last (SLASH :: y)) with (last ([SLASH] ++ y)).
      destruct Hy as (Hne & Hns & _). destruct y as [|c r]; [done |].
      rewrite last_app_cons. by apply last_plain_not_slash.
    - rewrite split_slash_snoc by apply Hy. subst W.
      by rewrite split_slash_normal.
    - done.
    - by destruct W.
    - subst W. rewrite (isAbsolute_normal abs st x (SLASH :: y)) by done.
      rewrite fold_left_app.
      assert (Hskip : fold_left (Path.push_segment (negb abs))
                        (if abs then [[]] else []) [] = []) by (by destruct abs).
      rewrite Hskip, fold_left_app, fold_push_self by done. cbn [fold_left].
      rewrite push_segment_plain by done.
      rewrite (intercalate_snoc _ (st ++ [x])).
      destruct (st ++ [x]) eqn:E; [by destruct st |].
      by rewrite <- !app_assoc. }
  split; [done |].
  exists abs, (st ++ [x]), y. split; [by apply normal_stack_snoc |]. split; [done |].
  subst W. rewrite (intercalate_snoc _ (st ++ [x])).
  destruct (st ++ [x]) eqn:E; [by destruct st |].
  by rewrite <- !app_assoc.
Qed.

(** Whatever the directory, a plain component joined to it gives a
    normalized path. *)
Lemma join_plain_normal d x : plain x -> normal_path (Path.join [d; x]).
Proof.
  intros Hx. unfold Path.join. destruct d as [|c d].
  - rewrite filter_cons_False by (intros H; by apply H).
    rewrite filter_cons_True by apply Hx. rewrite filter_nil. cbn [intercalate].
    exists false, [], x. split; [apply normal_stack_nil |]. split; [done |].
    rewrite (normalize_ends_plain x [] x); first last.
    + by apply last_plain_not_slash; [apply Hx | apply plain_slash_free].
    + by apply split_slash_plain, plain_slash_free.
    + done.
    + apply Hx.
    + destruct Hx as (Hne & Hf & _). destruct x as [|a x]; [done |].
      apply Forall_cons in Hf as [Ha _]. cbn [Path.isAbsolute].
      apply N.eqb_neq in Ha. by rewrite Ha.
  - rewrite !filter_cons_True by (done || apply Hx). rewrite filter_nil.
    cbn [intercalate]. change ((c :: d) ++ [SLASH] ++ x) with ((c :: d) ++ SLASH :: x).
    rewrite (normalize_ends_plain ((c :: d) ++ SLASH :: x) (Path.split_slash (c :: d)) x);
      first last.
    + unfold Path.trailingSeparator. rewrite last_app_cons.
      change (last (SLASH :: x)) with (last ([SLASH] ++ x)).
      destruct Hx as (Hne & Hns & _). destruct x as [|a r]; [done |].
      rewrite last_app_cons. by apply last_plain_not_slash.
    + by apply split_slash_snoc, plain_slash_free.
    + done.
    + done.
    + exists (Path.isAbsolute ((c :: d) ++ SLASH :: x)),
        (fold_left
           (Path.push_segment (negb (Path.isAbsolute ((c :: d) ++ SLASH :: x))))
           (Path.split_slash (c :: d)) []), x.
      split; [|split; [done | reflexivity]].
      apply fold_push_normal; [apply normal_stack_nil | apply split_slash_slash_free].
Qed.

Lemma join_users_normal root id :
  plain id -> normal_path (Path.join [root; js "users"; id]).
Proof.
  intros Hid. rewrite join_users_child by done.
  apply normal_path_join_child; [|done]. apply join_plain_normal, plain_users.
Qed.

Lemma plain_literal x :
  x <> [] -> forallb (fun c => negb (N.eqb c SLASH)) x = true ->
  x <> [DOT] -> x <> [DOT; DOT] -> plain x.
Proof.
  intros H1 H2 H3 H4. split; [done |]. split; [|done].
  apply Forall_forall. intros c Hc%list_elem_of_In.
  rewrite forallb_forall in H2. specialize (H2 c Hc).
  intros ->. done.
Qed.

End PathShapes.

(** ** The directories of a tenant *)

Section TenantDirectories.
Import Path PathShape TenantDirs.

Lemma plain_agent : plain (js "agent").
Proof. apply plain_literal; done. Qed.

Lemma plain_sessions : plain (js "sessions").
Proof. apply plain_literal; done. Qed.

Lemma plain_memory : plain (js "memory").
Proof. apply plain_literal; done. Qed.

Lemma plain_custom : plain (js "custom").
Proof. apply plain_literal; done. Qed.

Lemma plain_config_json : plain (js "config.json").
Proof. apply plain_literal; done. Qed.

Lemma sanitized_key_plain raw key : sanitizeUserId raw = Return key -> plain key.
Proof.
  intros (-> & Hne & _)%sanitizeUserId_Return.
  apply id_chars_plain; [done | apply sanitized_id_chars].
Qed.

Lemma join_nil_head parts : Path.join ([] :: parts) = Path.join parts.
Proof. unfold Path.join. by rewrite filter_cons_False by (intros H; by apply H). Qed.

Lemma join_nonempty parts :
  parts <> [] -> Forall (fun s => s <> []) parts ->
  Path.join parts = Path.normalize (intercalate [SLASH] parts).
Proof.
  intros Hne Hall. unfold Path.join.
  assert (Hf : filter (fun s : jsstring => s <> []) parts = parts).
  { induction Hall as [|x r Hx _ IH]; [done |].
    rewrite filter_cons_True by done. destruct r as [|y r]; [done |].
    by rewrite IH. }
  rewrite Hf. by destruct parts.
Qed.

Lemma last_child_not_slash q key :
  plain key -> Path.trailingSeparator (q ++ SLASH :: key) = false.
Proof.
  intros (Hne & Hf & _). unfold Path.trailingSeparator. rewrite last_app_cons.
  change (last (SLASH :: key)) with (last ([SLASH] ++ key)).
  destruct key as [|a k]; [done |]. rewrite last_app_cons.
  by apply last_plain_not_slash.
Qed.

Lemma join_config_path root key :
  plain key ->
  Path.join [root; js "users"; key; js "config.json"]
  = Path.join [root; js "users"; key] ++ js "/config.json".
Proof.
  intros Hk. pose proof plain_config_json as Hc. pose proof plain_users as Hu.
  assert (Hkne : key <> []) by apply Hk.
  destruct root as [|c r].
  - rewrite !join_nil_head.
    rewrite !join_nonempty by (done || (repeat constructor; done)).
    cbn [intercalate].
    change (js "users" ++ [SLASH] ++ key ++ [SLASH] ++ js "config.json")
      with (js "users" ++ SLASH :: (key ++ SLASH :: js "config.json")).
    change (js "users" ++ [SLASH] ++ key) with (js "users" ++ SLASH :: key).
    replace (js "users" ++ SLASH :: key ++ SLASH :: js "config.json")
      with ((js "users" ++ SLASH :: key) ++ SLASH :: js "config.json")
      by (by rewrite <- app_assoc).
    apply (normalize_child _ [js "users"] key); try done.
    + by apply (split_slash_snoc (js "users")), plain_slash_free.
    + by apply last_child_not_slash.
  - rewrite !join_nonempty by (done || (repeat constructor; done)).
    cbn [intercalate].
    change ((c :: r) ++ [SLASH] ++ js "users" ++ [SLASH] ++ key ++ [SLASH]
              ++ js "config.json")
      with ((c :: r) ++ SLASH :: (js "users" ++ SLASH :: (key ++ SLASH
              :: js "config.json"))).
    change ((c :: r) ++ [SLASH] ++ js "users" ++ [SLASH] ++ key)
      with ((c :: r) ++ SLASH :: (js "users" ++ SLASH :: key)).
    replace ((c :: r) ++ SLASH :: js "users" ++ SLASH :: key ++ SLASH
               :: js "config.json")
      with (((c :: r) ++ SLASH :: js "users" ++ SLASH :: key) ++ SLASH
              :: js "config.json").
    2: { rewrite <- app_assoc. cbn [app]. by rewrite <- app_assoc. }
    apply (normalize_child _ (Path.split_slash (c :: r) ++ [js "users"]) key); try done.
    + replace ((c :: r) ++ SLASH :: js "users" ++ SLASH :: key)
        with (((c :: r) ++ SLASH :: js "users") ++ SLASH :: key)
        by (by rewrite <- app_assoc).
      rewrite split_slash_snoc by (by apply plain_slash_free).
      by rewrite split_slash_snoc by (by apply plain_slash_free).
    + replace ((c :: r) ++ SLASH :: js "users" ++ SLASH :: key)
        with (((c :: r) ++ SLASH :: js "users") ++ SLASH :: key)
        by (by rewrite <- app_assoc).
      by apply last_child_not_slash.
Qed.

Lemma workspace_children W :
  normal_path W ->
  Path.join [W; js "agent"] = W ++ js "/agent"
  /\ Path.join [W; js "sessions"] = W ++ js "/sessions"
  /\ Path.join [W; js "memory"] = W ++ js "/memory"
  /\ Path.join [W; js "custom"] = W ++ js "/custom".
Proof.
  intros Hn.
  rewrite (proj1 (normal_path_join_child _ _ Hn plain_agent)).
  rewrite (proj1 (normal_path_join_child _ _ Hn plain_sessions)).
  rewrite (proj1 (normal_path_join_child _ _ Hn plain_memory)).
  by rewrite (proj1 (normal_path_join_child _ _ Hn plain_custom)).
Qed.

(** X20.  Where the files of a tenant are.  For an id that
    [sanitizeUserId] accepts as [key], the workspace is
    [{workspaceRoot}/users/key], the agent, sessions and memory directories
    are its children [agent], [sessions] and [memory], and the config file
    is [{configRoot}/users/key/config.json]; the custom, memory and sessions
    directories of a resolver bound to that workspace are its children
    [custom], [memory] and [sessions], so the memory and sessions paths of
    the resolver are those of the path layer. *)
Theorem tenant_directories (workspaceRoot configRoot raw key : jsstring) :
  sanitizeUserId raw = Return key ->
  let users := Path.join [workspaceRoot; js "users"] in
  let W := users ++ SLASH :: key in
  getUserWorkspacePath workspaceRoot raw = Return W
  /\ getUserAgentDir workspaceRoot raw = Return (W ++ js "/agent")
  /\ getUserSessionsPath workspaceRoot raw = Return (W ++ js "/sessions")
  /\ getUserMemoryPath workspaceRoot raw = Return (W ++ js "/memory")
  /\ getUserConfigPath configRoot raw
     = Return (Path.join [configRoot; js "users"] ++ SLASH :: key ++ js "/config.json")
  /\ Resolver.customDir W = W ++ js "/custom"
  /\ sessionsDir W = W ++ js "/sessions"
  /\ memoryDir W = W ++ js "/memory".
Proof.
  intros Hs. cbv zeta. pose proof (sanitized_key_plain raw key Hs) as Hk.
  pose proof (join_users_normal workspaceRoot key Hk) as Hn.
  pose proof (join_users_child workspaceRoot key Hk) as Hw. rewrite Hw in Hn.
  unfold getUserAgentDir, getUserSessionsPath, getUserMemoryPath,
    getUserWorkspacePath, getUserConfigPath, Resolver.customDir, sessionsDir, memoryDir.
  rewrite Hs. cbn [bindC]. rewrite Hw.
  destruct (workspace_children _ Hn) as (-> & -> & -> & ->).
  rewrite (join_config_path configRoot key Hk), (join_users_child configRoot key Hk).
  rewrite <- !app_assoc. done.
Qed.

Lemma take_until_slash_free r : Forall (fun c => c <> SLASH) (Path.take_until_slash r).
Proof.
  induction r as [|c r IH]; [constructor |]. cbn.
  destruct (N.eqb c SLASH) eqn:E; [constructor |].
  apply N.eqb_neq in E. by constructor.
Qed.

Lemma basename_slash_free f : Forall (fun c => c <> SLASH) (Path.basename f).
Proof.
  unfold Path.basename. apply List.Forall_rev, take_until_slash_free.
Qed.

Lemma basename_plain_or f :
  plain (Path.basename f)
  \/ Path.basename f = [] \/ Path.basename f = [DOT] \/ Path.basename f = [DOT; DOT].
Proof.
  destruct (decide (Path.basename f = [])) as [?|H1]; [by auto |].
  destruct (decide (Path.basename f = [DOT])) as [?|H2]; [by auto |].
  destruct (decide (Path.basename f = [DOT; DOT])) as [?|H3]; [by auto |].
  left. split; [done |]. split; [apply basename_slash_free | done].
Qed.

Lemma basename_of_plain x : plain x -> Path.basename x = x.
Proof.
  intros (Hne & Hf & _). unfold Path.basename.
  assert (Hr : Forall (fun c => c <> SLASH) (rev x)) by (by apply List.Forall_rev).
  assert (H1 : Path.strip_trailing_slashes (rev x) = rev x).
  { destruct (rev x) as [|c r]; [done |]. apply Forall_cons in Hr as [Hc _].
    cbn. apply N.eqb_neq in Hc. by rewrite Hc. }
  rewrite H1.
  assert (H2 : forall l, Forall (fun c => c <> SLASH) l -> Path.take_until_slash l = l).
  { induction 1 as [|c r Hc _ IH]; [done |]. cbn.
    apply N.eqb_neq in Hc. by rewrite Hc, IH. }
  by rewrite H2, rev_involutive.
Qed.

(** X21.  The resolver stays in its directories.  [path.basename] leaves a
    name without ['/'], and for every workspace path and every file name
    whose base name is none of the empty name, ["."] and [".."], the file
    read first by [readWorkspaceFile] and written by [writeWorkspaceFile]
    is the direct child of the custom directory with that base name; a
    name that is already such a base name is taken as it is. *)
Theorem resolver_custom_path (workspacePath filename : jsstring) :
  let safeName := Path.basename filename in
  Forall (fun c => c <> SLASH) safeName
  /\ (safeName <> [] -> safeName <> [DOT] -> safeName <> [DOT; DOT] ->
      Resolver.customPathOf workspacePath filename
      = Resolver.customDir workspacePath ++ SLASH :: safeName
      /\ Path.basename safeName = safeName
      /\ Resolver.customPathOf workspacePath safeName
         = Resolver.customPathOf workspacePath filename).
Proof.
  cbv zeta. split; [apply basename_slash_free |]. intros H1 H2 H3.
  assert (Hp : plain (Path.basename filename)).
  { split; [done |]. split; [apply basename_slash_free | done]. }
  unfold Resolver.customPathOf, Resolver.customDir.
  rewrite (basename_of_plain _ Hp).
  split; [|done].
  apply normal_path_join_child; [|done]. apply join_plain_normal, plain_custom.
Qed.

End TenantDirectories.

(** X20 on the default roots. *)
Lemma tenant_directories_witness :
  TenantDirs.getUserAgentDir (js "/data/openclaw/workspaces") (js "../u-1")
  = Return (js "/data/openclaw/workspaces/users/u-1/agent").
Proof.
  destruct (tenant_directories (js "/data/openclaw/workspaces")
              (js "/data/openclaw/configs") (js "../u-1") (js "u-1") eq_refl)
    as (_ & H & _).
  rewrite H. vm_compute. reflexivity.
Defined.

(** ** What holds of every cached instance *)

Section InstanceInvariant.
Import Manager Inv.
Variable P : jsstring -> UserInstance -> Prop.
Hypothesis P_touch : forall u i pending now, P u i -> P u (touch i pending now).
Hypothesis P_patch : forall u i c, P u i -> P u (patch i c).
Hypothesis P_init : forall G m u cfg cc ok now i m',
  sanitizeUserId u = Return u ->
  initializeUserInstance G m u cfg cc ok now = (Return i, m') -> P u i.

Lemma all_set k v (l : JsMap.t UserInstance) :
  (forall u i, JsMap.get u l = Some i -> P u i) -> P k v ->
  forall u i, JsMap.get u (JsMap.set k v l) = Some i -> P u i.
Proof.
  intros H Hv u i. destruct (decide (k = u)) as [->|Hne].
  - rewrite get_set_eq. by intros [= <-].
  - rewrite get_set_ne by done. apply H.
Qed.

Lemma all_delete k (l : JsMap.t UserInstance) :
  (forall u i, JsMap.get u l = Some i -> P u i) ->
  forall u i, JsMap.get u (JsMap.delete k l) = Some i -> P u i.
Proof.
  intros H u i. destruct (decide (k = u)) as [->|Hne].
  - by rewrite get_delete_eq.
  - rewrite get_delete_ne by done. apply H.
Qed.

Local Abbreviation all_instances := (Tables.all_instances P).

Lemma initializeUserInstance_all G m u cfg cc ok now :
  sanitizeUserId u = Return u ->
  all_instances m -> all_instances (snd (initializeUserInstance G m u cfg cc ok now)).
Proof.
  intros Hs H.
  pose proof (P_init G m u cfg cc ok now) as Hi.
  unfold initializeUserInstance in *.
  destruct (ensureUserDirectories G u ok) as [paths|e]; [|done].
  unfold Tables.all_instances. cbn. apply all_set; [done |]. by eapply Hi.
Qed.

Lemma authenticateToken_all G m token reply ok now nowIso :
  all_instances m -> all_instances (snd (authenticateToken G m token reply ok now nowIso)).
Proof.
  intros H. unfold authenticateToken.
  destruct (cachedInstance m token) as [[u i]|]; [by destruct (status i) |].
  destruct (truthy (cloudBackendUrl (options m))); cbn; [|done].
  unfold verifyRemote.
  destruct reply as [| |httpStatus body]; cbn; try done.
  destruct (response_ok httpStatus); cbn; [|by destruct (httpStatus =? 401)].
  destruct body as [|[result|]]; cbn; try done.
  destruct (truthy (user_id result)); cbn; [|done].
  destruct (sanitizeUserId (user_id result)) as [userId|e] eqn:Es; cbn; [|done].
  apply sanitizeUserId_idempotent in Es.
  destruct (JsMap.has userId (userInstances m)); cbn; [done |].
  match goal with
  | |- context [initializeUserInstance ?G ?m0 ?u ?c ?cc ?ok ?now] =>
      pose proof (initializeUserInstance_all G m0 u c cc ok now Es H) as Hi;
      destruct (initializeUserInstance G m0 u c cc ok now) as [[inst|e] m']
  end; exact Hi.
Qed.

Lemma idlePass_all m now : all_instances m -> all_instances (idlePass m now).
Proof.
  unfold idlePass. generalize (userInstances m) as entries. intros entries.
  revert m. induction entries as [|[u i] r IH]; intros m H; [done |].
  cbn [fold_left]. apply IH. rewrite idleStep_eq.
  destruct (Scan.idleEvictable _ _ _); [|done].
  unfold Tables.all_instances. cbn. by apply all_delete.
Qed.

Lemma lruLoop_all fuel m : all_instances m -> all_instances (lruLoop fuel m).
Proof.
  revert m. induction fuel as [|fuel IH]; intros m H; [done |]. cbn [lruLoop].
  destruct (maxCachedUsers (options m) <? JsMap.size (userInstances m)); [|done].
  destruct (findOldest (userInstances m)) as [u|]; [|done].
  destruct (truthy u); [|done]. apply IH.
  unfold Tables.all_instances. cbn. by apply all_delete.
Qed.

Lemma updateUserConfigs_all m configs nowIso :
  all_instances m -> all_instances (snd (updateUserConfigs m configs nowIso)).
Proof.
  intros H. unfold updateUserConfigs.
  assert (Hf : forall updated m0, all_instances m0 ->
                 all_instances (snd (fold_left updateOne configs (updated, m0)))).
  { induction configs as [|[c ok] r IH]; intros updated m0 H0; [done |].
    cbn [fold_left].
    assert (H1 : all_instances (snd (updateOne (updated, m0) (c, ok)))).
    { unfold updateOne.
      destruct (sanitizeUserId (cloud_userId c)) as [k|e]; [|done].
      destruct ok; cbn; [|done].
      destruct (JsMap.get k (userInstances m0)) as [i|] eqn:Eg; cbn; [|done].
      unfold Tables.all_instances. cbn. apply all_set; [done |]. apply P_patch. by apply H0. }
    destruct (updateOne (updated, m0) (c, ok)) as [updated' m1]. by apply IH. }
  specialize (Hf 0 m H).
  destruct (fold_left updateOne configs (0, m)) as [updated m']. exact Hf.
Qed.

Lemma step_all m op : all_instances m -> all_instances (step m op).
Proof.
  intros H.
  destruct op as [t|G t rp ok now iso|G u now disk ok|cs iso|err|raw now|raw now|now|u];
    cbn [step].
  - unfold authenticateTokenSync.
    destruct (tokenToUserId m !! t) as [k|]; [|done].
    destruct (truthy k); [|done]. cbn.
    destruct (JsMap.get k (userInstances m)) as [i|]; [|done]. by destruct (status i).
  - by apply authenticateToken_all.
  - unfold getUserInstance.
    destruct (sanitizeUserId u) as [k|e] eqn:Es; [|done].
    apply sanitizeUserId_idempotent in Es.
    destruct (JsMap.get k (userInstances m)) as [i|] eqn:Eg; cbn.
    + unfold all_instances. cbn. apply all_set; [done |]. apply P_touch. by apply H.
    + destruct disk as [[cfg|]|e]; cbn; try done.
      match goal with
      | |- context [initializeUserInstance ?G ?m0 ?u ?c ?cc ?ok ?now] =>
          pose proof (initializeUserInstance_all G m0 u c cc ok now Es H) as Hi;
          destruct (initializeUserInstance G m0 u c cc ok now) as [[inst|e] m']
      end; exact Hi.
  - by apply updateUserConfigs_all.
  - done.
  - unfold incrementPendingRequests.
    destruct (sanitizeUserId raw) as [k|e]; [|done].
    destruct (JsMap.get k (userInstances m)) as [i|] eqn:Eg; cbn; [|done].
    unfold Tables.all_instances. cbn. apply all_set; [done |]. apply P_touch. by apply H.
  - unfold decrementPendingRequests.
    destruct (sanitizeUserId raw) as [k|e]; [|done].
    destruct (JsMap.get k (userInstances m)) as [i|] eqn:Eg; cbn; [|done].
    destruct (0 <? pendingRequests i); cbn; [|done].
    unfold Tables.all_instances. cbn. apply all_set; [done |]. apply P_touch. by apply H.
  - by apply lruLoop_all, idlePass_all.
  - unfold forceEvictUser. destruct (sanitizeUserId u) as [k|e]; [|done].
    destruct (JsMap.has k (userInstances m)); cbn [negb snd]; [|done].
    unfold Tables.all_instances. cbn. by apply all_delete.
Qed.

Lemma reachable_all opts m : reachable opts m -> all_instances m.
Proof.
  intros [ops ->].
  assert (H : forall m0, all_instances m0 -> all_instances (run m0 ops)).
  { induction ops as [|op r IH]; intros m0 H0; [done |].
    cbn [run fold_left]. by apply IH, step_all. }
  apply H. by intros u i.
Qed.

End InstanceInvariant.

(** ** The paths handed to an agent *)

Section AgentPathsProperties.
Import Manager Inv Tables AgentContext TenantDirs.

Lemma reachable_housed opts m : reachable opts m -> all_instances housed m.
Proof.
  apply reachable_all.
  - by intros u i pending now.
  - by intros u i c.
  - intros G m0 u cfg cc ok now i m' Hs. unfold initializeUserInstance.
    destruct (ensureUserDirectories G u ok) as [paths|e] eqn:E; [|done].
    intros [= <- _]. split; [done |]. exists G. cbn.
    unfold ensureUserDirectories in *. destruct ok; [|].
    + rewrite E. by destruct paths.
    + unfold getUserWorkspacePath, getUserConfigPath in E. rewrite Hs in E. done.
Qed.

Lemma reachable_step opts m op : reachable opts m -> reachable opts (step m op).
Proof.
  intros [ops ->]. exists (ops ++ [op]). unfold run. by rewrite fold_left_app.
Qed.

(** X22.  The paths handed to an agent are the tenant's directories.  When
    [resolveMultiTenantContext] gives a context on a reachable manager,
    there is a workspace root under which [extractAgentPaths] returns the
    workspace [{root}/users/key] of the sanitized id and its children
    [agent], [sessions] and [memory]: the very paths that
    [getUserAgentDir], [getUserSessionsPath] and [getUserMemoryPath] give
    for that user, although the context builds one of them by string
    concatenation and takes two from the resolver. *)
Theorem agent_paths_of_context (opts : Options) (G : Globals) (m : Manager.t)
    (raw : jsstring) (now : Z) (disk : completion (option OpenClawConfig))
    (mkdirOk : bool) :
  reachable opts m ->
  match fst (resolveMultiTenantContext G m raw now disk mkdirOk) with
  | Return (Some context) =>
      exists root key,
        sanitizeUserId raw = Return key
        /\ let W := Path.join [root; js "users"] ++ SLASH :: key in
           extractAgentPaths context
           = mkAgentPaths W (W ++ js "/agent") (W ++ js "/sessions") (W ++ js "/memory")
           /\ getUserWorkspacePath root raw = Return (workspaceDir (extractAgentPaths context))
           /\ getUserAgentDir root raw = Return (agentDir (extractAgentPaths context))
           /\ getUserSessionsPath root raw
              = Return (sessionsPath (extractAgentPaths context))
           /\ getUserMemoryPath root raw = Return (memoryPath (extractAgentPaths context))
  | _ => True
  end.
Proof.
  intros Hr.
  pose proof (reachable_step opts m (OpGetUserInstance G raw now disk mkdirOk) Hr) as Hr1.
  cbn [step] in Hr1.
  pose proof (reachable_housed opts _ Hr1) as Hh.
  pose proof (reachable_coherent opts _ Hr1) as Hc.
  unfold resolveMultiTenantContext.
  destruct (getUserInstance G m raw now disk mkdirOk) as [[[i|]|e] m1] eqn:Eg;
    cbn [fst snd] in *; try done.
  apply getUserInstance_returns in Eg as (key & Hs & Hg).
  unfold getWorkspaceResolver. rewrite Hs. cbn [bindC].
  destruct (Hc key) as [_ H2]. rewrite Hg in H2.
  destruct (workspaceResolvers m1 !! key) as [r|]; [|done].
  destruct H2 as (_ & Hw & _). cbn [fst].
  destruct (Hh key i Hg) as (_ & G' & HG).
  exists (globalWorkspaceRoot G'), key. split; [done |]. cbv zeta.
  pose proof (sanitizeUserId_idempotent raw key Hs) as Hk.
  pose proof (sanitized_key_plain raw key Hs) as Hp.
  unfold ensureUserDirectories, getUserWorkspacePath, getUserConfigPath in HG.
  rewrite Hk in HG. cbn in HG. injection HG as HW _.
  rewrite join_users_child in HW by done.
  pose proof (join_users_normal (globalWorkspaceRoot G') key Hp) as Hn.
  rewrite join_users_child in Hn by done.
  destruct (workspace_children _ Hn) as (Ha & Hse & Hme & _).
  unfold extractAgentPaths, sessionsDir, memoryDir.
  cbn [workspaceDir agentDir sessionsPath memoryPath ctx_workspacePath ctx_agentDir
       ctx_workspaceResolver].
  rewrite Hw, <- HW, Hse, Hme.
  split; [done |].
  unfold getUserAgentDir, getUserSessionsPath, getUserMemoryPath, getUserWorkspacePath.
  rewrite Hs. cbn [bindC]. rewrite join_users_child by done.
  by rewrite Ha, Hse, Hme.
Qed.

End AgentPathsProperties.

(** X22 on the manager with one cached user. *)
Lemma agent_paths_of_context_witness :
  Manager.reachable Scenario.opts0 Scenario.one_user
  /\ exists root key,
       sanitizeUserId (js "u-1") = Return key
       /\ TenantDirs.getUserSessionsPath root (js "u-1")
          = Return (js "/data/openclaw/workspaces/users/u-1/sessions").
Proof.
  assert (Hr : Manager.reachable Scenario.opts0 Scenario.one_user) by (by eexists).
  split; [exact Hr |].
  pose proof (agent_paths_of_context Scenario.opts0 Scenario.G0 Scenario.one_user
                (js "u-1") 2000 (Return None) true Hr) as H.
  vm_compute in H. destruct H as (root & key & Hs & _ & _ & _ & Hse & _).
  exists root, key. split; [exact Hs |]. exact Hse.
Defined.

(** ** The resolver on a disk that changes *)

Section ResolverFilesProperties.
Import Path PathShape Resolver ResolverFiles.
Variable names : BootstrapNames.
Variables workspacePath templatePath : jsstring.

Local Abbreviation read := (readWorkspaceFile names workspacePath templatePath).
Local Abbreviation customOf := (customPathOf workspacePath).
Local Abbreviation templateOf := (templateFilePathOf templatePath).

Lemma read_ext fs1 fs2 f g :
  Path.basename f = Path.basename g ->
  fs1 !! diskName (customOf f) = fs2 !! diskName (customOf g) ->
  fs1 !! diskName (templateOf f) = fs2 !! diskName (templateOf g) ->
  read fs1 f = read fs2 g.
Proof.
  unfold readWorkspaceFile, customPathOf, templateFilePathOf, tryReadFile.
  by intros -> -> ->.
Qed.

Lemma mkdirs_lookup created fs p :
  ~ In p created -> mkdirs created fs !! p = fs !! p.
Proof.
  induction created as [|d r IH]; [done |]. cbn. intros H.
  rewrite lookup_insert_ne by (intros ->; apply H; by left).
  apply IH. intros Hin. apply H. by right.
Qed.

Lemma basename_app_plain p x :
  plain x -> p = [] \/ last p = Some SLASH -> Path.basename (p ++ x) = x.
Proof.
  intros Hx Hp. pose proof (basename_of_plain x Hx) as Hb.
  unfold Path.basename in *. rewrite rev_app_distr.
  destruct Hx as (Hne & Hf & _).
  assert (Hr : Forall (fun c => c <> SLASH) (rev x)) by (by apply List.Forall_rev).
  assert (Hrne : rev x <> []).
  { intros H. apply (f_equal (@rev N)) in H. by rewrite rev_involutive in H. }
  assert (H1 : forall t, Path.strip_trailing_slashes (rev x ++ t) = rev x ++ t).
  { intros t. destruct (rev x) as [|c r]; [done |]. apply Forall_cons in Hr as [Hc _].
    cbn. apply N.eqb_neq in Hc. by rewrite Hc. }
  rewrite H1.
  assert (H2 : forall l t, Forall (fun c => c <> SLASH) l ->
                 t = [] \/ (exists t', t = SLASH :: t') ->
                 Path.take_until_slash (l ++ t) = l).
  { intros l t Hl Ht. induction Hl as [|c r Hc _ IH]; cbn.
    - destruct Ht as [->|[t' ->]]; [done |]. cbn.
      by change (N.eqb SLASH SLASH) with true.
    - apply N.eqb_neq in Hc. by rewrite Hc, IH. }
  rewrite H2, rev_involutive; [done | done |].
  destruct Hp as [->|Hl]; [by left | right].
  destruct p as [|a p _] using rev_ind; [done |].
  rewrite last_snoc in Hl. injection Hl as ->.
  rewrite rev_app_distr. cbn. eauto.
Qed.

Lemma normal_path_basename W :
  normal_path W -> plain (Path.basename W).
Proof.
  intros (abs & st & x & Hst & Hx & ->). rewrite intercalate_snoc.
  destruct st as [|y r].
  - rewrite basename_app_plain; [done | done |]. destruct abs; [by right | by left].
  - rewrite !app_assoc. rewrite basename_app_plain; [done | done |].
    right. by rewrite last_snoc.
Qed.

Lemma basename_join d x : plain x -> Path.basename (Path.join [d; x]) = x.
Proof.
  intros Hx. pose proof (join_plain_normal d x Hx) as (abs & st & x' & Hst & Hx' & HW).
  assert (Hsame : x' = x).
  { revert HW. unfold Path.join. destruct d as [|c d].
    - rewrite filter_cons_False by (intros H; by apply H).
      rewrite filter_cons_True by apply Hx. rewrite filter_nil. cbn [intercalate].
      rewrite (normalize_ends_plain x [] x); first last.
      + by apply last_plain_not_slash; [apply Hx | apply plain_slash_free].
      + by apply split_slash_plain, plain_slash_free.
      + done.
      + apply Hx.
      + intros H. apply (f_equal Path.basename) in H. cbn [fold_left app] in H.
        rewrite basename_app_plain in H by (done || (destruct (Path.isAbsolute x); auto)).
        rewrite intercalate_snoc in H. destruct st as [|y r].
        * rewrite basename_app_plain in H by (done || (destruct abs; auto)). done.
        * rewrite !app_assoc in H.
          rewrite basename_app_plain in H; [done | done |]. right. by rewrite last_snoc.
    - rewrite !filter_cons_True by (done || apply Hx). rewrite filter_nil.
      cbn [intercalate]. change ((c :: d) ++ [SLASH] ++ x) with ((c :: d) ++ SLASH :: x).
      rewrite (normalize_ends_plain ((c :: d) ++ SLASH :: x) (Path.split_slash (c :: d)) x);
        first last.
      + by apply last_child_not_slash.
      + by apply split_slash_snoc, plain_slash_free.
      + done.
      + done.
      + intros H. apply (f_equal Path.basename) in H.
        rewrite (intercalate_snoc _ (fold_left _ _ _)) in H.
        rewrite (intercalate_snoc _ st) in H.
        assert (Hl : Path.basename
                       ((if Path.isAbsolute ((c :: d) ++ SLASH :: x) then [SLASH] else [])
                        ++ match fold_left
                                   (Path.push_segment
                                      (negb (Path.isAbsolute ((c :: d) ++ SLASH :: x))))
                                   (Path.split_slash (c :: d)) [] with
                           | [] => x
                           | _ :: _ =>
                               intercalate [SLASH]
                                 (fold_left
                                    (Path.push_segment
                                       (negb (Path.isAbsolute ((c :: d) ++ SLASH :: x))))
                                    (Path.split_slash (c :: d)) []) ++ [SLASH] ++ x
                           end) = x).
        { destruct (fold_left _ _ _) as [|y r].
          - apply basename_app_plain; [done |].
            destruct (Path.isAbsolute _); [by right | by left].
          - rewrite !app_assoc. apply basename_app_plain; [done |].
            right. by rewrite last_snoc. }
        rewrite Hl in H.
        destruct st as [|y r].
        * rewrite basename_app_plain in H by (done || (destruct abs; auto)). done.
        * rewrite !app_assoc in H.
          rewrite basename_app_plain in H; [done | done |]. right. by rewrite last_snoc. }
  subst x'. rewrite HW, intercalate_snoc. destruct st as [|y r].
  - apply basename_app_plain; [done |]. destruct abs; [by right | by left].
  - rewrite !app_assoc. apply basename_app_plain; [done |]. right. by rewrite last_snoc.
Qed.

Lemma join_plain_split d x :
  plain x ->
  exists P, Path.join [d; x] = P ++ x /\ (P = [] \/ last P = Some SLASH).
Proof.
  intros Hx. pose proof (basename_join d x Hx) as Hb.
  destruct (join_plain_normal d x Hx) as (abs & st & x' & Hst & Hx' & HW).
  rewrite HW in Hb. rewrite HW. clear HW.
  rewrite intercalate_snoc in Hb. rewrite intercalate_snoc.
  destruct st as [|y r].
  - rewrite basename_app_plain in Hb; [| done | destruct abs; [by right | by left]].
    subst x'. exists (if abs then [SLASH] else []). split; [done |].
    destruct abs; [by right | by left].
  - rewrite !app_assoc in Hb. rewrite !app_assoc.
    rewrite basename_app_plain in Hb; [| done | right; by rewrite last_snoc].
    subst x'. eexists. split; [reflexivity |]. right. by rewrite last_snoc.
Qed.

(** *** Strings through UTF-8 *)

Lemma toWellFormed_cons_other c s :
  isHighSurrogate c = false -> isLowSurrogate c = false ->
  toWellFormed (c :: s) = c :: toWellFormed s.
Proof. cbn [toWellFormed]. by intros -> ->. Qed.

Lemma toWellFormed_cons_REPLACEMENT s :
  toWellFormed (REPLACEMENT :: s) = REPLACEMENT :: toWellFormed s.
Proof. by apply toWellFormed_cons_other. Qed.

Lemma toWellFormed_cons_SLASH s :
  toWellFormed (SLASH :: s) = SLASH :: toWellFormed s.
Proof. by apply toWellFormed_cons_other. Qed.

Lemma toWellFormed_pair c d s :
  isHighSurrogate c = true -> isLowSurrogate d = true ->
  toWellFormed (c :: d :: s) = c :: d :: toWellFormed s.
Proof. cbn [toWellFormed]. by intros -> ->. Qed.

Lemma toWellFormed_high_last c :
  isHighSurrogate c = true -> toWellFormed [c] = [REPLACEMENT].
Proof. cbn [toWellFormed]. by intros ->. Qed.

Lemma toWellFormed_high_lone c d s :
  isHighSurrogate c = true -> isLowSurrogate d = false ->
  toWellFormed (c :: d :: s) = REPLACEMENT :: toWellFormed (d :: s).
Proof.
  intros Hh Hl.
  change (toWellFormed (c :: d :: s))
    with (if isHighSurrogate c
          then if isLowSurrogate d then c :: d :: toWellFormed s
               else REPLACEMENT :: toWellFormed (d :: s)
          else if isLowSurrogate c then REPLACEMENT :: toWellFormed (d :: s)
               else c :: toWellFormed (d :: s)).
  by rewrite Hh, Hl.
Qed.

Lemma toWellFormed_low_lone c s :
  isHighSurrogate c = false -> isLowSurrogate c = true ->
  toWellFormed (c :: s) = REPLACEMENT :: toWellFormed s.
Proof. cbn [toWellFormed]. by intros -> ->. Qed.

(** The recursion of [toWellFormed] consumes one code unit or a surrogate
    pair; properties of strings proved along it follow these cases. *)
Lemma toWellFormed_ind (P : jsstring -> Prop) :
  P [] ->
  (forall c d s, isHighSurrogate c = true -> isLowSurrogate d = true ->
                 P s -> P (c :: d :: s)) ->
  (forall c, isHighSurrogate c = true -> P [c]) ->
  (forall c d s, isHighSurrogate c = true -> isLowSurrogate d = false ->
                 P (d :: s) -> P (c :: d :: s)) ->
  (forall c s, isHighSurrogate c = false -> isLowSurrogate c = true ->
               P s -> P (c :: s)) ->
  (forall c s, isHighSurrogate c = false -> isLowSurrogate c = false ->
               P s -> P (c :: s)) ->
  forall s, P s.
Proof.
  intros Hnil Hpair Hlast Hhigh Hlow Hother.
  assert (H : forall n s, (length s <= n)%nat -> P s).
  { induction n as [|n IH]; intros s Hn.
    - destruct s; [done | cbn in Hn; lia].
    - destruct s as [|c rest]; [done |]. cbn in Hn.
      destruct (isHighSurrogate c) eqn:Hh.
      + destruct rest as [|d rest']; [by apply Hlast |].
        destruct (isLowSurrogate d) eqn:Hl.
        * apply Hpair; [done | done |]. apply IH. cbn in Hn. lia.
        * apply Hhigh; [done | done |]. apply IH. lia.
      + destruct (isLowSurrogate c) eqn:Hl.
        * apply Hlow; [done | done |]. apply IH. lia.
        * apply Hother; [done | done |]. apply IH. lia. }
  intros s. by apply (H (length s)).
Qed.

Lemma toWellFormed_idemp s : toWellFormed (toWellFormed s) = toWellFormed s.
Proof.
  induction s as [|c d s Hc Hd IH|c Hc|c d s Hc Hd IH|c s Hh Hl IH|c s Hh Hl IH]
    using toWellFormed_ind.
  - done.
  - by rewrite !toWellFormed_pair, IH.
  - by rewrite toWellFormed_high_last.
  - by rewrite toWellFormed_high_lone, toWellFormed_cons_REPLACEMENT, IH.
  - by rewrite toWellFormed_low_lone, toWellFormed_cons_REPLACEMENT, IH.
  - by rewrite !toWellFormed_cons_other, IH.
Qed.

Lemma toWellFormed_app_slash a b :
  toWellFormed (a ++ SLASH :: b) = toWellFormed a ++ SLASH :: toWellFormed b.
Proof.
  induction a as [|c d s Hc Hd IH|c Hc|c d s Hc Hd IH|c s Hh Hl IH|c s Hh Hl IH]
    using toWellFormed_ind.
  - apply toWellFormed_cons_SLASH.
  - cbn [app]. by rewrite !toWellFormed_pair, IH.
  - cbn [app]. rewrite toWellFormed_high_lone by done.
    by rewrite toWellFormed_cons_SLASH, toWellFormed_high_last.
  - change ((c :: d :: s) ++ SLASH :: b) with (c :: d :: (s ++ SLASH :: b)).
    rewrite !toWellFormed_high_lone by done.
    change (d :: (s ++ SLASH :: b)) with ((d :: s) ++ SLASH :: b). by rewrite IH.
  - cbn [app]. by rewrite !toWellFormed_low_lone, IH.
  - cbn [app]. by rewrite !toWellFormed_cons_other, IH.
Qed.

Lemma toWellFormed_nil_inv s : toWellFormed s = [] -> s = [].
Proof.
  destruct s as [|c d s Hc Hd IH|c Hc|c d s Hc Hd IH|c s Hh Hl IH|c s Hh Hl IH]
    using toWellFormed_ind; [done | | | | |].
  - by rewrite toWellFormed_pair.
  - by rewrite toWellFormed_high_last.
  - by rewrite toWellFormed_high_lone.
  - by rewrite toWellFormed_low_lone.
  - by rewrite toWellFormed_cons_other.
Qed.

Lemma toWellFormed_Forall (P : N -> Prop) s :
  P REPLACEMENT -> Forall P s -> Forall P (toWellFormed s).
Proof.
  intros HR.
  induction s as [|c d s Hc Hd IH|c Hc|c d s Hc Hd IH|c s Hh Hl IH|c s Hh Hl IH]
    using toWellFormed_ind; intros Hs.
  - done.
  - rewrite toWellFormed_pair by done.
    apply Forall_cons in Hs as [H1 Hs]. apply Forall_cons in Hs as [H2 Hs].
    constructor; [done |]. constructor; [done |]. by apply IH.
  - rewrite toWellFormed_high_last by done. by constructor.
  - rewrite toWellFormed_high_lone by done.
    apply Forall_cons in Hs as [_ Hs]. constructor; [done | by apply IH].
  - rewrite toWellFormed_low_lone by done.
    apply Forall_cons in Hs as [_ Hs]. constructor; [done | by apply IH].
  - rewrite toWellFormed_cons_other by done.
    apply Forall_cons in Hs as [H1 Hs]. constructor; [done | by apply IH].
Qed.

(** A string without a high surrogate and without U+FFFD is the image of
    itself only. *)
Lemma toWellFormed_inv_simple s y :
  Forall (fun c => isHighSurrogate c = false /\ c <> REPLACEMENT) y ->
  toWellFormed s = y -> s = y.
Proof.
  revert y.
  induction s as [|c d s Hc Hd IH|c Hc|c d s Hc Hd IH|c s Hh Hl IH|c s Hh Hl IH]
    using toWellFormed_ind; intros y Hy.
  - done.
  - rewrite toWellFormed_pair by done. intros <-.
    apply Forall_cons in Hy as [[H _] _]. congruence.
  - rewrite toWellFormed_high_last by done. intros <-.
    apply Forall_cons in Hy as [[_ H] _]. done.
  - rewrite toWellFormed_high_lone by done. intros <-.
    apply Forall_cons in Hy as [[_ H] _]. done.
  - rewrite toWellFormed_low_lone by done. intros <-.
    apply Forall_cons in Hy as [[_ H] _]. done.
  - rewrite toWellFormed_cons_other by done. intros <-.
    apply Forall_cons in Hy as [_ Hy]. f_equal. by apply IH.
Qed.

Lemma toWellFormed_no_surrogate s :
  Forall (fun c => isHighSurrogate c = false /\ isLowSurrogate c = false) s ->
  toWellFormed s = s.
Proof.
  induction 1 as [|c s [Hh Hl] _ IH]; [done |].
  by rewrite toWellFormed_cons_other, IH.
Qed.

Lemma toWellFormed_plain x : plain x -> plain (toWellFormed x).
Proof.
  intros (Hne & Hf & Hd & Hdd). split; [|split; [|split]].
  - intros H. by apply toWellFormed_nil_inv in H.
  - by apply toWellFormed_Forall.
  - intros H. apply toWellFormed_inv_simple in H; [done |].
    by repeat constructor.
  - intros H. apply toWellFormed_inv_simple in H; [done |].
    by repeat constructor.
Qed.

Lemma diskName_child P x :
  P = [] \/ last P = Some SLASH ->
  exists P', diskName (P ++ x) = P' ++ toWellFormed x
             /\ (P' = [] \/ last P' = Some SLASH).
Proof.
  intros [->|HP].
  - exists []. split; [done | by left].
  - apply last_Some in HP as [Q ->]. exists (toWellFormed Q ++ [SLASH]).
    unfold diskName. rewrite <- !app_assoc. cbn [app].
    split; [apply toWellFormed_app_slash |]. right. by rewrite last_snoc.
Qed.

(** Two plain names that differ on disk give different disk names in any
    two directories. *)
Lemma disk_names_differ d d' x y :
  plain x -> plain y -> toWellFormed y <> toWellFormed x ->
  diskName (Path.join [d'; y]) <> diskName (Path.join [d; x]).
Proof.
  intros Hx Hy Hne H.
  destruct (join_plain_split d x Hx) as (P & HP & HPl).
  destruct (join_plain_split d' y Hy) as (Q & HQ & HQl).
  rewrite HP, HQ in H.
  destruct (diskName_child P x HPl) as (P' & EP & HP').
  destruct (diskName_child Q y HQl) as (Q' & EQ & HQ').
  rewrite EP, EQ in H. apply (f_equal Path.basename) in H.
  rewrite !basename_app_plain in H by (done || by apply toWellFormed_plain).
  done.
Qed.

(** *** Reading after writing *)

Lemma DEFAULT_FILE_CONTENT_wellformed k d :
  DEFAULT_FILE_CONTENT names !! k = Some d -> toWellFormed d = d.
Proof.
  unfold DEFAULT_FILE_CONTENT. intros H.
  repeat (apply lookup_insert_Some in H as [[_ <-]|[_ H]];
          [vm_compute; reflexivity |]).
  by rewrite lookup_empty in H.
Qed.

Lemma tryReadFile_wellformed fs p s :
  tryReadFile fs p = Return (Some s) -> toWellFormed s = s.
Proof.
  unfold tryReadFile. destruct (hasNullByte p); [done |].
  destruct (fs !! diskName p) as [[t| |]|]; try done.
  intros [= <-]. apply toWellFormed_idemp.
Qed.

(** A string that is read is well-formed. *)
Lemma read_wellformed fs f s :
  read fs f = Return (Some (JsString s)) -> toWellFormed s = s.
Proof.
  unfold readWorkspaceFile.
  destruct (tryReadFile fs (Path.join [customDir workspacePath; Path.basename f]))
    as [[c|]|e] eqn:Ec; cbn [bindC]; [| | done].
  { intros [= <-]. by apply tryReadFile_wellformed in Ec. }
  destruct (tryReadFile fs (Path.join [templatePath; Path.basename f]))
    as [[t|]|e] eqn:Et; cbn [bindC]; [| | done].
  { intros [= <-]. by apply tryReadFile_wellformed in Et. }
  unfold DEFAULT_FILE_CONTENT_get.
  destruct (DEFAULT_FILE_CONTENT names !! Path.basename f) as [d|] eqn:Ed.
  - cbn. rewrite (DEFAULT_FILE_CONTENT_truthy names _ _ Ed). intros [= <-].
    by apply DEFAULT_FILE_CONTENT_wellformed in Ed.
  - by destruct (inherited (Path.basename f)).
Qed.

(** A read that returns has asked for a custom path without a null byte. *)
Lemma read_returns_accepted fs f v :
  read fs f = Return v -> hasNullByte (customOf f) = false.
Proof.
  unfold readWorkspaceFile, customPathOf, tryReadFile.
  by destruct (hasNullByte _).
Qed.

Lemma write_returns_iff fs f text created :
  fst (writeWorkspaceFile workspacePath fs f (JsString text) (Written created))
  = Return tt
  <-> hasNullByte (customDir workspacePath) = false
      /\ hasNullByte (customOf f) = false.
Proof.
  unfold writeWorkspaceFile, customPathOf.
  destruct (hasNullByte (customDir workspacePath)); [split; [done | by intros [? _]] |].
  destruct (hasNullByte _); split; try done. by intros [_ ?].
Qed.

Lemma write_then_read_same fs f g text created :
  fst (writeWorkspaceFile workspacePath fs f (JsString text) (Written created))
  = Return tt ->
  Path.basename g = Path.basename f ->
  read (snd (writeWorkspaceFile workspacePath fs f (JsString text) (Written created))) g
  = Return (Some (JsString (toWellFormed text))).
Proof.
  intros Hw Hb. apply write_returns_iff in Hw as [Hd Hc].
  unfold writeWorkspaceFile. fold (customOf f). rewrite Hd, Hc. cbn [snd].
  rewrite <- (toWellFormed_idemp text) at 2.
  apply readWorkspaceFile_custom, tryReadFile_file.
  - unfold customPathOf. rewrite Hb. exact Hc.
  - unfold customPathOf. rewrite Hb. apply lookup_insert_eq.
Qed.

Lemma write_then_read_other fs f g content outcome :
  plain (Path.basename f) -> plain (Path.basename g) ->
  toWellFormed (Path.basename g) <> toWellFormed (Path.basename f) ->
  (forall created, outcome = Written created ->
     ~ In (diskName (customOf g)) created /\ ~ In (diskName (templateOf g)) created) ->
  (forall after, outcome <> WriteFails after) ->
  read (snd (writeWorkspaceFile workspacePath fs f content outcome)) g = read fs g.
Proof.
  intros Hf Hg Hne Hcr Hnf. unfold writeWorkspaceFile.
  destruct (hasNullByte (customDir workspacePath)); [done |].
  destruct outcome as [created|after]; [|by destruct (Hnf after)].
  destruct (Hcr created eq_refl) as [Hc Ht].
  assert (Hmk : read (mkdirs created fs) g = read fs g).
  { apply read_ext; [done | |]; by apply mkdirs_lookup. }
  destruct content as [text|key]; [|done].
  destruct (hasNullByte _); [done |]. cbn [snd]. rewrite <- Hmk.
  apply read_ext; [done | |]; rewrite lookup_insert_ne; try done;
    apply not_eq_sym; unfold customPathOf, templateFilePathOf;
    by apply disk_names_differ.
Qed.

(** X23.  Writing and reading with the resolver.  A write of a string
    returns exactly when node:fs accepts the custom directory and the path
    of the file.  After a write that returns, reading any name with the same
    base name returns the string as UTF-8 keeps it, that is with U+FFFD for
    every surrogate code unit outside a pair, whatever the template
    directory and the defaults hold; a string without surrogates comes back
    as it was written.  Reading a name with another base name returns what
    it returned before the write, provided both base names are plain names
    that differ on disk and none of the directories made by the write is a
    name read for that name. *)
Theorem writeWorkspaceFile_then_read (fs : gmap jsstring fsnode)
    (filename content : jsstring) (created : list jsstring) (other : jsstring) :
  let w := writeWorkspaceFile workspacePath fs filename (JsString content)
             (Written created) in
  (fst w = Return tt
   <-> hasNullByte (customDir workspacePath) = false
       /\ hasNullByte (customOf filename) = false)
  /\ (fst w = Return tt -> Path.basename other = Path.basename filename ->
      read (snd w) other = Return (Some (JsString (toWellFormed content))))
  /\ (Forall (fun c => isHighSurrogate c = false /\ isLowSurrogate c = false) content ->
      toWellFormed content = content)
  /\ (plain (Path.basename filename) -> plain (Path.basename other) ->
      toWellFormed (Path.basename other) <> toWellFormed (Path.basename filename) ->
      ~ In (diskName (customOf other)) created ->
      ~ In (diskName (templateOf other)) created ->
      read (snd w) other = read fs other).
Proof.
  cbv zeta. split; [apply write_returns_iff |]. split; [apply write_then_read_same |].
  split; [apply toWellFormed_no_surrogate |].
  intros Hf Hg Hne Hc Ht. apply write_then_read_other; try done.
  by intros created' [= <-].
Qed.

Lemma access_answers fs p :
  answers fs p -> access fs p = bool_decide (is_Some (fs !! diskName p)).
Proof.
  intros [Hn Hu]. unfold access. rewrite Hn.
  by destruct (fs !! diskName p) as [[t| |]|].
Qed.

Lemma read_custom_exists fs f :
  hasNullByte (customOf f) = false -> is_Some (fs !! diskName (customOf f)) ->
  read fs f = (content <- tryReadFile fs (customOf f) ;;; Return (JsString <$> content))
  /\ read fs f <> Return None.
Proof.
  intros Hn [nd Hnd]. unfold readWorkspaceFile, tryReadFile.
  fold (customOf f). rewrite Hn, Hnd. by destruct nd.
Qed.

Lemma read_template_exists fs f :
  tryReadFile fs (customOf f) = Return None ->
  hasNullByte (templateOf f) = false -> is_Some (fs !! diskName (templateOf f)) ->
  read fs f = (content <- tryReadFile fs (templateOf f) ;;; Return (JsString <$> content))
  /\ read fs f <> Return None.
Proof.
  intros Hc Hn [nd Hnd]. unfold readWorkspaceFile.
  fold (customOf f). rewrite Hc. cbn [bindC]. fold (templateOf f).
  unfold tryReadFile. rewrite Hn, Hnd. by destruct nd.
Qed.

Lemma resolveFilePath_unreachable fs f p :
  fs !! diskName p = Some Unreachable ->
  resolveFilePath names workspacePath templatePath fs f
  = resolveFilePath names workspacePath templatePath (delete (diskName p) fs) f.
Proof.
  intros Hp.
  assert (Ha : forall q, access (delete (diskName p) fs) q = access fs q).
  { intros q. unfold access. destruct (hasNullByte q); [done |].
    destruct (decide (diskName q = diskName p)) as [->|Hne].
    - by rewrite lookup_delete_eq, Hp.
    - by rewrite lookup_delete_ne. }
  unfold resolveFilePath. by rewrite !Ha.
Qed.

(** X24.  [resolveFilePath] and [readWorkspaceFile] on one disk.  A read
    that returns [null] has a [null] path.  Where the disk answers for the
    custom and for the template path, the path names what is read: the
    custom or the template path is returned for a name that exists, and the
    read is the read of that very file (its content, or the error of
    reading it); a [builtin:] name is returned when neither file exists and
    the base name is one of the eight names or a member of
    [Object.prototype], and the read gives what [DEFAULT_FILE_CONTENT]
    yields for it; and the path is [null] exactly when the read returns
    [null].  Where the custom path, or the template path of a missing custom
    file, cannot be looked up, the read throws, while [resolveFilePath]
    swallows the fault and answers as if that name were missing; a custom
    path that node:fs refuses makes the read throw as well. *)
Theorem resolveFilePath_names_what_is_read (fs : gmap jsstring fsnode)
    (filename : jsstring) :
  let safeName := Path.basename filename in
  let custom := customOf filename in
  let template := templateOf filename in
  let resolve := resolveFilePath names workspacePath templatePath in
  (read fs filename = Return None -> resolve fs filename = None)
  /\ (answers fs custom -> answers fs template ->
      match resolve fs filename with
      | Some p =>
          (p = custom /\ is_Some (fs !! diskName custom)
           /\ read fs filename
              = (content <- tryReadFile fs custom ;;; Return (JsString <$> content))
           /\ read fs filename <> Return None)
          \/ (p = template /\ fs !! diskName custom = None
              /\ is_Some (fs !! diskName template)
              /\ read fs filename
                 = (content <- tryReadFile fs template ;;; Return (JsString <$> content))
              /\ read fs filename <> Return None)
          \/ (p = js "builtin:" ++ safeName
              /\ fs !! diskName custom = None /\ fs !! diskName template = None
              /\ exists v, DEFAULT_FILE_CONTENT_get names safeName = Some v
                           /\ read fs filename = Return (Some v))
      | None => read fs filename = Return None
      end)
  /\ (hasNullByte custom = false -> fs !! diskName custom = Some Unreachable ->
      throws (read fs filename)
      /\ resolve fs filename = resolve (delete (diskName custom) fs) filename)
  /\ (tryReadFile fs custom = Return None ->
      hasNullByte template = false -> fs !! diskName template = Some Unreachable ->
      throws (read fs filename)
      /\ resolve fs filename = resolve (delete (diskName template) fs) filename)
  /\ (hasNullByte custom = true -> read fs filename = Throw InvalidArg).
Proof.
  cbv zeta. split; [|split; [|split; [|split]]].
  - intros H%readWorkspaceFile_null_iff. destruct H as (Hc & Ht & Hd).
    apply tryReadFile_null_iff in Hc as [Hc0 Hc]. apply tryReadFile_null_iff in Ht as [Ht0 Ht].
    unfold resolveFilePath, access. fold (customOf filename). fold (templateOf filename).
    rewrite Hc0, Hc, Ht0, Ht.
    destruct (DEFAULT_FILE_CONTENT_in names (Path.basename filename)) eqn:E; [|done].
    apply DEFAULT_FILE_CONTENT_in_get in E as [v Hv]. congruence.
  - intros Hac Hat. unfold resolveFilePath.
    fold (customOf filename). fold (templateOf filename).
    rewrite (access_answers _ _ Hac), (access_answers _ _ Hat).
    destruct Hac as [Hc0 _]. destruct Hat as [Ht0 _].
    destruct (fs !! diskName (customOf filename)) as [nc|] eqn:Ec.
    + rewrite bool_decide_eq_true_2 by eauto. left. split; [done |].
      split; [by eauto |]. apply read_custom_exists; [done | by rewrite Ec].
    + rewrite bool_decide_eq_false_2 by (by intros [? ?]).
      assert (Hc : tryReadFile fs (customOf filename) = Return None)
        by (by apply tryReadFile_null_iff).
      destruct (fs !! diskName (templateOf filename)) as [nt|] eqn:Et.
      * rewrite bool_decide_eq_true_2 by eauto. right. left. split; [done |].
        split; [done |]. split; [by eauto |].
        apply read_template_exists; [done | done | by rewrite Et].
      * rewrite bool_decide_eq_false_2 by (by intros [? ?]).
        assert (Ht : tryReadFile fs (templateOf filename) = Return None)
          by (by apply tryReadFile_null_iff).
        pose proof (readWorkspaceFile_builtin names workspacePath templatePath
                      fs filename Hc Ht) as Hb.
        destruct (DEFAULT_FILE_CONTENT_in names (Path.basename filename)) eqn:E.
        -- apply DEFAULT_FILE_CONTENT_in_get in E as [v Hv].
           right. right. split; [done |]. split; [done |]. split; [done |].
           exists v. split; [done |]. by rewrite Hb, Hv.
        -- rewrite Hb. f_equal.
           destruct (DEFAULT_FILE_CONTENT_get names (Path.basename filename)) as [v|] eqn:Hv;
             [|done].
           assert (Hin : DEFAULT_FILE_CONTENT_in names (Path.basename filename) = true)
             by (apply DEFAULT_FILE_CONTENT_in_get; eauto).
           congruence.
  - intros Hc0 Hc. split; [|by apply resolveFilePath_unreachable].
    apply readWorkspaceFile_throws_custom. unfold tryReadFile. by rewrite Hc0, Hc.
  - intros Hc Ht0 Ht. split; [|by apply resolveFilePath_unreachable].
    apply readWorkspaceFile_throws_template; [done |].
    unfold tryReadFile. by rewrite Ht0, Ht.
  - intros Hc0. unfold readWorkspaceFile, tryReadFile. fold (customOf filename).
    by rewrite Hc0.
Qed.

(** *** Copying the bootstrap files *)

Lemma ordinary_differ x y :
  ordinary x -> ordinary y -> y <> x -> toWellFormed y <> toWellFormed x.
Proof. intros [_ Hx] [_ Hy]. by rewrite Hx, Hy. Qed.

Lemma write_keeps_read fs f g content created :
  ordinary (Path.basename f) -> ordinary (Path.basename g) ->
  read fs f = Return (Some content) ->
  ~ In (diskName (customOf g)) created -> ~ In (diskName (templateOf g)) created ->
  read (snd (writeWorkspaceFile workspacePath fs f content (Written created))) g
  = read fs g.
Proof.
  intros Hf Hg Er Hc Ht.
  destruct (decide (Path.basename g = Path.basename f)) as [Hb|Hb].
  - assert (Hsame : read fs g = read fs f).
    { apply read_ext; [done | |]; unfold customPathOf, templateFilePathOf;
        by rewrite Hb. }
    assert (Hmk : read (mkdirs created fs) g = read fs g).
    { apply read_ext; [done | |]; by apply mkdirs_lookup. }
    destruct content as [text|key].
    + destruct (fst (writeWorkspaceFile workspacePath fs f (JsString text)
                       (Written created))) as [[]|e] eqn:Ew.
      * rewrite (write_then_read_same fs f g text created Ew Hb).
        by rewrite Hsame, Er, (read_wellformed fs f text Er).
      * revert Ew. unfold writeWorkspaceFile.
        destruct (hasNullByte (customDir workspacePath)); [done |].
        by destruct (hasNullByte _).
    + unfold writeWorkspaceFile.
      by destruct (hasNullByte (customDir workspacePath)).
  - apply write_then_read_other.
    + apply Hf.
    + apply Hg.
    + by apply ordinary_differ.
    + by intros created' [= <-].
    + done.
Qed.

Lemma copyFiles_keeps_reads outcome g files : forall fs k copied,
  Forall (fun f => ordinary (Path.basename f)) files ->
  ordinary (Path.basename g) -> undisturbed workspacePath templatePath outcome g ->
  read (snd (copyFiles names workspacePath templatePath fs files k outcome copied)) g
  = read fs g.
Proof.
  induction files as [|f rest IH]; intros fs k copied Hall Hg Hu; [done |].
  apply Forall_cons in Hall as [Hf Hrest]. cbn [copyFiles].
  destruct (read fs f) as [[content|]|e] eqn:Er; [| by apply IH | done].
  destruct (Hu k) as (created & Ho & Hc & Ht). rewrite Ho.
  pose proof (write_keeps_read fs f g content created Hf Hg Er Hc Ht) as Hw.
  destruct (writeWorkspaceFile workspacePath fs f content (Written created))
    as [[[]|e] fs1]; cbn [snd] in Hw.
  - by rewrite IH.
  - done.
Qed.

Lemma copyFiles_result outcome files : forall fs k copied,
  hasNullByte (customDir workspacePath) = false ->
  Forall (fun f => ordinary (Path.basename f)) files ->
  Forall (undisturbed workspacePath templatePath outcome) files ->
  Forall (fun f => string_or_null (read fs f)) files ->
  fst (copyFiles names workspacePath templatePath fs files k outcome copied)
  = Return (copied ++ List.filter (fun f => has_content (read fs f)) files).
Proof.
  intros fs k copied Hd. revert fs k copied.
  induction files as [|f rest IH]; intros fs k copied Hp Hu Hn.
  - cbn. by rewrite app_nil_r.
  - apply Forall_cons in Hp as [Hf Hp]. apply Forall_cons in Hu as [Huf Hu].
    apply Forall_cons in Hn as [Hnf Hn]. cbn [copyFiles List.filter].
    destruct (read fs f) as [[[text|key]|]|e] eqn:Er; [| done | | done].
    + destruct (Huf k) as (created & Ho & Hc & Ht). rewrite Ho.
      assert (Hw : fst (writeWorkspaceFile workspacePath fs f (JsString text)
                          (Written created)) = Return tt).
      { apply write_returns_iff. split; [done |]. by apply (read_returns_accepted fs f _ Er). }
      assert (Hsame : forall g, ordinary (Path.basename g) ->
                        undisturbed workspacePath templatePath outcome g ->
                        read (snd (writeWorkspaceFile workspacePath fs f (JsString text)
                                     (Written created))) g
                        = read fs g).
      { intros g Hg Hug. destruct (Hug k) as (created' & Ho' & Hc' & Ht').
        rewrite Ho in Ho'. injection Ho' as <-.
        by apply write_keeps_read. }
      destruct (writeWorkspaceFile workspacePath fs f (JsString text) (Written created))
        as [w fs1]. cbn [fst snd] in Hw, Hsame. subst w.
      rewrite IH; [| done | done |].
      * cbn [has_content]. rewrite <- app_assoc. cbn [app].
        do 3 f_equal. apply List.filter_ext_in. intros g Hin.
        rewrite List.Forall_forall in Hp, Hu.
        by rewrite (Hsame g (Hp g Hin) (Hu g Hin)).
      * rewrite List.Forall_forall in Hp, Hu, Hn. apply List.Forall_forall.
        intros g Hin. rewrite (Hsame g (Hp g Hin) (Hu g Hin)). by apply Hn.
    + cbn [has_content]. by apply IH.
Qed.

Lemma copyFiles_member outcome before f after key : forall fs k copied,
  hasNullByte (customDir workspacePath) = false ->
  Forall (fun f => ordinary (Path.basename f)) before ->
  Forall (undisturbed workspacePath templatePath outcome) before ->
  Forall (fun f => string_or_null (read fs f)) before ->
  ordinary (Path.basename f) -> undisturbed workspacePath templatePath outcome f ->
  read fs f = Return (Some (PrototypeMember key)) ->
  fst (copyFiles names workspacePath templatePath fs (before ++ f :: after) k outcome copied)
  = Throw InvalidArg.
Proof.
  intros fs k copied Hd. revert fs k copied.
  induction before as [|b rest IH]; intros fs k copied Hp Hu Hn Hf Huf Er.
  - cbn [app copyFiles]. rewrite Er. destruct (Huf k) as (created & Ho & _). rewrite Ho.
    unfold writeWorkspaceFile. by rewrite Hd.
  - apply Forall_cons in Hp as [Hb Hp]. apply Forall_cons in Hu as [Hub Hu].
    apply Forall_cons in Hn as [Hnb Hn]. cbn [app copyFiles].
    destruct (read fs b) as [[[text|key']|]|e] eqn:Eb; [| done | | done].
    + destruct (Hub k) as (created & Ho & Hc & Ht). rewrite Ho.
      assert (Hw : fst (writeWorkspaceFile workspacePath fs b (JsString text)
                          (Written created)) = Return tt).
      { apply write_returns_iff. split; [done |]. by apply (read_returns_accepted fs b _ Eb). }
      assert (Hsame : forall g, ordinary (Path.basename g) ->
                        undisturbed workspacePath templatePath outcome g ->
                        read (snd (writeWorkspaceFile workspacePath fs b (JsString text)
                                     (Written created))) g
                        = read fs g).
      { intros g Hg Hug. destruct (Hug k) as (created' & Ho' & Hc' & Ht').
        rewrite Ho in Ho'. injection Ho' as <-.
        by apply write_keeps_read. }
      destruct (writeWorkspaceFile workspacePath fs b (JsString text) (Written created))
        as [w fs1]. cbn [fst snd] in Hw, Hsame. subst w.
      apply IH; try done.
      * rewrite List.Forall_forall in Hp, Hu, Hn. apply List.Forall_forall.
        intros g Hin. rewrite (Hsame g (Hp g Hin) (Hu g Hin)). by apply Hn.
      * by rewrite Hsame.
    + by apply IH.
Qed.

(** X25.  Copying the bootstrap files.  When every name to copy has an
    ordinary base name (a plain name without a surrogate outside a pair),
    every write is accepted by the disk and no directory made on the way is
    a name that is read, [initializeUserWorkspace] leaves what is read for
    any ordinary name as it was.  With [onlyIfEmpty] and a custom directory
    that lists a file it writes nothing and returns the empty list.
    Otherwise, when every read gives a string or [null], it returns the
    names whose read is not [null], in the order given, an explicitly empty
    [files] list copying nothing; and when the first read that gives
    neither is a member of [Object.prototype], that member is handed to
    [fs.writeFile], which refuses it, and the copy ends with that error. *)
Theorem initializeUserWorkspace_keeps_reads (fs : gmap jsstring fsnode)
    (onlyIfEmpty : bool) (files : option (list jsstring))
    (existingFiles : list jsstring) (outcome : nat -> WriteOutcome) :
  let filesToCopy :=
    match files with
    | Some files => files
    | None =>
        [DEFAULT_AGENTS_FILENAME names; DEFAULT_SOUL_FILENAME names;
         DEFAULT_TOOLS_FILENAME names; DEFAULT_IDENTITY_FILENAME names;
         DEFAULT_USER_FILENAME names; DEFAULT_HEARTBEAT_FILENAME names]
    end in
  let r := initializeUserWorkspace names workspacePath templatePath fs onlyIfEmpty
             files existingFiles outcome in
  Forall (fun f => ordinary (Path.basename f)) filesToCopy ->
  (forall g, ordinary (Path.basename g) ->
             undisturbed workspacePath templatePath outcome g ->
             read (snd r) g = read fs g)
  /\ (onlyIfEmpty = true -> existingFiles <> [] -> r = (Return [], fs))
  /\ (onlyIfEmpty = false \/ existingFiles = [] ->
      hasNullByte (customDir workspacePath) = false ->
      Forall (undisturbed workspacePath templatePath outcome) filesToCopy ->
      (Forall (fun f => string_or_null (read fs f)) filesToCopy ->
       fst r = Return (List.filter (fun f => has_content (read fs f)) filesToCopy))
      /\ (forall before f after key,
            filesToCopy = before ++ f :: after ->
            Forall (fun f => string_or_null (read fs f)) before ->
            read fs f = Return (Some (PrototypeMember key)) ->
            fst r = Throw InvalidArg)).
Proof.
  cbv zeta. intros Hp. unfold initializeUserWorkspace. split; [|split].
  - intros g Hg Hu.
    destruct (onlyIfEmpty && (0 <? length existingFiles)%nat); [done |].
    by apply copyFiles_keeps_reads.
  - intros -> Hne. destruct existingFiles; [done |]. done.
  - intros Hcase Hd Hu.
    assert (Hb : onlyIfEmpty && (0 <? length existingFiles)%nat = false).
    { destruct Hcase as [->| ->]; [done | by rewrite andb_false_r]. }
    rewrite Hb. split.
    + intros Hn. by rewrite copyFiles_result.
    + intros before f after key E Hn Er. rewrite E in Hp, Hu |- *.
      apply Forall_app in Hp as [Hp1 Hp2]. apply Forall_cons in Hp2 as [Hf _].
      apply Forall_app in Hu as [Hu1 Hu2]. apply Forall_cons in Hu2 as [Huf _].
      by apply (copyFiles_member outcome before f after key).
Qed.

End ResolverFilesProperties.

(** X24 on a custom directory that may not be searched: the read of
    ["AGENTS.md"] fails, while the path is the one of the template file. *)
Lemma resolveFilePath_names_what_is_read_witness :
  let fs : gmap jsstring Resolver.fsnode :=
    <[ js "/ws/users/u-1/custom/AGENTS.md" := Resolver.Unreachable ]>
      {[ js "/tpl/AGENTS.md" := Resolver.File (js "# ours") ]} in
  throws (Resolver.readWorkspaceFile Resolver.workspace_names (js "/ws/users/u-1")
            (js "/tpl") fs (js "AGENTS.md"))
  /\ ResolverFiles.resolveFilePath Resolver.workspace_names (js "/ws/users/u-1")
       (js "/tpl") fs (js "AGENTS.md")
     = Some (js "/tpl/AGENTS.md")
  /\ ResolverFiles.resolveFilePath Resolver.workspace_names (js "/ws/users/u-1")
       (js "/tpl") ∅ (js "toString")
     = Some (js "builtin:toString").
Proof.
  cbv zeta.
  destruct (resolveFilePath_names_what_is_read Resolver.workspace_names
              (js "/ws/users/u-1") (js "/tpl")
              (<[ js "/ws/users/u-1/custom/AGENTS.md" := Resolver.Unreachable ]>
                 {[ js "/tpl/AGENTS.md" := Resolver.File (js "# ours") ]})
              (js "AGENTS.md")) as (_ & _ & H & _).
  destruct H as [Ht Hr]; [vm_compute; reflexivity | vm_compute; reflexivity |].
  split; [exact Ht |]. split; [rewrite Hr |]; vm_compute; reflexivity.
Defined.

(** X25 on a workspace whose template directory holds one of the six
    default files with a content of its own; and on a list of files that
    names ["constructor"]. *)
Lemma initializeUserWorkspace_keeps_reads_witness :
  let fs : gmap jsstring Resolver.fsnode :=
    {[ js "/tpl/AGENTS.md" := Resolver.File (js "# ours") ]} in
  let init := ResolverFiles.initializeUserWorkspace Resolver.workspace_names
                (js "/ws/users/u-1") (js "/tpl") in
  let after := snd (init fs true None [] (fun _ => ResolverFiles.Written [])) in
  Resolver.readWorkspaceFile Resolver.workspace_names (js "/ws/users/u-1") (js "/tpl")
    after (js "AGENTS.md")
  = Return (Some (Resolver.JsString (js "# ours")))
  /\ after !! js "/ws/users/u-1/custom/AGENTS.md" = Some (Resolver.File (js "# ours"))
  /\ fst (init fs false (Some [js "AGENTS.md"; js "constructor"]) []
            (fun _ => ResolverFiles.Written []))
     = Throw InvalidArg.
Proof.
  cbv zeta.
  assert (Hord : forall x, x <> [] -> x <> [DOT] -> x <> [DOT; DOT] ->
                   forallb (fun c => negb (N.eqb c SLASH)) x = true ->
                   Resolver.toWellFormed x = x -> ResolverFiles.ordinary x)
    by (intros x H1 H2 H3 H4 H5; split; [by apply plain_literal | done]).
  assert (Hun : forall g, ResolverFiles.undisturbed (js "/ws/users/u-1") (js "/tpl")
                            (fun _ => ResolverFiles.Written []) g).
  { intros g k. exists []. split; [done |]. split; intros []. }
  split; [|split; [vm_compute; reflexivity |]].
  - destruct (initializeUserWorkspace_keeps_reads Resolver.workspace_names
                (js "/ws/users/u-1") (js "/tpl")
                {[ js "/tpl/AGENTS.md" := Resolver.File (js "# ours") ]}
                true None [] (fun _ => ResolverFiles.Written [])) as (H & _).
    + repeat (constructor; [apply Hord; vm_compute; congruence |]). constructor.
    + rewrite H.
      * vm_compute. reflexivity.
      * apply Hord; vm_compute; congruence.
      * apply Hun.
  - destruct (initializeUserWorkspace_keeps_reads Resolver.workspace_names
                (js "/ws/users/u-1") (js "/tpl")
                {[ js "/tpl/AGENTS.md" := Resolver.File (js "# ours") ]}
                false (Some [js "AGENTS.md"; js "constructor"]) []
                (fun _ => ResolverFiles.Written [])) as (_ & _ & H).
    + repeat (constructor; [apply Hord; vm_compute; congruence |]). constructor.
    + destruct H as [_ H].
      * by left.
      * vm_compute. reflexivity.
      * repeat (constructor; [apply Hun |]). constructor.
      * apply (H [js "AGENTS.md"] (js "constructor") [] (js "constructor")).
        -- reflexivity.
        -- constructor; [|constructor]. vm_compute. exact I.
        -- vm_compute. reflexivity.
Defined.

(** ** The paths of the workspace setup *)

Section WorkspaceSetupPaths.
Import Path PathShape TenantDirs.

Lemma join_users_parent root x :
  root <> [] -> plain x ->
  Path.join [root; js "users"; js "../" ++ x] = Path.join [root; x].
Proof.
  intros Hroot Hx. pose proof plain_users as Hu.
  assert (Hxne : x <> []) by apply Hx.
  rewrite !join_nonempty by (done || (repeat constructor; done)).
  cbn [intercalate].
  change (root ++ [SLASH] ++ js "users" ++ [SLASH] ++ js "../" ++ x)
    with (root ++ SLASH :: (js "users" ++ SLASH :: ([DOT; DOT] ++ SLASH :: x))).
  change (root ++ [SLASH] ++ x) with (root ++ SLASH :: x).
  replace (root ++ SLASH :: js "users" ++ SLASH :: [DOT; DOT] ++ SLASH :: x)
    with (((root ++ SLASH :: js "users") ++ SLASH :: [DOT; DOT]) ++ SLASH :: x)
    by (by rewrite <- !app_assoc).
  rewrite (normalize_ends_plain _ (Path.split_slash root ++ [js "users"; [DOT; DOT]]) x);
    first last.
  - by apply last_child_not_slash.
  - rewrite split_slash_snoc by (by apply plain_slash_free).
    rewrite split_slash_snoc by apply plain_dotdot_free.
    rewrite split_slash_snoc by (by apply plain_slash_free).
    by rewrite <- !app_assoc.
  - done.
  - by destruct root.
  - rewrite (normalize_ends_plain (root ++ SLASH :: x) (Path.split_slash root) x);
      first last.
    + by apply last_child_not_slash.
    + by apply split_slash_snoc, plain_slash_free.
    + done.
    + by destruct root.
    + assert (Habs : Path.isAbsolute
                       (((root ++ SLASH :: js "users") ++ SLASH :: [DOT; DOT])
                        ++ SLASH :: x)
                     = Path.isAbsolute (root ++ SLASH :: x)) by (by destruct root).
      rewrite Habs, fold_left_app. cbn [fold_left].
      rewrite (push_segment_plain _ _ (js "users")) by done.
      assert (Hpop : forall b st,
                Path.push_segment b (st ++ [js "users"]) [DOT; DOT] = st).
      { intros b st. unfold Path.push_segment.
        rewrite decide_False by done. rewrite decide_False by done.
        rewrite decide_True by done. rewrite last_snoc.
        rewrite decide_False by done. apply removelast_last. }
      by rewrite Hpop.
Qed.

(** X26.  The workspace setup and the path layer.  On an id that
    [sanitizeUserId] leaves as it is, the workspace and agent paths of the
    workspace setup are those of the path layer.  But the setup does not
    sanitize: for a non-empty root and an id [../x], with [x] an ordinary
    name, its workspace path is [path.join(root, x)], next to the [users]
    directory and not inside it, while the path layer keeps the same raw id
    under [users]. *)
Theorem workspace_setup_paths (workspaceRoot : jsstring) :
  (forall key,
     sanitizeUserId key = Return key ->
     getUserWorkspacePath workspaceRoot key
     = Return (WorkspaceSetup.getUserWorkspacePath workspaceRoot key)
     /\ getUserAgentDir workspaceRoot key
        = Return (WorkspaceSetup.getUserAgentPath workspaceRoot key))
  /\ (forall x,
        workspaceRoot <> [] -> plain x ->
        WorkspaceSetup.getUserWorkspacePath workspaceRoot (js "../" ++ x)
        = Path.join [workspaceRoot; x]
        /\ forall key, sanitizeUserId (js "../" ++ x) = Return key ->
             getUserWorkspacePath workspaceRoot (js "../" ++ x)
             = Return (Path.join [workspaceRoot; js "users"] ++ SLASH :: key)).
Proof.
  split.
  - intros key Hs.
    unfold getUserAgentDir, getUserWorkspacePath, WorkspaceSetup.getUserAgentPath,
      WorkspaceSetup.getUserWorkspacePath.
    by rewrite Hs.
  - intros x Hroot Hx. split.
    + by apply join_users_parent.
    + intros key Hs. unfold getUserWorkspacePath. rewrite Hs. cbn [bindC].
      f_equal. apply join_users_child. by eapply sanitized_key_plain.
Qed.

End WorkspaceSetupPaths.

(** ** Running an agent for a tenant *)

Section AgentRunProperties.
Import Manager Inv Tables AgentContext TenantDirs AgentRun.
Context {Base Result : Type}.

Lemma wrap_with_ticks {A} (m : Manager.t) raw key inst
    (fn : Manager.t -> completion A * Manager.t) (outcome : completion A)
    (ticks : list Z) now1 now2 :
  wf m -> sanitizeUserId raw = Return key ->
  JsMap.get key (userInstances m) = Some inst ->
  (forall m0, fn m0 = (outcome, fold_left cleanupInactiveUsers ticks m0)) ->
  fst (wrapWithPendingRequests m raw fn now1 now2) = outcome
  /\ JsMap.get key (userInstances (snd (wrapWithPendingRequests m raw fn now1 now2)))
     = Some (touch inst (pendingRequests inst) now2).
Proof.
  intros Hwf Hs Hg Hfn.
  pose proof (step_wf m (OpIncrement raw now1) Hwf) as Hwf1. cbn [step] in Hwf1.
  pose proof (get_nonneg m key inst (proj2 Hwf) Hg) as Hnn.
  unfold wrapWithPendingRequests.
  unfold incrementPendingRequests in *. rewrite Hs, Hg in *. cbn [snd] in Hwf1.
  rewrite Hfn.
  set (busy := touch inst (pendingRequests inst + 1) now1).
  set (m1 := set_userInstances m (JsMap.set key busy (userInstances m))) in *.
  assert (Hb : JsMap.get key
                 (userInstances (fold_left cleanupInactiveUsers ticks m1)) = Some busy).
  { apply cleanups_keep_busy; [done | cbn; by rewrite get_set_eq | cbn; lia]. }
  unfold decrementPendingRequests. rewrite Hs, Hb.
  assert (Hp : (0 <? pendingRequests busy) = true) by (apply Z.ltb_lt; cbn; lia).
  rewrite Hp. cbn [fst snd]. split; [done |].
  cbn. rewrite get_set_eq. f_equal. unfold touch. cbn. f_equal. lia.
Qed.

(** X27.  A run for a tenant, end to end.  Take the context that
    [resolveMultiTenantContext] gives on a reachable manager and hand it to
    [runAgentAutoMode], the cleanup timer firing at will during the run.
    If the user is active, the embedded runner is started on the tenant's
    workspace [{root}/users/key], its [agent] child and the tenant's
    config, whatever the three corresponding parameters of the caller are;
    the outcome is returned with the user id as passed; and afterwards the
    instance is still cached with its counter as before.  If the user is
    not active, the run is not refused: the runner is started on the
    caller's own parameters and the result carries no user id. *)
Theorem tenant_run_end_to_end (opts : Options) (G : Globals) (m : Manager.t)
    (raw : jsstring) (now : Z) (disk : completion (option OpenClawConfig))
    (mkdirOk : bool) (params : @RunParams Base)
    (outcome : @RunParams Base -> completion Result) (ticks : list Z) (now1 now2 : Z) :
  reachable opts m ->
  let runner := fun p => request_with_ticks (outcome p) ticks in
  let tagged := fun (o : completion Result) (u : option jsstring) =>
                  match o with Return x => Return (x, u) | Throw e => Throw e end in
  match resolveMultiTenantContext G m raw now disk mkdirOk with
  | (Return (Some context), m1) =>
      let r := runAgentAutoMode runner m1 params (Some context) now1 now2 in
      let i := ctx_userInstance context in
      if is_active (status i) then
        exists root key,
          sanitizeUserId raw = Return key
          /\ let W := Path.join [root; js "users"] ++ SLASH :: key in
             fst r = tagged (outcome (mkRunParams W (W ++ js "/agent") (config i)
                                        (run_base params)))
                       (Some raw)
             /\ JsMap.get key (userInstances (snd r))
                = Some (touch i (pendingRequests i) now2)
      else
        r = (tagged (outcome params) None, fold_left cleanupInactiveUsers ticks m1)
  | _ => True
  end.
Proof.
  intros Hr. cbv zeta.
  pose proof (reachable_step opts m (OpGetUserInstance G raw now disk mkdirOk) Hr) as Hr1.
  cbn [step] in Hr1.
  pose proof (reachable_housed opts _ Hr1) as Hh.
  pose proof (reachable_coherent opts _ Hr1) as Hc.
  pose proof (reachable_wf opts _ Hr1) as Hwf.
  unfold resolveMultiTenantContext.
  destruct (getUserInstance G m raw now disk mkdirOk) as [[[i|]|e] m1] eqn:Eg;
    cbn [fst snd] in *; try done.
  apply getUserInstance_returns in Eg as (key & Hs & Hg).
  unfold getWorkspaceResolver. rewrite Hs. cbn [bindC].
  destruct (Hc key) as [_ H2]. rewrite Hg in H2.
  destruct (workspaceResolvers m1 !! key) as [r|]; [|done].
  destruct H2 as (_ & Hw & _).
  cbn [ctx_userInstance]. unfold runAgentAutoMode, shouldUseMultiTenantMode.
  cbn [ctx_userInstance].
  destruct (is_active (status i)) eqn:Ea.
  - destruct (Hh key i Hg) as (_ & G' & HG).
    exists (globalWorkspaceRoot G'), key. split; [done |]. cbv zeta.
    pose proof (sanitizeUserId_idempotent raw key Hs) as Hk.
    pose proof (sanitized_key_plain raw key Hs) as Hp.
    unfold ensureUserDirectories, getUserWorkspacePath, getUserConfigPath in HG.
    rewrite Hk in HG. cbn in HG. injection HG as HW _.
    rewrite join_users_child in HW by done.
    unfold runMultiTenantAgent, extractAgentPaths.
    cbn [workspaceDir agentDir ctx_workspacePath ctx_agentDir ctx_config ctx_userId].
    rewrite <- HW.
    match goal with
    | |- context [wrapWithPendingRequests m1 raw ?fn now1 now2] =>
        destruct (wrap_with_ticks m1 raw key i fn
                    (outcome (mkRunParams
                                (Path.join [globalWorkspaceRoot G'; js "users"]
                                   ++ SLASH :: key)
                                ((Path.join [globalWorkspaceRoot G'; js "users"]
                                    ++ SLASH :: key) ++ js "/agent")
                                (config i) (run_base params)))
                    ticks now1 now2 Hwf Hs Hg) as [H1 H2];
          [by intros m0 |];
        destruct (wrapWithPendingRequests m1 raw fn now1 now2) as [o m2]
    end.
    cbn [fst snd] in *. subst o.
    by destruct (outcome _).
  - unfold request_with_ticks. by destruct (outcome params).
Qed.

End AgentRunProperties.

(** X26 on the default root and the name of the template directory. *)
Lemma workspace_setup_paths_witness :
  WorkspaceSetup.getUserWorkspacePath (js "/data/openclaw/workspaces") (js "../template")
  = js "/data/openclaw/workspaces/template".
Proof.
  destruct (proj2 (workspace_setup_paths (js "/data/openclaw/workspaces")) (js "template"))
    as [H _].
  - done.
  - apply plain_literal; done.
  - refine (eq_trans H _). vm_compute. reflexivity.
Defined.

(** X27 on the manager with one cached, active user, the timer firing
    twice during the run. *)
Lemma tenant_run_end_to_end_witness :
  Manager.reachable Scenario.opts0 Scenario.one_user
  /\ match AgentContext.resolveMultiTenantContext Scenario.G0 Scenario.one_user
             (js "u-1") 2000 (Return None) true with
     | (Return (Some context), m1) =>
         exists root key,
           sanitizeUserId (js "u-1") = Return key
           /\ fst (AgentRun.runAgentAutoMode
                     (fun p => AgentContext.request_with_ticks
                                 (Return (AgentRun.run_workspaceDir p)) [5000; 9000])
                     m1
                     (AgentRun.mkRunParams (js "/home/me") (js "/home/me/agent")
                        (js "{}") tt)
                     (Some context) 2100 9500)
              = Return (Path.join [root; js "users"] ++ SLASH :: key, Some (js "u-1"))
     | _ => False
     end.
Proof.
  assert (Hr : Manager.reachable Scenario.opts0 Scenario.one_user) by (by eexists).
  split; [exact Hr |].
  pose proof (tenant_run_end_to_end (Result := jsstring) Scenario.opts0 Scenario.G0
                Scenario.one_user (js "u-1") 2000 (Return None) true
                (AgentRun.mkRunParams (js "/home/me") (js "/home/me/agent") (js "{}") tt)
                (fun p => Return (AgentRun.run_workspaceDir p)) [5000; 9000] 2100 9500 Hr)
    as H.
  cbv zeta in H.
  destruct (AgentContext.resolveMultiTenantContext Scenario.G0 Scenario.one_user
              (js "u-1") 2000 (Return None) true) as [[[context|]|e] m1] eqn:E;
    try (by vm_compute in E).
  assert (Ha : AgentRun.is_active (Manager.status (AgentContext.ctx_userInstance context))
               = true).
  { vm_compute in E. injection E as <- _. reflexivity. }
  rewrite Ha in H. destruct H as (root & key & Hs & H1 & _).
  exists root, key. split; [exact Hs | exact H1].
Defined.

(** ** A sync and the status of cached users *)

Section SyncStatus.
Import Manager Inv SyncReport.

Lemma updateOne_instance_frame updated m entry u :
  applies_to u entry = false ->
  JsMap.get u (userInstances (snd (updateOne (updated, m) entry)))
  = JsMap.get u (userInstances m).
Proof.
  destruct entry as [c ok]. unfold applies_to, updateOne. cbn [fst snd].
  destruct (sanitizeUserId (cloud_userId c)) as [k|e]; [|done].
  destruct ok; cbn; [|done]. intros Hk. apply bool_decide_eq_false in Hk.
  destruct (JsMap.get k (userInstances m)) as [i|]; cbn; [|done].
  by apply get_set_ne.
Qed.

Lemma fold_updateOne_instance_frame configs u : forall updated m,
  Forall (fun entry => applies_to u entry = false) configs ->
  JsMap.get u (userInstances (snd (fold_left updateOne configs (updated, m))))
  = JsMap.get u (userInstances m).
Proof.
  induction configs as [|entry rest IH]; intros updated m Hall; [done |].
  apply Forall_cons in Hall as [He Hall]. cbn [fold_left].
  pose proof (updateOne_instance_frame updated m entry u He) as H1.
  destruct (updateOne (updated, m) entry) as [updated1 m1]. cbn [snd] in H1.
  by rewrite (IH updated1 m1 Hall).
Qed.

Lemma updateOne_instance_kept updated m entry u i :
  JsMap.get u (userInstances m) = Some i ->
  exists i', JsMap.get u (userInstances (snd (updateOne (updated, m) entry))) = Some i'
             /\ (userId i', workspacePath i', configPath i',
                 pendingRequests i', lastActivityAt i')
                = (userId i, workspacePath i, configPath i,
                   pendingRequests i, lastActivityAt i).
Proof.
  intros Hg. destruct entry as [c ok]. unfold updateOne.
  destruct (sanitizeUserId (cloud_userId c)) as [k|e]; [|by exists i].
  destruct ok; cbn; [|by exists i].
  destruct (JsMap.get k (userInstances m)) as [ik|] eqn:Ek; cbn; [|by exists i].
  destruct (decide (k = u)) as [->|Hne].
  - rewrite get_set_eq. rewrite Hg in Ek. injection Ek as <-. by exists (patch i c).
  - rewrite get_set_ne by done. by exists i.
Qed.

Lemma fold_updateOne_instance_kept configs u : forall updated m i,
  JsMap.get u (userInstances m) = Some i ->
  exists i', JsMap.get u (userInstances (snd (fold_left updateOne configs (updated, m))))
             = Some i'
             /\ (userId i', workspacePath i', configPath i',
                 pendingRequests i', lastActivityAt i')
                = (userId i, workspacePath i, configPath i,
                   pendingRequests i, lastActivityAt i).
Proof.
  induction configs as [|entry rest IH]; intros updated m i Hg; [by exists i |].
  cbn [fold_left].
  destruct (updateOne_instance_kept updated m entry u i Hg) as (i1 & H1 & E1).
  destruct (updateOne (updated, m) entry) as [updated1 m1]. cbn [snd] in H1.
  destruct (IH updated1 m1 i1 H1) as (i2 & H2 & E2). exists i2. split; [done |].
  by rewrite E2.
Qed.

Lemma updateUserConfigs_instances m configs nowIso :
  userInstances (snd (updateUserConfigs m configs nowIso))
  = userInstances (snd (fold_left updateOne configs (0, m))).
Proof.
  unfold updateUserConfigs. by destruct (fold_left updateOne configs (0, m)).
Qed.

(** X28.  A sync and the status of a cached user.  The cached instance of
    [u] after [updateUserConfigs] carries the status, the configuration and
    the API key of the last record for [u] whose configuration was
    written, and keeps its id, paths, counter and activity time; records
    for [u] whose write failed change nothing of the instance, so a
    suspension that cannot be written to disk does not take effect.  A
    token bound to [u] after the sync is then refused by both variants of
    [authenticateToken] exactly when that status is [suspended] or
    [expired], without a call to the backend. *)
Theorem sync_sets_status (G : Globals) (m : Manager.t)
    (configs : list (CloudUserConfig * bool)) (nowIso : jsstring)
    (u : jsstring) (i : UserInstance) :
  wf m ->
  JsMap.get u (userInstances m) = Some i ->
  let m' := snd (updateUserConfigs m configs nowIso) in
  (Forall (fun entry => applies_to u entry = false) configs ->
   JsMap.get u (userInstances m') = Some i)
  /\ (forall before c after,
        configs = before ++ (c, true) :: after ->
        sanitizeUserId (cloud_userId c) = Return u ->
        Forall (fun entry => applies_to u entry = false) after ->
        exists i',
          JsMap.get u (userInstances m') = Some i'
          /\ status i' = cloud_status c /\ config i' = openclawConfig c
          /\ llmApiKey i' = cloud_llmApiKey c
          /\ (userId i', workspacePath i', configPath i',
              pendingRequests i', lastActivityAt i')
             = (userId i, workspacePath i, configPath i,
                pendingRequests i, lastActivityAt i)
          /\ forall token reply mkdirOk now,
               tokenToUserId m' !! token = Some u ->
               fst (authenticateTokenSync m' token)
               = match cloud_status c with
                 | suspended | expired => None
                 | _ => Some u
                 end
               /\ fst (authenticateToken G m' token reply mkdirOk now nowIso)
                  = Return (fst (authenticateTokenSync m' token))
               /\ Forall not_a_request
                    (drop (length (trace m'))
                       (trace (snd (authenticateToken G m' token reply mkdirOk now
                                      nowIso))))).
Proof.
  intros Hwf Hg. cbv zeta. rewrite updateUserConfigs_instances. split.
  - intros Hall. by rewrite fold_updateOne_instance_frame.
  - intros before c after -> Hs Hall.
    rewrite fold_left_app. cbn [fold_left].
    destruct (fold_updateOne_instance_kept before u 0 m i Hg) as (i1 & H1 & E1).
    destruct (fold_left updateOne before (0, m)) as [updated1 m1] eqn:Ebefore.
    cbn [snd] in H1.
    assert (H2 : JsMap.get u (userInstances (snd (updateOne (updated1, m1) (c, true))))
                 = Some (patch i1 c)).
    { unfold updateOne. rewrite Hs. cbn. rewrite H1. cbn. by rewrite get_set_eq. }
    destruct (updateOne (updated1, m1) (c, true)) as [updated2 m2] eqn:Eone.
    cbn [snd] in H2.
    pose proof (fold_updateOne_instance_frame after u updated2 m2 Hall) as H3.
    rewrite H2 in H3. exists (patch i1 c). split; [done |].
    split; [done |]. split; [done |]. split; [done |]. split; [exact E1 |].
    intros token reply mkdirOk now Ht.
    set (m' := snd (updateUserConfigs m (before ++ (c, true) :: after) nowIso)) in *.
    assert (Hg' : JsMap.get u (userInstances m') = Some (patch i1 c)).
    { subst m'. rewrite updateUserConfigs_instances, fold_left_app. cbn [fold_left].
      rewrite Ebefore, Eone. exact H3. }
    assert (Hu : truthy u = true).
    { pose proof (keys_ok_get_nonempty m u i (proj1 Hwf) Hg). by destruct u. }
    unfold authenticateTokenSync, authenticateToken, cachedInstance.
    rewrite Ht, Hu, Hg'. cbn [negb patch status].
    destruct (cloud_status c) eqn:Es; cbn [fst snd].
    + split; [done |]. split; [done |]. by rewrite drop_all.
    + split; [done |]. split; [done |]. cbn. rewrite drop_app_length. by repeat constructor.
    + split; [done |]. split; [done |]. cbn. rewrite drop_app_length. by repeat constructor.
    + split; [done |]. split; [done |]. by rewrite drop_all.
Qed.

End SyncStatus.

(** X28 on a user suspended by a sync. *)
Lemma sync_sets_status_witness :
  fst (Manager.authenticateTokenSync
         (snd (Manager.updateUserConfigs Scenario.one_user
                 [(Manager.mkCloudUserConfig (js "u-1") (js "gt_abc") (js "{}")
                     Manager.suspended None [], true)] []))
         (js "gt_abc"))
  = None.
Proof.
  assert (Hwf : Inv.wf Scenario.one_user)
    by (apply (reachable_wf Scenario.opts0); by eexists).
  assert (Hg : exists i, JsMap.get (js "u-1") (Manager.userInstances Scenario.one_user)
                         = Some i) by (eexists; vm_compute; reflexivity).
  destruct Hg as [i Hg].
  destruct (proj2 (sync_sets_status Scenario.G0 Scenario.one_user
                     [(Manager.mkCloudUserConfig (js "u-1") (js "gt_abc") (js "{}")
                         Manager.suspended None [], true)] [] (js "u-1") i Hwf Hg)
              [] (Manager.mkCloudUserConfig (js "u-1") (js "gt_abc") (js "{}")
                    Manager.suspended None []) [] eq_refl eq_refl ltac:(constructor))
    as (i' & _ & _ & _ & _ & _ & H).
  destruct (H (js "gt_abc") Manager.InvalidURL true 0) as [H1 _].
  - vm_compute. reflexivity.
  - exact H1.
Defined.

(** ** Alerts on failing syncs *)

Section FailureAlerts.
Import Manager ConfigSync.

Lemma reached_S t k :
  Monitor.reached t (S k)
  = Monitor.reached t k
      ++ (if t <=? Z.of_nat (S k) then [Z.of_nat (S k)] else []).
Proof.
  unfold Monitor.reached. rewrite seq_S, List.map_app, List.filter_app. cbn [Nat.add].
  f_equal.
Qed.

Lemma failures_alerts k : forall s message nowIso,
  isRunning s = true -> isSyncing s = false ->
  consecutiveFailures s = 0 -> syncFailures (manager s) = 0 ->
  let s' := failures k s message nowIso in
  isRunning s' = true /\ isSyncing s' = false /\ options s' = options s
  /\ consecutiveFailures s' = Z.of_nat k
  /\ syncFailures (manager s') = Z.of_nat k
  /\ alerts s' = alerts s ++ Monitor.reached (alertThreshold (options s)) k
  /\ trace (manager s')
     = trace (manager s)
         ++ List.map (fun n => Emit (SyncFailed message (Z.of_nat n))) (seq 1 k).
Proof.
  induction k as [|k IH]; intros s message nowIso Hr Hs Hc Hm; cbv zeta.
  - cbn. by rewrite !app_nil_r.
  - destruct (IH s message nowIso Hr Hs Hc Hm) as (I1 & I2 & I3 & I4 & I5 & I6 & I7).
    cbn [failures]. set (sk := failures k s message nowIso) in *.
    rewrite reached_S, seq_S, List.map_app. cbn [Nat.add List.map].
    destruct sk as [mgr o timer ts cf d running syncing al]. cbn in *. subst.
    unfold onTimer, doSync, scheduleNextSync, scheduleSync. cbn.
    assert (Hpos : (0 <? Z.of_nat k + 1) = true) by (apply Z.ltb_lt; lia).
    rewrite Hpos. cbn. rewrite I5, I7.
    replace (Z.of_nat k + 1) with (Z.of_nat (S k)) by lia.
    split; [done |]. split; [done |]. split; [done |]. split; [done |].
    split; [done |]. split.
    + destruct (alertThreshold (options s) <=? Z.of_nat (S k)).
      * by rewrite <- app_assoc.
      * by rewrite app_nil_r.
    + by rewrite <- app_assoc.
Qed.

Lemma observe_app options t1 t2 :
  Monitor.observe options (t1 ++ t2)
  = Monitor.observe options t1 ++ Monitor.observe options t2.
Proof. unfold Monitor.observe. apply flat_map_app. Qed.

Lemma observe_failures options message (l : list nat) :
  Monitor.observe options
    (List.map (fun n => Emit (SyncFailed message (Z.of_nat n))) l)
  = List.map (fun n => Monitor.SyncAlert Monitor.error message n)
      (List.filter (fun n => Monitor.syncFailureAlertThreshold options <=? n)
         (List.map Z.of_nat l)).
Proof.
  induction l as [|n r IH]; [done |]. cbn.
  destruct (Monitor.syncFailureAlertThreshold options <=? Z.of_nat n); cbn;
    unfold Monitor.observe in IH; by rewrite IH.
Qed.

(** X29.  Alerts on failing syncs.  When the timer of a running service
    that has no failure on record fires [k] times in a row and every fetch
    fails, the service hands to [onAlert] the counts from its alert
    threshold up to [k], one alert for each failure once the threshold is
    reached with no pause in between; the manager emits one [sync-failed]
    event for each failure, numbered [1] to [k]; and a monitor listening to
    the manager raises one error alert for each of these events whose
    number has reached the monitor's own threshold. *)
Theorem alerts_on_failing_syncs (s : ConfigSync.t) (monitor : Monitor.Options)
    (message nowIso : jsstring) (k : nat) :
  isRunning s = true -> isSyncing s = false ->
  consecutiveFailures s = 0 -> syncFailures (manager s) = 0 ->
  let s' := failures k s message nowIso in
  alerts s' = alerts s ++ Monitor.reached (alertThreshold (options s)) k
  /\ Monitor.observe monitor (trace (manager s'))
     = Monitor.observe monitor (trace (manager s))
         ++ List.map (fun n => Monitor.SyncAlert Monitor.error message n)
              (Monitor.reached (Monitor.syncFailureAlertThreshold monitor) k)
  /\ consecutiveFailures s' = Z.of_nat k
  /\ syncFailures (manager s') = Z.of_nat k.
Proof.
  intros Hr Hs Hc Hm. cbv zeta.
  destruct (failures_alerts k s message nowIso Hr Hs Hc Hm)
    as (_ & _ & _ & H4 & H5 & H6 & H7).
  split; [done |]. split; [|done].
  by rewrite H7, observe_app, observe_failures.
Qed.

End FailureAlerts.

(** X29 on the started service of the scenario (alert threshold 4) and a
    monitor with the default threshold 3, after five failures. *)
Lemma alerts_on_failing_syncs_witness :
  ConfigSync.alerts (ConfigSync.failures 5 Scenario.started_sync (js "down") [])
  = [4; 5]
  /\ length (Monitor.observe Monitor.DEFAULT_OPTIONS
               (Manager.trace (ConfigSync.manager
                  (ConfigSync.failures 5 Scenario.started_sync (js "down") []))))
     = 3%nat.
Proof.
  destruct (alerts_on_failing_syncs Scenario.started_sync Monitor.DEFAULT_OPTIONS
              (js "down") [] 5 eq_refl eq_refl eq_refl eq_refl) as (H1 & H2 & _).
  split; [rewrite H1 | rewrite H2]; vm_compute; reflexivity.
Defined.

(** ** The cache of the global configuration *)

Section GlobalConfigCache.
Import GlobalConfig.
Context {Config : Type}.
Variable emptyConfig : Config.

(** X30.  The global configuration is cached for a minute.
    [loadGlobalConfig] always leaves a cache that holds the configuration
    it returns.  A call made less than 60000 ms after the load that filled
    the cache, or with a clock that went backwards, returns the cached
    configuration and leaves the cache alone, whatever is on disk by then:
    so a file that could not be read or parsed is answered by the empty
    configuration for that long, also after the file has been repaired.
    A call made 60000 ms or more after the load, or after
    [clearGlobalConfigCache], reads the disk again. *)
Theorem loadGlobalConfig_cached (cache : option (@Cache Config)) (now : Z)
    (found : option jsstring) (parsed : completion Config) :
  let r := loadGlobalConfig emptyConfig cache now found parsed in
  (exists c, snd r = Some c /\ cached_config c = fst r
             /\ (loadedAt c = now \/ snd r = cache))
  /\ (forall c now' found' parsed',
        snd r = Some c -> now' - loadedAt c < 60000 ->
        loadGlobalConfig emptyConfig (snd r) now' found' parsed' = r)
  /\ (forall c path e,
        (cache = None \/ (cache = Some c /\ 60000 <= now - loadedAt c)) ->
        found = Some path -> parsed = Throw e ->
        fst r = emptyConfig
        /\ forall now' found' parsed',
             now' - now < 60000 ->
             fst (loadGlobalConfig emptyConfig (snd r) now' found' parsed')
             = emptyConfig)
  /\ (forall c config path,
        (cache = None \/ (cache = Some c /\ 60000 <= now - loadedAt c)) ->
        found = Some path -> parsed = Return config ->
        r = (config, Some (mkCache config now (Some path))))
  /\ loadGlobalConfig emptyConfig (clearGlobalConfigCache cache) now found parsed
     = loadGlobalConfig emptyConfig None now found parsed.
Proof.
  cbv zeta. unfold loadGlobalConfig, GLOBAL_CONFIG_CACHE_TTL_MS, clearGlobalConfigCache.
  split; [|split; [|split; [|split]]].
  - destruct cache as [c|].
    + destruct (now - loadedAt c <? 60000) eqn:E; [by exists c; auto |].
      destruct found as [path|]; [destruct parsed|]; cbn; eauto.
    + destruct found as [path|]; [destruct parsed|]; cbn; eauto.
  - intros c now' found' parsed' Hc Hlt. apply Z.ltb_lt in Hlt.
    destruct cache as [c0|].
    + destruct (now - loadedAt c0 <? 60000) eqn:E.
      * cbn in *. injection Hc as <-. by rewrite Hlt.
      * destruct found as [path|]; [destruct parsed|]; cbn in *;
          injection Hc as <-; cbn in *; by rewrite Hlt.
    + destruct found as [path|]; [destruct parsed|]; cbn in *;
        injection Hc as <-; cbn in *; by rewrite Hlt.
  - intros c path e Hmiss -> ->.
    assert (Hreload : match cache with
                      | Some cache0 =>
                          if now - loadedAt cache0 <? 60000
                          then (cached_config cache0, cache)
                          else (emptyConfig, Some (mkCache emptyConfig now (Some path)))
                      | None => (emptyConfig, Some (mkCache emptyConfig now (Some path)))
                      end = (emptyConfig, Some (mkCache emptyConfig now (Some path)))).
    { destruct Hmiss as [->|[-> Hge]]; [done |].
      apply Z.ltb_ge in Hge. by rewrite Hge. }
    rewrite Hreload. cbn. split; [done |].
    intros now' found' parsed' Hlt. apply Z.ltb_lt in Hlt. by rewrite Hlt.
  - intros c config path Hmiss -> ->.
    destruct Hmiss as [->|[-> Hge]]; [done |].
    apply Z.ltb_ge in Hge. by rewrite Hge.
  - done.
Qed.

End GlobalConfigCache.

(** X10 after one lookup: a cleanup moves neither counter. *)
Lemma lookup_counters_count_getUserInstance_witness :
  let m := Manager.run (Manager.create Scenario.opts0)
             [Manager.OpGetUserInstance Scenario.G0 (js "u-1") 10 (Return None) true] in
  Manager.cacheHits m + Manager.cacheMisses m = 1
  /\ StatsReading.lookupCounters (Manager.step m (Manager.OpCleanup 20))
     = StatsReading.lookupCounters m.
Proof.
  cbv zeta.
  destruct (lookup_counters_count_getUserInstance Scenario.opts0
              [Manager.OpGetUserInstance Scenario.G0 (js "u-1") 10 (Return None) true]
              (Manager.OpCleanup 20)) as (H1 & _ & _ & _ & _ & H6).
  split; [exact H1 | exact (H6 eq_refl)].
Defined.

(** X17 on a header in lower case with two blanks before the token. *)
Lemma bearer_capture_grammar_witness :
  exists group,
    GatewayAuth.bearer_capture (js "bearer  gt_abc") = Some group
    /\ GatewayAuth.trim group = GatewayAuth.trim (js "gt_abc").
Proof.
  apply (proj2 (bearer_capture_grammar (js "bearer  gt_abc"))
           (js "bearer") (js "  ") (js "gt_abc")); done.
Defined.

(** X19 on a request whose [Authorization] header is [Bearer] and two
    blanks: the gateway token of the connect frame is lost. *)
Lemma connect_auth_from_request_witness :
  let req := GatewayAuth.mkRequest GatewayAuth.HeaderAbsent (Some (js "Bearer  ")) None in
  let frame := GatewayAuth.mkConnectAuth None (Some (js "pw")) (Some (js "gt_abc")) in
  GatewayAuth.extractGatewayToken (Some req) = Some []
  /\ fst (GatewayAuth.authorizeGatewayConnectMultiTenant (fun c => c)
            (GatewayAuth.RemoteVerify Scenario.G0 Manager.FetchRejects true 2000 [])
            (Some (GatewayAuth.buildConnectAuthFromRequest req (Some frame)))
            (Some Scenario.one_user))
     = GatewayAuth.StandardResult (Some (None, Some (js "pw"))).
Proof.
  cbv zeta.
  assert (He : GatewayAuth.extractGatewayToken
                 (Some (GatewayAuth.mkRequest GatewayAuth.HeaderAbsent
                          (Some (js "Bearer  ")) None)) = Some [])
    by (vm_compute; reflexivity).
  split; [exact He |].
  destruct (connect_auth_from_request (fun c => c)
              (GatewayAuth.RemoteVerify Scenario.G0 Manager.FetchRejects true 2000 [])
              (GatewayAuth.mkRequest GatewayAuth.HeaderAbsent (Some (js "Bearer  ")) None)
              (Some (GatewayAuth.mkConnectAuth None (Some (js "pw")) (Some (js "gt_abc"))))
              (Some Scenario.one_user)) as (_ & _ & _ & _ & H & _).
  by rewrite (H He).
Defined.

(** X21 on a file name that tries to climb out of the workspace. *)
Lemma resolver_custom_path_witness :
  Resolver.customPathOf (js "/ws/users/u-1") (js "../../etc/passwd")
  = js "/ws/users/u-1/custom/passwd".
Proof.
  destruct (resolver_custom_path (js "/ws/users/u-1") (js "../../etc/passwd")) as [_ H].
  destruct H as (H & _); [done | done | done |].
  rewrite H. vm_compute. reflexivity.
Defined.

(** X23 on a custom file written over a template file, with a content that
    ends in half a surrogate pair. *)
Lemma writeWorkspaceFile_then_read_witness :
  let fs : gmap jsstring Resolver.fsnode :=
    {[ js "/tpl/SOUL.md" := Resolver.File (js "# theirs") ]} in
  Resolver.readWorkspaceFile Resolver.workspace_names (js "/ws/users/u-1") (js "/tpl")
    (snd (ResolverFiles.writeWorkspaceFile (js "/ws/users/u-1") fs (js "SOUL.md")
            (Resolver.JsString (js "# mine" ++ [55357%N]))
            (ResolverFiles.Written [js "/ws/users/u-1/custom"])))
    (js "notes/SOUL.md")
  = Return (Some (Resolver.JsString (js "# mine" ++ [65533%N]))).
Proof.
  cbv zeta.
  destruct (writeWorkspaceFile_then_read Resolver.workspace_names
              (js "/ws/users/u-1") (js "/tpl")
              {[ js "/tpl/SOUL.md" := Resolver.File (js "# theirs") ]}
              (js "SOUL.md") (js "# mine" ++ [55357%N]) [js "/ws/users/u-1/custom"]
              (js "notes/SOUL.md")) as (_ & H & _).
  rewrite H; vm_compute; reflexivity.
Defined.

(** X30 on a config file that cannot be parsed at first. *)
Lemma loadGlobalConfig_cached_witness :
  fst (GlobalConfig.loadGlobalConfig (js "{}")
         (snd (GlobalConfig.loadGlobalConfig (js "{}") None 1000
                 (Some (js "/etc/openclaw/config.json")) (Throw IOFault)))
         60999 (Some (js "/etc/openclaw/config.json")) (Return (js "{multiTenant:{}}")))
  = js "{}".
Proof.
  destruct (loadGlobalConfig_cached (js "{}") None 1000
              (Some (js "/etc/openclaw/config.json")) (Throw IOFault))
    as (_ & _ & H & _).
  destruct (H (GlobalConfig.mkCache (js "{}") 0 None) (js "/etc/openclaw/config.json")
              IOFault (or_introl eq_refl) eq_refl eq_refl) as [_ H2].
  apply H2. lia.
Defined.
